(* ===== verification/_CoqProject ===== *)
-Q . S2P
Prelude.v
Text.v
Errors.v
Timing.v
Diagnostics.v
Options.v
Budget.v
Cancel.v
Execution.v
Control.v
Scheduler.v
SchedulerInv.v
Scheduling.v
SchedulerLive.v
Waiting.v
Token.v
Frame.v
Session.v
Protocol.v
Supervised.v
Pipes.v
Platform.v
Readers.v
Features.v
Paths.v
Entry.v
Workers.v
Lease.v
Capture.v
Runtime.v
Vectors.v
NpmCache.v
NpmManifest.v
Modules.v
Graph.v
Permissions.v
Broker.v
Services.v
Construction.v
ChildMode.v
Handshake.v
Phases.v
Drive.v
ControlThreads.v
ChildRun.v
EndToEnd.v
Submission.v
Http.v
AnalysisCache.v
NodeLoader.v
NodeIpc.v
Spawn.v
SnapshotBundle.v
SnapshotCreate.v
Python.v
Guards.v
Messaging.v
Runs.v
