(* ===== verification/Prelude.v ===== *)
(** * Prelude: a verification of libdeno.

    libdeno embeds the Deno runtime in a Rust host: it runs a script in the
    host's process or in a supervised child process, with its own permissions,
    limits, output capture and cancellation, alone or through an executor that
    admits, queues and cancels many of them.  This development models the Rust
    sources under src/ (the library, its build script and its Python extension) as
    Rocq functions and step relations and proves what makes them correct.  It is a library of one
    file per component; this file is its vocabulary.

    ** The parts of the program

    A host calls an entry point (lib.rs, runtime.rs).  It checks its arguments,
    takes the process-wide run lease, redirects the descriptors when output is
    captured, builds or reuses a resolver stack, builds a worker with its
    permissions and features, runs the script under a watchdog, and gives
    everything back.  The executor (executor.rs) queues such runs and dispatches
    each to this process or to a supervised child (subprocess.rs, supervisor.rs),
    with which it speaks a framed protocol over a local socket.  The loaders
    (module_loader.rs, node_loader.rs), the caches (npm_cache.rs,
    analysis_cache.rs), the HTTP client, the permission broker, the worker registry
    and messaging serve the run.

    ** Files and sources

    - Errors: [LibdenoError] and [is_permission_error] (lib.rs).
    - Text: the operations of [str] the sources use, and reading printed text back.
    - Timing, Diagnostics: the phase timing of timing.rs, its diagnostics view and
      the resource samples.
    - Options: [LibdenoOptions], the validators of limits.rs and their order.
    - Budget: the thread budgets of budget.rs, as interleaved atomic accesses.
    - Cancel: [CancellationContext], the watchdog and [run_with_termination]
      (limits.rs).
    - Execution, Control: requests, dispatch, reports and the state of one
      submission (executor.rs).  Scheduler is its admission scheduler as a
      transition system; SchedulerInv, Scheduling and SchedulerLive hold its
      invariant, its safety theorems and its progress.  Waiting: those who wait for a
      result or for a cancellation request, over the notifier of tokio.
    - Token, Frame, Session, Protocol: token.rs and supervisor.rs: tokens, framing
      over a socket given as a script of what each call answers, the two session
      state machines, and parent, control threads and child interleaved.
    - Supervised, Pipes, ChildMode, Handshake: subprocess.rs: the outcome of a
      supervised run, the collection of a child's output, the plain child-mode
      protocol, parent and child, and how a supervised child is spawned and found.
      Phases, ControlThreads: the deadlines of the parent's reads and writes, and the
      cancellation threads of both sides.  Drive and ChildRun compose these into
      [drive_supervisor_session] and [run_supervisor_child]; EndToEnd puts the two
      at the ends of one connection, and Submission adds the executor's call and the
      supervised run around them.  Readers: the reader threads and their slots.
      Platform: the socket writes and the pipe and socket waits of pipe_read.rs and
      supervisor.rs on Windows, Apple systems and elsewhere, where Frame and Pipes
      have the other Unix ones.
    - Features, Paths, Entry: the features of a run (deno_runtime_adapter.rs), the
      path functions the sources use, entry resolution and the course of one run
      (lib.rs).  Runs: the public entry points of lib.rs and runtime.rs.
    - Workers, Lease: worker_lifecycle.rs and the run lease of lib.rs, interleaved.
    - Capture: the capture of output.rs over a table of descriptors.
    - Runtime: the reusable runtime of runtime.rs: refresh and rebuild interleaved.
    - Vectors, NpmCache, NpmManifest: npm_cache.rs: canonical JSON, the snapshot
      cache, and the identity and reuse of a resolver stack.
    - Modules, NodeLoader: module_loader.rs and node_loader.rs.
    - Permissions, Broker: permissions.rs and permission_broker.rs.
    - Graph: the graph resolver of graph.rs and its npm batches.
    - Services, Construction: the stable construction of services.rs, lifecycle
      scripts, and what one stack is built of ([build_once] of services.rs and
      deno_resolver_adapter.rs).
    - Spawn: the services of one run, the main worker and the recursive web worker
      factory (services.rs, module_loader.rs, deno_runtime_adapter.rs,
      worker_factory.rs).
    - SnapshotBundle: portable startup snapshots and their import (build_support/,
      build.rs, snapshot_identity.rs).  SnapshotCreate: the whole build script, the
      creation and the export of a snapshot among it (build.rs,
      snapshot_sources.rs).
    - Python: the extension module of python/src/.
    - Http, AnalysisCache, NodeIpc, Guards, Messaging: http.rs, analysis_cache.rs,
      the IPC handoff of limits.rs, runtime_guards.rs and thread_messaging.rs.

    A definition has the name of the function or type it models where Rocq allows
    it; a method's receiver and the process state it touches are arguments, and
    [result], [option] and lists stand for Rust's own types.

    ** What enters as a parameter

    Code of other crates (deno_core, deno_runtime, deno_resolver, serde_json,
    reqwest, the URL parser, V8) is a parameter of the section that uses it, with
    what the sources rely on as a named hypothesis where a theorem needs it.  The
    operating system enters in two ways: as a record of answers, one field per call
    in the order of the calls, where the answers alone decide the outcome; and as
    state with a step relation, where threads or processes interleave.  Times are
    nanoseconds of the host clock; every reading of the clock is an input.  Bytes
    are integers, texts and Unix paths are strings, [usize] has 64 bits.

    ** What the theorems show

    - The executor admits and queues within its limits, first in first out; every
      submission is in one place, publishes one result and releases its permit;
      nothing starts after the shutdown pass; owners publish from every point, the
      manager is never lost, and results reach those who wait for them (Scheduling,
      SchedulerLive, Waiting).
    - A cancellation is never lost; a run with a deadline ends within its grace and
      the polls then under way, which a blocking call draws out (Cancel).  Leases implement a readers-writer lock, and workers are accounted
      for (Lease, Workers).
    - The two sides of a supervised session agree in every interleaving, the
      session ends, frames round-trip and writes are all or nothing, and what the
      parent reports is what the child ended with (Protocol, Session, Frame,
      Supervised, ChildMode).  The same for the composed code, byte for byte: what
      each side writes, runs, joins and reports, that an outcome of the parent is
      what happened in the child, and that so is the result of a submission (Drive,
      ChildRun, EndToEnd, Submission).  Protocol has every
      interleaving of the threads, over frames; these have every byte and every
      system call of one thread, the others' effects as inputs.  On Windows no write
      returns while the kernel owns its buffer (Platform), and reader threads are
      bounded and never forgotten (Readers).
    - Captured output is a prefix of what was written, descriptors are restored on
      every path, entry points give back what they take (Pipes, Capture, Runs).
    - Nothing is read, run or sent past the permissions: flags grant exactly what
      they list, the broker fails closed, module and CommonJS reads are gated,
      replaced operations run their guards, child mode and the peer of a supervised
      run are authenticated, credentials stay with their origin (Permissions, Broker,
      Modules, NodeLoader, Guards, ChildMode, Handshake, Http).  Every worker of a
      run asks its own permission container and sees its own module graph (Spawn).
    - Caches are transparent and stacks are reused only while their inputs are
      unchanged; the parts of a stack come from one discovery (AnalysisCache,
      NpmCache, NpmManifest, Runtime, Construction).
    - A frozen lockfile is never deviated from, whether the locker or the npm
      resolver would change it (Modules).
    - A prebuilt snapshot is installed only as a whole, verified, and where it
      belongs; a manifest reads back as it was written, and a changed byte changes a
      fingerprint (SnapshotBundle).  What one build makes and exports another
      imports, byte for byte (SnapshotCreate).
    - The checks the Python extension makes stay in step with the library's, and no
      error changes its class on the way to Python (Python).

    ** Bounds and fuel

    Loops over an external script recurse on the script: they return [None], or an
    outcome that says so, only when the script ends before the loop does, and the
    theorems state how long a script suffices (33 answers for an npm download, 3
    for a module fetch, any that passes the deadline for the collection of output).
    A call of [reserve] alone has 2 accesses of fuel, which suffice.  The retry
    loops of Services and Modules recurse on their number of attempts.  Progress
    of the interleaved systems is proved with a measure on states, never assumed.

    ** What is not modelled

    The Windows and macOS variants of descriptors, handles, processes and paths: the
    model is of the Linux ones, but for the sockets and pipes of Platform.
    What the build script prints, cargo's directives included.  [Debug] and [Display] implementations other than the
    error texts, plain accessors and builders of public structs, test hooks, the
    hosts under bin/ that the tests run, benches and examples. *)
From stdpp Require Export base tactics option list gmap strings pretty.
From Stdlib Require Export ZArith Lia Bool.

Create HintDb libdeno.

(** ** Results.  [let? x := m in k] is Rust's [let x = m?; k]. *)
Inductive result (T E : Type) : Type :=
| Ok (v : T)
| Err (e : E).
Arguments Ok {T E} v.
Arguments Err {T E} e.

Declare Scope rust_scope.
Delimit Scope rust_scope with rust.
Notation "'let?' x := m 'in' k" :=
  (match m with Ok x => k | Err err => Err err end)
  (at level 10, x pattern, m at level 100, k at level 200) : rust_scope.
Open Scope rust_scope.

Definition map_err {T E F : Type} (f : E -> F) (r : result T E) : result T F :=
  match r with Ok v => Ok v | Err e => Err (f e) end.

Definition is_ok {T E : Type} (r : result T E) : bool :=
  match r with Ok _ => true | Err _ => false end.

(** ** [std::io::Error]: the kinds the sources construct or test. *)
Inductive error_kind :=
| NotFound | ConnectionReset | ConnectionAborted | BrokenPipe | WouldBlock
| InvalidInput | InvalidData | TimedOut | WriteZero | Interrupted
| UnexpectedEof | OtherKind.

#[export] Instance error_kind_eq_dec : EqDecision error_kind.
Proof. solve_decision. Defined.

Record io_error := IoError { io_kind : error_kind; io_message : string }.

#[export] Instance io_error_eq_dec : EqDecision io_error.
Proof. solve_decision. Defined.

Definition kind_is (e : io_error) (k : error_kind) : bool := bool_decide (io_kind e = k).

(** ** Machine integers.  [usize] is 64 bits wide. *)
Definition u8_mod : Z := 2 ^ 8.
Definition u32_max : Z := 2 ^ 32 - 1.
Definition u64_max : Z := 2 ^ 64 - 1.
Definition usize_max : Z := u64_max.
Definition i32_max : Z := 2 ^ 31 - 1.
Definition i64_max : Z := 2 ^ 63 - 1.

Definition is_u8 (z : Z) : Prop := (0 <= z < 256)%Z.
Definition is_u32 (z : Z) : Prop := (0 <= z <= u32_max)%Z.
Definition is_u64 (z : Z) : Prop := (0 <= z <= u64_max)%Z.

Definition wrapping_add_u64 (a b : Z) : Z := ((a + b) mod 2 ^ 64)%Z.
Definition saturating_sub (a b : Z) : Z := Z.max 0 (a - b).
Definition saturating_mul_usize (a b : Z) : Z := Z.min usize_max (a * b).

(** ** Time.  An [Instant] is a count of nanoseconds of the host clock, whose
    representation holds at most [instant_max]; a [Duration] is a non-negative
    count of nanoseconds. *)
Definition instant_max : Z := (i64_max * 10 ^ 9 + 999999999)%Z.
Definition duration_max : Z := (u64_max * 10 ^ 9 + 999999999)%Z.

Definition from_millis (n : Z) : Z := (n * 10 ^ 6)%Z.
Definition from_secs (n : Z) : Z := (n * 10 ^ 9)%Z.

Definition checked_add (at_ d : Z) : option Z :=
  if decide (at_ + d <= instant_max)%Z then Some (at_ + d)%Z else None.
Definition duration_since (later earlier : Z) : Z := Z.max 0 (later - earlier).
Definition duration_saturating_add (a b : Z) : Z := Z.min duration_max (a + b).

(** ** [Option] helpers the sources use. *)
Definition is_some_and {A : Type} (o : option A) (p : A -> bool) : bool :=
  match o with Some a => p a | None => false end.
Definition option_min (a b : option Z) : option Z :=
  match a, b with
  | Some x, Some y => Some (Z.min x y)
  | Some x, None => Some x
  | None, Some y => Some y
  | None, None => None
  end.

(** ** Tactics. *)
Ltac destr_match :=
  match goal with
  | H : context [match ?x with _ => _ end] |- _ => destruct x eqn:?; simplify_eq/=
  | |- context [match ?x with _ => _ end] => destruct x eqn:?; simplify_eq/=
  end.
Ltac crush := repeat (destr_match || case_decide); simplify_eq/=; try done; try lia.

(** ** Generic lemmas. *)
Section Sums.
Context {A : Type} (f : A -> nat).

(** Replacing one element of a list moves a sum by that element's weight. *)
Lemma sum_list_insert (l : list A) (i : nat) (x y : A) :
    l !! i = Some x ->
    (sum_list_with f (<[i:=y]> l) + f x = sum_list_with f l + f y)%nat.
Proof.
    revert i; induction l as [|a l IH]; intros [|i] H; simplify_eq/=; [lia|].
    specialize (IH _ H); lia.
Qed.

Lemma sum_list_lookup_le (l : list A) (i : nat) (x : A) :
    l !! i = Some x -> (f x <= sum_list_with f l)%nat.
Proof.
    revert i; induction l as [|a l IH]; intros [|i] H; simplify_eq/=; [lia|].
    specialize (IH _ H); lia.
Qed.
End Sums.

Lemma map_err_ok {T E F} (f : E -> F) (r : result T E) (v : T) : map_err f r = Ok v <-> r = Ok v.
Proof. destruct r; naive_solver. Qed.

(** Inversion of the two ways fallible code stops early. *)
Lemma bind_ok {A B E : Type} (m : result A E) (k : A -> result B E) (v : B) :
    (let? x := m in k x) = Ok v <-> exists x, m = Ok x /\ k x = Ok v.
Proof. destruct m; naive_solver. Qed.

Lemma guard_ok {A E : Type} (b : bool) (e : E) (m : result A E) (v : A) :
    (if b then Err e else m) = Ok v <-> b = false /\ m = Ok v.
Proof. destruct b; naive_solver. Qed.

Lemma is_some_and_false {A : Type} (o : option A) (p : A -> bool) :
    is_some_and o p = false <-> forall a, o = Some a -> p a = false.
Proof. destruct o; naive_solver. Qed.

(** Reachability: the reflexive transitive closure of a step relation, and the
    induction principle for invariants. *)
Section Reach.
Context {S : Type} (step : S -> S -> Prop).

Inductive reachable (s0 : S) : S -> Prop :=
| reach_refl : reachable s0 s0
| reach_step s s' : reachable s0 s -> step s s' -> reachable s0 s'.

Lemma reachable_invariant (I : S -> Prop) (s0 s : S) :
    I s0 -> (forall a b, I a -> step a b -> I b) -> reachable s0 s -> I s.
Proof. intros H0 Hs; induction 1; eauto. Qed.

Lemma reachable_trans (a b c : S) : reachable a b -> reachable b c -> reachable a c.
Proof. intros Hab Hbc; induction Hbc; [done | econstructor; eauto]. Qed.

Lemma reachable_head (a b c : S) : step a b -> reachable b c -> reachable a c.
Proof.
  intros H; apply reachable_trans; econstructor; [apply reach_refl|done].
Qed.
End Reach.
#[export] Hint Constructors reachable : libdeno.
