(* ===== verification/Text.v ===== *)
(** * Text: the operations of [str] the sources use, on the bytes of the text.

    [trim], [split], [split_once], [str::lines], decimal parsing and fixed-width
    hexadecimal, with the lemmas that let printed text be read back.  Text is
    UTF-8, so cutting at ASCII bytes and at whole white-space characters is what
    the character-wise operations of the standard library do. *)
From S2P Require Import Prelude.
Local Open Scope Z_scope.

Definition newline : Ascii.ascii := Ascii.ascii_of_nat 10.
Definition tab : Ascii.ascii := Ascii.ascii_of_nat 9.
Definition carriage : Ascii.ascii := Ascii.ascii_of_nat 13.
Definition quote : Ascii.ascii := Ascii.ascii_of_nat 34.
Definition comma : Ascii.ascii := Ascii.ascii_of_nat 44.
Definition equals : Ascii.ascii := Ascii.ascii_of_nat 61.
Definition minus : Ascii.ascii := Ascii.ascii_of_nat 45.
Definition plus : Ascii.ascii := Ascii.ascii_of_nat 43.

Fixpoint has (c : Ascii.ascii) (s : string) : bool :=
  match s with EmptyString => false | String d s => Ascii.eqb d c || has c s end.

(** ** Prefixes and [trim] *)
Definition bytes_text (l : list nat) : string := String.string_of_list_ascii (map Ascii.ascii_of_nat l).
(** The UTF-8 forms of the code points with the property White_Space. *)
Definition white_space : list string :=
  map bytes_text
    ([[9]; [10]; [11]; [12]; [13]; [32]; [194; 133]; [194; 160]; [225; 154; 128]] ++
     map (fun n => [226; 128; n]) (seq 128 11) ++
     [[226; 128; 168]; [226; 128; 169]; [226; 128; 175]; [226; 129; 159]; [227; 128; 128]])%nat.

Fixpoint without_prefix (pre s : string) : option string :=
  match pre, s with
  | EmptyString, _ => Some s
  | String a pre, String b s => if Ascii.eqb a b then without_prefix pre s else None
  | String _ _, EmptyString => None
  end.
Fixpoint trim_start_of (whites : list string) (fuel : nat) (s : string) : string :=
  match fuel with
  | O => s
  | S fuel =>
      match omap (fun w => without_prefix w s) whites with
      | s :: _ => trim_start_of whites fuel s
      | [] => s
      end
  end.
Definition reverse_text (s : string) : string :=
  String.string_of_list_ascii (rev (String.list_ascii_of_string s)).
Definition trim_end (s : string) : string :=
  reverse_text (trim_start_of (map reverse_text white_space) (String.length s) (reverse_text s)).
Definition trim (s : string) : string := trim_end (trim_start_of white_space (String.length s) s).
Definition without_suffix (suf s : string) : option string :=
  option_map reverse_text (without_prefix (reverse_text suf) (reverse_text s)).

Example trim_example : trim " a b  " = "a b".
Proof. reflexivity. Qed.

(** ** Splitting *)
Fixpoint split_once (sep : Ascii.ascii) (s : string) : option (string * string) :=
  match s with
  | EmptyString => None
  | String c r =>
      if Ascii.eqb c sep then Some (EmptyString, r)
      else match split_once sep r with Some (a, b) => Some (String c a, b) | None => None end
  end.
Fixpoint split (sep : Ascii.ascii) (s : string) : list string :=
  match s with
  | EmptyString => [EmptyString]
  | String c r =>
      if Ascii.eqb c sep then EmptyString :: split sep r
      else match split sep r with [] => [String c EmptyString] | x :: xs => String c x :: xs end
  end.
(** What is before and after the last [sep]. *)
Fixpoint rsplit_once (sep : Ascii.ascii) (s : string) : option (string * string) :=
  match s with
  | EmptyString => None
  | String c r =>
      match rsplit_once sep r with
      | Some (a, b) => Some (String c a, b)
      | None => if Ascii.eqb c sep then Some (EmptyString, r) else None
      end
  end.

(** [str::lines]: a line that a newline ends loses one carriage return before it, and
    nothing follows the last newline. *)
Definition strip_carriage (line : string) : string := default line (without_suffix (String carriage EmptyString) line).
Fixpoint lines_of (parts : list string) : list string :=
  match parts with
  | [] => []
  | [line] => if decide (line = EmptyString) then [] else [line]
  | line :: parts => strip_carriage line :: lines_of parts
  end.
Definition text_lines (s : string) : list string := lines_of (split newline s).

(** ** Numbers *)
Definition digit (c : Ascii.ascii) : option Z :=
  let n := Z.of_nat (Ascii.nat_of_ascii c) in
  if decide (48 <= n <= 57) then Some (n - 48) else None.

Fixpoint digits (value : Z) (s : string) : option Z :=
  match s with
  | EmptyString => Some value
  | String c s => match digit c with Some d => digits (10 * value + d) s | None => None end
  end.
Definition unsigned (s : string) : option Z := match s with EmptyString => None | _ => digits 0 s end.

(** [str::parse::<usize>] and [::<u64>]: an optional plus and at least one digit. *)
Definition parse_u64 (s : string) : option Z :=
  let in_range z := if decide (z <= u64_max) then Some z else None in
  match s with
  | String c rest => (if Ascii.eqb c plus then unsigned rest else unsigned s) ≫= in_range
  | EmptyString => None
  end.

Definition hex_char (n : Z) : Ascii.ascii := Ascii.ascii_of_nat (Z.to_nat (if decide (n < 10) then 48 + n else 87 + n)).
(** [{:0kx}] of a number of at most [k] hexadecimal digits. *)
Fixpoint hex_fixed (k : nat) (z : Z) (rest : string) : string :=
  match k with O => rest | S k => hex_fixed k (z / 16) (String (hex_char (z mod 16)) rest) end.

(** ** Reading printed text back *)
Lemma has_app (c : Ascii.ascii) (a b : string) : has c (a +:+ b) = has c a || has c b.
Proof. induction a as [|d a IH]; simpl; [done|]; rewrite IH; by rewrite orb_assoc. Qed.

Lemma has_in (c : Ascii.ascii) (s : string) : has c s = true <-> In c (String.list_ascii_of_string s).
Proof.
  induction s as [|d s IH]; simpl; [done|]; rewrite orb_true_iff, IH, Ascii.eqb_eq; naive_solver.
Qed.

Lemma string_app_assoc (a b c : string) : (a +:+ b) +:+ c = a +:+ (b +:+ c).
Proof. induction a as [|d a IH]; [done|]; exact (f_equal (String d) IH). Qed.
Lemma string_app_nil (a : string) : a +:+ "" = a.
Proof. induction a as [|d a IH]; [done|]; exact (f_equal (String d) IH). Qed.

Lemma split_none (sep : Ascii.ascii) (a : string) : has sep a = false -> split sep a = [a].
Proof.
  induction a as [|d a IH]; simpl; [done|]; intros [H1 H2]%orb_false_iff; rewrite H1, IH by done; done.
Qed.
Lemma split_cons (sep : Ascii.ascii) (a b : string) :
  has sep a = false -> split sep (a +:+ String sep b) = a :: split sep b.
Proof.
  induction a as [|d a IH]; simpl; [by rewrite Ascii.eqb_refl|].
  intros [H1 H2]%orb_false_iff; rewrite H1, IH by done; done.
Qed.
Lemma split_once_cons (sep : Ascii.ascii) (a b : string) :
  has sep a = false -> split_once sep (a +:+ String sep b) = Some (a, b).
Proof.
  induction a as [|d a IH]; simpl; [by rewrite Ascii.eqb_refl|].
  intros [H1 H2]%orb_false_iff; rewrite H1, IH by done; done.
Qed.
Lemma rsplit_once_none (sep : Ascii.ascii) (a : string) : has sep a = false -> rsplit_once sep a = None.
Proof. induction a as [|d a IH]; simpl; [done|]; intros [H1 H2]%orb_false_iff; by rewrite IH, H1. Qed.
Lemma rsplit_once_last (sep : Ascii.ascii) (a b : string) :
  has sep b = false -> rsplit_once sep (a +:+ String sep b) = Some (a, b).
Proof.
  intros H; induction a as [|d a IH]; simpl; [by rewrite rsplit_once_none, Ascii.eqb_refl|]; by rewrite IH.
Qed.

Lemma split_nonempty (sep : Ascii.ascii) (s : string) : split sep s <> [].
Proof. destruct s as [|c s]; simpl; [done|]; destruct (Ascii.eqb c sep); [done|]; by destruct (split sep s). Qed.
Lemma text_lines_cons (a b : string) :
  has newline a = false -> text_lines (a +:+ String newline b) = strip_carriage a :: text_lines b.
Proof.
  intros H; unfold text_lines; rewrite split_cons by done; simpl.
  by destruct (split newline b) eqn:E; [apply split_nonempty in E|].
Qed.

(** Text no white space begins or ends. *)
Definition white_free (whites : list string) (s : string) : Prop := omap (fun w => without_prefix w s) whites = [].
Definition ends_visibly (s : string) : Prop := white_free (map reverse_text white_space) (reverse_text s).

Lemma reverse_text_app (a b : string) : reverse_text (a +:+ b) = reverse_text b +:+ reverse_text a.
Proof.
  unfold reverse_text.
  assert (forall x y, String.list_ascii_of_string (x +:+ y) = String.list_ascii_of_string x ++ String.list_ascii_of_string y) as Hl
    by (induction x as [|c x IH]; intros y; simpl; [done|by rewrite IH]).
  assert (forall x y, String.string_of_list_ascii (x ++ y) = String.string_of_list_ascii x +:+ String.string_of_list_ascii y) as Hs
    by (induction x as [|c x IH]; intros y; simpl; [done|by rewrite IH]).
  by rewrite Hl, rev_app_distr, Hs.
Qed.
Lemma reverse_text_involutive (s : string) : reverse_text (reverse_text s) = s.
Proof.
  unfold reverse_text; by rewrite String.list_ascii_of_string_of_list_ascii, rev_involutive,
    String.string_of_list_ascii_of_string.
Qed.

Lemma trim_start_of_free (whites : list string) (fuel : nat) (s : string) :
  white_free whites s -> trim_start_of whites fuel s = s.
Proof. destruct fuel; simpl; [done|]; unfold white_free; by intros ->. Qed.

Lemma without_prefix_app (w a b : string) (c : Ascii.ascii) :
  has c w = false -> without_prefix w a = None -> without_prefix w (a +:+ String c b) = None.
Proof.
  revert a; induction w as [|d w IH]; intros [|e a]; simpl; [done..| |].
  - intros [H _]%orb_false_iff _; by rewrite H.
  - intros [_ H]%orb_false_iff; destruct (Ascii.eqb d e); [by apply IH|done].
Qed.

Lemma omap_nil {A B : Type} (f : A -> option B) (l : list A) : omap f l = [] <-> Forall (fun x => f x = None) l.
Proof.
  induction l as [|x l IH]; simpl; [by rewrite Forall_nil|].
  rewrite Forall_cons, <- IH; destruct (f x); naive_solver.
Qed.

(** White space has no character that is visible on its own. *)
Definition visible (c : Ascii.ascii) : Prop := forallb (fun w => negb (has c w)) white_space = true.

Lemma visible_head (c : Ascii.ascii) (s : string) : visible c -> white_free white_space (String c s).
Proof.
  unfold visible, white_free; intros H; apply omap_nil; rewrite forallb_forall in H; apply Forall_forall.
  intros w Hw; apply list_elem_of_In in Hw; specialize (H w Hw).
  assert (forallb (fun w => match w with EmptyString => false | _ => true end) white_space = true) as Hne by done.
  rewrite forallb_forall in Hne; specialize (Hne w Hw).
  destruct w as [|d w]; [done|]; simpl in H |- *; apply negb_true_iff, orb_false_iff in H as [H _]; by rewrite H.
Qed.

Lemma has_reverse (c : Ascii.ascii) (s : string) : has c (reverse_text s) = has c s.
Proof.
  induction s as [|d s IH]; [done|]; change (String d s) with (String d "" +:+ s) at 1.
  rewrite reverse_text_app, has_app, IH; simpl; by rewrite orb_false_r, orb_comm.
Qed.

(** Behind a visible character only what follows it can end in white space. *)
Lemma ends_visibly_app (a b : string) (c : Ascii.ascii) :
  visible c -> ends_visibly b -> ends_visibly (a +:+ String c b).
Proof.
  unfold ends_visibly, white_free, visible; rewrite !omap_nil, !Forall_fmap, !Forall_forall; intros Hc Hb w Hw; simpl.
  change (String c b) with (String c "" +:+ b); rewrite !reverse_text_app, string_app_assoc; simpl.
  apply without_prefix_app; [|by apply Hb].
  rewrite has_reverse; rewrite forallb_forall in Hc; apply negb_true_iff, Hc; by apply list_elem_of_In.
Qed.

Lemma trim_visible (c : Ascii.ascii) (s : string) :
  visible c -> ends_visibly (String c s) -> trim (String c s) = String c s.
Proof.
  intros Hc He; unfold trim; rewrite (trim_start_of_free white_space) by (by apply visible_head).
  unfold trim_end; rewrite trim_start_of_free by done; apply reverse_text_involutive.
Qed.

Lemma strip_carriage_visible (s : string) : ends_visibly s -> strip_carriage s = s.
Proof.
  unfold ends_visibly, white_free, strip_carriage, without_suffix; rewrite omap_nil, Forall_fmap, Forall_forall.
  intros H; assert (String carriage EmptyString ∈ white_space) as Hw by (do 4 right; left).
  specialize (H _ Hw); cbn beta in H; by rewrite H.
Qed.

(** ** Reading numbers back *)
Lemma digit_pretty (n : N) : (n < 10)%N -> digit (pretty_N_char n) = Some (Z.of_N n).
Proof.
  intros H; assert (forallb (fun k => bool_decide (digit (pretty_N_char (N.of_nat k)) = Some (Z.of_nat k))) (seq 0 10) = true) as Hall
    by by vm_compute.
  rewrite forallb_forall in Hall; specialize (Hall (N.to_nat n)).
  rewrite N2Nat.id, N_nat_Z in Hall; eapply bool_decide_eq_true, Hall, in_seq; lia.
Qed.

Lemma digits_pretty_go (n : N) (s : string) : digits 0 (pretty_N_go n s) = digits (Z.of_N n) s.
Proof.
  revert s; induction (N.lt_wf_0 n) as [n _ IH]; intros s; destruct (decide (n = 0%N)) as [->|Hn]; [by rewrite pretty_N_go_0|].
  assert (n mod 10 < 10)%N as Hm by by apply N.mod_lt.
  rewrite pretty_N_go_step by lia; rewrite IH by (apply N.div_lt; lia); simpl; rewrite digit_pretty by done.
  f_equal; pose proof (N.div_mod n 10 ltac:(done)); lia.
Qed.

Lemma digits_pretty (n : N) : digits 0 (pretty n) = Some (Z.of_N n).
Proof. unfold pretty, pretty_N; case_decide as H; [by subst|]; by rewrite digits_pretty_go. Qed.

Lemma pretty_Z_of_N (n : N) : pretty (Z.of_N n) = pretty n.
Proof. by destruct n. Qed.

(** What is all digits has none of the other characters. *)
Lemma digits_has_not (c : Ascii.ascii) (s : string) (v r : Z) : digits v s = Some r -> digit c = None -> has c s = false.
Proof.
  revert v; induction s as [|d s IH]; intros v; simpl; [done|]; destruct (digit d) as [x|] eqn:E; [|done]; intros H Hc.
  rewrite (IH _ H Hc), orb_false_r; apply Ascii.eqb_neq; naive_solver.
Qed.
Lemma pretty_has_not (c : Ascii.ascii) (z : Z) : 0 <= z -> digit c = None -> has c (pretty z) = false.
Proof.
  intros Hz Hc; rewrite <- (Z2N.id z) by done; rewrite pretty_Z_of_N; eapply digits_has_not; [apply digits_pretty|done].
Qed.

Lemma parse_u64_pretty (z : Z) : is_u64 z -> parse_u64 (pretty z) = Some z.
Proof.
  intros [H0 H1]; rewrite <- (Z2N.id z) in H1 |- * by done; rewrite pretty_Z_of_N.
  pose proof (digits_pretty (Z.to_N z)) as Hd; pose proof (digits_has_not plus _ _ _ Hd eq_refl) as Hp.
  unfold parse_u64, unsigned; destruct (pretty (Z.to_N z)) as [|c s] eqn:E.
  - exfalso; revert E; unfold pretty, pretty_N; case_decide; [done|].
    intros E; pose proof (digits_pretty_go (Z.to_N z) "") as Hg; rewrite E in Hg; simpl in Hg; injection Hg; lia.
  - simpl in Hp; apply orb_false_iff in Hp as [Hp _]; rewrite Hp, Hd; simpl; by rewrite decide_True by done.
Qed.

Lemma parse_u64_range (s : string) (z : Z) : parse_u64 s = Some z -> z <= u64_max.
Proof.
  unfold parse_u64; destruct s as [|c s]; [done|]; destruct (if Ascii.eqb c plus then _ else _); simpl; [|done].
  case_decide; [|done]; by intros [= <-].
Qed.

(** Fixed-width hexadecimal determines the number. *)
Lemma hex_char_inj (a b : Z) : 0 <= a < 16 -> 0 <= b < 16 -> hex_char a = hex_char b -> a = b.
Proof.
  intros Ha Hb H.
  assert (forallb (fun i => forallb (fun j => implb (Ascii.eqb (hex_char (Z.of_nat i)) (hex_char (Z.of_nat j))) (Nat.eqb i j))
    (seq 0 16)) (seq 0 16) = true) as Hall by by vm_compute.
  rewrite forallb_forall in Hall; specialize (Hall (Z.to_nat a) ltac:(apply in_seq; lia)).
  rewrite forallb_forall in Hall; specialize (Hall (Z.to_nat b) ltac:(apply in_seq; lia)).
  rewrite !Z2Nat.id, H, Ascii.eqb_refl in Hall by lia; simpl in Hall; apply Nat.eqb_eq in Hall; lia.
Qed.

Lemma hex_fixed_app (k : nat) (z : Z) (r : string) : hex_fixed k z r = hex_fixed k z "" +:+ r.
Proof.
  revert z r; induction k as [|k IH]; intros z r; [done|]; cbn [hex_fixed].
  rewrite IH, (IH _ (String _ "")), string_app_assoc; done.
Qed.
Lemma hex_fixed_length (k : nat) (z : Z) (r : string) : String.length (hex_fixed k z r) = (k + String.length r)%nat.
Proof. revert z r; induction k as [|k IH]; intros z r; [done|]; cbn [hex_fixed]; rewrite IH; simpl; lia. Qed.

Lemma string_snoc_inj (a b : string) (c d : Ascii.ascii) : a +:+ String c "" = b +:+ String d "" -> a = b /\ c = d.
Proof.
  intros H; apply (f_equal reverse_text) in H; rewrite !reverse_text_app in H.
  change (String c (reverse_text a) = String d (reverse_text b)) in H; injection H as H1 H2.
  apply (f_equal reverse_text) in H2; by rewrite !reverse_text_involutive in H2.
Qed.

Lemma hex_fixed_inj (k : nat) (a b : Z) :
  0 <= a < 16 ^ Z.of_nat k -> 0 <= b < 16 ^ Z.of_nat k -> hex_fixed k a "" = hex_fixed k b "" -> a = b.
Proof.
  revert a b; induction k as [|k IH]; intros a b Ha Hb; [simpl in *; lia|]; cbn [hex_fixed].
  rewrite hex_fixed_app, (hex_fixed_app k (b / 16)); intros [H1 H2]%string_snoc_inj.
  rewrite Nat2Z.inj_succ, Z.pow_succ_r in Ha, Hb by lia.
  pose proof (Z.div_mod a 16); pose proof (Z.div_mod b 16).
  apply hex_char_inj in H2; [|apply Z.mod_pos_bound; lia..].
  apply IH in H1; [lia|split; [apply Z.div_pos; lia|apply Z.div_lt_upper_bound; lia]..].
Qed.

(** Hexadecimal text is visible: no white space, separator or newline is in it. *)
Lemma hex_fixed_has_not (k : nat) (z : Z) (c : Ascii.ascii) (r : string) :
  forallb (fun i => negb (Ascii.eqb (hex_char (Z.of_nat i)) c)) (seq 0 16) = true ->
  has c r = false -> has c (hex_fixed k z r) = false.
Proof.
  intros Hc; revert z r; induction k as [|k IH]; intros z r Hr; [done|]; cbn [hex_fixed]; apply IH; simpl; rewrite Hr, orb_false_r.
  rewrite forallb_forall in Hc; specialize (Hc (Z.to_nat (z mod 16))).
  pose proof (Z.mod_pos_bound z 16 ltac:(lia)); rewrite Z2Nat.id in Hc by lia; apply negb_true_iff, Hc, in_seq; lia.
Qed.
