(* ===== verification/Errors.v ===== *)
(** * Errors of a run (src/lib.rs): [LibdenoError] and the classification of
    permission failures.

    A Rust [dyn Error] is a node with the payload types [is_permission_error]
    can downcast to, and the [source()] the node reports.  Error types of other
    crates appear only as these payloads. *)
From S2P Require Import Prelude.

(** The concrete types the classifier downcasts to; [boxed] tells [T] from
    [Box<T>].  Every other error is [POther], whatever its text says. *)
Inductive dyn_error :=
| DynError (p : payload) (source : option dyn_error)
with payload :=
| PPermissionDenied (boxed : bool)
| PPermissionCheck (boxed : bool) (denied : bool)
| PChildPermission (escalation : bool)
| PCoreError (boxed : bool) (kind : dyn_error)
| PCoreKindJsBox (boxed : bool) (error : dyn_error)
| PCoreKindTranspiler (boxed : bool) (inner : option dyn_error)
| PCoreKindOther (boxed : bool)
| PJsErrorBox (boxed : bool) (inner : option dyn_error)
| POther (message : string).

(** [deno_core::anyhow::anyhow!(message)] *)
Definition anyhow (message : string) : dyn_error := DynError (POther message) None.

Inductive libdeno_error :=
| Entry (e : dyn_error)
| Permission (message : string)
| Configuration (message : string)
| Runtime (e : dyn_error)
| Core (e : dyn_error)
| Io (e : io_error)
| Timeout (message : string).

(** [error_chain_has_permission_source].  [Box<CoreErrorKind>] dereferences to
    the kind and follows it the same way. *)
Fixpoint error_chain_has_permission_source (e : dyn_error) : bool :=
  match e with
  | DynError p source =>
      let from_source :=
        match source with
        | Some s => error_chain_has_permission_source s
        | None => false
        end in
      match p with
      | PPermissionDenied _ => true
      | PPermissionCheck _ true => true
      | PChildPermission true => true
      | PCoreError _ kind => error_chain_has_permission_source kind
      | PCoreKindJsBox _ inner => error_chain_has_permission_source inner
      | PCoreKindTranspiler _ (Some inner) => error_chain_has_permission_source inner
      | PCoreKindTranspiler _ None => false
      | PJsErrorBox _ (Some inner) =>
          error_chain_has_permission_source inner || from_source
      | _ => from_source
      end
  end.

(** [anyhow::Error::chain]: the error and its transitive sources. *)
Fixpoint chain (e : dyn_error) : list dyn_error :=
  match e with
  | DynError _ source => e :: match source with Some s => chain s | None => [] end
  end.

(** [LibdenoError::is_permission_error] *)
Definition is_permission_error (e : libdeno_error) : bool :=
  match e with
  | Runtime error => existsb error_chain_has_permission_source (chain error)
  | Core error => error_chain_has_permission_source error
  | _ => false
  end.

Definition is_timeout (e : libdeno_error) : bool :=
  match e with Timeout _ => true | _ => false end.

(** ** Specification: a trusted permission payload reached through the links
    the classifier is documented to follow. *)
Definition trusted (p : payload) : bool :=
  match p with
  | PPermissionDenied _ | PPermissionCheck _ true | PChildPermission true => true
  | _ => false
  end.

(** Payloads whose stored variant replaces their reported source. *)
Definition transparent (p : payload) : bool :=
  match p with
  | PCoreError _ _ | PCoreKindJsBox _ _ | PCoreKindTranspiler _ _ => true
  | _ => false
  end.

Definition stored (p : payload) : option dyn_error :=
  match p with
  | PCoreError _ k => Some k
  | PCoreKindJsBox _ k => Some k
  | PCoreKindTranspiler _ o => o
  | PJsErrorBox _ o => o
  | _ => None
  end.

Inductive carries_permission : dyn_error -> Prop :=
| cp_here p s : trusted p = true -> carries_permission (DynError p s)
| cp_stored p s e : stored p = Some e -> carries_permission e ->
    carries_permission (DynError p s)
| cp_source p s : transparent p = false -> carries_permission s ->
    carries_permission (DynError p (Some s)).
#[export] Hint Constructors carries_permission : libdeno.

Lemma has_permission_sound : forall e,
  error_chain_has_permission_source e = true -> carries_permission e.
Proof.
  fix IH 1; intros [p source].
  destruct source as [s|];
    destruct p as [b|b [|]|[|]|b k|b k|b [k|]|b|b [k|]|m]; simpl; intros H;
    try discriminate H; try (apply cp_here; reflexivity);
    try (eapply cp_stored; [reflexivity|apply IH; exact H]);
    try (apply cp_source; [reflexivity|apply IH; exact H]);
    apply orb_prop in H as [H|H]; try discriminate H.
  - eapply cp_stored; [reflexivity|apply IH; exact H].
  - apply cp_source; [reflexivity|apply IH; exact H].
  - eapply cp_stored; [reflexivity|apply IH; exact H].
Qed.

Lemma has_permission_complete e :
  carries_permission e -> error_chain_has_permission_source e = true.
Proof.
  induction 1 as [p s Ht|p s e Hs He IH|p s Ht He IH].
  - by destruct p as [| ? [] | [] | | | | | |].
  - destruct p as [| | | | | ? [] | | ? [] |]; simplify_eq/=; by rewrite ?IH.
  - destruct p as [| ? [] | [] | | | | | ? [] |]; simplify_eq/=; rewrite ?IH; try done.
    by rewrite orb_true_r.
Qed.

Lemma chain_hd e : exists l, chain e = e :: l.
Proof. destruct e as [p [s|]]; simpl; eauto. Qed.

(** An error is classified as a permission failure exactly when a concrete
    Rust permission error is reachable from it through stored variants and
    sources; no text or class label of any other error can produce it, and the
    variants other than [Runtime] and [Core] never are. *)
Theorem is_permission_error_spec (e : libdeno_error) :
  is_permission_error e = true <->
  match e with
  | Runtime error => exists x, x ∈ chain error /\ carries_permission x
  | Core error => carries_permission error
  | _ => False
  end.
Proof.
  destruct e as [?|?|?|error|error|?|?]; simpl; try done.
  - rewrite existsb_exists; split; intros (x & Hx & Hp); exists x.
    + split; [by apply list_elem_of_In|by apply has_permission_sound].
    + split; [by apply list_elem_of_In|by apply has_permission_complete].
  - split; [apply has_permission_sound|apply has_permission_complete].
Qed.
