(* ===== verification/Timing.v ===== *)
(** * Phase observations (src/timing.rs).

    [ExecutionTiming] is either disabled or a sink shared by every clone; the
    sink is an explicit value threaded through the operations.  Durations are
    nanoseconds. *)
From S2P Require Import Prelude.
Local Open Scope Z_scope.

Inductive phase :=
| Admission | ResolverManifestProbe | ResolverReuse | ResolverRebuild
| PermissionRuntimeServices | GraphBuild | MainWorkerBootstrap
| UserExecution | OutputDrain | CancelKillReap.

#[export] Instance phase_eq_dec : EqDecision phase.
Proof. solve_decision. Defined.

Record resource_sample := ResourceSample {
  rs_threads : option Z; rs_fds : option Z; rs_rss_bytes : option Z }.
Definition resource_sample_default : resource_sample := ResourceSample None None None.

Record phase_timing := PhaseTiming {
  pt_admission : Z;
  pt_queue_wait : Z;
  pt_resolver_manifest_probe : option Z;
  pt_resolver_reuse : option Z;
  pt_resolver_rebuild : option Z;
  pt_permission_runtime_services : option Z;
  pt_graph_build : option Z;
  pt_main_worker_bootstrap : option Z;
  pt_user_execution : option Z;
  pt_output_drain : option Z;
  pt_cancel_kill_reap : option Z;
  pt_start : resource_sample;
  pt_end : resource_sample }.

Definition phase_timing_default : phase_timing :=
  PhaseTiming 0 0 None None None None None None None None None
    resource_sample_default resource_sample_default.

Record timing_state := TimingState {
  ts_phases : phase_timing;
  ts_queue_wait_recorded : bool }.

(** [None] is [ExecutionTiming::disabled()]. *)
Definition execution_timing : Type := option timing_state.

Definition enabled (sample : resource_sample) : execution_timing :=
  Some (TimingState
    (PhaseTiming 0 0 None None None None None None None None None
       sample resource_sample_default) false).
Definition disabled : execution_timing := None.

Definition set_queue_wait (p : phase_timing) (d : Z) : phase_timing :=
  let '(PhaseTiming a _ b c e f g h i j k s t) := p in
  PhaseTiming a d b c e f g h i j k s t.
Definition set_end (p : phase_timing) (r : resource_sample) : phase_timing :=
  let '(PhaseTiming a q b c e f g h i j k s _) := p in
  PhaseTiming a q b c e f g h i j k s r.

Definition record_queue_wait (t : execution_timing) (submitted now : Z) : execution_timing :=
  match t with
  | None => None
  | Some st =>
      if ts_queue_wait_recorded st then Some st
      else Some (TimingState
                   (set_queue_wait (ts_phases st) (duration_since now submitted)) true)
  end.

Definition add_optional (value : option Z) (elapsed : Z) : option Z :=
  Some (default 0 value + elapsed).

Definition add_phase (p : phase_timing) (ph : phase) (d : Z) : phase_timing :=
  let '(PhaseTiming a q b c e f g h i j k s t) := p in
  match ph with
  | Admission => PhaseTiming (a + d) q b c e f g h i j k s t
  | ResolverManifestProbe => PhaseTiming a q (add_optional b d) c e f g h i j k s t
  | ResolverReuse => PhaseTiming a q b (add_optional c d) e f g h i j k s t
  | ResolverRebuild => PhaseTiming a q b c (add_optional e d) f g h i j k s t
  | PermissionRuntimeServices => PhaseTiming a q b c e (add_optional f d) g h i j k s t
  | GraphBuild => PhaseTiming a q b c e f (add_optional g d) h i j k s t
  | MainWorkerBootstrap => PhaseTiming a q b c e f g (add_optional h d) i j k s t
  | UserExecution => PhaseTiming a q b c e f g h (add_optional i d) j k s t
  | OutputDrain => PhaseTiming a q b c e f g h i (add_optional j d) k s t
  | CancelKillReap => PhaseTiming a q b c e f g h i j (add_optional k d) s t
  end.

(** [ExecutionTiming::add] *)
Definition add (t : execution_timing) (ph : phase) (d : Z) : execution_timing :=
  match t with
  | None => None
  | Some st => Some (TimingState (add_phase (ts_phases st) ph d) (ts_queue_wait_recorded st))
  end.

(** A span remembers when it started, and only if the sink is enabled; dropping
    it is what commits the duration. *)
Record timing_span := TimingSpan { sp_phase : phase; sp_started : option Z }.

Definition span (t : execution_timing) (ph : phase) (now : Z) : timing_span :=
  TimingSpan ph (match t with Some _ => Some now | None => None end).

Definition drop_span (t : execution_timing) (s : timing_span) (now : Z) : execution_timing :=
  match sp_started s with
  | Some started => add t (sp_phase s) (duration_since now started)
  | None => t
  end.

Definition snapshot (t : execution_timing) (sample : resource_sample)
    : execution_timing * phase_timing :=
  match t with
  | None => (None, phase_timing_default)
  | Some st =>
      let p := set_end (ts_phases st) sample in
      (Some (TimingState p (ts_queue_wait_recorded st)), p)
  end.

(** The total the report shows for one phase; an absent phase did not run. *)
Definition phase_total (p : phase_timing) (ph : phase) : option Z :=
  match ph with
  | Admission => Some (pt_admission p)
  | ResolverManifestProbe => pt_resolver_manifest_probe p
  | ResolverReuse => pt_resolver_reuse p
  | ResolverRebuild => pt_resolver_rebuild p
  | PermissionRuntimeServices => pt_permission_runtime_services p
  | GraphBuild => pt_graph_build p
  | MainWorkerBootstrap => pt_main_worker_bootstrap p
  | UserExecution => pt_user_execution p
  | OutputDrain => pt_output_drain p
  | CancelKillReap => pt_cancel_kill_reap p
  end.

Lemma add_phase_total p ph d ph' :
  phase_total (add_phase p ph d) ph' =
  if decide (ph = ph') then Some (default 0 (phase_total p ph') + d) else phase_total p ph'.
Proof. destruct p; destruct ph, ph'; reflexivity. Qed.

(** Durations recorded for one phase by a list of completed spans. *)
Definition spans_of (ph : phase) (l : list (phase * Z)) : list Z :=
  (filter (fun x => x.1 = ph) l).*2.
Definition add_all (t : execution_timing) (l : list (phase * Z)) : execution_timing :=
  fold_left (fun t x => add t x.1 x.2) l t.

Definition total_after (before : option Z) (ds : list Z) : option Z :=
  match ds with [] => before | _ => Some (default 0 before + foldr Z.add 0 ds) end.

Lemma total_after_cons before d ds :
  total_after (Some (default 0 before + d)) ds = total_after before (d :: ds).
Proof. destruct ds as [|e ds]; simpl; f_equal; lia. Qed.

Lemma add_all_total l : forall st, exists p,
  add_all (Some st) l = Some (TimingState p (ts_queue_wait_recorded st)) /\
  pt_queue_wait p = pt_queue_wait (ts_phases st) /\
  forall ph, phase_total p ph = total_after (phase_total (ts_phases st) ph) (spans_of ph l).
Proof.
  induction l as [|[ph d] l IH]; intros [p r]; simpl; [by exists p|].
  destruct (IH (TimingState (add_phase p ph d) r)) as (p' & E & Hq & Ht); simpl in *.
  exists p'. split; [exact E|]. split; [rewrite Hq; by destruct p, ph|].
  intros ph'. rewrite Ht, add_phase_total. unfold spans_of. rewrite filter_cons; simpl.
  case_decide as H; [|done]. simpl. by rewrite total_after_cons.
Qed.

Lemma total_after_app before ds es :
  total_after (total_after before ds) es = total_after before (ds ++ es).
Proof.
  revert before; induction ds as [|d ds IH]; intros before; [done|].
  rewrite <- total_after_cons, IH. simpl app. by rewrite total_after_cons.
Qed.

Lemma add_all_start l : forall st st', add_all (Some st) l = Some st' ->
  pt_start (ts_phases st') = pt_start (ts_phases st).
Proof.
  induction l as [|[ph d] l IH]; intros [p r] st' E; simpl in *; [by injection E as <-|].
  rewrite (IH _ _ E); simpl. by destruct p, ph.
Qed.

Lemma add_all_disabled l : add_all disabled l = disabled.
Proof. induction l as [|x l IH]; [done|exact IH]. Qed.

(** Phase totals add up: after any sequence of committed spans and queue-wait
    records on one sink, the reported total of a phase is the sum of its spans
    (and absent if it never ran), the queue wait is that of the first record,
    and a disabled sink reports nothing. *)
Theorem timing_totals (sample sample' : resource_sample) (submitted now now' : Z)
    (l l' : list (phase * Z)) (ph : phase) :
  let t := record_queue_wait (add_all (enabled sample) l) submitted now in
  let t := record_queue_wait (add_all t l') submitted now' in
  let p := (snapshot t sample').2 in
  phase_total p ph = total_after (phase_total phase_timing_default ph) (spans_of ph (l ++ l')) /\
  pt_queue_wait p = duration_since now submitted /\
  pt_start p = sample /\ pt_end p = sample' /\
  (snapshot (add_all disabled l) sample').2 = phase_timing_default.
Proof.
  cbv zeta. destruct (add_all_total l (TimingState (PhaseTiming 0 0 None None None None None None None
    None None sample resource_sample_default) false)) as (p1 & E1 & _ & H1).
  unfold enabled; rewrite E1; simpl.
  destruct (add_all_total l' (TimingState (set_queue_wait p1 (duration_since now submitted)) true))
    as (p2 & E2 & Hq & H2). rewrite E2; simpl in *.
  rewrite (add_all_disabled l). pose proof (add_all_start l _ _ E1) as Hs1.
  pose proof (add_all_start l' _ _ E2) as Hs2; simpl in *.
  split_and!; try done.
  - assert (phase_total (set_end p2 sample') ph = phase_total p2 ph) as -> by by destruct p2, ph.
    rewrite H2. assert (phase_total (set_queue_wait p1 (duration_since now submitted)) ph =
      phase_total p1 ph) as -> by by destruct p1, ph.
    rewrite H1. unfold spans_of. rewrite filter_app, fmap_app.
    by rewrite total_after_app; destruct ph.
  - destruct p2; simpl in *. rewrite Hq. by destruct p1.
  - destruct p2; simpl in *; subst. by destruct p1.
  - by destruct p2.
Qed.
