(* ===== verification/Diagnostics.v ===== *)
(** * Diagnostics: the feature-gated view of a report's timing (src/timing.rs).

    [PhaseDiagnostics], [sanitized_snapshot], and the resource samples read from
    /proc on Linux.  Reading a file or a directory is a function of its answer. *)
From S2P Require Import Prelude Text Timing.
Local Open Scope Z_scope.

Record phase_diagnostics := PhaseDiagnostics {
  pd_admission_ns : Z; pd_queue_wait_ns : Z; pd_resolver_manifest_probe_ns : option Z; pd_resolver_reuse_ns : option Z;
  pd_resolver_rebuild_ns : option Z; pd_permission_runtime_services_ns : option Z; pd_graph_build_ns : option Z;
  pd_main_worker_bootstrap_ns : option Z; pd_user_execution_ns : option Z; pd_output_drain_ns : option Z;
  pd_cancel_kill_reap_ns : option Z; pd_parent_threads_before : option Z; pd_parent_threads_after : option Z;
  pd_parent_fds_before : option Z; pd_parent_fds_after : option Z; pd_parent_rss_bytes_before : option Z;
  pd_parent_rss_bytes_after : option Z
}.

(** [Duration::as_nanos], a 128-bit number: durations are nanoseconds here. *)
Definition as_nanos (d : Z) : Z := d.

Definition sanitized_snapshot (p : phase_timing) : phase_diagnostics :=
  let duration_ns := option_map as_nanos in
  PhaseDiagnostics (as_nanos (pt_admission p)) (as_nanos (pt_queue_wait p)) (duration_ns (pt_resolver_manifest_probe p))
    (duration_ns (pt_resolver_reuse p)) (duration_ns (pt_resolver_rebuild p)) (duration_ns (pt_permission_runtime_services p))
    (duration_ns (pt_graph_build p)) (duration_ns (pt_main_worker_bootstrap p)) (duration_ns (pt_user_execution p))
    (duration_ns (pt_output_drain p)) (duration_ns (pt_cancel_kill_reap p)) (rs_threads (pt_start p)) (rs_threads (pt_end p))
    (rs_fds (pt_start p)) (rs_fds (pt_end p)) (rs_rss_bytes (pt_start p)) (rs_rss_bytes (pt_end p)).

(** ** /proc/self/status *)
Fixpoint find_map {A B} (f : A -> option B) (l : list A) : option B :=
  match l with [] => None | x :: l => match f x with Some y => Some y | None => find_map f l end end.

(** Up to the first white space. *)
Fixpoint until_white (s : string) : string :=
  match omap (fun w => without_prefix w s) white_space with
  | _ :: _ => EmptyString
  | [] => match s with EmptyString => EmptyString | String c r => String c (until_white r) end
  end.
(** [split_whitespace().next()] *)
Definition first_word (s : string) : option string :=
  let s := trim_start_of white_space (String.length s) s in
  if decide (s = EmptyString) then None else Some (until_white s).

Definition checked_mul_u64 (a b : Z) : option Z := if decide (a * b <= u64_max) then Some (a * b) else None.

Definition thread_count (status : option string) : option Z :=
  text ← status;
  find_map (fun line => rest ← without_prefix "Threads:" line; parse_u64 (trim rest)) (text_lines text).

Definition rss_bytes (status : option string) : option Z :=
  text ← status;
  word ← find_map (fun line => rest ← without_prefix "VmRSS:" line; first_word rest) (text_lines text);
  kilobytes ← parse_u64 word;
  checked_mul_u64 kilobytes 1024.

(** The number of entries of /proc/self/fd. *)
Definition fd_count (entries : option (list string)) : option Z := option_map (fun l => Z.of_nat (length l)) entries.

Definition resource_sample_of (status : option string) (fds : option (list string)) : resource_sample :=
  ResourceSample (thread_count status) (fd_count fds) (rss_bytes status).

(** ** Properties *)

(** The view of a phase. *)
Definition diagnosed (d : phase_diagnostics) (ph : phase) : option Z :=
  match ph with
  | Admission => Some (pd_admission_ns d)
  | ResolverManifestProbe => pd_resolver_manifest_probe_ns d
  | ResolverReuse => pd_resolver_reuse_ns d
  | ResolverRebuild => pd_resolver_rebuild_ns d
  | PermissionRuntimeServices => pd_permission_runtime_services_ns d
  | GraphBuild => pd_graph_build_ns d
  | MainWorkerBootstrap => pd_main_worker_bootstrap_ns d
  | UserExecution => pd_user_execution_ns d
  | OutputDrain => pd_output_drain_ns d
  | CancelKillReap => pd_cancel_kill_reap_ns d
  end.

Lemma option_map_nanos (o : option Z) : option_map as_nanos o = o.
Proof. by destruct o. Qed.

(** The diagnostics show every phase total and both samples of the report, none
    under another's name, in nanoseconds that fit 128 bits. *)
Theorem diagnostics_faithful (p : phase_timing) (ph : phase) :
  diagnosed (sanitized_snapshot p) ph = phase_total p ph /\
  pd_queue_wait_ns (sanitized_snapshot p) = pt_queue_wait p /\
  ResourceSample (pd_parent_threads_before (sanitized_snapshot p)) (pd_parent_fds_before (sanitized_snapshot p))
    (pd_parent_rss_bytes_before (sanitized_snapshot p)) = pt_start p /\
  ResourceSample (pd_parent_threads_after (sanitized_snapshot p)) (pd_parent_fds_after (sanitized_snapshot p))
    (pd_parent_rss_bytes_after (sanitized_snapshot p)) = pt_end p /\
  (forall d, phase_total p ph = Some d -> 0 <= d <= duration_max -> as_nanos d < 2 ^ 128).
Proof.
  split; [destruct ph; simpl; by rewrite ?option_map_nanos|].
  split_and!; [done|by destruct p as [???????????[] []]|by destruct p as [???????????[] []]|].
  intros d _ [_ H]; unfold as_nanos, duration_max, u64_max in *; lia.
Qed.

(** A word of visible characters is read up to the white space after it. *)
Definition all_visible (s : string) : Prop := Forall visible (String.list_ascii_of_string s).

Lemma until_white_word (s rest : string) :
  all_visible s -> ~ white_free white_space rest \/ rest = EmptyString -> until_white (s +:+ rest) = s.
Proof.
  intros Hs Hr; induction s as [|c s IH].
  - change (EmptyString +:+ rest) with rest; destruct Hr as [Hr | ->]; [|done].
    unfold white_free in Hr; destruct rest as [|c rest]; [done|]; cbn [until_white].
    by destruct (omap _ _).
  - unfold all_visible in Hs; apply Forall_cons in Hs as [Hc Hs].
    change (String c s +:+ rest) with (String c (s +:+ rest)); cbn [until_white].
    pose proof (visible_head c (s +:+ rest) Hc) as Hw; unfold white_free in Hw; by rewrite Hw, IH.
Qed.

Lemma pretty_all_visible (z : Z) : 0 <= z -> all_visible (pretty z).
Proof.
  intros Hz; unfold all_visible; apply Forall_forall; intros c Hc; unfold visible; apply forallb_forall; intros w Hw.
  assert (has c (pretty z) = true) as Hin by (by apply has_in, list_elem_of_In).
  apply negb_true_iff, not_true_iff_false; intros Hcw%has_in.
  assert (forallb (fun w => forallb (fun c => bool_decide (digit c = None)) (String.list_ascii_of_string w)) white_space = true)
    as Hall by by vm_compute.
  rewrite forallb_forall in Hall; specialize (Hall w Hw); rewrite forallb_forall in Hall; specialize (Hall c Hcw).
  apply bool_decide_eq_true in Hall; by rewrite (pretty_has_not c z Hz Hall) in Hin.
Qed.

(** The resident size a status file states is read back, in bytes and only where it
    fits; a status without the line, and one whose number does not, give nothing. *)
Theorem rss_bytes_spec (before after : string) (kilobytes : Z) :
  is_u64 kilobytes -> has newline before = false -> without_prefix "VmRSS:" (strip_carriage before) = None ->
  rss_bytes (Some (before +:+ String newline ("VmRSS:" +:+ String tab (pretty kilobytes +:+ " kB" +:+ String newline after)))) =
    (if decide (kilobytes * 1024 <= u64_max) then Some (kilobytes * 1024) else None).
Proof.
  intros Hk Hn Hb; unfold rss_bytes; cbn [mbind option_bind]; rewrite text_lines_cons by done; cbn [find_map]; rewrite Hb; cbn [mbind option_bind].
  set (line := "VmRSS:" +:+ String tab (pretty kilobytes +:+ " kB")).
  assert ("VmRSS:" +:+ String tab (pretty kilobytes +:+ " kB" +:+ String newline after) = line +:+ String newline after) as ->.
  { unfold line; rewrite string_app_assoc; f_equal.
    change (String tab (?x +:+ ?y) +:+ ?z) with (String tab ((x +:+ y) +:+ z)); by rewrite string_app_assoc. }
  assert (has newline line = false) as Hl.
  { unfold line; rewrite has_app; cbn [has]; rewrite has_app, (pretty_has_not newline) by (apply Hk || done); done. }
  rewrite text_lines_cons by done.
  assert (ends_visibly line) as Hv.
  { assert (line = ("VmRSS:" +:+ String tab (pretty kilobytes +:+ " k")) +:+ "B") as ->.
    { unfold line; rewrite string_app_assoc; f_equal.
      change (String tab (?x +:+ ?y) +:+ ?z) with (String tab ((x +:+ y) +:+ z)); by rewrite string_app_assoc. }
    by apply ends_visibly_app; vm_compute. }
  rewrite strip_carriage_visible by done; cbn [find_map].
  assert (without_prefix "VmRSS:" line = Some (String tab (pretty kilobytes +:+ " kB"))) as -> by reflexivity.
  cbn [mbind option_bind]; unfold first_word.
  pose proof (parse_u64_pretty kilobytes Hk) as Hp; pose proof (pretty_all_visible kilobytes (proj1 Hk)) as Hav.
  destruct (pretty kilobytes) as [|c s] eqn:E; [done|].
  assert (trim_start_of white_space (String.length (String tab (String c s +:+ " kB"))) (String tab (String c s +:+ " kB")) =
    String c s +:+ " kB") as ->.
  { cbn [String.length trim_start_of].
    assert (omap (fun w => without_prefix w (String tab (String c s +:+ " kB"))) white_space = [String c s +:+ " kB"]) as -> by done.
    apply trim_start_of_free; change (String c s +:+ " kB") with (String c (s +:+ " kB")); apply visible_head.
    unfold all_visible in Hav; by apply Forall_cons in Hav as [? _]. }
  rewrite decide_False by done; rewrite until_white_word by (done || left; by vm_compute).
  cbn [mbind option_bind find_map]; by rewrite Hp.
Qed.
