(* ===== verification/Options.v ===== *)
(** * Options of a run and their validation (src/lib.rs, src/limits.rs,
    src/deno_runtime_adapter.rs).

    [LibdenoOptions], [RunOutput], the validators every entry point runs before
    any resolver, permission or V8 work, and their order. *)
From S2P Require Import Prelude Errors.
Local Open Scope Z_scope.

(** Paths are Unix paths as strings. *)
Abbreviation path := string (only parsing).

Record libdeno_options := LibdenoOptions {
  o_permissions : list string;
  o_allow_all_permissions : bool;
  o_prompt : bool;
  o_args : list string;
  o_cwd : option path;
  o_max_heap_bytes : option Z;
  o_execution_deadline : option Z;
  o_capture_stdout : bool;
  o_capture_stderr : bool;
  o_max_capture_bytes : option Z;
  o_features : option (list string);
  (** identity of the extension factory closure *)
  o_extensions : option nat }.

Definition options_default : libdeno_options :=
  LibdenoOptions [] false false [] None None None false false None None None.

Record run_output := RunOutput {
  ro_exit_code : Z; ro_stdout : list Z; ro_stderr : list Z;
  ro_capture_truncated : bool }.

Definition with_cwd (o : libdeno_options) (cwd : option path) : libdeno_options :=
  LibdenoOptions (o_permissions o) (o_allow_all_permissions o) (o_prompt o) (o_args o)
    cwd (o_max_heap_bytes o) (o_execution_deadline o) (o_capture_stdout o)
    (o_capture_stderr o) (o_max_capture_bytes o) (o_features o) (o_extensions o).

Definition with_execution_deadline (o : libdeno_options) (d : option Z) : libdeno_options :=
  LibdenoOptions (o_permissions o) (o_allow_all_permissions o) (o_prompt o) (o_args o)
    (o_cwd o) (o_max_heap_bytes o) d (o_capture_stdout o)
    (o_capture_stderr o) (o_max_capture_bytes o) (o_features o) (o_extensions o).

(** ** Validators of limits.rs *)

Definition MIN_V8_OLD_GENERATION_BYTES : Z := Z.shiftl 8 20.

Definition validate_max_heap_bytes (max_heap_bytes : option Z) : result unit libdeno_error :=
  match max_heap_bytes with
  | None => Ok tt
  | Some bytes =>
      if decide (bytes < MIN_V8_OLD_GENERATION_BYTES) then
        Err (Configuration
          ("max_heap_bytes=" +:+ pretty bytes +:+ " is too small; use at least " +:+
           pretty MIN_V8_OLD_GENERATION_BYTES +:+
           " bytes for a V8 old-generation limit"))
      else if decide (bytes = usize_max) then
        Err (Configuration
          "max_heap_bytes=usize::MAX cannot be represented as a finite V8 heap budget")
      else Ok tt
  end.

(** [isolate_create_params]: the old-generation ceiling handed to V8. *)
Definition isolate_create_params (max_heap_bytes : option Z) : option Z := max_heap_bytes.

(** The near-heap-limit callback: terminate, then raise the limit.  [None] when
    no callback is installed. *)
Definition install_heap_limit_guard (capped : bool) : option (Z -> bool * Z) :=
  if capped then Some (fun current => (true, saturating_mul_usize current 2)) else None.

Definition validate_execution_deadline (now : Z) (deadline : option Z)
    : result unit libdeno_error :=
  if is_some_and deadline
       (fun d => match checked_add now d with None => true | Some _ => false end)
  then Err (Configuration "execution deadline is too large for the host clock")
  else Ok tt.

Definition reject_zero_deadline (deadline : option Z) : result unit libdeno_error :=
  if is_some_and deadline (fun d => bool_decide (d = 0)) then
    Err (Timeout "execution deadline of 0ns exceeded; script was not started")
  else Ok tt.

Definition validate_prompt_capture (prompt capture_stderr : bool) : result unit libdeno_error :=
  if prompt && capture_stderr then
    Err (Configuration
      "prompt and capture_stderr cannot be combined: permission prompts are written to stderr and require it to be a terminal, but capture replaces stderr with a pipe, so every ungranted check would be denied without prompting. Capture stdout only, or grant the capabilities up front")
  else Ok tt.

(** The validation prefix of [run_inner_with_cancellation] (src/lib.rs): the
    cancellation checkpoint, then the limits in this order. *)
Definition cancellation_checkpoint (requested : bool) : result unit libdeno_error :=
  if requested then
    Err (Timeout "execution cancellation requested; isolate terminated")
  else Ok tt.

Definition run_validation (requested : bool) (now : Z) (o : libdeno_options)
    : result unit libdeno_error :=
  let? _ := cancellation_checkpoint requested in
  let? _ := validate_max_heap_bytes (o_max_heap_bytes o) in
  let? _ := validate_execution_deadline now (o_execution_deadline o) in
  let? _ := validate_prompt_capture (o_prompt o) (o_capture_stderr o) in
  reject_zero_deadline (o_execution_deadline o).

(** ** Deadlines of the executor (src/executor.rs) *)

Definition min_deadline : option Z -> option Z -> option Z := option_min.
Definition min_absolute_deadline : option Z -> option Z -> option Z := option_min.

(** [Err tt] is Rust's [Err(())]. *)
Definition absolute_execution_deadline (started : Z) (request_deadline execution_duration : option Z)
    : result (option Z) unit :=
  let? option_deadline :=
    match execution_duration with
    | None => Ok None
    | Some d => match checked_add started d with
                | Some at_ => Ok (Some at_)
                | None => Err tt
                end
    end in
  Ok (min_absolute_deadline request_deadline option_deadline).

(** ** Properties *)

Definition heap_ok (m : option Z) : Prop :=
  match m with None => True | Some b => MIN_V8_OLD_GENERATION_BYTES <= b /\ b <> usize_max end.
Definition deadline_ok (now : Z) (d : option Z) : Prop :=
  match d with None => True | Some d => d <> 0 /\ now + d <= instant_max end.

Lemma validate_max_heap_bytes_ok m : validate_max_heap_bytes m = Ok tt <-> heap_ok m.
Proof.
  destruct m as [b|]; simpl; [|done]. repeat case_decide; split; intros; simplify_eq; try done; lia.
Qed.

Lemma validate_execution_deadline_ok now d :
  validate_execution_deadline now d = Ok tt <->
  match d with None => True | Some d => now + d <= instant_max end.
Proof.
  unfold validate_execution_deadline, checked_add; destruct d as [d|]; simpl; [|done].
  case_decide; split; intros; simplify_eq; try done.
Qed.

Lemma reject_zero_deadline_ok d : reject_zero_deadline d = Ok tt <-> d <> Some 0.
Proof.
  unfold reject_zero_deadline; destruct d as [d|]; simpl; [|done].
  case_bool_decide; split; intros; simplify_eq; try done. congruence.
Qed.

(** A run reaches permission construction only if it was not cancelled, its
    heap cap is absent or a finite value V8 can enforce, its deadline is absent
    or non-zero and representable on the host clock, and it does not combine
    prompting with stderr capture; and every such run passes. *)
Theorem run_validation_spec (requested : bool) (now : Z) (o : libdeno_options) :
  run_validation requested now o = Ok tt <->
  requested = false /\ heap_ok (o_max_heap_bytes o) /\
  deadline_ok now (o_execution_deadline o) /\
  ~ (o_prompt o = true /\ o_capture_stderr o = true).
Proof.
  pose proof (validate_max_heap_bytes_ok (o_max_heap_bytes o)) as Hh.
  pose proof (validate_execution_deadline_ok now (o_execution_deadline o)) as Hd.
  pose proof (reject_zero_deadline_ok (o_execution_deadline o)) as Hz.
  unfold run_validation, cancellation_checkpoint, validate_prompt_capture.
  destruct requested; [naive_solver|].
  destruct (validate_max_heap_bytes _) as [[]|]; [|naive_solver].
  destruct (validate_execution_deadline _ _) as [[]|];
    [|destruct (o_execution_deadline o); naive_solver].
  destruct (o_prompt o), (o_capture_stderr o), (o_execution_deadline o); simpl; naive_solver.
Qed.
