(* ===== verification/Budget.v ===== *)
(** * Counting reservations (src/budget.rs).

    One process-global atomic counter per family of detached threads.  A
    thread runs [reserve] as a sequence of atomic accesses to that counter
    ([reserve_step]); [budget_step] interleaves any number of threads.  The
    capture readers (output.rs), handshake writers and subprocess output
    readers (subprocess.rs) instantiate [max]. *)
From S2P Require Import Prelude.
Local Open Scope Z_scope.

(** Slot counts of the three families. *)
Definition MAX_ACTIVE_CAPTURE_READERS : Z := 64.
Definition MAX_ACTIVE_HANDSHAKE_WRITERS : Z := 32.
Definition MAX_ACTIVE_SUBPROCESS_OUTPUT_READERS : Z := 64.

(** Where one call of [reserve] stands: before the first load, inside the loop
    with its local [active], returned with a guard, returned with an error. *)
Inductive reserve_pc :=
| AtLoad
| AtLoop (active : Z)
| Holding
| Refused (active : Z).

(** One atomic access of [reserve] to the counter.  [weak] is the spurious
    failure [compare_exchange_weak] may report. *)
Definition reserve_step (max : Z) (weak : bool) (pc : reserve_pc) (counter : Z)
    : reserve_pc * Z :=
  match pc with
  | AtLoad => (AtLoop counter, counter)
  | AtLoop active =>
      if decide (active >= max) then (Refused active, counter)
      else if decide (counter = active) then
        if weak then (AtLoop counter, counter) else (Holding, active + 1)
      else (AtLoop counter, counter)
  | _ => (pc, counter)
  end.

(** [BudgetGuard::drop] *)
Definition drop_guard (counter : Z) : Z := counter - 1.

(** The error [reserve] returns when it gives up. *)
Definition budget_error (what : string) (active max : Z) : io_error :=
  IoError WouldBlock
    (what +:+ " resource budget exhausted: " +:+ pretty active +:+
     " active, maximum " +:+ pretty max).

(** What the call returns once it is done: a guard or the error. *)
Definition reserve_result (what : string) (max : Z) (pc : reserve_pc)
    : option (result unit io_error) :=
  match pc with
  | Holding => Some (Ok tt)
  | Refused active => Some (Err (budget_error what active max))
  | _ => None
  end.

Record budget_state := BudgetState { bs_counter : Z; bs_threads : list reserve_pc }.

Inductive budget_step (max : Z) : budget_state -> budget_state -> Prop :=
| budget_start s :
    budget_step max s (BudgetState (bs_counter s) (bs_threads s ++ [AtLoad]))
| budget_access s i pc weak :
    bs_threads s !! i = Some pc ->
    budget_step max s
      (BudgetState (snd (reserve_step max weak pc (bs_counter s)))
         (<[i := fst (reserve_step max weak pc (bs_counter s))]> (bs_threads s)))
| budget_drop s i :
    bs_threads s !! i = Some Holding ->
    budget_step max s
      (BudgetState (drop_guard (bs_counter s)) (<[i := AtLoad]> (bs_threads s))).

Definition budget_init : budget_state := BudgetState 0 [].

(** A call that runs alone: [fuel] bounds its atomic accesses. *)
Fixpoint reserve_alone (fuel : nat) (max : Z) (pc : reserve_pc) (counter : Z)
    : reserve_pc * Z :=
  match fuel with
  | O => (pc, counter)
  | S n => let '(pc', c') := reserve_step max false pc counter in
           reserve_alone n max pc' c'
  end.

(** ** Lemmas *)

Definition holds (pc : reserve_pc) : nat :=
  match pc with Holding => 1 | _ => 0 end.

(** Every thread's local view is below or equal to what it may act on, and a
    refusal was decided on an observed exhausted counter. *)
Definition pc_ok (max : Z) (pc : reserve_pc) : Prop :=
  match pc with Refused a => a >= max | _ => True end.

Definition budget_inv (max : Z) (s : budget_state) : Prop :=
  bs_counter s = Z.of_nat (sum_list_with holds (bs_threads s)) /\
  bs_counter s <= max /\
  Forall (pc_ok max) (bs_threads s).

Lemma reserve_step_holds max weak pc c :
  c <= max ->
  snd (reserve_step max weak pc c) =
    c + Z.of_nat (holds (fst (reserve_step max weak pc c))) - Z.of_nat (holds pc) /\
  snd (reserve_step max weak pc c) <= max /\
  (pc_ok max pc -> pc_ok max (fst (reserve_step max weak pc c))).
Proof.
  intros Hc; destruct pc; simpl; repeat case_decide; try destruct weak;
    simpl; repeat split; try lia; auto.
Qed.

Lemma budget_inv_step max a b : budget_inv max a -> budget_step max a b -> budget_inv max b.
Proof.
  intros (Hc & Hm & Hok) Hstep; destruct Hstep as [s|s i pc weak Hi|s i Hi]; simpl in *.
  - repeat split; [|done|]; simpl.
    + rewrite sum_list_with_app; simpl; lia.
    + apply Forall_app; split; [done|]. by repeat constructor.
  - pose proof (reserve_step_holds max weak pc _ Hm) as (H1 & H2 & H3).
    pose proof (sum_list_insert holds _ _ _
                  (fst (reserve_step max weak pc (bs_counter s))) Hi) as Hs.
    repeat split; simpl; [lia|done|].
    apply Forall_insert; [done|]. apply H3. by eapply Forall_lookup_1.
  - pose proof (sum_list_insert holds _ _ _ AtLoad Hi) as Hs; simpl in Hs.
    unfold drop_guard; repeat split; simpl; [lia|lia|].
    by apply Forall_insert.
Qed.

(** ** Properties *)

(** In every interleaving of any number of [reserve] calls and guard drops,
    the counter equals the number of live guards and never exceeds the family's
    maximum, and a call that gave up did so on an observed full counter. *)
Theorem budget_bounded (max : Z) (s : budget_state) (Hmax : 0 <= max)
    (Hs : reachable (budget_step max) budget_init s) :
  bs_counter s = Z.of_nat (sum_list_with holds (bs_threads s)) /\
  0 <= bs_counter s <= max /\
  (forall i a, bs_threads s !! i = Some (Refused a) -> a >= max).
Proof.
  assert (budget_inv max s) as (Hc & Hm & Hok).
  { eapply reachable_invariant; [|apply budget_inv_step|done].
    repeat split; simpl; [done|constructor]. }
  repeat split; [done|lia|done|].
  intros i a Hi; by pose proof (Forall_lookup_1 _ _ _ _ Hok Hi).
Qed.

Lemma budget_bounded_witness :
  let s := BudgetState 1 [Holding; Refused 1] in
  reachable (budget_step 1) budget_init s /\ 0 <= bs_counter s <= 1.
Proof.
  assert (reachable (budget_step 1) budget_init
            (BudgetState 1 [Holding; Refused 1])) as H.
  { eapply reach_step; [|apply (budget_access 1 (BudgetState 1 [Holding; AtLoop 1]) 1 (AtLoop 1) false); reflexivity].
    eapply reach_step; [|apply (budget_access 1 (BudgetState 1 [Holding; AtLoad]) 1 AtLoad false); reflexivity].
    eapply reach_step; [|apply (budget_start 1 (BudgetState 1 [Holding]))].
    eapply reach_step; [|apply (budget_access 1 (BudgetState 0 [AtLoop 0]) 0 (AtLoop 0) false); reflexivity].
    eapply reach_step; [|apply (budget_access 1 (BudgetState 0 [AtLoad]) 0 AtLoad false); reflexivity].
    eapply reach_step; [apply reach_refl|apply (budget_start 1 budget_init)]. }
  split; [exact H|].
  refine (proj1 (proj2 (budget_bounded 1 _ _ H))); lia.
Defined.

(** A call that runs without interference finishes in two accesses: it takes
    a slot exactly when one is free, and otherwise leaves the counter alone and
    returns [WouldBlock]. *)
Theorem reserve_alone_spec (what : string) (max counter : Z) :
  let '(pc, c) := reserve_alone 2 max AtLoad counter in
  if decide (counter < max)
  then reserve_result what max pc = Some (Ok tt) /\ c = counter + 1
  else c = counter /\
       exists e, reserve_result what max pc = Some (Err e) /\ io_kind e = WouldBlock.
Proof.
  simpl; repeat case_decide; simplify_eq/=; try lia; eauto.
Qed.
