(* ===== verification/Cancel.v ===== *)
(** * Cancellation and execution deadlines (src/limits.rs).

    [CancellationContext] is shared by the requesting thread, the thread that
    runs the isolate and the watchdog of [run_with_termination].  Each public
    operation is a sequence of atomic accesses ([request_step],
    [register_step], [watchdog_step]); the sequential definitions run those
    steps to the end, and [cancel_step] interleaves the three threads.  The
    await of [run_with_termination] goes by the polls of the worker future, each of
    which holds the thread until it ends: no timer fires and no request is seen
    while one is under way ([await_timeout], [await_select]). *)
From S2P Require Import Prelude.
Local Open Scope Z_scope.

Inductive cancel_reason := User | Deadline | Shutdown.
#[export] Instance cancel_reason_eq_dec : EqDecision cancel_reason.
Proof. solve_decision. Defined.

(** [cx_terminated] lists the isolates [terminate_execution] was called on. *)
Record cancellation_context := Context_ {
  cx_requested : bool;
  cx_isolate : option nat;
  cx_reason : option cancel_reason;
  cx_terminated : list nat }.

Definition ctx_new : cancellation_context := Context_ false None None [].

Definition get_or_insert (o : option cancel_reason) (r : cancel_reason) : option cancel_reason :=
  match o with Some x => Some x | None => Some r end.

Definition terminate_execution (c : cancellation_context) (iso : nat) : cancellation_context :=
  Context_ (cx_requested c) (cx_isolate c) (cx_reason c) (iso :: cx_terminated c).

Definition terminate_opt (c : cancellation_context) (iso : option nat) : cancellation_context :=
  match iso with Some i => terminate_execution c i | None => c end.

(** ** [request_with_reason], one atomic access at a time *)
Inductive request_pc :=
| RqReason (r : cancel_reason) | RqStore | RqIsolate | RqTerminate (iso : option nat) | RqDone.

Definition request_step (pc : request_pc) (c : cancellation_context)
    : request_pc * cancellation_context :=
  match pc with
  | RqReason r =>
      (RqStore, Context_ (cx_requested c) (cx_isolate c) (get_or_insert (cx_reason c) r)
                  (cx_terminated c))
  | RqStore =>
      (RqIsolate, Context_ true (cx_isolate c) (cx_reason c) (cx_terminated c))
  | RqIsolate => (RqTerminate (cx_isolate c), c)
  | RqTerminate iso => (RqDone, terminate_opt c iso)
  | RqDone => (RqDone, c)
  end.

Definition request_with_reason (c : cancellation_context) (r : cancel_reason)
    : cancellation_context :=
  let '(p1, c1) := request_step (RqReason r) c in
  let '(p2, c2) := request_step p1 c1 in
  let '(p3, c3) := request_step p2 c2 in
  snd (request_step p3 c3).

(** ** [register] and [clear] *)
Inductive register_pc :=
| RgLoad (iso : nat) | RgReplace (iso : nat) (should : bool)
| RgTerminate (iso : nat) (should : bool) | RgDone.

Definition register_step (pc : register_pc) (c : cancellation_context)
    : register_pc * cancellation_context :=
  match pc with
  | RgLoad iso => (RgReplace iso (cx_requested c), c)
  | RgReplace iso should =>
      (RgTerminate iso should,
       Context_ (cx_requested c) (Some iso) (cx_reason c) (cx_terminated c))
  | RgTerminate iso should => (RgDone, if should then terminate_execution c iso else c)
  | RgDone => (RgDone, c)
  end.

Definition register (c : cancellation_context) (iso : nat) : cancellation_context :=
  let '(p1, c1) := register_step (RgLoad iso) c in
  let '(p2, c2) := register_step p1 c1 in
  snd (register_step p2 c2).

Definition clear (c : cancellation_context) : cancellation_context :=
  Context_ (cx_requested c) None (cx_reason c) (cx_terminated c).

(** ** The watchdog thread of [run_with_termination] *)
Inductive watchdog_pc := WdCheck | WdWait | WdExited.

(** What [done_rx.recv_timeout(wait)] reported ([WaitDone] is a message or a
    disconnect) and whether the absolute deadline, if any, had passed. *)
Inductive wait_event := WaitDone | WaitTimeout (deadline_passed : bool).

(** The flags it shares with the awaiting thread, and whether it closed the
    run's worker registry. *)
Record watchdog_flags := WatchdogFlags {
  wf_cancellation : bool; wf_deadline : bool; wf_workers_closed : bool }.
Definition no_flags : watchdog_flags := WatchdogFlags false false false.

(** One turn of its loop; setting a flag, closing the workers and terminating
    the isolate before the [break] touch distinct objects and are one step. *)
Definition watchdog_step (iso : nat) (ev : wait_event) (pc : watchdog_pc)
    (f : watchdog_flags) (c : cancellation_context)
    : watchdog_pc * watchdog_flags * cancellation_context :=
  match pc with
  | WdCheck =>
      if cx_requested c
      then (WdExited, WatchdogFlags true (wf_deadline f) true, terminate_execution c iso)
      else (WdWait, f, c)
  | WdWait =>
      match ev with
      | WaitDone => (WdExited, f, c)
      | WaitTimeout true =>
          (WdExited, WatchdogFlags (wf_cancellation f) true true, terminate_execution c iso)
      | WaitTimeout false => (WdCheck, f, c)
      end
  | WdExited => (WdExited, f, c)
  end.

(** The requester, the registering run and, once it registered, its watchdog;
    [ct_done] is set when the run's future has completed and [done_tx] sent. *)
Record cancel_threads := CancelThreads {
  ct_ctx : cancellation_context; ct_rq : request_pc; ct_rg : register_pc;
  ct_wd : option watchdog_pc; ct_flags : watchdog_flags; ct_done : bool }.

Inductive cancel_step (iso : nat) : cancel_threads -> cancel_threads -> Prop :=
| cs_request s pc c :
    request_step (ct_rq s) (ct_ctx s) = (pc, c) ->
    cancel_step iso s (CancelThreads c pc (ct_rg s) (ct_wd s) (ct_flags s) (ct_done s))
| cs_register s pc c :
    register_step (ct_rg s) (ct_ctx s) = (pc, c) ->
    cancel_step iso s (CancelThreads c (ct_rq s) pc (ct_wd s) (ct_flags s) (ct_done s))
| cs_spawn s :
    ct_rg s = RgDone -> ct_wd s = None ->
    cancel_step iso s
      (CancelThreads (ct_ctx s) (ct_rq s) (ct_rg s) (Some WdCheck) (ct_flags s) (ct_done s))
| cs_watchdog s wd ev wd' f c :
    ct_wd s = Some wd -> (ev = WaitDone -> ct_done s = true) ->
    watchdog_step iso ev wd (ct_flags s) (ct_ctx s) = (wd', f, c) ->
    cancel_step iso s (CancelThreads c (ct_rq s) (ct_rg s) (Some wd') f (ct_done s))
| cs_finish s :
    cancel_step iso s
      (CancelThreads (ct_ctx s) (ct_rq s) (ct_rg s) (ct_wd s) (ct_flags s) true).

Definition cancel_init (r : cancel_reason) (iso : nat) : cancel_threads :=
  CancelThreads ctx_new (RqReason r) (RgLoad iso) None no_flags false.

(** The watchdog running by itself through a list of wait events. *)
Fixpoint watchdog_run (iso : nat) (evs : list wait_event) (pc : watchdog_pc)
    (f : watchdog_flags) (c : cancellation_context)
    : watchdog_pc * watchdog_flags * cancellation_context :=
  match evs with
  | [] => (pc, f, c)
  | ev :: evs =>
      let '(pc, f, c) := watchdog_step iso ev pc f c in watchdog_run iso evs pc f c
  end.

(** ** [AbsoluteDeadlineGuard::new] *)
Inductive deadline_guard := GuardIdle | GuardThread (remaining : Z).

Definition absolute_deadline_guard (deadline : option Z) (cancellation : option cancellation_context)
    (now spawn_now : Z) (spawn : result unit io_error)
    : result (deadline_guard * option cancellation_context) io_error :=
  match deadline, cancellation with
  | None, _ => Ok (GuardIdle, cancellation)
  | Some _, None => Ok (GuardIdle, None)
  | Some d, Some c =>
      if decide (d <= now) then Ok (GuardIdle, Some (request_with_reason c Deadline))
      else let? _ := spawn in Ok (GuardThread (duration_since d spawn_now), Some c)
  end.

(** The guard's thread: a message or the sender dropped before [remaining]
    elapsed leaves the context alone; running out of time requests a deadline
    cancellation.  Only an explicit message counts: a disconnect is an error of
    [recv_timeout] too. *)
Inductive guard_event := GuardStopped | GuardDisconnected | GuardElapsed.
Definition guard_thread (ev : guard_event) (c : cancellation_context) : cancellation_context :=
  match ev with GuardStopped => c | _ => request_with_reason c Deadline end.

(** ** [run_with_termination] *)
Definition GRACE : Z := from_secs 2.

Inductive execution_termination :=
| TDeadline (d : Z) | TCancelled | TInfrastructure (e : io_error).

(** One turn of the task that awaits the worker future.  The future is polled on
    that thread: [po_duration] is how long the turn holds the thread, from the
    moment it was due to the end of the poll, so that a late wake-up and whatever
    blocks inside the poll (JavaScript, a system call) are in it.  A pending
    future may ask to be polled again, a time counted from the end of the turn.
    [po_request_first] says which branch [select!] looks at first. *)
Record poll (A : Type) := Poll {
  po_duration : Z; po_outcome : A + option Z; po_request_first : bool }.
Arguments Poll {A}. Arguments po_duration {A}. Arguments po_outcome {A}.
Arguments po_request_first {A}.

(** The turns the future takes, after which it is parked for ever, and when a
    cancellation request becomes visible; times count from the start of the
    select. *)
Record run_timeline (A : Type) := RunTimeline {
  rt_polls : list (poll A); rt_requested : option Z; rt_parked_request_first : bool }.
Arguments RunTimeline {A}. Arguments rt_polls {A}. Arguments rt_requested {A}.
Arguments rt_parked_request_first {A}.

Definition earliest (a b : option Z) : option Z :=
  match a, b with Some x, Some y => Some (Z.min x y) | Some x, None => Some x | None, b => b end.

(** [tokio::time::timeout(limit, &mut fut)]: each time the task runs the future
    is polled first, to the end of its turn, and only then the timer. *)
Fixpoint await_timeout {A} (polls : list (poll A)) (now limit : Z) (why : execution_termination)
    : Z * (A + execution_termination) :=
  match polls with
  | [] => (Z.max now limit, inr why)
  | p :: polls =>
      let now := now + po_duration p in
      match po_outcome p with
      | inl v => (now, inl v)
      | inr wake =>
          if decide (limit <= now) then (now, inr why)
          else await_timeout polls
                 (match wake with Some w => Z.min (now + w) limit | None => limit end) limit why
      end
  end.

(** [select!] over the future, under [limit] if there is one, and the request:
    a request that is seen gives the future the grace period more.  [None] when
    nothing ever happens again. *)
Fixpoint await_select {A} (polls : list (poll A)) (parked_request_first : bool) (now : Z)
    (limit : option (Z * execution_termination)) (requested : option Z)
    : option (Z * (A + execution_termination)) :=
  let seen at_ := is_some_and requested (fun rq => bool_decide (rq <= at_)) in
  let elapsed at_ := match limit with
                     | Some (l, why) => if decide (l <= at_) then Some why else None
                     | None => None end in
  let grace polls at_ := await_timeout polls at_ (at_ + GRACE) TCancelled in
  let next := earliest (fst <$> limit) requested in
  match polls with
  | [] =>
      match next with
      | None => None
      | Some next =>
          let now := Z.max now next in
          if parked_request_first && seen now then Some (grace [] now)
          else match elapsed now with
               | Some why => Some (now, inr why)
               | None => Some (grace [] now)
               end
      end
  | p :: rest =>
      if po_request_first p && seen now then Some (grace polls now)
      else
        let now := now + po_duration p in
        match po_outcome p with
        | inl v => Some (now, inl v)
        | inr wake =>
            match elapsed now with
            | Some why => Some (now, inr why)
            | None =>
                if negb (po_request_first p) && seen now then Some (grace rest now)
                else match earliest ((fun w => now + w) <$> wake) next with
                     | None => None
                     | Some next => await_select rest parked_request_first (Z.max now next) limit requested
                     end
            end
        end
  end.

(** [fut.await] *)
Fixpoint await_plain {A} (polls : list (poll A)) (now : Z) : option (Z * A) :=
  match polls with
  | [] => None
  | p :: polls =>
      match po_outcome p with
      | inl v => Some (now + po_duration p, v)
      | inr (Some w) => await_plain polls (now + po_duration p + w)
      | inr None => None
      end
  end.

(** The arms of the [match (deadline, cancellation)]. *)
Definition await_run {A} (deadline : option Z) (cancellable : bool) (t : run_timeline A)
    : option (Z * (A + execution_termination)) :=
  match deadline, cancellable with
  | Some d, true =>
      await_select (rt_polls t) (rt_parked_request_first t) 0
        (Some (duration_saturating_add d GRACE, TDeadline d)) (rt_requested t)
  | Some d, false => Some (await_timeout (rt_polls t) 0 (duration_saturating_add d GRACE) (TDeadline d))
  | None, true => await_select (rt_polls t) (rt_parked_request_first t) 0 None (rt_requested t)
  | None, false => (fun r => (r.1, inl r.2)) <$> await_plain (rt_polls t) 0
  end.

(** The verdict after the watchdog was joined. *)
Definition termination_verdict {A} (deadline : option Z) (cancellation_requested : bool)
    (cancellation_fired deadline_fired : bool) (awaited : A + execution_termination)
    : result A execution_termination :=
  if cancellation_requested then Err TCancelled
  else match awaited with
  | inr termination => Err termination
  | inl v =>
      if cancellation_fired then Err TCancelled
      else if deadline_fired then Err (TDeadline (default 0 deadline))
      else Ok v
  end.

(** The watchdog's flags are those it left when it was joined. *)
Definition run_with_termination {A} (deadline : option Z) (isolate : option nat)
    (cancellation : option cancellation_context) (spawn : result unit io_error)
    (t : run_timeline A) (requested_at_end : bool) (flags : watchdog_flags)
    : option (Z * result A execution_termination * option cancellation_context) :=
  match deadline, cancellation with
  | None, None =>
      match await_plain (rt_polls t) 0 with Some (at_, v) => Some (at_, Ok v, None) | None => None end
  | _, _ =>
      if is_some_and deadline (fun d => bool_decide (d = 0)) then
        Some (0, Err (TDeadline 0), cancellation)
      else
        let ctx := match cancellation, isolate with
                   | Some c, Some iso => Some (register c iso)
                   | c, _ => c end in
        match spawn with
        | Err e => Some (0, Err (TInfrastructure e), clear <$> ctx)
        | Ok _ =>
            match await_run deadline (match ctx with Some _ => true | None => false end) t with
            | None => None
            | Some (at_, awaited) =>
                Some (at_,
                  termination_verdict deadline
                    (match ctx with Some _ => requested_at_end | None => false end)
                    (wf_cancellation flags) (wf_deadline flags) awaited,
                  clear <$> ctx)
            end
        end
  end.

(** ** Lemmas *)

Lemma get_or_insert_some o r : exists x, get_or_insert o r = Some x.
Proof. destruct o; simpl; eauto. Qed.

(** Isolates are only ever added to the terminated list, [requested] and the
    reason never go back. *)
Definition ctx_le (a b : cancellation_context) : Prop :=
  (forall i, i ∈ cx_terminated a -> i ∈ cx_terminated b) /\
  (cx_requested a = true -> cx_requested b = true) /\
  (forall r, cx_reason a = Some r -> cx_reason b = Some r).

Lemma request_step_le pc c pc' c' : request_step pc c = (pc', c') -> ctx_le c c'.
Proof.
  destruct pc as [r| | |[i|]|]; simpl; intros; simplify_eq/=; repeat split; simpl;
    try done; try set_solver. by intros r0 ->.
Qed.

Lemma register_step_le pc c pc' c' : register_step pc c = (pc', c') -> ctx_le c c'.
Proof.
  destruct pc as [i|i b|i [|]|]; simpl; intros; simplify_eq/=; repeat split; simpl;
    try done; set_solver.
Qed.

Lemma watchdog_step_le iso ev pc f c pc' f' c' :
  watchdog_step iso ev pc f c = (pc', f', c') -> ctx_le c c'.
Proof.
  destruct pc, ev as [|[]]; simpl; repeat case_match; intros; simplify_eq/=;
    repeat split; simpl; try done; set_solver.
Qed.

Definition cancel_inv (r : cancel_reason) (iso : nat) (s : cancel_threads) : Prop :=
  (ct_wd s = Some WdExited -> iso ∈ cx_terminated (ct_ctx s) \/ ct_done s = true) /\
  match ct_rq s with
  | RqReason r' => r' = r /\ cx_reason (ct_ctx s) = None
  | RqStore => cx_reason (ct_ctx s) = Some r
  | _ => cx_reason (ct_ctx s) = Some r /\ cx_requested (ct_ctx s) = true
  end.

(** The requester's half of the invariant survives any growth of the context
    that leaves the reason alone. *)
Lemma cancel_inv_grow r iso s c rg wd f d :
  cancel_inv r iso s -> ctx_le (ct_ctx s) c -> cx_reason c = cx_reason (ct_ctx s) ->
  (wd = Some WdExited -> iso ∈ cx_terminated c \/ d = true) ->
  cancel_inv r iso (CancelThreads c (ct_rq s) rg wd f d).
Proof.
  intros [_ Hq] (_ & Hr & _) Hrs Hw; split; [done|]; simpl.
  rewrite Hrs. destruct (ct_rq s); naive_solver.
Qed.

Lemma cancel_inv_step r iso a b :
  cancel_inv r iso a -> cancel_step iso a b -> cancel_inv r iso b.
Proof.
  intros Hinv Hstep. pose proof Hinv as [Hw Hq].
  destruct Hstep as [s pc c E|s pc c E|s Hg Hn|s wd ev wd' f c Hwd Hev E|s].
  - pose proof (request_step_le _ _ _ _ E) as (Ht & _).
    split; simpl; [intros H; destruct (Hw H); [left; set_solver|by right]|].
    destruct (ct_rq s) as [r'| | |o|]; simpl in E; simplify_eq/=; try done.
    + destruct Hq as [-> ->]; done.
    + destruct Hq; by destruct o.
  - pose proof (register_step_le _ _ _ _ E) as Hle. apply cancel_inv_grow; [done..| |].
    + destruct (ct_rg s) as [|? []|? []|]; simpl in E; by simplify_eq/=.
    + intros H; destruct (Hw H); [left|by right]. destruct Hle; set_solver.
  - by apply cancel_inv_grow.
  - pose proof (watchdog_step_le _ _ _ _ _ _ _ _ E) as Hle. apply cancel_inv_grow; [done..| |].
    + destruct wd, ev as [|[]]; simpl in E; repeat case_match; by simplify_eq/=.
    + intros [= ->]. destruct wd, ev as [|[]]; simpl in E; repeat case_match; simplify_eq/=;
        try (left; set_solver); try (right; by apply Hev); by apply Hw.
  - apply cancel_inv_grow; [done..|by right].
Qed.

Lemma watchdog_requested_exits iso c pc f e :
  pc <> WdExited -> cx_requested c = true -> e <> WaitDone ->
  exists f' c', watchdog_run iso [e; WaitTimeout false] pc f c = (WdExited, f', c') /\
    iso ∈ cx_terminated c' /\ wf_workers_closed f' = true.
Proof.
  intros Hp Hr He. destruct pc, e as [|[]]; simpl; rewrite ?Hr; simpl; try done;
    eexists _, _; (split; [reflexivity|split; [left|reflexivity]]).
Qed.

(** No turn takes longer than [bound], and no wake-up lies in the past. *)
Definition timed {A} (bound : Z) (p : poll A) : Prop :=
  0 <= po_duration p <= bound /\ (forall w, po_outcome p = inr (Some w) -> 0 <= w).

Lemma GRACE_pos : 0 <= GRACE.
Proof. vm_compute; discriminate. Qed.

(** The first turn is never cut short: nothing ends before it does. *)
Definition uncut {A} (polls : list (poll A)) (now at_ : Z) : Prop :=
  now <= at_ /\ forall p rest, polls = p :: rest -> now + po_duration p <= at_.

(** A value comes from a turn of the future. *)
Definition given {A} (polls : list (poll A)) (aw : A + execution_termination) : Prop :=
  forall v, aw = inl v -> exists p, p ∈ polls /\ po_outcome p = inl v.

Lemma given_tail {A} (p : poll A) (polls : list (poll A)) (aw : A + execution_termination) :
  given polls aw -> given (p :: polls) aw.
Proof. intros H v Hv; destruct (H v Hv) as (q & Hq & Ho); exists q; split; [by right|done]. Qed.

Lemma await_timeout_spec {A} (bound : Z) (polls : list (poll A)) (now limit : Z) (why : execution_termination) :
  0 <= bound -> Forall (timed bound) polls -> now <= limit ->
  let r := await_timeout polls now limit why in r.1 <= limit + bound /\ uncut polls now r.1 /\ given polls r.2.
Proof.
  intros Hb H; revert now; induction H as [|p polls [Hd Hw] _ IH]; intros now Hn; cbn [await_timeout].
  { split_and!; [simpl; lia|by split; [simpl; lia|]|done]. }
  destruct (po_outcome p) as [v|wake] eqn:Ho.
  { split_and!; [simpl; lia|split; [simpl; lia|by intros ? ? [= <- <-]]|]; intros ? [= <-]; exists p; by split; [left|]. }
  case_decide as Hl.
  { split_and!; [simpl; lia|split; [simpl; lia|by intros ? ? [= <- <-]]|done]. }
  set (again := match wake with Some w => _ | None => limit end).
  assert (now + po_duration p <= again <= limit) as Ha
    by (unfold again; destruct wake as [w|]; [specialize (Hw w eq_refl)|]; lia).
  destruct (IH again ltac:(lia)) as (I1 & [I2 _] & I3); split_and!; [done| |by apply given_tail].
  split; [lia|]; intros ? ? [= <- <-]; lia.
Qed.

Lemma seen_false (requested : option Z) (at_ : Z) :
  is_some_and requested (fun rq => bool_decide (rq <= at_)) = false -> forall rq, requested = Some rq -> at_ < rq.
Proof. intros H rq ->; cbn [is_some_and] in H; apply bool_decide_eq_false in H; lia. Qed.
Lemma seen_true (requested : option Z) (at_ : Z) :
  is_some_and requested (fun rq => bool_decide (rq <= at_)) = true -> requested <> None.
Proof. by destruct requested. Qed.

Lemma uncut_cons {A} (p : poll A) (polls : list (poll A)) (now next at_ : Z) :
  0 <= po_duration p -> now + po_duration p <= next -> uncut polls next at_ -> uncut (p :: polls) now at_.
Proof. intros Hp Hn [H _]; split; [lia|]; intros ? ? [= <- <-]; lia. Qed.

(** What the end of the await is bounded by. *)
Definition ends_by (bound l : Z) (requested : option Z) (at_ : Z) : Prop :=
  (requested = None -> at_ <= l + bound) /\ (forall rq, requested = Some rq -> at_ <= rq + GRACE + 3 * bound).

(** The grace period, once a request was seen. *)
Lemma grace_ends {A} (bound : Z) (polls : list (poll A)) (now l : Z) (requested : option Z) :
  0 <= bound -> Forall (timed bound) polls -> requested <> None ->
  (forall rq, requested = Some rq -> now <= rq + 2 * bound) ->
  let r := await_timeout polls now (now + GRACE) TCancelled in
  ends_by bound l requested r.1 /\ uncut polls now r.1 /\ given polls r.2.
Proof.
  intros Hb Hp Hn Hrq; pose proof GRACE_pos.
  destruct (await_timeout_spec bound polls now (now + GRACE) TCancelled) as (H1 & H2 & H3); [done..|lia|].
  split_and!; [|done|done]; split; [done|]; intros rq E; specialize (Hrq rq E); lia.
Qed.

Lemma await_select_parked {A} (bound : Z) (first : bool) (now l : Z) (why : execution_termination) (requested : option Z) :
  0 <= bound -> now <= l -> (forall rq, requested = Some rq -> now <= rq + bound) ->
  exists r, await_select (A := A) [] first now (Some (l, why)) requested = Some r /\
    ends_by bound l requested r.1 /\ uncut (A := A) [] now r.1 /\ given (A := A) [] r.2.
Proof.
  intros Hb Hn Hrq; pose proof GRACE_pos as Hg.
  cbn [await_select fst fmap option_fmap option_map earliest].
  set (at_ := match requested with Some y => Z.min l y | None => l end).
  assert ((match requested with Some y => Some (Z.min l y) | None => Some l end) = Some at_) as -> by by destruct requested.
  assert (now <= Z.max now at_ <= l) as Hat by (unfold at_; destruct requested; lia).
  assert (forall rq, requested = Some rq -> Z.max now at_ <= rq + bound) as Hat'
    by (intros rq E; specialize (Hrq rq E); unfold at_; rewrite E; lia).
  assert (uncut (A := A) [] now (Z.max now at_)) as Hu by (split; [lia|done]).
  assert (requested <> None -> exists r, Some (await_timeout [] (Z.max now at_) (Z.max now at_ + GRACE) TCancelled) = Some r /\
    ends_by bound l requested r.1 /\ uncut (A := A) [] now r.1 /\ given (A := A) [] r.2) as Hgr.
  { intros Hs; destruct (grace_ends (A := A) bound [] (Z.max now at_) l requested) as (G1 & [G2 _] & G3);
      [done|done|done|intros rq E; specialize (Hat' rq E); lia|].
    eexists; split; [done|]; split_and!; [done| |done]; split; [lia|done]. }
  destruct (first && _) eqn:Es; [apply andb_true_iff in Es as [_ Es%seen_true]; by apply Hgr|].
  case_decide as Hl; [|apply Hgr; intros ->; unfold at_ in Hl; lia].
  eexists; split; [done|]; split_and!; [|done|done]; split; cbn [fst]; [lia|intros rq E; specialize (Hat' rq E); lia].
Qed.

(** Under a limit the select always ends: without a request by the limit and one
    turn, with one by the grace period after it and three turns: the one under
    way, one that looks at the request last and one at the end of the grace. *)
Lemma await_select_spec {A} (bound : Z) (polls : list (poll A)) (first : bool) (now l : Z) (why : execution_termination)
    (requested : option Z) :
  0 <= bound -> Forall (timed bound) polls -> now <= l -> (forall rq, requested = Some rq -> now <= rq + bound) ->
  exists r, await_select polls first now (Some (l, why)) requested = Some r /\
    ends_by bound l requested r.1 /\ uncut polls now r.1 /\ given polls r.2.
Proof.
  intros Hb H; pose proof GRACE_pos as Hg; revert now; induction H as [|p polls [Hd Hw] Hp IH]; intros now Hn Hrq.
  - by apply await_select_parked.
  - cbn [await_select]; cbv zeta.
    destruct (po_request_first p && is_some_and requested _) eqn:Es1.
    { apply andb_true_iff in Es1 as [_ Es1%seen_true]; eexists; split; [done|].
      apply grace_ends; [done|by constructor|done|intros rq E; specialize (Hrq rq E); lia]. }
    set (now' := now + po_duration p).
    assert (forall rq, requested = Some rq -> now' <= rq + 2 * bound) as Hrq' by (intros rq E; specialize (Hrq rq E); lia).
    assert (uncut (p :: polls) now now') as Hu by (split; [lia|by intros ? ? [= <- <-]]).
    destruct (po_outcome p) as [v|wake] eqn:Ho.
    { eexists; split; [done|]; split_and!; [split; cbn [fst]; [lia|intros rq E; specialize (Hrq' rq E); lia]|done|].
      intros ? [= <-]; exists p; by split; [left|]. }
    destruct (decide (l <= now')) as [Hl|Hl].
    { eexists; split; [done|]; split_and!; [split; cbn [fst]; [lia|intros rq E; specialize (Hrq' rq E); lia]|done|done]. }
    destruct (negb (po_request_first p) && _) eqn:Es2.
    { apply andb_true_iff in Es2 as [_ Es2%seen_true]; eexists; split; [done|].
      destruct (grace_ends bound polls now' l requested) as (G1 & G2 & G3); [done..|]; split_and!; [done| |by apply given_tail].
      apply (uncut_cons p polls now now'); [apply Hd|unfold now'; lia|done]. }
    set (next := earliest _ _).
    assert (exists n, next = Some n /\ n <= l /\ forall rq, requested = Some rq -> n <= rq) as (n & -> & Hnl & Hnr).
    { unfold next; destruct wake as [w|], requested as [rq|]; cbn; eexists; (split; [done|]); (split; [lia|]);
        intros ? [= <-]; lia. }
    destruct (IH (Z.max now' n)) as (r & E & I1 & I2 & I3); [lia| |].
    { intros rq E; specialize (Hnr rq E); destruct (po_request_first p); cbn [negb andb] in Es1, Es2;
        [pose proof (seen_false _ _ Es1 _ E)|pose proof (seen_false _ _ Es2 _ E)]; specialize (Hrq rq E); lia. }
    exists r; split_and!; [done|done| |by apply given_tail]; apply (uncut_cons p polls now (Z.max now' n)); [lia|lia|done].
Qed.

(** With a deadline the await always ends, and when. *)
Lemma await_run_deadline_bounds {A} (d : Z) (cancellable : bool) (t : run_timeline A) (bound : Z) :
  0 <= d -> 0 <= bound -> Forall (timed bound) (rt_polls t) -> (forall rq, rt_requested t = Some rq -> 0 <= rq) ->
  exists at_ aw, await_run (Some d) cancellable t = Some (at_, aw) /\
    (cancellable = false \/ rt_requested t = None -> at_ <= d + GRACE + bound) /\
    (forall rq, cancellable = true -> rt_requested t = Some rq -> at_ <= rq + GRACE + 3 * bound) /\
    uncut (rt_polls t) 0 at_ /\ given (rt_polls t) aw.
Proof.
  intros Hd Hb Hp Hrq; set (l := duration_saturating_add d GRACE).
  assert (0 <= l <= d + GRACE) as Hl by (pose proof GRACE_pos; unfold l, duration_saturating_add, duration_max, u64_max; lia).
  destruct cancellable; unfold await_run; fold l.
  - destruct (await_select_spec bound (rt_polls t) (rt_parked_request_first t) 0 l (TDeadline d) (rt_requested t))
      as ([at_ aw] & E & [H1 H2] & H3 & H4); [done..|lia|intros rq E; specialize (Hrq rq E); lia|].
    exists at_, aw; split_and!; [done| |by intros rq _; apply H2|done|done].
    intros [|E']; [done|]; specialize (H1 E'); cbn [fst] in H1; lia.
  - destruct (await_timeout_spec bound (rt_polls t) 0 l (TDeadline d)) as (H1 & H2 & H3); [done..|lia|].
    eexists _, _; split; [f_equal; apply surjective_pairing|]; split_and!; [intros _; lia|done|done|done].
Qed.

Lemma ctx_registered_some (c : option cancellation_context) (iso : option nat) :
  (match match c, iso with Some c, Some iso => Some (register c iso) | c, _ => c end with
   | Some _ => true | None => false end)
  = match c with Some _ => true | None => false end.
Proof. by destruct c, iso. Qed.

(** A success is a value of the future that nothing overruled. *)
Lemma verdict_ok {A} (deadline : option Z) (requested cancelled fired : bool) (aw : A + execution_termination) (v : A) :
  termination_verdict deadline requested cancelled fired aw = Ok v ->
  cancelled = false /\ fired = false /\ aw = inl v /\ requested = false.
Proof. by destruct requested, cancelled, fired, aw; cbn; intros; simplify_eq. Qed.

(** ** Properties *)

(** C6. A cancellation request is never lost, whatever the interleaving of the
    requester with the run's registration and watchdog: the first reason is
    kept, a watchdog that has ended either terminated the isolate or saw the
    run finish, and once the request is visible two turns of a live watchdog
    terminate the isolate and close its workers. *)
Theorem cancel_not_lost (r : cancel_reason) (iso : nat) (s : cancel_threads)
    (Hs : reachable (cancel_step iso) (cancel_init r iso) s) :
  (ct_rq s = RqDone -> cx_reason (ct_ctx s) = Some r /\ cx_requested (ct_ctx s) = true) /\
  (ct_wd s = Some WdExited -> iso ∈ cx_terminated (ct_ctx s) \/ ct_done s = true) /\
  (forall wd e, ct_wd s = Some wd -> wd <> WdExited -> ct_rq s = RqDone -> e <> WaitDone ->
     exists f c, watchdog_run iso [e; WaitTimeout false] wd (ct_flags s) (ct_ctx s)
                 = (WdExited, f, c) /\
       iso ∈ cx_terminated c /\ wf_workers_closed f = true).
Proof.
  assert (cancel_inv r iso s) as [Hw Hq].
  { eapply (reachable_invariant _ (cancel_inv r iso)); [|apply cancel_inv_step|done].
    by repeat split. }
  split; [by intros H; rewrite H in Hq|]. split; [done|].
  intros wd e _ Hne H; rewrite H in Hq; destruct Hq. by apply watchdog_requested_exits.
Qed.

Lemma cancel_not_lost_witness :
  let s := CancelThreads (Context_ true (Some 7%nat) (Some User) [7%nat]) RqDone RgDone
             (Some WdCheck) no_flags false in
  reachable (cancel_step 7) (cancel_init User 7) s /\ cx_reason (ct_ctx s) = Some User.
Proof.
  assert (reachable (cancel_step 7) (cancel_init User 7)
    (CancelThreads (Context_ true (Some 7%nat) (Some User) [7%nat]) RqDone RgDone
             (Some WdCheck) no_flags false)) as H.
  { do 2 (eapply reachable_head; [eapply cs_register; reflexivity|]; simpl).
    do 3 (eapply reachable_head; [eapply cs_request; reflexivity|]; simpl).
    eapply reachable_head; [eapply cs_register; reflexivity|]; simpl.
    eapply reachable_head; [eapply cs_request; reflexivity|]; simpl.
    eapply reachable_head; [eapply cs_spawn; reflexivity|]; simpl.
    apply reach_refl. }
  split; [exact H|]. exact (proj1 (proj1 (cancel_not_lost User 7 _ H) eq_refl)).
Defined.

(** The longest turn of the future. *)
Definition longest {A} (polls : list (poll A)) : Z := foldr (fun p m => Z.max (po_duration p) m) 0 polls.
(** No turn takes a negative time and no wake-up lies in the past. *)
Definition well_timed {A} (polls : list (poll A)) : Prop :=
  Forall (fun p => 0 <= po_duration p /\ forall w, po_outcome p = inr (Some w) -> 0 <= w) polls.

Lemma longest_timed {A} (polls : list (poll A)) :
  well_timed polls -> 0 <= longest polls /\ Forall (timed (longest polls)) polls.
Proof.
  induction 1 as [|p polls [Hd Hw] _ [IH1 IH2]]; [by split; [simpl; lia|]|]; cbn [longest foldr]; fold (longest polls).
  split; [lia|]; constructor; [split; [lia|done]|]; eapply Forall_impl; [exact IH2|]; intros q [Hq Hq']; split; [lia|done].
Qed.


(** A deadline of one second over a system call that blocks for three. *)
Definition blocking_run : run_timeline nat :=
  RunTimeline [Poll (from_secs 3) (inl 5%nat) false] None false.

