(* ===== verification/Execution.v ===== *)
(** * Requests, results and dispatch of the executor (src/executor.rs).

    The public data of an execution, the normalisation every request goes
    through, how a backend's raw result becomes an [ExecutionResult] or an
    [ExecutionFailure], and [ExecutorBuilder::build].  The two backends are
    variables of the sections: their own behaviour is modelled elsewhere. *)
From S2P Require Import Prelude Errors Timing Options Cancel.
Local Open Scope Z_scope.

(** ** Data *)
Inductive execution_backend := InProcess | Subprocess | ProcessPool.
#[export] Instance execution_backend_eq_dec : EqDecision execution_backend.
Proof. solve_decision. Defined.

Definition backend_name (b : execution_backend) : string :=
  match b with
  | InProcess => "in-process" | Subprocess => "subprocess" | ProcessPool => "process-pool"
  end.

Inductive execution_capability := CapBackend (b : execution_backend) | HardSandbox.

Definition capability_name (c : execution_capability) : string :=
  match c with
  | CapBackend b => backend_name b +:+ " backend"
  | HardSandbox => "hard sandbox"
  end.

Inductive cleanup_strength := DirectChild | ProcessGroup | WindowsJob.
Inductive transport_status := TransportClean | TransportFailed.
Inductive capability_availability := Available | Unsupported.
Inductive capability_outcome := NotRequested | Used | Failed.

Record capability_report := CapabilityReport {
  cr_backends : capability_availability * capability_availability * capability_availability;
  cr_hard_sandbox : capability_availability;
  cr_cleanup_strength : option cleanup_strength }.

(** [CapabilityReport::default()] with the [execution-control] feature. *)
Definition capability_report_default : capability_report :=
  CapabilityReport (Available, Available, Unsupported) Unsupported (Some DirectChild).

Definition availability (r : capability_report) (c : execution_capability)
    : capability_availability :=
  match c with
  | CapBackend InProcess => (cr_backends r).1.1
  | CapBackend Subprocess => (cr_backends r).1.2
  | CapBackend ProcessPool => (cr_backends r).2
  | HardSandbox => cr_hard_sandbox r
  end.

Record execution_request := ExecutionRequest {
  rq_entry : path; rq_options : libdeno_options }.

Record execution_output := ExecutionOutput {
  eo_stdout : list Z; eo_stderr : list Z;
  eo_truncated : bool; eo_incomplete : bool; eo_reader_error : bool }.
Definition execution_output_default : execution_output :=
  ExecutionOutput [] [] false false false.

Record execution_report := ExecutionReport {
  er_requested : execution_backend;
  er_dispatched : option execution_backend;
  er_elapsed : Z;
  er_outcome : capability_outcome;
  er_timing : phase_timing;
  er_cleanup : option cleanup_strength;
  er_transport : option transport_status }.

(** [ExecutionReport::outcome] *)
Definition report_outcome (r : execution_report) (c : execution_capability)
    : capability_outcome :=
  match c with
  | CapBackend b => if decide (b = er_requested r) then er_outcome r else NotRequested
  | HardSandbox => NotRequested
  end.

Record execution_result := ExecutionResult {
  ex_exit_code : Z; ex_output : execution_output; ex_report : execution_report }.

Inductive failure_category :=
| CatPermission | CatTimeout | CatRuntime | CatInfrastructure | CatChildCrash.
#[export] Instance failure_category_eq_dec : EqDecision failure_category.
Proof. solve_decision. Defined.

(** [SupervisorFailureCategory::summary] *)
Definition category_summary (c : failure_category) : string :=
  match c with
  | CatPermission => "supervisor child permission failure"
  | CatTimeout => "supervisor session timed out"
  | CatRuntime => "supervisor child runtime failure"
  | CatInfrastructure => "supervisor infrastructure failure"
  | CatChildCrash => "supervisor child exited without a terminal result"
  end.

Inductive execution_error :=
| ExLibdeno (e : libdeno_error)
| ExUnsupported (capability : execution_capability) (reason : string)
| ExInternal (message : string)
| ExCancelled
| ExSupervisor (c : failure_category).

Definition supervisor_category (e : execution_error) : option failure_category :=
  match e with ExSupervisor c => Some c | _ => None end.

Record execution_failure := ExecutionFailure {
  xf_error : execution_error; xf_report : execution_report;
  xf_partial : option execution_output }.

(** ** Cloning a shared failure ([ExecutionFailure::into_parts])

    [SharedError] keeps the owner alive and reports a source inside it.  The
    two [..._dyn] functions are the [dyn Error] views thiserror derives. *)
Definition libdeno_dyn (e : libdeno_error) : dyn_error :=
  DynError (POther "LibdenoError")
    (match e with Runtime x | Core x => Some x | Io x => Some (anyhow (io_message x)) | _ => None end).

Definition execution_dyn (e : execution_error) : dyn_error :=
  DynError (POther "ExecutionError")
    (match e with ExLibdeno x => Some (libdeno_dyn x) | _ => None end).

Inductive shared_error_source := Owner | IoInner | CoreKind | CoreJsBoxInner.

(** [CoreError(Box<CoreErrorKind>)] seen from outside is its kind. *)
Definition core_kind (e : dyn_error) : option dyn_error :=
  match e with DynError (PCoreError _ k) _ => Some k | _ => None end.

Definition shared_error_source_of (owner : execution_error) (s : shared_error_source)
    : option dyn_error :=
  match s, owner with
  | CoreKind, ExLibdeno (Core e) =>
      match core_kind e with Some k => Some k | None => Some (execution_dyn owner) end
  | CoreJsBoxInner, ExLibdeno (Core e) =>
      match core_kind e with
      | Some (DynError (PCoreKindJsBox _ (DynError (PJsErrorBox _ (Some inner)) _)) _) =>
          Some inner
      | Some (DynError (PCoreKindJsBox _ box) _) => Some box
      | Some k => Some k
      | None => Some (execution_dyn owner)
      end
  | IoInner, ExLibdeno (Io e) => Some (anyhow (io_message e))
  | _, _ => Some (execution_dyn owner)
  end.

Definition shared_error (owner : execution_error) (s : shared_error_source) : dyn_error :=
  DynError (POther "SharedError") (shared_error_source_of owner s).

Definition is_core_js_box (e : dyn_error) : bool :=
  match core_kind e with Some (DynError (PCoreKindJsBox _ _) _) => true | _ => false end.

Definition clone_libdeno_error (error : libdeno_error) (owner : execution_error) : libdeno_error :=
  match error with
  | Entry _ => Entry (shared_error owner Owner)
  | Permission m => Permission m
  | Configuration m => Configuration m
  | Runtime _ => Runtime (shared_error owner Owner)
  | Core e =>
      let inner := shared_error owner (if is_core_js_box e then CoreJsBoxInner else CoreKind) in
      let box := DynError (PJsErrorBox false (Some inner)) (Some inner) in
      let kind := DynError (PCoreKindJsBox false box) (Some box) in
      Core (DynError (PCoreError false kind) (Some kind))
  | Io e => Io (IoError (io_kind e) (io_message e))
  | Timeout m => Timeout m
  end.

Definition clone_execution_error (e : execution_error) : execution_error :=
  match e with
  | ExLibdeno l => ExLibdeno (clone_libdeno_error l e)
  | ExUnsupported c r => ExUnsupported c r
  | ExInternal m => ExInternal m
  | ExCancelled => ExCancelled
  | ExSupervisor c => ExSupervisor c
  end.

(** ** Raw results of the backends *)
Record captured_output := CapturedOutput {
  co_stdout : list Z; co_stderr : list Z; co_truncated : bool }.
Record captured_run_error := CapturedRunError {
  cre_error : libdeno_error; cre_output : option captured_output }.
Record supervisor_partial_output := SupervisorPartialOutput {
  sp_stdout : list Z; sp_stderr : list Z; sp_truncated : bool;
  sp_incomplete : bool; sp_reader_error : bool }.
Record supervisor_run_result := SupervisorRunResult {
  sr_exit_code : Z; sr_partial : option supervisor_partial_output;
  sr_cleanup : cleanup_strength; sr_transport : transport_status }.
Record supervised_subprocess_error := SupervisedSubprocessError {
  se_error : libdeno_error; se_category : option failure_category;
  se_partial : option supervisor_partial_output;
  se_cleanup : option cleanup_strength; se_transport : option transport_status }.

Definition when_requested (requested : bool) (bytes : list Z) : list Z :=
  if requested then bytes else [].

Definition captured_execution_failure (f : captured_run_error) (report : execution_report)
    (options : libdeno_options) : execution_failure :=
  ExecutionFailure (ExLibdeno (cre_error f)) report
    ((fun c => ExecutionOutput
        (when_requested (o_capture_stdout options) (co_stdout c))
        (when_requested (o_capture_stderr options) (co_stderr c))
        (co_truncated c) false false) <$> cre_output f).

Definition supervisor_execution_output (partial : option supervisor_partial_output)
    (options : libdeno_options) : execution_output :=
  match partial with
  | None => execution_output_default
  | Some p => ExecutionOutput
      (when_requested (o_capture_stdout options) (sp_stdout p))
      (when_requested (o_capture_stderr options) (sp_stderr p))
      (sp_truncated p) (sp_incomplete p) (sp_reader_error p)
  end.

(** ** Executors *)

(** [ExecutorBackend]; the resolved runtime of the in-process backend is
    identified by its project directory. *)
Inductive executor_backend := BackInProcess | BackSubprocess (host : path).
Record executor := Executor {
  x_project_dir : path; x_backend : execution_backend; x_state : executor_backend }.

(** The readings of the host clock and resource probe one call makes, in
    order. *)
Record clock := Clock {
  ck_started : Z; ck_validate : Z; ck_admitted : Z; ck_remaining : Z; ck_check : Z;
  ck_finish : Z; ck_sample : resource_sample }.

Section Reports.
Context (x : executor) (ck : clock).

Definition report_with_metadata (dispatched : option execution_backend)
    (outcome : capability_outcome) (timing : execution_timing)
    (cleanup : option cleanup_strength) (transport : option transport_status)
    : execution_report :=
  ExecutionReport (x_backend x) dispatched (duration_since (ck_finish ck) (ck_started ck))
    outcome (snapshot timing (ck_sample ck)).2 cleanup transport.

Definition report (dispatched : option execution_backend) (outcome : capability_outcome)
    (timing : execution_timing) : execution_report :=
  report_with_metadata dispatched outcome timing None None.

Definition failure (dispatched : option execution_backend) (error : libdeno_error)
    (timing : execution_timing) : execution_failure :=
  ExecutionFailure (ExLibdeno error) (report dispatched Failed timing) None.

Definition result_with_metadata (dispatched : option execution_backend)
    (outcome : capability_outcome) (output : run_output) (options : libdeno_options)
    (timing : execution_timing) (cleanup : option cleanup_strength)
    (transport : option transport_status) : execution_result :=
  ExecutionResult (ro_exit_code output)
    (ExecutionOutput
       (when_requested (o_capture_stdout options) (ro_stdout output))
       (when_requested (o_capture_stderr options) (ro_stderr output))
       (ro_capture_truncated output) false false)
    (report_with_metadata dispatched outcome timing cleanup transport).

(** [ExecutorDispatch::finish] and [Executor::finish_sync_result] *)
Definition finish (r : result run_output captured_run_error) (options : libdeno_options)
    (timing : execution_timing) : result execution_result execution_failure :=
  match r with
  | Ok output =>
      Ok (result_with_metadata (Some (x_backend x)) Used output options timing None None)
  | Err error =>
      Err (captured_execution_failure error (report (Some (x_backend x)) Failed timing) options)
  end.

Definition finish_supervised (r : result supervisor_run_result supervised_subprocess_error)
    (options : libdeno_options) (timing : execution_timing)
    : result execution_result execution_failure :=
  match r with
  | Ok s =>
      Ok (ExecutionResult (sr_exit_code s)
            (supervisor_execution_output (sr_partial s) options)
            (report_with_metadata (Some Subprocess) Used timing
               (Some (sr_cleanup s)) (Some (sr_transport s))))
  | Err e =>
      Err (ExecutionFailure
            (match se_category e with Some c => ExSupervisor c | None => ExLibdeno (se_error e) end)
            (report_with_metadata (Some Subprocess) Failed timing (se_cleanup e) (se_transport e))
            ((fun p => supervisor_execution_output (Some p) options) <$> se_partial e))
  end.
End Reports.

(** ** Normalisation.  [canonicalize] is [std::fs::canonicalize]. *)
Section Normalise.
Context (canonicalize : path -> result path io_error).

Definition cwd_mismatch (cwd project_dir : path) : libdeno_error :=
  Configuration ("execution request cwd " +:+ cwd +:+
    " does not match executor project directory " +:+ project_dir).

(** [Executor::normalize_options] *)
Definition normalize_options (x : executor) (request : execution_request)
    : result libdeno_options libdeno_error :=
  let options := rq_options request in
  let? _ :=
    match o_cwd options with
    | None => Ok tt
    | Some cwd =>
        let? canonical := map_err Io (canonicalize cwd) in
        if decide (canonical = x_project_dir x) then Ok tt
        else Err (cwd_mismatch cwd (x_project_dir x))
    end in
  Ok (with_cwd options (Some (x_project_dir x))).

(** [ExecutorDispatch::normalize_options] also checks the deadline first. *)
Definition dispatch_normalize_options (x : executor) (now : Z) (request : execution_request)
    : result libdeno_options libdeno_error :=
  let? _ := validate_execution_deadline now (o_execution_deadline (rq_options request)) in
  normalize_options x request.

(** The part of [execute_submission] before the backend runs: the options and
    the in-process deadline it hands over, or the error it fails with. *)
Definition submission_inputs (x : executor) (ck : clock) (request : execution_request)
    (deadline : option Z) : result (libdeno_options * option Z) libdeno_error :=
  let? options := dispatch_normalize_options x (ck_validate ck) request in
  let requested_execution_deadline := o_execution_deadline options in
  let remaining := (fun d => duration_since d (ck_remaining ck)) <$> deadline in
  if is_some_and remaining (fun t => bool_decide (t = 0)) then
    Err (Timeout "execution request deadline exceeded")
  else
    let options := with_execution_deadline options
                     (min_deadline (o_execution_deadline options) remaining) in
    let? in_process_deadline :=
      match x_state x with
      | BackInProcess =>
          match absolute_execution_deadline (ck_started ck) deadline
                  requested_execution_deadline with
          | Ok d => Ok d
          | Err _ => Err (Configuration "execution deadline is too large for the host clock")
          end
      | BackSubprocess _ => Ok None
      end in
    if is_some_and in_process_deadline (fun at_ => bool_decide (at_ <= ck_check ck)) then
      Err (Timeout "execution request deadline exceeded")
    else Ok (options, in_process_deadline).

(** The backends, as the functions of lib.rs, runtime.rs and subprocess.rs the
    dispatcher calls; each also returns the phases it recorded. *)
Context (run_cancellable_until : path -> libdeno_options -> cancellation_context -> option Z ->
           result run_output captured_run_error * list (phase * Z)).
Context (run_supervised : path -> path -> libdeno_options -> cancellation_context ->
           cancel_reason -> option Z ->
           result supervisor_run_result supervised_subprocess_error * list (phase * Z)).
Context (run_observed : path -> libdeno_options ->
           result run_output captured_run_error * list (phase * Z)).
Context (run_in_subprocess_selective : path -> path -> libdeno_options ->
           result run_output libdeno_error * list (phase * Z)).
Context (run_in_subprocess : path -> path -> libdeno_options ->
           result Z libdeno_error * list (phase * Z)).

(** [ExecutorDispatch::execute_submission] *)
Definition execute_submission (x : executor) (ck : clock) (request : execution_request)
    (deadline : option Z) (cancellation : cancellation_context)
    (default_cancel_reason : cancel_reason) (timing : execution_timing)
    : result execution_result execution_failure :=
  let timing := drop_span timing (span timing Admission (ck_started ck)) (ck_admitted ck) in
  match submission_inputs x ck request deadline with
  | Err error => Err (failure x ck None error timing)
  | Ok (options, in_process_deadline) =>
      match x_state x with
      | BackInProcess =>
          let '(r, phases) :=
            run_cancellable_until (rq_entry request) options cancellation in_process_deadline in
          finish x ck r options (add_all timing phases)
      | BackSubprocess host =>
          let '(r, phases) :=
            run_supervised host (rq_entry request) options cancellation
              default_cancel_reason deadline in
          finish_supervised x ck r options (add_all timing phases)
      end
  end.

(** [Executor::execute_normalized_sync] *)
Definition execute_normalized_sync (x : executor) (ck : clock) (request : execution_request)
    (options : libdeno_options) (timing : execution_timing)
    : result execution_result execution_failure :=
  match x_state x with
  | BackInProcess =>
      let '(r, phases) := run_observed (rq_entry request) options in
      finish x ck r options (add_all timing phases)
  | BackSubprocess host =>
      if o_capture_stdout options || o_capture_stderr options then
        let '(r, phases) := run_in_subprocess_selective host (rq_entry request) options in
        finish x ck (map_err (fun e => CapturedRunError e None) r) options
          (add_all timing phases)
      else
        let '(r, phases) := run_in_subprocess host (rq_entry request) options in
        match r with
        | Ok exit_code =>
            Ok (ExecutionResult exit_code execution_output_default
                  (report x ck (Some Subprocess) Used (add_all timing phases)))
        | Err error => Err (failure x ck (Some Subprocess) error (add_all timing phases))
        end
  end.

(** [Executor::execute_sync]; [execute_normalized_sync] reads the clock anew. *)
Definition execute_sync (x : executor) (ck inner : clock) (request : execution_request)
    : result execution_result execution_failure :=
  let timing := enabled resource_sample_default in
  let timing := drop_span timing (span timing Admission (ck_started ck)) (ck_admitted ck) in
  match normalize_options x request with
  | Err error => Err (failure x ck None error timing)
  | Ok options => execute_normalized_sync x inner request options timing
  end.

(** [Executor::execute_async]: the same with a check of the async context, and
    the subprocess backend on a blocking task that may fail to be joined. *)
Definition execute_async (x : executor) (ck inner : clock) (request : execution_request)
    (check_async_context : result unit libdeno_error) (join : result unit string)
    : result execution_result execution_failure :=
  let timing := enabled resource_sample_default in
  let timing := drop_span timing (span timing Admission (ck_started ck)) (ck_admitted ck) in
  match normalize_options x request with
  | Err error => Err (failure x ck None error timing)
  | Ok options =>
      match check_async_context with
      | Err error => Err (failure x ck None error timing)
      | Ok _ =>
          match x_state x with
          | BackInProcess =>
              let '(r, phases) := run_observed (rq_entry request) options in
              finish x ck r options (add_all timing phases)
          | BackSubprocess _ =>
              match join with
              | Ok _ => execute_normalized_sync x inner request options timing
              | Err e =>
                  Err (ExecutionFailure
                         (ExInternal ("subprocess dispatch task failed: " +:+ e))
                         (report x ck None Failed timing) None)
              end
          end
      end
  end.

(** [ExecutorBuilder::build] *)
Record executor_builder := ExecutorBuilder {
  eb_project_dir : path; eb_backend : execution_backend; eb_host : option path }.

Context (runtime_new : path -> result unit libdeno_error).
Context (current_dir current_exe : result path io_error).
Context (is_absolute : path -> bool) (path_join : path -> path -> path).

Definition build (b : executor_builder) : result executor execution_error :=
  if decide (eb_backend b = ProcessPool) then
    Err (ExUnsupported (CapBackend ProcessPool) "process pool backend is not available")
  else
    let? project_dir := map_err (fun e => ExLibdeno (Io e)) (canonicalize (eb_project_dir b)) in
    let? state :=
      match eb_backend b with
      | InProcess =>
          let? _ := map_err ExLibdeno (runtime_new project_dir) in Ok BackInProcess
      | _ =>
          let? host :=
            match eb_host b with
            | Some host =>
                if is_absolute host then Ok host
                else let? cwd := map_err (fun e => ExLibdeno (Io e)) current_dir in
                     Ok (path_join cwd host)
            | None => map_err (fun e => ExLibdeno (Io e)) current_exe
            end in
          Ok (BackSubprocess host)
      end in
    Ok (Executor project_dir (eb_backend b) state).
End Normalise.

(** ** Lemmas *)

(** The executors [build] returns. *)
Definition executor_ok (x : executor) : Prop :=
  match x_state x with
  | BackInProcess => x_backend x = InProcess
  | BackSubprocess _ => x_backend x = Subprocess
  end.

Definition result_report (r : result execution_result execution_failure) : execution_report :=
  match r with Ok v => ex_report v | Err f => xf_report f end.
(** The bytes a caller can read from either outcome. *)
Definition result_output (r : result execution_result execution_failure) : execution_output :=
  match r with
  | Ok v => ex_output v
  | Err f => default execution_output_default (xf_partial f)
  end.

(** What every way of finishing a dispatched run guarantees. *)
Definition finished_ok (x : executor) (o : libdeno_options)
    (r : result execution_result execution_failure) : Prop :=
  er_requested (result_report r) = x_backend x /\
  er_outcome (result_report r) = (if is_ok r then Used else Failed) /\
  (o_capture_stdout o = false -> eo_stdout (result_output r) = []) /\
  (o_capture_stderr o = false -> eo_stderr (result_output r) = []).

Lemma finish_finished x ck r o t : finished_ok x o (finish x ck r o t) /\
  er_dispatched (result_report (finish x ck r o t)) = Some (x_backend x).
Proof.
  destruct r as [v|[e [c|]]]; (split; [|done]); repeat split; simpl; intros H;
    unfold when_requested; by rewrite ?H.
Qed.

Lemma finish_supervised_finished x ck r o t :
  finished_ok x o (finish_supervised x ck r o t) /\
  er_dispatched (result_report (finish_supervised x ck r o t)) = Some Subprocess.
Proof.
  destruct r as [[? [p|] ? ?]|[? ? [p|] ? ?]]; (split; [|done]); repeat split; simpl; intros H;
    unfold when_requested; by rewrite ?H.
Qed.

Lemma failure_finished x ck d e t o : finished_ok x o (Err (failure x ck d e t)).
Proof. by repeat split. Qed.

Lemma normalize_options_ok canonicalize x rq o :
  normalize_options canonicalize x rq = Ok o <->
  o = with_cwd (rq_options rq) (Some (x_project_dir x)) /\
  (forall c, o_cwd (rq_options rq) = Some c -> canonicalize c = Ok (x_project_dir x)).
Proof.
  unfold normalize_options. destruct (o_cwd (rq_options rq)) as [c|] eqn:E; simpl.
  - destruct (canonicalize c) as [p|e] eqn:Ec; simpl; [case_decide as Hp|].
    + subst p. split; [intros [= <-]; split; [done|intros ? [= <-]; done]|by intros [-> _]].
    + split; [done|]. intros [_ H]. specialize (H c eq_refl). congruence.
    + split; [done|]. intros [_ H]. specialize (H c eq_refl). congruence.
  - split; [intros [= <-]; done|by intros [-> _]].
Qed.

Lemma normalize_options_capture canonicalize x rq o :
  normalize_options canonicalize x rq = Ok o ->
  o_capture_stdout o = o_capture_stdout (rq_options rq) /\
  o_capture_stderr o = o_capture_stderr (rq_options rq).
Proof. intros [-> _]%normalize_options_ok. done. Qed.

Lemma submission_inputs_capture canonicalize x ck rq d o d' :
  submission_inputs canonicalize x ck rq d = Ok (o, d') ->
  o_capture_stdout o = o_capture_stdout (rq_options rq) /\
  o_capture_stderr o = o_capture_stderr (rq_options rq).
Proof.
  unfold submission_inputs, dispatch_normalize_options.
  destruct (validate_execution_deadline _ _); [|done].
  destruct (normalize_options canonicalize x rq) eqn:E; [|done].
  apply normalize_options_capture in E as [<- <-].
  repeat case_match; intros; simplify_eq/=; done.
Qed.

Lemma absolute_execution_deadline_ok started rd ed d :
  absolute_execution_deadline started rd ed = Ok d <->
  (forall e, ed = Some e -> started + e <= instant_max) /\
  d = option_min rd ((fun e => started + e) <$> ed).
Proof.
  unfold absolute_execution_deadline, checked_add, min_absolute_deadline.
  destruct ed as [e|]; simpl; [case_decide|].
  - split; [intros [= <-]; split; [intros ? [= <-]; lia|done]|by intros [_ ->]].
  - split; [done|]. intros [H' _]; specialize (H' e eq_refl); lia.
  - split; [by intros [= <-]|by intros [_ ->]].
Qed.

Lemma in_process_deadline_ok started rd ed d :
  match absolute_execution_deadline started rd ed with
  | Ok d => Ok d
  | Err _ => Err (Configuration "execution deadline is too large for the host clock")
  end = Ok d <->
  (forall e, ed = Some e -> started + e <= instant_max) /\
  d = option_min rd ((fun e => started + e) <$> ed).
Proof.
  rewrite <- absolute_execution_deadline_ok.
  destruct (absolute_execution_deadline _ _ _) as [|[]]; naive_solver.
Qed.

Lemma dispatch_normalize_ok canonicalize x now rq o :
  dispatch_normalize_options canonicalize x now rq = Ok o <->
  (forall e, o_execution_deadline (rq_options rq) = Some e -> now + e <= instant_max) /\
  (forall c, o_cwd (rq_options rq) = Some c -> canonicalize c = Ok (x_project_dir x)) /\
  o = with_cwd (rq_options rq) (Some (x_project_dir x)).
Proof.
  unfold dispatch_normalize_options. rewrite bind_ok.
  split.
  - intros ([] & Hv%validate_execution_deadline_ok & [-> Hc]%normalize_options_ok).
    split; [intros e He; by rewrite He in Hv|done].
  - intros (Hv & Hc & ->). exists tt. split; [apply validate_execution_deadline_ok|].
    + destruct (o_execution_deadline (rq_options rq)); naive_solver.
    + by apply normalize_options_ok.
Qed.

Lemma remaining_positive (deadline : option Z) now :
  is_some_and ((fun d => duration_since d now) <$> deadline) (fun t => bool_decide (t = 0)) = false
  <-> (forall r, deadline = Some r -> now < r).
Proof.
  rewrite is_some_and_false; unfold duration_since; destruct deadline as [r|]; simpl; [|done].
  split.
  - intros H ? [= <-]; specialize (H _ eq_refl). apply bool_decide_eq_false in H; lia.
  - intros H ? [= <-]; specialize (H _ eq_refl). apply bool_decide_eq_false; lia.
Qed.

Lemma remaining_min own (deadline : option Z) now :
  (forall r, deadline = Some r -> now < r) ->
  min_deadline own ((fun d => duration_since d now) <$> deadline) =
  option_min own ((fun r => r - now) <$> deadline).
Proof.
  intros H; unfold min_deadline, duration_since; f_equal; destruct deadline as [r|]; simpl; [|done].
  specialize (H r eq_refl); f_equal; lia.
Qed.

(** ** Properties *)

(** What a submission hands to its backend, and exactly when: the options
    with the project directory as cwd and the smaller of the caller's and the
    remaining request time as deadline, only while the request deadline has not
    passed, only for a cwd that is the project directory, and in process only
    for an absolute deadline that the clock can represent and that is still
    ahead. *)
Theorem submission_inputs_spec canonicalize (x : executor) (ck : clock)
    (rq : execution_request) (deadline : option Z) (o : libdeno_options) (d : option Z) :
  submission_inputs canonicalize x ck rq deadline = Ok (o, d) <->
  let own := o_execution_deadline (rq_options rq) in
  (forall e, own = Some e -> ck_validate ck + e <= instant_max) /\
  (forall c, o_cwd (rq_options rq) = Some c -> canonicalize c = Ok (x_project_dir x)) /\
  (forall r, deadline = Some r -> ck_remaining ck < r) /\
  o = with_execution_deadline (with_cwd (rq_options rq) (Some (x_project_dir x)))
        (option_min own ((fun r => r - ck_remaining ck) <$> deadline)) /\
  match x_state x with
  | BackInProcess =>
      (forall e, own = Some e -> ck_started ck + e <= instant_max) /\
      d = option_min deadline ((fun e => ck_started ck + e) <$> own) /\
      (forall a, d = Some a -> ck_check ck < a)
  | BackSubprocess _ => d = None
  end.
Proof.
  cbv zeta. unfold submission_inputs. rewrite bind_ok; cbv beta zeta.
  setoid_rewrite dispatch_normalize_ok.
  setoid_rewrite guard_ok. setoid_rewrite remaining_positive.
  setoid_rewrite bind_ok. cbv beta. setoid_rewrite guard_ok.
  setoid_rewrite (is_some_and_false _ (fun at_ => bool_decide (at_ <= ck_check ck))).
  setoid_rewrite bool_decide_eq_false. setoid_rewrite Z.nle_gt.
  set (own := o_execution_deadline (rq_options rq)).
  split.
  - intros (o1 & (H1 & H2 & ->) & H3 & d1 & Hd & H4 & [= <- <-]).
    split; [done|]. split; [done|]. split; [done|].
    split; [by rewrite remaining_min|].
    destruct (x_state x); [|congruence].
    apply in_process_deadline_ok in Hd as [? ->]. done.
  - intros (H1 & H2 & H3 & -> & Hx).
    eexists; split; [done|]. split; [done|]. exists d.
    split; [|split]; [| |by rewrite remaining_min].
    + destruct (x_state x); [|by rewrite Hx]. apply in_process_deadline_ok; naive_solver.
    + destruct (x_state x); [naive_solver|by rewrite Hx].
Qed.

Lemma submission_inputs_spec_witness :
  let x := Executor "/p" InProcess BackInProcess in
  let rq := ExecutionRequest "main.ts" (with_execution_deadline options_default (Some 7)) in
  let ck := Clock 0 0 0 2 3 9 resource_sample_default in
  submission_inputs Ok x ck rq (Some 10) =
    Ok (with_execution_deadline (with_cwd options_default (Some "/p"%string)) (Some 7), Some 7).
Proof.
  apply submission_inputs_spec; cbn; repeat split; try done; intros ? [= <-];
    vm_compute; (reflexivity || discriminate).
Defined.

(** Whatever a backend returns, the caller's view is truthful: the outcome of
    a submission or of a synchronous call names the requested backend, is
    [Used] exactly for a result and [Failed] exactly for a failure, names a
    dispatched backend exactly when one ran, and never carries bytes of a
    stream the request did not capture. *)
Theorem submission_outcome_truthful canonicalize run_cancellable run_supervised
    (x : executor) (ck : clock) (rq : execution_request) (deadline : option Z)
    (c : cancellation_context) (r : cancel_reason) (t : execution_timing)
    (Hx : executor_ok x) :
  let out := execute_submission canonicalize run_cancellable run_supervised x ck rq
               deadline c r t in
  finished_ok x (rq_options rq) out /\
  er_dispatched (result_report out) =
    (if is_ok (submission_inputs canonicalize x ck rq deadline) then Some (x_backend x) else None).
Proof.
  cbv zeta; unfold execute_submission, executor_ok in *.
  destruct (submission_inputs canonicalize x ck rq deadline) as [[o d]|e] eqn:E;
    [|split; [apply failure_finished|done]].
  apply submission_inputs_capture in E as [E1 E2].
  assert (forall out, finished_ok x o out -> finished_ok x (rq_options rq) out) as Hf.
  { intros out (?&?&?&?); unfold finished_ok; by rewrite <- E1, <- E2. }
  destruct (x_state x); simpl.
  - destruct (run_cancellable _ _ _ _) as [raw ph].
    split; [apply Hf|]; apply finish_finished.
  - destruct (run_supervised _ _ _ _ _ _) as [raw ph]. rewrite Hx.
    split; [apply Hf|]; apply finish_supervised_finished.
Qed.

Lemma submission_outcome_truthful_witness :
  let x := Executor "/p" InProcess BackInProcess in
  let rq := ExecutionRequest "main.ts" options_default in
  let ck := Clock 0 0 0 2 3 9 resource_sample_default in
  let run := fun (_ : path) (_ : libdeno_options) (_ : cancellation_context) (_ : option Z) =>
    (@Ok run_output captured_run_error (RunOutput 3 [1] [2] false), @nil (phase * Z)) in
  let sup := fun (_ _ : path) (_ : libdeno_options) (_ : cancellation_context)
      (_ : cancel_reason) (_ : option Z) =>
    (@Err supervisor_run_result supervised_subprocess_error
       (SupervisedSubprocessError (Permission "") None None None None), @nil (phase * Z)) in
  let out := execute_submission Ok run sup x ck rq None ctx_new User disabled in
  eo_stdout (result_output out) = [] /\ er_dispatched (result_report out) = Some InProcess.
Proof.
  cbv zeta.
  match goal with |- context [execute_submission ?a ?b ?c ?d ?e ?f ?g ?h ?i ?j] =>
    destruct (submission_outcome_truthful a b c d e f g h i j eq_refl) as ((_ & _ & H1 & _) & H2)
  end.
  split; [exact (H1 eq_refl)|exact H2].
Defined.

(** The legacy entry point obeys the same rules: a synchronous call fails
    undispatched exactly when the cwd does not normalise to the project
    directory, and never returns bytes of a stream it was not asked to capture. *)
Theorem execute_sync_truthful canonicalize run_observed run_selective run_plain
    (x : executor) (ck inner : clock) (rq : execution_request) (Hx : executor_ok x) :
  let out := execute_sync canonicalize run_observed run_selective run_plain x ck inner rq in
  finished_ok x (rq_options rq) out /\
  er_dispatched (result_report out) =
    (if is_ok (normalize_options canonicalize x rq) then Some (x_backend x) else None).
Proof.
  cbv zeta; unfold execute_sync, execute_normalized_sync, executor_ok in *.
  destruct (normalize_options canonicalize x rq) as [o|e] eqn:E;
    [|split; [apply failure_finished|done]].
  apply normalize_options_capture in E as [E1 E2].
  assert (forall out, finished_ok x o out -> finished_ok x (rq_options rq) out) as Hf.
  { intros out (?&?&?&?); unfold finished_ok; by rewrite <- E1, <- E2. }
  destruct (x_state x); simpl.
  - destruct (run_observed _ _) as [raw ph]. split; [apply Hf|]; apply finish_finished.
  - destruct (_ || _).
    + destruct (run_selective _ _ _) as [raw ph]. split; [apply Hf|]; apply finish_finished.
    + rewrite Hx. destruct (run_plain _ _ _) as [[code|e] ph]; (split; [apply Hf|done]);
        by repeat split.
Qed.

Lemma execute_sync_truthful_witness :
  let x := Executor "/p" Subprocess (BackSubprocess "/host") in
  let rq := ExecutionRequest "main.ts" options_default in
  let ck := Clock 0 0 0 2 3 9 resource_sample_default in
  let out := execute_sync Ok
    (fun _ _ => (Err (CapturedRunError (Permission "") None), []))
    (fun _ _ _ => (Err (Permission ""), [])) (fun _ _ _ => (Ok 4, [])) x ck ck rq in
  er_dispatched (result_report out) = Some Subprocess.
Proof.
  cbv zeta.
  match goal with |- context [execute_sync ?a ?b ?c ?d ?e ?f ?g ?h] =>
    exact (proj2 (execute_sync_truthful a b c d e f g h eq_refl))
  end.
Defined.

(** [build] produces a usable executor or an error, and never the pool
    backend: it answers [Unsupported] exactly for a backend its capability
    report calls unsupported, and otherwise fixes the canonical project
    directory and an executor state of the requested kind. *)
Theorem build_spec canonicalize runtime_new current_dir current_exe is_absolute path_join
    (b : executor_builder) :
  match build canonicalize runtime_new current_dir current_exe is_absolute path_join b with
  | Ok x =>
      availability capability_report_default (CapBackend (eb_backend b)) = Available /\
      executor_ok x /\ x_backend x = eb_backend b /\
      canonicalize (eb_project_dir b) = Ok (x_project_dir x) /\
      (eb_backend b = InProcess -> runtime_new (x_project_dir x) = Ok tt) /\
      (forall h, x_state x = BackSubprocess h ->
         (eb_host b = Some h /\ is_absolute h = true) \/
         (exists r cwd, eb_host b = Some r /\ current_dir = Ok cwd /\ h = path_join cwd r) \/
         (eb_host b = None /\ current_exe = Ok h))
  | Err (ExUnsupported c _) =>
      c = CapBackend (eb_backend b) /\ availability capability_report_default c = Unsupported
  | Err (ExLibdeno _) => True
  | Err _ => False
  end.
Proof.
  unfold build. case_decide as Hb; [by rewrite Hb|].
  destruct (canonicalize _) as [p|] eqn:Ec; simpl; [|done].
  destruct (eb_backend b) eqn:Eb; [..|done]; simpl.
  - destruct (runtime_new p) as [[]|] eqn:Er; simpl; [|done]. by repeat split.
  - destruct (eb_host b) as [h|] eqn:Eh.
    + destruct (is_absolute h) eqn:Ea; simpl; [|destruct current_dir eqn:Ed; simpl; [|done]];
        repeat split; try done; intros ? [= <-]; naive_solver.
    + destruct current_exe eqn:Ee; simpl; [|done].
      repeat split; try done; intros ? [= <-]; naive_solver.
Qed.

(** ** Cloned failures *)

(** [JsErrorBox]'s [source] is its inner error's source. *)
Fixpoint js_boxes_ok (e : dyn_error) : Prop :=
  match e with
  | DynError p source =>
      match source with Some s => js_boxes_ok s | None => True end /\
      match p with
      | PCoreError _ k => js_boxes_ok k
      | PCoreKindJsBox _ k => js_boxes_ok k
      | PCoreKindTranspiler _ (Some k) => js_boxes_ok k
      | PJsErrorBox _ (Some i) =>
          js_boxes_ok i /\
          (forall s, source = Some s -> error_chain_has_permission_source s = true ->
             error_chain_has_permission_source i = true)
      | _ => True
      end
  end.

Lemma core_has_kind e :
  error_chain_has_permission_source e =
  match core_kind e with
  | Some k => error_chain_has_permission_source k
  | None => error_chain_has_permission_source e
  end.
Proof. destruct e as [[] ?]; done. Qed.

(** Sharing a failure between handles never changes how it is classified: the
    copy [into_parts] makes of a still-shared error is a permission error (and a
    timeout) exactly when the original is. *)
Theorem clone_preserves_permission (e : libdeno_error)
    (Hcore : forall c, e = Core c -> js_boxes_ok c /\ is_Some (core_kind c)) :
  let cloned := clone_libdeno_error e (ExLibdeno e) in
  is_permission_error cloned = is_permission_error e /\ is_timeout cloned = is_timeout e.
Proof.
  destruct e as [| | |err|err| |]; simpl; try done.
  - rewrite orb_false_r || idtac.
    assert (error_chain_has_permission_source err = true ->
            existsb error_chain_has_permission_source (chain err) = true) as H.
    { destruct (chain_hd err) as [l ->]; simpl. by intros ->. }
    split; [|done]. destruct (error_chain_has_permission_source err); simpl; [by rewrite H|done].
  - destruct (Hcore err eq_refl) as [Hok [k Hk]]. split; [|done].
    rewrite (core_has_kind err), Hk. unfold is_core_js_box; rewrite Hk.
    destruct err as [[] src]; simplify_eq/=. destruct Hok as [_ Hok].
    destruct k as [[b|b d|es|b k|b box|b o|b|b o|m] s]; simpl; rewrite ?orb_diag; try done.
    destruct box as [[b'|b' d|es|b' k|b' box|b' o|b'|b' [i|]|m] s']; simpl; rewrite ?orb_diag; try done.
    destruct Hok as [_ [_ [_ Hi]]]. destruct s' as [s'|]; simpl; rewrite ?orb_false_r; [|done].
    destruct (error_chain_has_permission_source i) eqn:Ei; [done|].
    destruct (error_chain_has_permission_source s') eqn:Es; [|done]. by specialize (Hi _ eq_refl Es).
Qed.

Lemma clone_preserves_permission_witness :
  let denied := DynError (PPermissionDenied false) None in
  let box := DynError (PJsErrorBox false (Some denied)) None in
  let kind := DynError (PCoreKindJsBox false box) (Some box) in
  let e := Core (DynError (PCoreError false kind) (Some kind)) in
  is_permission_error (clone_libdeno_error e (ExLibdeno e)) = is_permission_error e /\
  is_permission_error e = true.
Proof.
  cbv zeta. split; [|reflexivity].
  refine (proj1 (clone_preserves_permission _ _)). intros c [= <-]; simpl.
  split; [|by eexists]. repeat split; by intros.
Defined.
