(* ===== verification/Control.v ===== *)
(** * One submission's control block (src/executor.rs, [TaskControl]).

    The lifecycle of a submission and the operations that move it, each the
    critical section of the control's own lock.  The failures they build carry
    reports whose observations of clock and resources are an argument. *)
From S2P Require Import Prelude Errors Timing Options Cancel Execution.
Local Open Scope Z_scope.

(** [ExecutionState] *)
Inductive execution_state :=
| Queued | AcceptedNotStarted | Started | Cancelling | Terminated | StCompleted | StFailed.
#[export] Instance execution_state_eq_dec : EqDecision execution_state.
Proof. solve_decision. Defined.

Inductive cancel_outcome :=
| Requested | AlreadyRequested | AlreadyTerminal | NotEnforceableForStartedSubprocess.
#[export] Instance cancel_outcome_eq_dec : EqDecision cancel_outcome.
Proof. solve_decision. Defined.

Inductive submit_error := ShutdownErr | QueueFull | InvalidTimeout | InternalErr (m : string).

(** [tc_state] and [tc_reason] are the fields of [ControlState]. *)
Record task_control := TaskControl {
  tc_backend : execution_backend;
  tc_submitted : Z;
  tc_deadline : option Z;
  tc_timing : execution_timing;
  tc_cancellation : cancellation_context;
  tc_state : execution_state;
  tc_reason : option cancel_reason }.

Definition control_new (backend : execution_backend) (submitted : Z) (deadline : option Z)
    (timing : execution_timing) : task_control :=
  TaskControl backend submitted deadline timing ctx_new Queued None.

Definition set_state (c : task_control) (s : execution_state) : task_control :=
  TaskControl (tc_backend c) (tc_submitted c) (tc_deadline c) (tc_timing c)
    (tc_cancellation c) s (tc_reason c).
Definition set_timing (c : task_control) (t : execution_timing) : task_control :=
  TaskControl (tc_backend c) (tc_submitted c) (tc_deadline c) t
    (tc_cancellation c) (tc_state c) (tc_reason c).
(** Record a cancel reason, enter [Cancelling] and request the context. *)
Definition set_cancelling (c : task_control) (r : cancel_reason) : task_control :=
  TaskControl (tc_backend c) (tc_submitted c) (tc_deadline c) (tc_timing c)
    (request_with_reason (tc_cancellation c) r) Cancelling (Some r).

Definition is_terminal (s : execution_state) : bool :=
  match s with Terminated | StCompleted | StFailed => true | _ => false end.

Definition mark_accepted (c : task_control) : task_control :=
  if decide (tc_state c = Queued) then set_state c AcceptedNotStarted else c.

Definition begin_start (now : Z) (c : task_control) : bool * task_control :=
  if is_terminal (tc_state c) || bool_decide (is_Some (tc_reason c)) then (false, c)
  else if is_some_and (tc_deadline c) (fun d => bool_decide (d <= now)) then
    (false, set_cancelling c Deadline)
  else if decide (tc_backend c = Subprocess) then (true, c)
  else (true, set_state c Started).

Definition mark_started (c : task_control) : bool * task_control :=
  if decide (tc_state c = AcceptedNotStarted /\ tc_reason c = None)
  then (true, set_state c Started) else (false, c).

Definition mark_cancelling (r : cancel_reason) (c : task_control)
    : cancel_outcome * task_control :=
  if is_terminal (tc_state c) then (AlreadyTerminal, c)
  else match tc_reason c with
       | Some _ => (AlreadyRequested, c)
       | None => (Requested, set_cancelling c r)
       end.

Definition mark_terminal (s : execution_state) (c : task_control) : bool * task_control :=
  if is_terminal (tc_state c) then (false, c) else (true, set_state c s).

(** ** Failures the control itself reports *)
Record observation := Observation { ob_now : Z; ob_sample : resource_sample }.

Definition control_record_queue_wait (ob : observation) (c : task_control) : task_control :=
  set_timing c (record_queue_wait (tc_timing c) (tc_submitted c) (ob_now ob)).

(** [TaskControl::report_with_metadata]: records the queue wait, then takes the
    snapshot of the shared timing. *)
Definition control_report (ob : observation) (dispatched : option execution_backend)
    (cleanup : option cleanup_strength) (transport : option transport_status) (c : task_control)
    : task_control * execution_report :=
  let c := control_record_queue_wait ob c in
  let '(t, phases) := snapshot (tc_timing c) (ob_sample ob) in
  (set_timing c t,
   ExecutionReport (tc_backend c) dispatched (duration_since (ob_now ob) (tc_submitted c))
     Failed phases cleanup transport).

Definition deadline_error : execution_error :=
  ExLibdeno (Timeout "execution request deadline exceeded").

(** [deadline_failure...] and [cancelled_failure...] *)
Definition control_failure (e : execution_error) (ob : observation)
    (dispatched : option execution_backend) (cleanup : option cleanup_strength)
    (transport : option transport_status) (partial : option execution_output) (c : task_control)
    : task_control * execution_failure :=
  let '(c, r) := control_report ob dispatched cleanup transport c in
  (c, ExecutionFailure e r partial).

Definition run_result : Type := result execution_result execution_failure.

Definition backend_result_partial_output (r : run_result) (dispatched : execution_backend)
    : option execution_output :=
  match r with
  | Ok v => if decide (dispatched = Subprocess) then Some (ex_output v) else None
  | Err f => xf_partial f
  end.

Definition result_metadata (r : run_result) : option cleanup_strength * option transport_status :=
  match r with
  | Ok v => (er_cleanup (ex_report v), er_transport (ex_report v))
  | Err f => (er_cleanup (xf_report f), er_transport (xf_report f))
  end.

(** The two supervisor categories that outrank a cancellation. *)
Definition supervisor_failure (r : run_result) : option failure_category :=
  match r with
  | Err f => match xf_error f with
             | ExSupervisor CatTimeout => Some CatTimeout
             | ExSupervisor CatInfrastructure => Some CatInfrastructure
             | _ => None
             end
  | Ok _ => None
  end.

Definition timed_out (e : execution_error) : bool :=
  match e with
  | ExLibdeno (Timeout _) | ExSupervisor CatTimeout => true
  | _ => false
  end.

(** [resolve_backend_result]; [None] when the control was terminal already. *)
Definition resolve_backend_result (ob : observation) (backend_result : run_result)
    (dispatched : execution_backend) (c : task_control)
    : option (execution_state * run_result) * task_control :=
  if is_terminal (tc_state c) then (None, c)
  else
    let '(cleanup, transport) := result_metadata backend_result in
    let replaced e :=
      let '(c, f) := control_failure e ob (Some dispatched) cleanup transport
                       (backend_result_partial_output backend_result dispatched) c in
      (Terminated, Err f, c) in
    let '(lifecycle, r, c) :=
      match supervisor_failure backend_result with
      | Some category =>
          (if decide (category = CatTimeout) then Terminated else StFailed, backend_result, c)
      | None =>
          match tc_reason c with
          | Some Deadline => replaced deadline_error
          | Some User | Some Shutdown => replaced ExCancelled
          | None =>
              match backend_result with
              | Ok v => (StCompleted, Ok v, c)
              | Err f =>
                  (if timed_out (xf_error f) then Terminated else StFailed, Err f, c)
              end
          end
      end in
    (Some (lifecycle, r), set_state c lifecycle).

(** ** Lemmas *)

(** The control's invariant: a recorded reason means it is cancelling or done. *)
Definition control_ok (c : task_control) : Prop :=
  (tc_state c = Cancelling -> is_Some (tc_reason c)) /\
  (is_Some (tc_reason c) -> tc_state c = Cancelling \/ is_terminal (tc_state c) = true).

(** [b] is a later state of [a] reached by the operations above. *)
Definition control_le (a b : task_control) : Prop :=
  tc_backend b = tc_backend a /\ tc_deadline b = tc_deadline a /\
  (is_terminal (tc_state a) = true -> tc_state b = tc_state a) /\
  (forall r, tc_reason a = Some r -> tc_reason b = Some r).

Lemma control_le_refl c : control_le c c.
Proof. by repeat split. Qed.

Lemma control_le_trans a b c : control_le a b -> control_le b c -> control_le a c.
Proof.
  intros (H1&H2&H3&H4) (K1&K2&K3&K4). split; [congruence|]. split; [congruence|]. split.
  - intros Ha. rewrite K3; [by apply H3|]. by rewrite H3.
  - intros r Hr; by apply K4, H4.
Qed.

Lemma control_new_ok b s d t : control_ok (control_new b s d t).
Proof. by split; [|intros [? [=]]]. Qed.

(** Reports only touch the timing. *)
Lemma control_report_state ob d cl tr c :
  let c' := (control_report ob d cl tr c).1 in
  tc_state c' = tc_state c /\ tc_reason c' = tc_reason c /\
  tc_backend c' = tc_backend c /\ tc_deadline c' = tc_deadline c.
Proof.
  unfold control_report; destruct (snapshot _ _); by repeat split.
Qed.

Lemma control_failure_state e ob d cl tr p c :
  let c' := (control_failure e ob d cl tr p c).1 in
  tc_state c' = tc_state c /\ tc_reason c' = tc_reason c /\
  tc_backend c' = tc_backend c /\ tc_deadline c' = tc_deadline c.
Proof.
  unfold control_failure. pose proof (control_report_state ob d cl tr c) as H.
  by destruct (control_report _ _ _ _ _).
Qed.

Lemma control_eqs_le (a b : task_control) :
  control_ok a ->
  tc_state b = tc_state a /\ tc_reason b = tc_reason a /\
  tc_backend b = tc_backend a /\ tc_deadline b = tc_deadline a ->
  control_ok b /\ control_le a b.
Proof. unfold control_ok, control_le; intros H (-> & -> & -> & ->); naive_solver. Qed.

Lemma set_cancelling_ok c r :
  is_terminal (tc_state c) = false -> tc_reason c = None ->
  control_ok (set_cancelling c r) /\ control_le c (set_cancelling c r).
Proof. intros H1 H2; split; repeat split; simpl; try done; eauto; rewrite ?H1, ?H2; done. Qed.

Lemma set_state_ok c s :
  control_ok c -> is_terminal (tc_state c) = false ->
  (tc_reason c = None /\ s <> Cancelling \/ is_terminal s = true) ->
  control_ok (set_state c s) /\ control_le c (set_state c s).
Proof.
  intros [H1 H2] Ht Hs; split; repeat split; simpl; try done.
  - intros ->; destruct Hs as [[]|]; done.
  - intros Hr; destruct Hs as [[Hn _]|]; [by rewrite Hn in Hr; destruct Hr|by right].
  - by rewrite Ht.
Qed.

Lemma mark_accepted_ok c :
  control_ok c -> control_ok (mark_accepted c) /\ control_le c (mark_accepted c).
Proof.
  intros Hok; unfold mark_accepted; case_decide as H; [|by split; [|apply control_le_refl]].
  apply set_state_ok; [done|by rewrite H|left]. split; [|done].
  destruct Hok as [_ H2]. destruct (tc_reason c); [|done].
  destruct H2 as [|]; [by eexists|congruence|by rewrite H in *].
Qed.

Lemma begin_start_ok now c b c' :
  control_ok c -> begin_start now c = (b, c') -> control_ok c' /\ control_le c c' /\
    (b = true -> is_terminal (tc_state c') = false /\ tc_reason c' = None) /\
    (b = false -> is_terminal (tc_state c') = true \/ is_Some (tc_reason c')).
Proof.
  unfold begin_start; intros Hok. destruct (is_terminal (tc_state c)) eqn:Ht; simpl.
  { intros [= <- <-]; split_and!; auto using control_le_refl; done. }
  case_bool_decide as Hr.
  { intros [= <- <-]; split_and!; auto using control_le_refl; done. }
  assert (tc_reason c = None) as Hn by (destruct (tc_reason c); [destruct Hr; eauto|done]).
  destruct (is_some_and _ _).
  { intros [= <- <-]. destruct (set_cancelling_ok c Deadline Ht Hn).
    split_and!; try done; right; by eexists. }
  case_decide; intros [= <- <-].
  - split_and!; auto using control_le_refl; done.
  - destruct (set_state_ok c Started Hok Ht) as [Ha Hb]; [by left|]. by split_and!.
Qed.

Lemma mark_started_ok c b c' :
  control_ok c -> mark_started c = (b, c') -> control_ok c' /\ control_le c c' /\
    (is_terminal (tc_state c) = false -> is_terminal (tc_state c') = false) /\
    (tc_state c' = Started -> tc_state c = Started \/ tc_state c = AcceptedNotStarted /\ tc_reason c = None).
Proof.
  unfold mark_started; intros Hok; case_decide as H; intros [= <- <-].
  - destruct H as [H1 H2].
    destruct (set_state_ok c Started Hok) as [Ha Hb]; [by rewrite H1|by left|].
    split_and!; try done; by right.
  - split_and!; auto using control_le_refl.
Qed.

Lemma mark_cancelling_ok r c o c' :
  control_ok c -> mark_cancelling r c = (o, c') -> control_ok c' /\ control_le c c' /\
    (is_terminal (tc_state c) = false -> is_terminal (tc_state c') = false /\ is_Some (tc_reason c')) /\
    (tc_state c' = Started -> tc_state c = Started).
Proof.
  unfold mark_cancelling; intros Hok.
  destruct (is_terminal (tc_state c)) eqn:Ht;
    [intros [= <- <-]; split_and!; auto using control_le_refl; done|].
  destruct (tc_reason c) as [r0|] eqn:Hr; intros [= <- <-].
  - split_and!; eauto using control_le_refl.
  - destruct (set_cancelling_ok c r Ht Hr) as [Ha Hb]. split_and!; try done; eauto.
Qed.

Lemma mark_terminal_ok s c b c' :
  control_ok c -> is_terminal s = true -> mark_terminal s c = (b, c') ->
  control_ok c' /\ control_le c c' /\ is_terminal (tc_state c') = true /\
  b = negb (is_terminal (tc_state c)).
Proof.
  unfold mark_terminal; intros Hok Hs.
  destruct (is_terminal (tc_state c)) eqn:Ht; intros [= <- <-].
  - split_and!; auto using control_le_refl.
  - destruct (set_state_ok c s Hok Ht (or_intror Hs)) as [Ha Hb]. by split_and!.
Qed.

Lemma resolve_ok ob r d c o c' :
  control_ok c -> resolve_backend_result ob r d c = (o, c') ->
  control_ok c' /\ control_le c c' /\ is_terminal (tc_state c') = true /\
  (o = None <-> is_terminal (tc_state c) = true).
Proof.
  unfold resolve_backend_result; intros Hok.
  destruct (is_terminal (tc_state c)) eqn:Ht;
    [intros [= <- <-]; split_and!; auto using control_le_refl; done|].
  destruct (result_metadata r) as [cl tr].
  assert (forall l r0 c0, is_terminal l = true ->
    tc_state c0 = tc_state c /\ tc_reason c0 = tc_reason c /\
    tc_backend c0 = tc_backend c /\ tc_deadline c0 = tc_deadline c ->
    (Some (l, r0), set_state c0 l) = (o, c') ->
    control_ok c' /\ control_le c c' /\ is_terminal (tc_state c') = true /\ (o = None <-> false = true)) as Hgen.
  { intros l r0 c0 Hl Heq [= <- <-]. destruct (control_eqs_le c c0 Hok Heq) as [Ho Hle].
    destruct (set_state_ok c0 l Ho) as [Ha Hb]; [by rewrite (proj1 Heq)|by right|].
    split; [done|]. split; [by eapply control_le_trans|]. done. }
  destruct (supervisor_failure r) as [cat|]; [apply Hgen; [by case_decide|done]|].
  destruct (tc_reason c) as [[]|] eqn:Hr.
  1-3: match goal with |- context [control_failure ?e ?ob ?d ?cl ?tr ?p ?c] =>
         pose proof (control_failure_state e ob d cl tr p c) as Hs;
         destruct (control_failure e ob d cl tr p c) as [c0 f]; apply Hgen; [done|];
         simpl in Hs; by rewrite <- Hr
       end.
  destruct r as [v|f]; apply Hgen; try done. by destruct (timed_out _).
Qed.

(** ** Properties *)

(** What a finished backend resolves to, as a table. *)
Definition resolution (r : run_result) (reason : option cancel_reason)
    : execution_state * option execution_error :=
  match supervisor_failure r, reason, r with
  | Some CatTimeout, _, Err f => (Terminated, Some (xf_error f))
  | Some _, _, Err f => (StFailed, Some (xf_error f))
  | _, Some Deadline, _ => (Terminated, Some deadline_error)
  | _, Some _, _ => (Terminated, Some ExCancelled)
  | _, None, Ok _ => (StCompleted, None)
  | _, None, Err f => (if timed_out (xf_error f) then Terminated else StFailed, Some (xf_error f))
  end.

(** The precedence of terminal outcomes: a control that is already terminal
    keeps its state and publishes nothing; otherwise supervisor timeouts and
    infrastructure failures win over a cancellation, a recorded cancellation
    wins over the backend's own result, and captured output of the replaced
    result is kept as partial output. *)
Theorem resolve_precedence (ob : observation) (r : run_result) (d : execution_backend)
    (c : task_control) :
  let '(out, c') := resolve_backend_result ob r d c in
  if is_terminal (tc_state c) then out = None /\ c' = c
  else exists res, out = Some ((resolution r (tc_reason c)).1, res) /\
    tc_state c' = (resolution r (tc_reason c)).1 /\ is_terminal (tc_state c') = true /\
    tc_reason c' = tc_reason c /\
    match (resolution r (tc_reason c)).2, res with
    | None, Ok _ => res = r
    | Some e, Err f => xf_error f = e /\
        (supervisor_failure r = None -> is_Some (tc_reason c) ->
           xf_partial f = backend_result_partial_output r d /\
           (er_cleanup (xf_report f), er_transport (xf_report f)) = result_metadata r)
    | _, _ => False
    end.
Proof.
  unfold resolve_backend_result.
  destruct (is_terminal (tc_state c)) eqn:Ht; [done|].
  destruct (result_metadata r) as [cl tr] eqn:Em.
  unfold control_failure, control_report; cbv zeta.
  destruct (snapshot _ _) as [t p].
  destruct r as [v|f]; cbn [supervisor_failure resolution].
  - destruct (tc_reason c) as [[]|] eqn:Er; simpl; eexists; (split; [reflexivity|]);
      split_and!; try done; intros _ _; by rewrite <- Em.
  - unfold resolution; cbn [supervisor_failure].
    destruct (xf_error f) as [[]|? ?|?| |[]] eqn:Ef; simpl;
      destruct (tc_reason c) as [[]|] eqn:Er; simpl; rewrite ?Ef; simpl; eexists;
      (split; [reflexivity|]); rewrite ?Ef; split_and!; try done;
      try (intros _ _; by rewrite <- Em); by intros _ [].
Qed.
