(* ===== verification/Scheduler.v ===== *)
(** * The admission scheduler (src/executor.rs, [AdmissionScheduler],
    [TaskOwner], [ExecutionHandle]).

    Shared state: the scheduler's own fields (one lock), the control blocks
    and result cells the handles and owners alias (a store indexed by
    submission id), the owners taken out of the scheduler's lists with where
    each of them stands, and the threads that may be inside [manager_loop],
    [submit] or [shutdown].  Each definition is one critical section of the
    source; [sched_step] interleaves them. *)
From S2P Require Import Prelude Errors Timing Options Cancel Execution Control.
From stdpp Require Import gmap sorting.
Local Open Scope Z_scope.

Definition DEFAULT_ACTIVE_LIMIT : Z := 16.
Definition DEFAULT_QUEUE_LIMIT : Z := 64.

Record admission_config := AdmissionConfig { ac_active_limit : Z; ac_queue_limit : Z }.
Definition admission_config_default : admission_config :=
  AdmissionConfig DEFAULT_ACTIVE_LIMIT DEFAULT_QUEUE_LIMIT.

Record submission_options := SubmissionOptions { so_request_timeout : option Z }.

(** [TaskPermit] *)
Inductive task_permit := PermitActive | PermitQueued.
#[export] Instance task_permit_eq_dec : EqDecision task_permit.
Proof. solve_decision. Defined.

(** [TaskOwner]: its control, timing and result cell are those of its id. *)
Record task_owner := TaskOwner {
  ow_id : Z; ow_request : execution_request; ow_runner : executor;
  ow_deadline : option Z; ow_permit : task_permit }.

(** [TaskOwner::promote] *)
Definition promote (o : task_owner) : task_owner :=
  TaskOwner (ow_id o) (ow_request o) (ow_runner o) (ow_deadline o) PermitActive.

(** Why an owner that never ran is failed: which failure its control builds. *)
Inductive terminal_cause := CauseDeadline | CauseCancelled | CauseInternal (m : string).
Definition cause_error (c : terminal_cause) : execution_error :=
  match c with
  | CauseDeadline => deadline_error
  | CauseCancelled => ExCancelled
  | CauseInternal m => ExInternal m
  end.
Definition cause_of_reason (r : cancel_reason) : terminal_cause :=
  match r with Deadline => CauseDeadline | User | Shutdown => CauseCancelled end.

(** Where an owner outside the scheduler's lists stands. *)
Inductive task_pc :=
| PSpawned
  (** popped for dispatch; its thread has not called [begin_start] *)
| PRunning
  (** [begin_start] succeeded; inside [execute_submission] *)
| PNotStarted
  (** [begin_start] refused; about to read the reason *)
| PSend (s : execution_state) (c : terminal_cause)
  (** about to build its failure and call [send_terminal] *)
| PMark (s : execution_state) (r : run_result)
  (** inside [send_terminal], before [mark_terminal] *)
| PRelease (r : run_result)
  (** inside [publish_terminal], before the permit is dropped *)
| PPublish (r : run_result)
  (** permit dropped, before [ResultCell::publish] *)
| PDrop.
  (** returned without publishing; the owner's drop releases its permit *)

(** [SchedulerState] *)
Record scheduler := Scheduler {
  s_accepting : bool; s_queue : list task_owner; s_ready : list task_owner;
  s_active : gset Z; s_next_id : Z }.

(** A shutdown's pass over the active controls, which holds the scheduler lock
    while each control's own lock is taken twice. *)
Inductive sweep_pc := SweepCheck | SweepMark (id : Z).
Record sweep := Sweep { sw_todo : list Z; sw_pc : sweep_pc; sw_count : Z }.

(** The manager thread between its critical sections, and a [submit] between
    publishing its owner and returning. *)
Inductive manager_pc := MgrTop | MgrRecheck | MgrExiting.
Inductive submit_pc := SubEnsure | SubSpawn | SubFailPending (m : string).

Record world := World {
  w_state : scheduler;
  w_controls : gmap Z task_control;
  w_results : gmap Z run_result;
  w_tasks : gmap Z (task_owner * task_pc);
  w_sweep : option sweep;
  w_manager_started : bool;
  w_managers : list manager_pc;
  w_submits : list submit_pc }.

Definition set_sched (w : world) (s : scheduler) : world :=
  World s (w_controls w) (w_results w) (w_tasks w) (w_sweep w) (w_manager_started w)
    (w_managers w) (w_submits w).
Definition set_control (w : world) (id : Z) (c : task_control) : world :=
  World (w_state w) (<[id := c]> (w_controls w)) (w_results w) (w_tasks w) (w_sweep w)
    (w_manager_started w) (w_managers w) (w_submits w).
Definition set_result (w : world) (id : Z) (r : run_result) : world :=
  World (w_state w) (w_controls w) (<[id := r]> (w_results w)) (w_tasks w) (w_sweep w)
    (w_manager_started w) (w_managers w) (w_submits w).
Definition set_task (w : world) (o : task_owner) (pc : task_pc) : world :=
  World (w_state w) (w_controls w) (w_results w) (<[ow_id o := (o, pc)]> (w_tasks w)) (w_sweep w)
    (w_manager_started w) (w_managers w) (w_submits w).
Definition drop_task (w : world) (id : Z) : world :=
  World (w_state w) (w_controls w) (w_results w) (delete id (w_tasks w)) (w_sweep w)
    (w_manager_started w) (w_managers w) (w_submits w).
Definition set_sweep (w : world) (s : option sweep) : world :=
  World (w_state w) (w_controls w) (w_results w) (w_tasks w) s (w_manager_started w)
    (w_managers w) (w_submits w).
Definition set_threads (w : world) (started : bool) (m : list manager_pc) (s : list submit_pc)
    : world :=
  World (w_state w) (w_controls w) (w_results w) (w_tasks w) (w_sweep w) started m s.

Definition with_lists (s : scheduler) (queue ready : list task_owner) : scheduler :=
  Scheduler (s_accepting s) queue ready (s_active s) (s_next_id s).
Definition with_active (s : scheduler) (a : gset Z) : scheduler :=
  Scheduler (s_accepting s) (s_queue s) (s_ready s) a (s_next_id s).
Definition with_accepting (s : scheduler) (b : bool) : scheduler :=
  Scheduler b (s_queue s) (s_ready s) (s_active s) (s_next_id s).
Definition set_queue (w : world) (q : list task_owner) : world :=
  set_sched w (with_lists (w_state w) q (s_ready (w_state w))).
Definition set_ready (w : world) (r : list task_owner) : world :=
  set_sched w (with_lists (w_state w) (s_queue (w_state w)) r).

(** [AdmissionScheduler::new] *)
Definition scheduler_new : world :=
  World (Scheduler true [] [] ∅ 1) ∅ ∅ ∅ None false [] [].

(** A control operation applied to the stored control of [id]. *)
Definition update_control (id : Z) (f : task_control -> task_control) (w : world) : world :=
  match w_controls w !! id with Some c => set_control w id (f c) | None => w end.

Definition control_state (w : world) (id : Z) : option execution_state :=
  tc_state <$> w_controls w !! id.

(** ** [submit] *)
Section Submit.
Context (cfg : admission_config).

Definition next_id (id : Z) : Z := Z.max (wrapping_add_u64 id 1) 1.

Definition submit_deadline (submitted : Z) (submission : submission_options)
    : result (option Z) submit_error :=
  match so_request_timeout submission with
  | Some timeout =>
      match checked_add submitted timeout with
      | Some d => Ok (Some d)
      | None => Err InvalidTimeout
      end
  | None => Ok None
  end.

(** Up to the end of the critical section: [inr id] when the owner was
    published.  A full queue has already consumed an id.  [ob] has the sample the
    timing starts with and the clock when the queue wait is recorded. *)
Definition submit (submitted : Z) (ob : observation) (runner : executor)
    (request : execution_request) (submission : submission_options) (w : world)
    : (submit_error + Z) * world :=
  let s := w_state w in
  match submit_deadline submitted submission with
  | Err e => (inl e, w)
  | Ok deadline =>
      if negb (s_accepting s) then (inl ShutdownErr, w)
      else
        let id := s_next_id s in
        let control := control_new (x_backend runner) submitted deadline (enabled (ob_sample ob)) in
        let s := Scheduler (s_accepting s) (s_queue s) (s_ready s) (s_active s) (next_id id) in
        if decide (Z.of_nat (size (s_active s)) < ac_active_limit cfg /\ s_queue s = []) then
          let control := control_record_queue_wait ob (mark_accepted control) in
          let owner := TaskOwner id request runner deadline PermitActive in
          let s := with_active (with_lists s (s_queue s) (s_ready s ++ [owner]))
                     ({[id]} ∪ s_active s) in
          (inr id, set_control (set_sched w s) id control)
        else if decide (Z.of_nat (length (s_queue s)) >= ac_queue_limit cfg) then
          (inl QueueFull, set_sched w s)
        else
          let owner := TaskOwner id request runner deadline PermitQueued in
          let s := with_lists s (s_queue s ++ [owner]) (s_ready s) in
          (inr id, set_control (set_sched w s) id control)
  end.

(** ** The manager's first critical section *)

Definition expired (now : Z) (deadline : option Z) : bool :=
  is_some_and deadline (fun d => bool_decide (d <= now)).

Definition cancel_control (r : cancel_reason) (c : task_control) : task_control :=
  (mark_cancelling r c).2.

(** An owner taken out of a list: [mark_cancelling], then [send_terminal] once
    the lock is dropped. *)
Definition take_cancelled (r : cancel_reason) (o : task_owner) (w : world) : world :=
  set_task (update_control (ow_id o) (cancel_control r) w) o
    (PSend Terminated (cause_of_reason r)).

(** The two [while let Some(owner) = ... pop_front()] loops: [retained] is the
    rebuilt list, [l] what is left to pop. *)
Fixpoint expire_queue (now : Z) (retained l : list task_owner) (w : world) : world :=
  match l with
  | [] => set_queue w retained
  | o :: l =>
      if expired now (ow_deadline o)
      then expire_queue now retained l (take_cancelled Deadline o (set_queue w (retained ++ l)))
      else expire_queue now (retained ++ [o]) l w
  end.
Fixpoint expire_ready (now : Z) (retained l : list task_owner) (w : world) : world :=
  match l with
  | [] => set_ready w retained
  | o :: l =>
      if expired now (ow_deadline o)
      then expire_ready now retained l (take_cancelled Deadline o (set_ready w (retained ++ l)))
      else expire_ready now (retained ++ [o]) l w
  end.

(** The active controls whose deadline passed and that are still running. *)
Definition deadline_due (now : Z) (w : world) (id : Z) : bool :=
  match w_controls w !! id with
  | Some c => expired now (tc_deadline c) &&
      bool_decide (tc_state c = AcceptedNotStarted \/ tc_state c = Started)
  | None => false
  end.
Definition expire_active (now : Z) (w : world) : world :=
  foldr (fun id w => update_control id (cancel_control Deadline) w) w
    (List.filter (deadline_due now w) (elements (s_active (w_state w)))).

(** The admission loop; [fuel] bounds it by the queue's length. *)
Fixpoint admit_queued (fuel : nat) (ob : observation) (w : world) : world :=
  match fuel with
  | O => w
  | S fuel =>
      let s := w_state w in
      if decide (Z.of_nat (size (s_active s)) < ac_active_limit cfg) then
        match s_queue s with
        | [] => w
        | o :: q =>
            let w := set_sched w
                       (with_active (with_lists s q (s_ready s ++ [promote o]))
                          ({[ow_id o]} ∪ s_active s)) in
            admit_queued fuel ob
              (update_control (ow_id o)
                 (fun c => control_record_queue_wait ob (mark_accepted c)) w)
        end
      else w
  end.

Definition pop_ready (w : world) : option task_owner * world :=
  match s_ready (w_state w) with
  | [] => (None, w)
  | o :: r => (Some o, set_task (set_ready w r) o PSpawned)
  end.

Definition all_empty (s : scheduler) : bool :=
  bool_decide (s_active s = ∅) && bool_decide (length (s_queue s) = 0%nat) &&
  bool_decide (length (s_ready s) = 0%nat).

(** The whole section: whether an owner was dispatched, whether the manager
    leaves the loop, and the state it leaves. *)
Definition manager_tick (ob : observation) (w : world) : bool * bool * world :=
  let w := expire_queue (ob_now ob) [] (s_queue (w_state w)) w in
  let w := expire_ready (ob_now ob) [] (s_ready (w_state w)) w in
  let w := expire_active (ob_now ob) w in
  let w := admit_queued (length (s_queue (w_state w))) ob w in
  let '(dispatch, w) := pop_ready w in
  (bool_decide (is_Some dispatch),
   negb (s_accepting (w_state w)) && all_empty (w_state w), w).

(** ** The second critical section, when nothing was dispatched *)
Definition has_dispatchable_pending (active active_limit : Z) (queued ready : bool) : bool :=
  ready || (queued && bool_decide (active < active_limit)).

Definition next_deadline (w : world) : option Z :=
  let s := w_state w in
  let waiting := omap ow_deadline (s_queue s ++ s_ready s) in
  let running := omap (fun id =>
      c ← w_controls w !! id;
      if decide (tc_state c = AcceptedNotStarted \/ tc_state c = Started)
      then tc_deadline c else None) (elements (s_active s)) in
  foldr (fun d m => option_min (Some d) m) None (waiting ++ running).

Inductive recheck_outcome := RecheckExit | RecheckAgain | RecheckWait (d : Z).

Definition manager_recheck (now : Z) (w : world) : recheck_outcome :=
  let s := w_state w in
  if all_empty s then RecheckExit
  else if has_dispatchable_pending (Z.of_nat (size (s_active s))) (ac_active_limit cfg)
            (negb (bool_decide (length (s_queue s) = 0%nat)))
            (negb (bool_decide (length (s_ready s) = 0%nat)))
  then RecheckAgain
  else RecheckWait (match next_deadline w with
                    | Some d => duration_since d now
                    | None => from_millis 100
                    end).

(** ** Cancellation *)

(** [AdmissionScheduler::request_cancel] *)
Definition request_cancel (id : Z) (reason : cancel_reason) (w : world)
    : cancel_outcome * world :=
  match w_controls w !! id with
  | None => (AlreadyTerminal, w)
  | Some c =>
      if is_terminal (tc_state c) then (AlreadyTerminal, w)
      else
        let outcome := (mark_cancelling reason c).1 in
        match list_find (fun o => ow_id o = id) (s_queue (w_state w)) with
        | Some (i, o) =>
            (outcome, take_cancelled reason o (set_queue w (delete i (s_queue (w_state w)))))
        | None =>
            match list_find (fun o => ow_id o = id) (s_ready (w_state w)) with
            | Some (i, o) =>
                (outcome, take_cancelled reason o (set_ready w (delete i (s_ready (w_state w)))))
            | None => (outcome, update_control id (cancel_control reason) w)
            end
        end
  end.

(** [TaskControl::request_cancel]: the scheduler may be gone. *)
Definition handle_cancel (scheduler_alive : bool) (id : Z) (reason : cancel_reason) (w : world)
    : cancel_outcome * world :=
  if scheduler_alive then request_cancel id reason w
  else match control_state w id with
       | Some s => (if is_terminal s then AlreadyTerminal else AlreadyRequested, w)
       | None => (AlreadyTerminal, w)
       end.

Definition release_active (id : Z) (w : world) : world :=
  set_sched w (with_active (w_state w) (s_active (w_state w) ∖ {[id]})).

(** ** Owners in flight: [spawn_task], [TaskOwner::run], [send_terminal],
    [publish_terminal] and the permit's drop, one critical section at a time *)
Inductive task_event :=
| EvThreadFailed (m : string)
| EvStart (now : Z)
| EvStarted
| EvBackend (ob : observation) (r : run_result)
| EvBackendPanic (ob : observation)
| EvTaskPanic
| EvNext (ob : observation).

Definition drop_permit (o : task_owner) (w : world) : world :=
  match ow_permit o with PermitActive => release_active (ow_id o) w | PermitQueued => w end.

(** [ResultCell::publish]: only the first publication is kept. *)
Definition publish (id : Z) (r : run_result) (w : world) : world :=
  match w_results w !! id with None => set_result w id r | Some _ => w end.

Definition finish_backend (ob : observation) (r : run_result) (o : task_owner)
    (c : task_control) (w : world) : world :=
  let '(out, c) := resolve_backend_result ob r (x_backend (ow_runner o)) c in
  set_task (set_control w (ow_id o) c) o
    (match out with Some (_, r) => PRelease r | None => PDrop end).

Definition task_step (ev : task_event) (o : task_owner) (pc : task_pc) (w : world)
    : option world :=
  let id := ow_id o in
  match w_controls w !! id with
  | None => None
  | Some c =>
      match pc, ev with
      | PSpawned, EvThreadFailed m =>
          Some (set_task w o
            (PSend StFailed (CauseInternal ("failed to start execution task: " +:+ m))))
      | PSpawned, EvStart now =>
          let '(started, c) := begin_start now c in
          Some (set_task (set_control w id c) o (if started then PRunning else PNotStarted))
      | PRunning, EvStarted => Some (set_control w id (mark_started c).2)
      | PRunning, EvBackend ob r => Some (finish_backend ob r o c w)
      | PRunning, EvBackendPanic ob =>
          let '(c, f) := control_failure (ExInternal "submission backend panicked") ob
                           (Some (x_backend (ow_runner o))) None None None c in
          Some (finish_backend ob (Err f) o c w)
      | PSpawned, EvTaskPanic | PRunning, EvTaskPanic | PNotStarted, EvTaskPanic =>
          Some (set_task w o (PSend StFailed (CauseInternal "submission task panicked")))
      | PNotStarted, EvNext _ =>
          Some (set_task w o (PSend Terminated
            (match tc_reason c with
             | Some r => cause_of_reason r
             | None => CauseInternal "submission was not startable"
             end)))
      | PSend s cause, EvNext ob =>
          let '(c, f) := control_failure (cause_error cause) ob None None None None c in
          Some (set_task (set_control w id c) o (PMark s (Err f)))
      | PMark s r, EvNext _ =>
          let '(marked, c) := mark_terminal s c in
          Some (set_task (set_control w id c) o (if marked then PRelease r else PDrop))
      | PRelease r, EvNext _ => Some (set_task (drop_permit o w) o (PPublish r))
      | PPublish r, EvNext _ => Some (drop_task (publish id r w) id)
      | PDrop, EvNext _ => Some (drop_task (drop_permit o w) id)
      | _, _ => None
      end
  end.

(** Whether the step takes the scheduler lock. *)
Definition needs_lock (o : task_owner) (pc : task_pc) : bool :=
  match pc with PRelease _ | PDrop => bool_decide (ow_permit o = PermitActive) | _ => false end.

(** ** [fail_pending] *)
Definition send_failed (m : string) (o : task_owner) (w : world) : world :=
  set_task w o (PSend StFailed (CauseInternal m)).
Fixpoint drain_queue (f : task_owner -> world -> world) (l : list task_owner) (w : world) : world :=
  match l with [] => w | o :: l => drain_queue f l (f o (set_queue w l)) end.
Fixpoint drain_ready (f : task_owner -> world -> world) (l : list task_owner) (w : world) : world :=
  match l with [] => w | o :: l => drain_ready f l (f o (set_ready w l)) end.

Definition fail_pending (m : string) (w : world) : world :=
  let w := drain_queue (send_failed m) (s_queue (w_state w)) w in
  drain_ready (send_failed m) (s_ready (w_state w)) w.

(** ** [shutdown] *)
Record shutdown_report := ShutdownReport {
  sd_queued_cancelled : Z; sd_accepted_not_started_cancelled : Z;
  sd_active_cancel_requested : Z }.

Definition send_cancelled (o : task_owner) (w : world) : world :=
  set_task w o (PSend Terminated CauseCancelled).

(** Under the lock: stop accepting, drain both lists, mark the ready owners and
    start the pass over the active controls in the order [HashMap::values]
    yields them.  The result is [queued_cancelled]. *)
Definition shutdown_begin (order : list Z) (w : world) : Z * world :=
  let s := w_state w in
  let w := set_sched w (with_accepting s false) in
  let w := drain_queue send_cancelled (s_queue s) w in
  let w := drain_ready (take_cancelled Shutdown) (s_ready s) w in
  (Z.of_nat (length (s_queue s)),
   set_sweep w (Some (Sweep order SweepCheck (Z.of_nat (length (s_ready s)))))).

(** One access of the pass to one control: read its state, then
    [mark_cancelling]; the pass is over when nothing is left to visit. *)
Definition sweep_step (sw : sweep) (w : world) : option sweep * world :=
  match sw_pc sw with
  | SweepCheck =>
      match sw_todo sw with
      | [] => (None, w)
      | id :: todo =>
          (Some (Sweep todo
                   (if decide (control_state w id = Some AcceptedNotStarted)
                    then SweepMark id else SweepCheck) (sw_count sw)), w)
      end
  | SweepMark id =>
      match w_controls w !! id with
      | None => (Some (Sweep (sw_todo sw) SweepCheck (sw_count sw)), w)
      | Some c =>
          let '(outcome, c) := mark_cancelling Shutdown c in
          (Some (Sweep (sw_todo sw) SweepCheck
                   (if decide (outcome = Requested) then sw_count sw + 1 else sw_count sw)),
           set_control w id c)
      end
  end.

(** The grace wait: [deadline] is [None] when it cannot be represented. *)
Inductive shutdown_wait := SdReturn | SdForce | SdWait (remaining : option Z).
Definition shutdown_poll (deadline : option Z) (now : Z) (w : world) : shutdown_wait :=
  if decide (s_active (w_state w) = ∅) then SdReturn
  else match deadline with
       | None => SdWait None
       | Some d =>
           let remaining := duration_since d now in
           if decide (remaining = 0) then SdForce else SdWait (Some remaining)
       end.

(** After the grace period: the controls still started, and their cancellation. *)
Definition shutdown_started (w : world) : list Z :=
  List.filter (fun id => bool_decide (control_state w id = Some Started))
    (elements (s_active (w_state w))).
Definition shutdown_force (id : Z) (count : Z) (w : world) : Z * world :=
  if is_some_and (control_state w id) is_terminal then (count, w)
  else
    let '(outcome, w) := request_cancel id Shutdown w in
    (if decide (outcome = AlreadyTerminal \/ outcome = AlreadyRequested)
     then count else count + 1, w).

(** ** [ensure_manager] and the life of the manager thread *)
Definition ensure_manager (w : world) (i : nat) : world :=
  if w_manager_started w
  then set_threads w true (w_managers w) (delete i (w_submits w))
  else set_threads w true (w_managers w) (<[i := SubSpawn]> (w_submits w)).

Definition spawn_manager (w : world) (i : nat) (spawn : result unit string) : world :=
  match spawn with
  | Ok _ => set_threads w (w_manager_started w) (w_managers w ++ [MgrTop]) (delete i (w_submits w))
  | Err e => set_threads w false (w_managers w)
      (<[i := SubFailPending ("failed to start execution manager: " +:+ e)]> (w_submits w))
  end.

Definition manager_loop_tick (w : world) (i : nat) (ob : observation) : world :=
  let '(dispatched, should_exit, w) := manager_tick ob w in
  set_threads w (w_manager_started w)
    (<[i := if should_exit then MgrExiting else if dispatched then MgrTop else MgrRecheck]>
       (w_managers w)) (w_submits w).

Definition manager_loop_recheck (w : world) (i : nat) (now : Z) : world :=
  match manager_recheck now w with
  | RecheckExit => set_threads w false (delete i (w_managers w)) (w_submits w)
  | _ => set_threads w (w_manager_started w) (<[i := MgrTop]> (w_managers w)) (w_submits w)
  end.

(** ** All interleavings.  The relation covers the first 2^64 - 2 submissions:
    ids are compared before the counter wraps. *)
Inductive sched_step : world -> world -> Prop :=
| ss_submit w w' t ob runner request submission id :
    w_sweep w = None -> s_next_id (w_state w) < u64_max ->
    submit t ob runner request submission w = (inr id, w') ->
    sched_step w (set_threads w' (w_manager_started w') (w_managers w')
                    (w_submits w' ++ [SubEnsure]))
| ss_submit_refused w w' t ob runner request submission e :
    w_sweep w = None -> s_next_id (w_state w) < u64_max ->
    submit t ob runner request submission w = (inl e, w') ->
    sched_step w w'
| ss_ensure w i :
    w_submits w !! i = Some SubEnsure -> sched_step w (ensure_manager w i)
| ss_spawn w i r :
    w_submits w !! i = Some SubSpawn -> sched_step w (spawn_manager w i r)
| ss_fail_pending w i m :
    w_sweep w = None -> w_submits w !! i = Some (SubFailPending m) ->
    sched_step w (set_threads (fail_pending m w) (w_manager_started w) (w_managers w)
                    (delete i (w_submits w)))
| ss_tick w i ob :
    w_sweep w = None -> w_managers w !! i = Some MgrTop ->
    sched_step w (manager_loop_tick w i ob)
| ss_recheck w i now :
    w_sweep w = None -> w_managers w !! i = Some MgrRecheck ->
    sched_step w (manager_loop_recheck w i now)
| ss_exit w i :
    w_managers w !! i = Some MgrExiting ->
    sched_step w (set_threads w false (delete i (w_managers w)) (w_submits w))
| ss_cancel w id r :
    w_sweep w = None -> sched_step w (request_cancel id r w).2
| ss_task w w' id o pc ev :
    w_tasks w !! id = Some (o, pc) -> (needs_lock o pc = true -> w_sweep w = None) ->
    task_step ev o pc w = Some w' -> sched_step w w'
| ss_shutdown w order :
    w_sweep w = None -> order ≡ₚ elements (s_active (w_state w)) ->
    sched_step w (shutdown_begin order w).2
| ss_sweep w sw :
    w_sweep w = Some sw ->
    sched_step w (set_sweep (sweep_step sw w).2 (sweep_step sw w).1).
End Submit.
