(* ===== verification/SchedulerInv.v ===== *)
(** * Where every submission is: the invariant of the admission scheduler.

    Each submission id is in exactly one place ([located]): not yet issued,
    queued, ready, owned by a thread, or finished with its result published.
    Every critical section moves at most a few ids along these places, and the
    lemmas here give the moves. *)
From S2P Require Import Prelude Errors Timing Options Cancel Execution Control Scheduler.
From stdpp Require Import gmap sorting.
Local Open Scope Z_scope.

(** ** What the state says about one id *)
Record view := View {
  v_queue : list task_owner; v_ready : list task_owner; v_active : bool;
  v_task : option (task_owner * task_pc); v_result : option run_result;
  v_control : option task_control }.

Definition of_id (id : Z) (l : list task_owner) : list task_owner :=
  filter (fun o => ow_id o = id) l.

Definition view_of (w : world) (id : Z) : view :=
  View (of_id id (s_queue (w_state w))) (of_id id (s_ready (w_state w)))
    (bool_decide (id ∈ s_active (w_state w))) (w_tasks w !! id) (w_results w !! id)
    (w_controls w !! id).

Definition permit_held (o : task_owner) (pc : task_pc) : bool :=
  bool_decide (ow_permit o = PermitActive) && match pc with PPublish _ => false | _ => true end.

(** What holds of an owner and its control at each point of the owner's life. *)
Definition task_pc_ok (o : task_owner) (pc : task_pc) (c : task_control) : Prop :=
  match pc with
  | PSpawned | PRunning =>
      ow_permit o = PermitActive /\ is_terminal (tc_state c) = false /\ tc_state c <> Queued
  | PNotStarted =>
      ow_permit o = PermitActive /\ is_terminal (tc_state c) = false /\ is_Some (tc_reason c)
  | PSend s _ | PMark s _ => is_terminal s = true /\ is_terminal (tc_state c) = false
  | PRelease _ | PPublish _ => is_terminal (tc_state c) = true
  | PDrop => False
  end.

Inductive located (id : Z) : view -> Prop :=
| at_unborn : located id (View [] [] false None None None)
| at_queue o c :
    ow_id o = id -> ow_permit o = PermitQueued ->
    tc_state c = Queued -> tc_reason c = None -> ow_deadline o = tc_deadline c ->
    located id (View [o] [] false None None (Some c))
| at_ready o c :
    ow_id o = id -> ow_permit o = PermitActive ->
    tc_state c = AcceptedNotStarted -> tc_reason c = None -> ow_deadline o = tc_deadline c ->
    located id (View [] [o] true None None (Some c))
| at_task o pc c :
    ow_id o = id -> control_ok c -> task_pc_ok o pc c ->
    located id (View [] [] (permit_held o pc) (Some (o, pc)) None (Some c))
| at_done r c :
    control_ok c -> is_terminal (tc_state c) = true ->
    located id (View [] [] false None (Some r) (Some c)).

Record Inv (cfg : admission_config) (w : world) : Prop := {
  inv_located : forall id, located id (view_of w id);
  inv_born : forall id, is_Some (w_controls w !! id) -> id < s_next_id (w_state w);
  inv_active_limit : Z.of_nat (size (s_active (w_state w))) <= ac_active_limit cfg;
  inv_queue_limit : Z.of_nat (length (s_queue (w_state w))) <= ac_queue_limit cfg;
  inv_queue_sorted : StronglySorted Z.lt (ow_id <$> s_queue (w_state w));
  inv_fifo : forall o a, o ∈ s_queue (w_state w) -> a ∈ s_active (w_state w) -> a < ow_id o }.

(** ** Views of lists *)

Lemma of_id_in id l o : o ∈ of_id id l <-> ow_id o = id /\ o ∈ l.
Proof. unfold of_id; by rewrite list_elem_of_filter. Qed.

Lemma of_id_mid id pre o post :
  of_id id (pre ++ o :: post) =
  of_id id pre ++ (if decide (ow_id o = id) then [o] else []) ++ of_id id post.
Proof.
  unfold of_id; rewrite filter_app, filter_cons. by case_decide.
Qed.

Lemma of_id_app id l k : of_id id (l ++ k) = of_id id l ++ of_id id k.
Proof. apply filter_app. Qed.

(** In a located state, an owner of a list is the only one of its id there. *)
Lemma located_mid_queue w id pre o post :
  located id (view_of w id) -> s_queue (w_state w) = pre ++ o :: post -> ow_id o = id ->
  exists c, of_id id pre = [] /\ of_id id post = [] /\ of_id id (s_ready (w_state w)) = [] /\
    ow_deadline o = tc_deadline c /\ ow_permit o = PermitQueued /\ tc_state c = Queued /\ tc_reason c = None /\
    id ∉ s_active (w_state w) /\ w_tasks w !! id = None /\ w_results w !! id = None /\
    w_controls w !! id = Some c.
Proof.
  intros H Hq Ho. remember (view_of w id) as v eqn:E. unfold view_of in E.
  rewrite Hq, of_id_mid, decide_True in E by done.
  destruct H; injection E as E1 E2 E3 E4 E5 E6; try (by destruct (of_id id pre)).
  destruct (of_id id pre) as [|x l] eqn:Epre; simpl in E1; [|by destruct l].
  injection E1 as <- E1. exists c. split_and!; auto.
  - by eapply bool_decide_eq_false; symmetry.
Qed.

Lemma located_mid_ready w id pre o post :
  located id (view_of w id) -> s_ready (w_state w) = pre ++ o :: post -> ow_id o = id ->
  exists c, of_id id pre = [] /\ of_id id post = [] /\ of_id id (s_queue (w_state w)) = [] /\
    ow_deadline o = tc_deadline c /\ ow_permit o = PermitActive /\ tc_state c = AcceptedNotStarted /\ tc_reason c = None /\
    id ∈ s_active (w_state w) /\ w_tasks w !! id = None /\ w_results w !! id = None /\
    w_controls w !! id = Some c.
Proof.
  intros H Hq Ho. remember (view_of w id) as v eqn:E. unfold view_of in E.
  rewrite Hq, of_id_mid, decide_True in E by done.
  destruct H; injection E as E1 E2 E3 E4 E5 E6; try (by destruct (of_id id pre)).
  destruct (of_id id pre) as [|x l] eqn:Epre; simpl in E2; [|by destruct l].
  injection E2 as <- E2. exists c. split_and!; auto.
  - by eapply bool_decide_eq_true; symmetry.
Qed.


(** ** Moves *)

Lemma StronglySorted_sublist (l k : list Z) :
  sublist l k -> StronglySorted Z.lt k -> StronglySorted Z.lt l.
Proof.
  induction 1 as [|x l k Hs IH|x l k Hs IH]; intros Hk; [done|..];
    apply StronglySorted_inv in Hk as [Hk Hf]; [|by apply IH].
  constructor; [by apply IH|]. apply Forall_forall; intros y Hy.
  rewrite Forall_forall in Hf. apply Hf. by eapply elem_of_sublist.
Qed.

(** A step that touches one id, keeps or shrinks the queue and the active set. *)
Lemma inv_move cfg w w' i :
  Inv cfg w ->
  (forall j, j <> i -> view_of w' j = view_of w j) ->
  located i (view_of w' i) ->
  (is_Some (w_controls w' !! i) -> is_Some (w_controls w !! i)) ->
  s_next_id (w_state w') = s_next_id (w_state w) ->
  s_active (w_state w') ⊆ s_active (w_state w) ->
  sublist (s_queue (w_state w')) (s_queue (w_state w)) ->
  Inv cfg w'.
Proof.
  intros [Hl Hb Ha Hq Hs Hf] Hv Hi Hc Hn Hact Hsub; split.
  - intros j; destruct (decide (j = i)) as [->|Hj]; [done|rewrite Hv by done; apply Hl].
  - intros j Hj; rewrite Hn; apply Hb; destruct (decide (j = i)) as [->|Hne]; [auto|].
    specialize (Hv j Hne); unfold view_of in Hv; injection Hv; intros E; by rewrite <- E.
  - pose proof (subseteq_size _ _ Hact); lia.
  - apply sublist_length in Hsub; lia.
  - eapply StronglySorted_sublist; [|done]. by apply fmap_sublist.
  - intros o a Ho Ha'; apply Hf; [by eapply elem_of_sublist|set_solver].
Qed.

Lemma view_set_task w o pc j :
  view_of (set_task w o pc) j =
  View (v_queue (view_of w j)) (v_ready (view_of w j)) (v_active (view_of w j))
    (if decide (ow_id o = j) then Some (o, pc) else v_task (view_of w j))
    (v_result (view_of w j)) (v_control (view_of w j)).
Proof. unfold view_of; simpl; f_equal; rewrite lookup_insert; case_decide; by simplify_eq. Qed.

Lemma view_update_control w i f j :
  view_of (update_control i f w) j =
  View (v_queue (view_of w j)) (v_ready (view_of w j)) (v_active (view_of w j))
    (v_task (view_of w j)) (v_result (view_of w j))
    (if decide (i = j) then f <$> v_control (view_of w j) else v_control (view_of w j)).
Proof.
  unfold update_control, view_of; destruct (w_controls w !! i) as [c|] eqn:E; simpl; f_equal;
    case_decide; subst; rewrite ?lookup_insert_eq, ?lookup_insert_ne, ?E by done; done.
Qed.

Lemma state_update_control i f w : w_state (update_control i f w) = w_state w.
Proof. unfold update_control; by destruct (_ !! _). Qed.

(** What [extract_*] callers do to the control of the owner they take. *)
Definition taken_ok (s : execution_state) (o : task_owner) (pc : task_pc)
    (f : task_control -> task_control) : Prop :=
  forall c, tc_state c = s -> tc_reason c = None -> control_ok (f c) /\ task_pc_ok o pc (f c).

Lemma extract_queue_inv cfg w pre o post f pc :
  Inv cfg w -> s_queue (w_state w) = pre ++ o :: post ->
  taken_ok Queued o pc f -> permit_held o pc = bool_decide (ow_permit o = PermitActive) ->
  Inv cfg (set_task (update_control (ow_id o) f (set_queue w (pre ++ post))) o pc).
Proof.
  intros Hinv Hq Hf Hh.
  destruct (located_mid_queue w (ow_id o) pre o post) as
    (c & Hpre & Hpost & Hr & Hdl & Hp & Hs & Hre & Hact & Ht & Hres & Hc); [apply Hinv|done..|].
  apply (inv_move cfg w _ (ow_id o)); [done|..].
  - intros j Hj. rewrite view_set_task, view_update_control.
    rewrite !decide_False by congruence. unfold view_of; simpl; rewrite Hq.
    f_equal. by rewrite of_id_mid, of_id_app, decide_False by done.
  - rewrite view_set_task, view_update_control, !decide_True by done.
    unfold view_of; simpl; rewrite of_id_app, Hpre, Hpost, Hr, Hc, Hres; simpl.
    rewrite (bool_decide_eq_false_2 _ Hact).
    replace false with (permit_held o pc).
    + apply at_task; [done|..]; by apply Hf.
    + rewrite Hh, Hp; done.
  - by rewrite Hc; eauto.
  - simpl. by rewrite state_update_control.
  - simpl. by rewrite state_update_control.
  - simpl. rewrite state_update_control; simpl. rewrite Hq.
    apply sublist_app; [done|by apply sublist_cons].
Qed.

Lemma extract_ready_inv cfg w pre o post f pc :
  Inv cfg w -> s_ready (w_state w) = pre ++ o :: post ->
  taken_ok AcceptedNotStarted o pc f -> permit_held o pc = bool_decide (ow_permit o = PermitActive) ->
  Inv cfg (set_task (update_control (ow_id o) f (set_ready w (pre ++ post))) o pc).
Proof.
  intros Hinv Hq Hf Hh.
  destruct (located_mid_ready w (ow_id o) pre o post) as
    (c & Hpre & Hpost & Hr & Hdl & Hp & Hs & Hre & Hact & Ht & Hres & Hc); [apply Hinv|done..|].
  apply (inv_move cfg w _ (ow_id o)); [done|..].
  - intros j Hj. rewrite view_set_task, view_update_control.
    rewrite !decide_False by congruence. unfold view_of; simpl; rewrite Hq.
    f_equal. by rewrite of_id_mid, of_id_app, decide_False by done.
  - rewrite view_set_task, view_update_control, !decide_True by done.
    unfold view_of; simpl; rewrite of_id_app, Hpre, Hpost, Hr, Hc, Hres; simpl.
    rewrite (bool_decide_eq_true_2 _ Hact).
    replace true with (permit_held o pc).
    + apply at_task; [done|..]; by apply Hf.
    + rewrite Hh, Hp; done.
  - by rewrite Hc; eauto.
  - simpl. by rewrite state_update_control.
  - simpl. by rewrite state_update_control.
  - simpl. by rewrite state_update_control.
Qed.

Lemma located_task w id o pc :
  located id (view_of w id) -> w_tasks w !! id = Some (o, pc) ->
  ow_id o = id /\ exists c, w_controls w !! id = Some c /\ control_ok c /\ task_pc_ok o pc c /\
    of_id id (s_queue (w_state w)) = [] /\ of_id id (s_ready (w_state w)) = [] /\
    bool_decide (id ∈ s_active (w_state w)) = permit_held o pc /\ w_results w !! id = None.
Proof.
  intros H Ht. remember (view_of w id) as v eqn:E. unfold view_of in E. rewrite Ht in E.
  destruct H; injection E as E1 E2 E3 E4 E5 E6; try done. subst.
  split; [done|]. eexists; by split_and!.
Qed.

(** An owner moves along its program, its control along. *)
Lemma task_inv cfg w o pc pc' c c' :
  Inv cfg w -> w_tasks w !! ow_id o = Some (o, pc) -> w_controls w !! ow_id o = Some c ->
  control_ok c' -> task_pc_ok o pc' c' -> permit_held o pc' = permit_held o pc ->
  Inv cfg (set_task (set_control w (ow_id o) c') o pc').
Proof.
  intros Hinv Ht Hc Hok Hpc Hh.
  destruct (located_task w _ o pc (inv_located _ _ Hinv _) Ht)
    as (_ & c0 & Hc0 & _ & _ & Hq & Hr & Ha & Hres).
  apply (inv_move cfg w _ (ow_id o)); [done|..]; try done.
  - intros j Hj. rewrite view_set_task, decide_False by congruence.
    unfold view_of; simpl. by rewrite lookup_insert_ne.
  - rewrite view_set_task, decide_True by done. unfold view_of; simpl.
    rewrite lookup_insert_eq, Hq, Hr, Ha, Hres, <- Hh. by apply at_task.
Qed.

(** Giving the permit back. *)
Lemma release_inv cfg w o r :
  Inv cfg w -> w_tasks w !! ow_id o = Some (o, PRelease r) ->
  Inv cfg (set_task (drop_permit o w) o (PPublish r)).
Proof.
  intros Hinv Ht.
  destruct (located_task w _ o _ (inv_located _ _ Hinv _) Ht)
    as (_ & c & Hc & Hok & Hpc & Hq & Hr & Ha & Hres).
  assert (w_controls (drop_permit o w) = w_controls w /\ w_results (drop_permit o w) = w_results w /\
          w_tasks (drop_permit o w) = w_tasks w /\
          s_queue (w_state (drop_permit o w)) = s_queue (w_state w) /\
          s_ready (w_state (drop_permit o w)) = s_ready (w_state w) /\
          s_next_id (w_state (drop_permit o w)) = s_next_id (w_state w) /\
          s_active (w_state (drop_permit o w)) ⊆ s_active (w_state w) /\
          (forall j, j <> ow_id o -> j ∈ s_active (w_state (drop_permit o w)) <-> j ∈ s_active (w_state w)) /\
          ow_id o ∉ s_active (w_state (drop_permit o w)))
    as (E1 & E2 & E3 & E4 & E5 & E6 & E7 & E8 & E9).
  { unfold drop_permit, release_active. unfold permit_held in Ha.
    destruct (ow_permit o) eqn:Ep; cbn [w_state s_active w_controls w_results w_tasks
      s_queue s_ready s_next_id set_sched with_active]; split_and!; try done; try set_solver.
    by eapply bool_decide_eq_false_1. }
  apply (inv_move cfg w _ (ow_id o)); [done|..].
  - intros j Hj. rewrite view_set_task, decide_False by congruence.
    unfold view_of; simpl. rewrite E1, E2, E3, E4, E5. f_equal.
    by apply bool_decide_ext, E8.
  - rewrite view_set_task, decide_True by done. unfold view_of; simpl.
    rewrite E1, E2, E4, E5, Hq, Hr, Hres, Hc, (bool_decide_eq_false_2 _ E9).
    replace false with (permit_held o (PPublish r)) by apply andb_false_r.
    by apply at_task.
  - simpl; by rewrite E1.
  - done.
  - done.
  - simpl; by rewrite E4.
Qed.

(** Publishing the result ends the owner's life. *)
Lemma publish_inv cfg w o r :
  Inv cfg w -> w_tasks w !! ow_id o = Some (o, PPublish r) ->
  Inv cfg (drop_task (publish (ow_id o) r w) (ow_id o)) /\
  w_results (drop_task (publish (ow_id o) r w) (ow_id o)) = <[ow_id o := r]> (w_results w).
Proof.
  intros Hinv Ht.
  destruct (located_task w _ o _ (inv_located _ _ Hinv _) Ht)
    as (_ & c & Hc & Hok & Hpc & Hq & Hr & Ha & Hres).
  unfold publish; rewrite Hres; split; [|done].
  apply (inv_move cfg w _ (ow_id o)); [done|..]; try done.
  - intros j Hj. unfold view_of; simpl.
    by rewrite lookup_delete_ne, lookup_insert_ne by congruence.
  - unfold view_of; simpl. rewrite lookup_delete_eq, lookup_insert_eq, Hq, Hr, Hc, Ha.
    unfold permit_held; rewrite andb_false_r. by apply at_done.
Qed.

(** A control operation on an id that no list holds. *)
Definition free_update_ok (f : task_control -> task_control) : Prop :=
  forall c, control_ok c -> control_ok (f c) /\
    (is_terminal (tc_state c) = true -> is_terminal (tc_state (f c)) = true) /\
    (forall o pc, task_pc_ok o pc c -> task_pc_ok o pc (f c)).

Lemma update_control_inv cfg w id f :
  Inv cfg w -> of_id id (s_queue (w_state w)) = [] -> of_id id (s_ready (w_state w)) = [] ->
  free_update_ok f -> Inv cfg (update_control id f w).
Proof.
  intros Hinv Hq Hr Hf.
  apply (inv_move cfg w _ id); rewrite ?state_update_control; try done.
  - intros j Hj. rewrite view_update_control, decide_False by done. done.
  - rewrite view_update_control, decide_True by done.
    pose proof (inv_located _ _ Hinv id) as H.
    remember (view_of w id) as v eqn:E. destruct H; simpl.
    + apply at_unborn.
    + injection E as E1 _ _ _ _ _; congruence.
    + injection E as _ E1 _ _ _ _; congruence.
    + destruct (Hf c) as (? & ? & ?); [done|]. by apply at_task; auto.
    + destruct (Hf c) as (? & ? & ?); [done|]. by apply at_done; auto.
  - unfold update_control. destruct (w_controls w !! id) eqn:E; simpl; rewrite ?E; eauto.
Qed.

Lemma cancel_control_free r : free_update_ok (cancel_control r).
Proof.
  intros c Hok. unfold cancel_control. destruct (mark_cancelling r c) as [o c'] eqn:E; simpl.
  destruct (mark_cancelling_ok _ _ _ _ Hok E) as (Hok' & (_ & _ & Ht & Hr) & Hs & _).
  split; [done|]. split; [intros H; by rewrite Ht|].
  intros ow pc. destruct (is_terminal (tc_state c)) eqn:Et.
  { unfold mark_cancelling in E; rewrite Et in E. by injection E as _ <-. }
  destruct (Hs eq_refl) as [Ht' Hsome].
  assert (tc_state c' <> Queued) as Hnq.
  { intros Hq. destruct (proj2 Hok' Hsome); by rewrite Hq in *. }
  destruct pc; simpl; rewrite ?Et, ?Ht'; try done; intros (? & ?); by split_and!.
Qed.

Lemma cancel_control_taken_queue r o :
  taken_ok Queued o (PSend Terminated (cause_of_reason r)) (cancel_control r).
Proof.
  intros c Hs Hr. unfold cancel_control, mark_cancelling; rewrite Hs, Hr; simpl.
  split; [by apply set_cancelling_ok; rewrite ?Hs|done].
Qed.
Lemma cancel_control_taken_ready r o :
  taken_ok AcceptedNotStarted o (PSend Terminated (cause_of_reason r)) (cancel_control r).
Proof.
  intros c Hs Hr. unfold cancel_control, mark_cancelling; rewrite Hs, Hr; simpl.
  split; [by apply set_cancelling_ok; rewrite ?Hs|done].
Qed.
Lemma permit_held_send o s c :
  permit_held o (PSend s c) = bool_decide (ow_permit o = PermitActive).
Proof. apply andb_true_r. Qed.

(** ** The source's critical sections preserve the invariant *)

Lemma set_control_task_self w id c o pc :
  w_tasks w !! id = Some (o, pc) -> ow_id o = id ->
  set_control w id c = set_task (set_control w id c) o pc.
Proof. intros Ht <-. unfold set_task, set_control; cbn. by rewrite (insert_id (w_tasks w)). Qed.

Lemma set_control_self w id c : w_controls w !! id = Some c -> set_control w id c = w.
Proof. intros H; unfold set_control; rewrite insert_id by done. by destruct w. Qed.

Lemma task_inv_same cfg w o pc pc' c :
  Inv cfg w -> w_tasks w !! ow_id o = Some (o, pc) -> w_controls w !! ow_id o = Some c ->
  control_ok c -> task_pc_ok o pc' c -> permit_held o pc' = permit_held o pc ->
  Inv cfg (set_task w o pc').
Proof.
  intros Hi Ht Hc ? ? ?. rewrite <- (set_control_self w (ow_id o) c) by done.
  by eapply task_inv.
Qed.

Lemma finish_backend_inv cfg w ob r o c c0 :
  Inv cfg w -> w_tasks w !! ow_id o = Some (o, PRunning) -> w_controls w !! ow_id o = Some c0 ->
  control_ok c -> is_terminal (tc_state c) = false ->
  Inv cfg (finish_backend ob r o c w).
Proof.
  intros Hinv Ht Hc Hok Hnt. unfold finish_backend.
  destruct (resolve_backend_result _ _ _ _) as [out c'] eqn:E.
  destruct (resolve_ok _ _ _ _ _ _ Hok E) as (Hok' & _ & Ht' & Hn).
  destruct out as [[s r']|]; [|rewrite (proj1 Hn eq_refl) in Hnt; done].
  by eapply task_inv.
Qed.

Lemma task_step_inv cfg w w' id o pc ev :
  Inv cfg w -> w_tasks w !! id = Some (o, pc) -> task_step ev o pc w = Some w' -> Inv cfg w'.
Proof.
  intros Hinv Ht.
  destruct (located_task w id o pc (inv_located _ _ Hinv _) Ht)
    as (<- & c & Hc & Hok & Hpc & _). unfold task_step; rewrite Hc.
  destruct pc, ev; try done; simpl in Hpc.
  - intros [= <-]. eapply task_inv_same; try done. by destruct Hpc as (_ & ? & _).
  - destruct (begin_start now c) as [b c'] eqn:E; intros [= <-].
    destruct (begin_start_ok _ _ _ _ Hok E) as (Hok' & (_ & _ & Htm & Hrs) & H1 & H2).
    destruct Hpc as (Hp & Hnt & Hq). destruct b.
    + destruct (H1 eq_refl) as [Hnt' _]. eapply task_inv; try done. simpl; split_and!; try done.
      revert E; unfold begin_start; repeat case_match; intros; simplify_eq; done.
    + eapply task_inv; try done. simpl; split; [done|].
      revert E; unfold begin_start; rewrite Hnt; simpl. case_bool_decide; [by intros [= <-]|].
      destruct (is_some_and _ _); [intros [= <-]; simpl; eauto|by case_decide].
  - intros [= <-]. eapply task_inv_same; try done. by destruct Hpc as (_ & ? & _).
  - intros [= <-]. destruct Hpc as (Hp & Hnt & Hq).
    destruct (mark_started c) as [b c'] eqn:E; simpl.
    destruct (mark_started_ok _ _ _ Hok E) as (Hok' & _ & Hnt' & _).
    rewrite (set_control_task_self w _ _ o PRunning) by done.
    eapply task_inv; try done. simpl; split_and!; auto.
    revert E; unfold mark_started; case_decide; intros; simplify_eq/=; done.
  - intros [= <-]. destruct Hpc as (_ & Hnt & _). by eapply finish_backend_inv.
  - pose proof (control_failure_state (ExInternal "submission backend panicked") ob
      (Some (x_backend (ow_runner o))) None None None c) as Hst.
    destruct (control_failure _ _ _ _ _ _ c) as [c' f]; intros [= <-]. simpl in Hst.
    destruct (control_eqs_le c c' Hok Hst). eapply finish_backend_inv; try done.
    rewrite (proj1 Hst). by destruct Hpc as (_ & ? & _).
  - intros [= <-]. eapply task_inv_same; try done. by destruct Hpc as (_ & ? & _).
  - intros [= <-]. eapply task_inv_same; try done. by destruct Hpc as (_ & ? & _).
  - intros [= <-]. eapply task_inv_same; try done. by destruct Hpc as (_ & ? & _).
  - pose proof (control_failure_state (cause_error c0) ob None None None None c) as Hst.
    destruct (control_failure _ _ _ _ _ _ c) as [c' f]; intros [= <-]. simpl in Hst.
    destruct (control_eqs_le c c' Hok Hst). eapply task_inv; try done.
    simpl; by rewrite (proj1 Hst).
  - destruct (mark_terminal s c) as [b c'] eqn:E; intros [= <-]. destruct Hpc as [Hs Hnt].
    destruct (mark_terminal_ok _ _ _ _ Hok Hs E) as (Hok' & _ & Ht' & ->). rewrite Hnt.
    by eapply task_inv.
  - intros [= <-]. by apply release_inv.
  - intros [= <-]. by apply publish_inv.
Qed.

Lemma take_cancelled_queue_inv cfg w pre o post r :
  Inv cfg w -> s_queue (w_state w) = pre ++ o :: post ->
  Inv cfg (take_cancelled r o (set_queue w (pre ++ post))).
Proof.
  intros. apply extract_queue_inv; auto using cancel_control_taken_queue, permit_held_send.
Qed.
Lemma take_cancelled_ready_inv cfg w pre o post r :
  Inv cfg w -> s_ready (w_state w) = pre ++ o :: post ->
  Inv cfg (take_cancelled r o (set_ready w (pre ++ post))).
Proof.
  intros. apply extract_ready_inv; auto using cancel_control_taken_ready, permit_held_send.
Qed.

Lemma state_take_cancelled r o w : w_state (take_cancelled r o w) = w_state w.
Proof. unfold take_cancelled; simpl. apply state_update_control. Qed.

Lemma set_queue_self w : set_queue w (s_queue (w_state w)) = w.
Proof. by destruct w as [[]]. Qed.
Lemma set_ready_self w : set_ready w (s_ready (w_state w)) = w.
Proof. by destruct w as [[]]. Qed.

Lemma expire_queue_inv cfg now l : forall retained w,
  Inv cfg w -> s_queue (w_state w) = retained ++ l -> Inv cfg (expire_queue now retained l w).
Proof.
  induction l as [|o l IH]; intros retained w Hinv Hq; simpl.
  - rewrite app_nil_r in Hq. by rewrite <- Hq, set_queue_self.
  - destruct (expired _ _).
    + apply IH; [by apply take_cancelled_queue_inv|]. by rewrite state_take_cancelled.
    + apply IH; [done|]. by rewrite <- app_assoc.
Qed.
Lemma expire_ready_inv cfg now l : forall retained w,
  Inv cfg w -> s_ready (w_state w) = retained ++ l -> Inv cfg (expire_ready now retained l w).
Proof.
  induction l as [|o l IH]; intros retained w Hinv Hq; simpl.
  - rewrite app_nil_r in Hq. by rewrite <- Hq, set_ready_self.
  - destruct (expired _ _).
    + apply IH; [by apply take_cancelled_ready_inv|]. by rewrite state_take_cancelled.
    + apply IH; [done|]. by rewrite <- app_assoc.
Qed.

Lemma expire_queue_fresh now l : forall retained w,
  Forall (fun o => expired now (ow_deadline o) = false) retained ->
  Forall (fun o => expired now (ow_deadline o) = false)
    (s_queue (w_state (expire_queue now retained l w))).
Proof.
  induction l as [|o l IH]; intros retained w Hr; simpl; [done|].
  destruct (expired _ _) eqn:E; apply IH; [done|]. apply Forall_app; split; [done|by constructor].
Qed.
Lemma expire_ready_fresh now l : forall retained w,
  Forall (fun o => expired now (ow_deadline o) = false) retained ->
  Forall (fun o => expired now (ow_deadline o) = false)
    (s_ready (w_state (expire_ready now retained l w))).
Proof.
  induction l as [|o l IH]; intros retained w Hr; simpl; [done|].
  destruct (expired _ _) eqn:E; apply IH; [done|]. apply Forall_app; split; [done|by constructor].
Qed.

(** An active id is not queued; if its control's deadline is due it is not
    ready either once the expired ready owners are gone. *)
Lemma deadline_due_free cfg now w id :
  Inv cfg w -> Forall (fun o => expired now (ow_deadline o) = false) (s_ready (w_state w)) ->
  id ∈ s_active (w_state w) -> deadline_due now w id = true ->
  of_id id (s_queue (w_state w)) = [] /\ of_id id (s_ready (w_state w)) = [].
Proof.
  intros Hinv Hf Ha Hd. pose proof (inv_located _ _ Hinv id) as H.
  remember (view_of w id) as v eqn:E. unfold view_of in E.
  apply (bool_decide_eq_true_2 (id ∈ s_active (w_state w))) in Ha.
  destruct H as [| |o c Hi Hp Hs Hr Hdl| |]; injection E as E1 E2 E3 E4 E5 E6; try congruence;
    [|done].
  unfold deadline_due in Hd. rewrite <- E6 in Hd. apply andb_true_iff in Hd as [Hd _].
  assert (o ∈ of_id id (s_ready (w_state w))) as [_ Ho]%of_id_in by (rewrite <- E2; by left).
  rewrite Forall_forall in Hf. specialize (Hf o Ho). by rewrite Hdl, Hd in Hf.
Qed.

Lemma expire_active_inv cfg now w :
  Inv cfg w -> Forall (fun o => expired now (ow_deadline o) = false) (s_ready (w_state w)) ->
  Inv cfg (expire_active now w) /\ w_state (expire_active now w) = w_state w.
Proof.
  intros Hinv Hf. unfold expire_active.
  assert (forall id, id ∈ List.filter (deadline_due now w) (elements (s_active (w_state w))) ->
    of_id id (s_queue (w_state w)) = [] /\ of_id id (s_ready (w_state w)) = []) as Hfree.
  { intros id [Hin Hd]%list_elem_of_In%filter_In.
    eapply deadline_due_free; try done. by apply elem_of_elements, list_elem_of_In. }
  induction (List.filter _ _) as [|id l IH]; simpl; [done|].
  destruct IH as [IH1 IH2]; [intros; apply Hfree; by right|].
  rewrite state_update_control. split; [|done].
  destruct (Hfree id) as [H1 H2]; [by left|].
  apply update_control_inv; rewrite ?IH2; auto using cancel_control_free.
Qed.

Lemma update_control_id i w : update_control i (fun c => c) w = w.
Proof.
  unfold update_control; destruct (_ !! _) eqn:E; [|done]. by apply set_control_self.
Qed.

Lemma pop_ready_inv cfg w : Inv cfg w -> Inv cfg (pop_ready w).2.
Proof.
  intros Hinv; unfold pop_ready; destruct (s_ready (w_state w)) as [|o r] eqn:E; simpl; [done|].
  rewrite <- (update_control_id (ow_id o) (set_ready w r)).
  apply (extract_ready_inv cfg w [] o r (fun c => c) PSpawned); simpl; try done.
  - intros c Hs Hr; split; [split; rewrite Hs, ?Hr; [done|by intros [? [=]]]|].
    destruct (located_mid_ready w (ow_id o) [] o r) as (c' & _ & _ & _ & _ & Hp & _);
      [apply Hinv|done..|]. simpl; by rewrite Hs.
  - apply andb_true_r.
Qed.

(** Admission: an id enters the ready list and the active set, from the front
    of the queue or newly issued.  [older] are the queue entries left. *)
Lemma admit_inv cfg w w' i o c :
  Inv cfg w ->
  (forall j, j <> i -> view_of w' j = view_of w j) ->
  view_of w' i = View [] [o] true None None (Some c) ->
  ow_id o = i -> ow_permit o = PermitActive -> tc_state c = AcceptedNotStarted ->
  tc_reason c = None -> ow_deadline o = tc_deadline c ->
  i < s_next_id (w_state w') -> s_next_id (w_state w) <= s_next_id (w_state w') ->
  s_active (w_state w') = {[i]} ∪ s_active (w_state w) ->
  Z.of_nat (size (s_active (w_state w))) < ac_active_limit cfg ->
  sublist (s_queue (w_state w')) (s_queue (w_state w)) ->
  (forall o', o' ∈ s_queue (w_state w') -> i < ow_id o') ->
  Inv cfg w'.
Proof.
  intros [Hl Hb Ha Hq Hs Hf] Hv Hi Ho Hp Hst Hr Hdl Hin Hn Hact Hlim Hsub Hold; split.
  - intros j; destruct (decide (j = i)) as [->|Hj]; [rewrite Hi; by apply at_ready|].
    rewrite Hv by done; apply Hl.
  - intros j Hj; destruct (decide (j = i)) as [->|Hne]; [done|].
    specialize (Hv j Hne); unfold view_of in Hv; injection Hv; intros E; intros.
    rewrite E in Hj. specialize (Hb j Hj); lia.
  - rewrite Hact. pose proof (size_union_alt {[i]} (s_active (w_state w))) as Hsz.
    rewrite size_singleton in Hsz.
    pose proof (subseteq_size (s_active (w_state w) ∖ {[i]}) (s_active (w_state w)) ltac:(set_solver)).
    lia.
  - apply sublist_length in Hsub; lia.
  - eapply StronglySorted_sublist; [|done]. by apply fmap_sublist.
  - intros o' a Ho' Ha'. rewrite Hact in Ha'.
    apply elem_of_union in Ha' as [->%elem_of_singleton|Ha']; [by apply Hold|].
    apply Hf; [by eapply elem_of_sublist|done].
Qed.

Lemma record_queue_wait_fields ob c :
  tc_state (control_record_queue_wait ob c) = tc_state c /\
  tc_reason (control_record_queue_wait ob c) = tc_reason c /\
  tc_deadline (control_record_queue_wait ob c) = tc_deadline c.
Proof. done. Qed.

Lemma admit_queued_inv cfg fuel ob : forall w, Inv cfg w -> Inv cfg (admit_queued cfg fuel ob w).
Proof.
  induction fuel as [|fuel IH]; intros w Hinv; simpl; [done|].
  case_decide as Hlim; [|done]. destruct (s_queue (w_state w)) as [|o q] eqn:Eq; [done|].
  apply IH.
  destruct (located_mid_queue w (ow_id o) [] o q) as
    (c & _ & Hpost & Hr & Hdl & Hp & Hs & Hre & Hact & Ht & Hres & Hc); [apply Hinv|done..|].
  set (c' := control_record_queue_wait ob (mark_accepted c)).
  assert (tc_state c' = AcceptedNotStarted /\ tc_reason c' = None /\ tc_deadline c' = tc_deadline c)
    as (H1 & H2 & H3) by (unfold c', mark_accepted; rewrite Hs; simpl; done).
  pose proof (inv_queue_sorted _ _ Hinv) as Hsort. rewrite Eq in Hsort; simpl in Hsort.
  apply StronglySorted_inv in Hsort as [_ Hsort]. rewrite Forall_forall in Hsort.
  apply (admit_inv cfg w _ (ow_id o) (promote o) c'); try done; rewrite ?state_update_control; simpl.
  - intros j Hj. rewrite view_update_control, decide_False by congruence.
    unfold view_of; simpl. rewrite Eq. f_equal.
    + unfold of_id; rewrite filter_cons, decide_False by done. done.
    + rewrite of_id_app; unfold of_id at 2; simpl.
      rewrite filter_cons, decide_False by done. by rewrite app_nil_r.
    + apply bool_decide_ext; set_solver.
  - rewrite view_update_control, decide_True by done. unfold view_of; simpl.
    rewrite of_id_app, Hpost, Hr, Ht, Hres, Hc. unfold of_id; simpl.
    rewrite filter_cons, decide_True by done. f_equal. apply bool_decide_eq_true; set_solver.
  - etrans; [exact Hdl|symmetry; exact H3].
  - apply (inv_born _ _ Hinv). by rewrite Hc.
  - lia.
  - done.
  - rewrite Eq; by apply sublist_cons.
  - intros o' Ho'. apply Hsort. by apply list_elem_of_fmap_2.
Qed.

Lemma manager_tick_inv cfg ob w : Inv cfg w -> Inv cfg (manager_tick cfg ob w).2.
Proof.
  intros Hinv. unfold manager_tick.
  set (w1 := expire_queue _ _ _ w). set (w2 := expire_ready _ _ _ w1).
  set (w3 := expire_active _ w2). set (w4 := admit_queued _ _ _ w3).
  assert (Inv cfg w1) as H1 by by apply expire_queue_inv.
  assert (Inv cfg w2) as H2 by by apply expire_ready_inv.
  assert (Inv cfg w3) as H3 by (apply expire_active_inv; [done|]; by apply expire_ready_fresh).
  assert (Inv cfg w4) as H4 by by apply admit_queued_inv.
  pose proof (pop_ready_inv cfg w4 H4). by destruct (pop_ready w4).
Qed.

Lemma of_id_nil id l : of_id id l = [] <-> (forall o, o ∈ l -> ow_id o <> id).
Proof.
  split.
  - intros H o Ho Hi. assert (o ∈ of_id id l) as Hin by (by apply of_id_in). rewrite H in Hin. by apply not_elem_of_nil in Hin.
  - intros H. destruct (of_id id l) as [|o k] eqn:E; [done|].
    assert (o ∈ of_id id l) as [Hi Ho]%of_id_in by (rewrite E; by left). by destruct (H o Ho).
Qed.

Lemma list_find_split (id : Z) l i o :
  list_find (fun o => ow_id o = id) l = Some (i, o) ->
  exists pre post, l = pre ++ o :: post /\ delete i l = pre ++ post /\ ow_id o = id.
Proof.
  intros (Hl & Ho & _)%list_find_Some. exists (take i l), (drop (S i) l).
  split; [by rewrite take_drop_middle|]. split; [apply delete_take_drop|done].
Qed.

Lemma list_find_none (id : Z) l :
  list_find (fun o => ow_id o = id) l = None -> of_id id l = [].
Proof. intros H%list_find_None. apply of_id_nil. by apply Forall_forall. Qed.

Lemma request_cancel_inv cfg id r w : Inv cfg w -> Inv cfg (request_cancel id r w).2.
Proof.
  intros Hinv. unfold request_cancel. destruct (w_controls w !! id) as [c|]; [|done].
  destruct (is_terminal _); [done|].
  destruct (list_find _ (s_queue _)) as [[i o]|] eqn:Eq; simpl.
  { apply list_find_split in Eq as (pre & post & E & -> & _). by apply take_cancelled_queue_inv. }
  destruct (list_find _ (s_ready _)) as [[i o]|] eqn:Er; simpl.
  { apply list_find_split in Er as (pre & post & E & -> & _). by apply take_cancelled_ready_inv. }
  apply list_find_none in Eq, Er. apply update_control_inv; auto using cancel_control_free.
Qed.

(** Draining a list with an operation that takes its head. *)
Lemma drain_queue_inv cfg f l : forall w,
  Inv cfg w -> s_queue (w_state w) = l ->
  (forall o l w, Inv cfg w -> s_queue (w_state w) = o :: l ->
     Inv cfg (f o (set_queue w l)) /\ s_queue (w_state (f o (set_queue w l))) = l) ->
  Inv cfg (drain_queue f l w) /\ s_queue (w_state (drain_queue f l w)) = [].
Proof.
  induction l as [|o l IH]; intros w Hinv Hq Hf; simpl; [done|].
  destruct (Hf o l w Hinv Hq) as [H1 H2]. by apply IH.
Qed.
Lemma drain_ready_inv cfg f l : forall w,
  Inv cfg w -> s_ready (w_state w) = l ->
  (forall o l w, Inv cfg w -> s_ready (w_state w) = o :: l ->
     Inv cfg (f o (set_ready w l)) /\ s_ready (w_state (f o (set_ready w l))) = l) ->
  Inv cfg (drain_ready f l w) /\ s_ready (w_state (drain_ready f l w)) = [].
Proof.
  induction l as [|o l IH]; intros w Hinv Hq Hf; simpl; [done|].
  destruct (Hf o l w Hinv Hq) as [H1 H2]. by apply IH.
Qed.

Lemma drained_queue f l : (forall o w, s_queue (w_state (f o w)) = s_queue (w_state w)) ->
  forall w, l = s_queue (w_state w) -> s_queue (w_state (drain_queue f l w)) = [].
Proof.
  intros Hf; induction l as [|o l IH]; intros w Hl; simpl; [done|].
  apply IH. by rewrite Hf.
Qed.
Lemma drained_ready f l : (forall o w, s_ready (w_state (f o w)) = s_ready (w_state w)) ->
  forall w, l = s_ready (w_state w) -> s_ready (w_state (drain_ready f l w)) = [].
Proof.
  intros Hf; induction l as [|o l IH]; intros w Hl; simpl; [done|].
  apply IH. by rewrite Hf.
Qed.

(** Taking an owner whose control is left alone. *)
Lemma send_queue_inv cfg w o q s c :
  Inv cfg w -> s_queue (w_state w) = o :: q -> is_terminal s = true ->
  Inv cfg (set_task (set_queue w q) o (PSend s c)).
Proof.
  intros Hinv Hq Hs. rewrite <- (update_control_id (ow_id o) (set_queue w q)).
  apply (extract_queue_inv cfg w [] o q (fun c => c) (PSend s c)); auto using permit_held_send.
  intros c0 H1 H2; split; [split; rewrite H1, ?H2; [done|by intros [? [=]]]|].
  simpl; by rewrite H1.
Qed.
Lemma send_ready_inv cfg w o q s c :
  Inv cfg w -> s_ready (w_state w) = o :: q -> is_terminal s = true ->
  Inv cfg (set_task (set_ready w q) o (PSend s c)).
Proof.
  intros Hinv Hq Hs. rewrite <- (update_control_id (ow_id o) (set_ready w q)).
  apply (extract_ready_inv cfg w [] o q (fun c => c) (PSend s c)); auto using permit_held_send.
  intros c0 H1 H2; split; [split; rewrite H1, ?H2; [done|by intros [? [=]]]|].
  simpl; by rewrite H1.
Qed.

Lemma fail_pending_inv cfg m w : Inv cfg w -> Inv cfg (fail_pending m w).
Proof.
  intros Hinv. unfold fail_pending.
  destruct (drain_queue_inv cfg (send_failed m) (s_queue (w_state w)) w) as [H1 _]; try done.
  { intros o l w0 H0 E0; split; [by apply send_queue_inv|done]. }
  apply drain_ready_inv; try done.
  intros o l w0 H0 E0; split; [by apply send_ready_inv|done].
Qed.

(** Fields the invariant does not read. *)
Lemma inv_ext cfg w w' :
  Inv cfg w -> w_controls w' = w_controls w -> w_results w' = w_results w ->
  w_tasks w' = w_tasks w -> s_queue (w_state w') = s_queue (w_state w) ->
  s_ready (w_state w') = s_ready (w_state w) -> s_active (w_state w') = s_active (w_state w) ->
  s_next_id (w_state w') = s_next_id (w_state w) -> Inv cfg w'.
Proof.
  intros [] E1 E2 E3 E4 E5 E6 E7. split; unfold view_of in *; rewrite ?E1, ?E2, ?E3, ?E4, ?E5, ?E6, ?E7; auto.
Qed.

Lemma drain_frame f l :
  (forall o w, s_active (w_state (f o w)) = s_active (w_state w) /\
     s_accepting (w_state (f o w)) = s_accepting (w_state w) /\
     s_queue (w_state (f o w)) = s_queue (w_state w) /\
     s_ready (w_state (f o w)) = s_ready (w_state w)) ->
  forall w, s_active (w_state (drain_queue f l w)) = s_active (w_state w) /\
    s_accepting (w_state (drain_queue f l w)) = s_accepting (w_state w) /\
    s_ready (w_state (drain_queue f l w)) = s_ready (w_state w) /\
    s_active (w_state (drain_ready f l w)) = s_active (w_state w) /\
    s_accepting (w_state (drain_ready f l w)) = s_accepting (w_state w) /\
    s_queue (w_state (drain_ready f l w)) = s_queue (w_state w).
Proof.
  intros Hf.  induction l as [|o l IH]; intros w; simpl; [done|].
  destruct (IH (f o (set_queue w l))) as (-> & -> & -> & _).
  destruct (IH (f o (set_ready w l))) as (_ & _ & _ & -> & -> & ->).
  destruct (Hf o (set_queue w l)) as (-> & -> & _ & ->).
  destruct (Hf o (set_ready w l)) as (-> & -> & -> & _). done.
Qed.

Lemma shutdown_begin_inv cfg order w : Inv cfg w -> Inv cfg (shutdown_begin order w).2.
Proof.
  intros Hinv. unfold shutdown_begin; simpl.
  set (w0 := set_sched w (with_accepting (w_state w) false)).
  assert (Inv cfg w0) as H0 by by eapply inv_ext.
  destruct (drain_queue_inv cfg send_cancelled (s_queue (w_state w)) w0) as [H1 _]; try done.
  { intros o l w1 Hw E; split; [by apply send_queue_inv|done]. }
  set (w1 := drain_queue _ _ w0) in *.
  assert (s_ready (w_state w1) = s_ready (w_state w)) as E1
    by apply (drain_frame send_cancelled (s_queue (w_state w)) ltac:(done) w0).
  destruct (drain_ready_inv cfg (take_cancelled Shutdown) (s_ready (w_state w)) w1) as [H2 _]; try done.
  { intros o l w2 Hw E; split; [by apply (take_cancelled_ready_inv cfg w2 [] o l)|].
    by rewrite state_take_cancelled. }
  by eapply inv_ext.
Qed.

Lemma shutdown_begin_lists cfg order w : Inv cfg w ->
  let w' := (shutdown_begin order w).2 in
  s_queue (w_state w') = [] /\ s_ready (w_state w') = [] /\
  s_active (w_state w') = s_active (w_state w) /\ s_accepting (w_state w') = false.
Proof.
  intros Hinv; unfold shutdown_begin; simpl.
  set (w0 := set_sched w (with_accepting (w_state w) false)).
  assert (Inv cfg w0) as H0 by by eapply inv_ext.
  destruct (drain_queue_inv cfg send_cancelled (s_queue (w_state w)) w0) as [H1 Q1]; try done.
  { intros o l w1 Hw E; split; [by apply send_queue_inv|done]. }
  destruct (drain_frame send_cancelled (s_queue (w_state w)) ltac:(done) w0) as (A1 & C1 & R1 & _).
  set (w1 := drain_queue _ _ w0) in *.
  destruct (drain_ready_inv cfg (take_cancelled Shutdown) (s_ready (w_state w)) w1) as [_ R2]; try done.
  { intros o l w2 Hw E; split; [by apply (take_cancelled_ready_inv cfg w2 [] o l)|].
    by rewrite state_take_cancelled. }
  destruct (drain_frame (take_cancelled Shutdown) (s_ready (w_state w))
    ltac:(intros; by rewrite state_take_cancelled) w1) as (_ & _ & _ & A2 & C2 & Q2).
  by rewrite Q2, R2, A2, C2, Q1, A1, C1.
Qed.

Lemma unborn_next cfg w id :
  Inv cfg w -> s_next_id (w_state w) <= id ->
  view_of w id = View [] [] false None None None.
Proof.
  intros Hinv Hle. pose proof (inv_located _ _ Hinv id) as H.
  assert (w_controls w !! id = None) as Hn.
  { destruct (w_controls w !! id) eqn:E; [|done].
    pose proof (inv_born _ _ Hinv id ltac:(by rewrite E)); lia. }
  remember (view_of w id) as v eqn:E. unfold view_of in E; rewrite Hn in E.
  destruct H; [done|discriminate E..].
Qed.

(** A refused submission only consumes an id. *)
Lemma inv_ext_next cfg w w' :
  Inv cfg w -> w_controls w' = w_controls w -> w_results w' = w_results w ->
  w_tasks w' = w_tasks w -> s_queue (w_state w') = s_queue (w_state w) ->
  s_ready (w_state w') = s_ready (w_state w) -> s_active (w_state w') = s_active (w_state w) ->
  s_next_id (w_state w) <= s_next_id (w_state w') -> Inv cfg w'.
Proof.
  intros [Hl Hb] E1 E2 E3 E4 E5 E6 E7.
  split; unfold view_of in *; rewrite ?E1, ?E2, ?E3, ?E4, ?E5, ?E6; auto.
  intros id Hid. specialize (Hb id Hid); lia.
Qed.

Lemma next_id_succ id : 1 <= id < u64_max -> next_id id = id + 1.
Proof.
  unfold next_id, wrapping_add_u64, u64_max; intros H. rewrite Z.mod_small; lia.
Qed.

Definition ids_start (w : world) : Prop := 1 <= s_next_id (w_state w).

Lemma queued_ids_old cfg w o : Inv cfg w -> o ∈ s_queue (w_state w) -> ow_id o < s_next_id (w_state w).
Proof.
  intros Hinv Ho. apply list_elem_of_split in Ho as (pre & post & E).
  destruct (located_mid_queue w (ow_id o) pre o post) as (c & _ & _ & _ & _ & _ & _ & _ & _ & _ & _ & Hc);
    [apply Hinv|done..|]. apply (inv_born _ _ Hinv). by rewrite Hc.
Qed.

Lemma active_ids_old cfg w a : Inv cfg w -> a ∈ s_active (w_state w) -> a < s_next_id (w_state w).
Proof.
  intros Hinv Ha. destruct (decide (a < s_next_id (w_state w))) as [|Hge]; [done|].
  pose proof (unborn_next _ _ a Hinv ltac:(lia)) as E. unfold view_of in E.
  injection E as _ _ E _ _ _. by apply bool_decide_eq_false in E.
Qed.

(** A new submission joins the back of the queue. *)
Lemma enqueue_inv cfg w w' o c i :
  Inv cfg w -> view_of w i = View [] [] false None None None ->
  ow_id o = i -> ow_permit o = PermitQueued -> tc_state c = Queued -> tc_reason c = None ->
  ow_deadline o = tc_deadline c ->
  (forall o', o' ∈ s_queue (w_state w) -> ow_id o' < i) ->
  (forall a, a ∈ s_active (w_state w) -> a < i) ->
  s_queue (w_state w') = s_queue (w_state w) ++ [o] ->
  s_ready (w_state w') = s_ready (w_state w) -> s_active (w_state w') = s_active (w_state w) ->
  w_controls w' = <[i := c]> (w_controls w) -> w_tasks w' = w_tasks w ->
  w_results w' = w_results w ->
  s_next_id (w_state w) <= s_next_id (w_state w') -> i < s_next_id (w_state w') ->
  Z.of_nat (length (s_queue (w_state w))) < ac_queue_limit cfg -> Inv cfg w'.
Proof.
  intros [Hl Hb Ha Hq Hs Hf] Hun Ho Hp Hst Hr Hdl Hold Hact E1 E2 E3 E4 E5 E6 Hn Hi Hlim.
  unfold view_of in Hun. injection Hun as U1 U2 U3 U4 U5 U6.
  split; rewrite ?E1, ?E3; auto.
  - intros j. unfold view_of; rewrite E1, E2, E3, E4, E5, E6, of_id_app.
    unfold of_id at 2; rewrite filter_cons; simpl.
    destruct (decide (i = j)) as [<-|Hj].
    + rewrite decide_True, lookup_insert_eq, U1, U2, U3, U4, U5 by done. by apply at_queue.
    + rewrite decide_False, lookup_insert_ne by congruence.
      change (filter _ []) with (@nil task_owner). rewrite app_nil_r. apply Hl.
  - intros j. rewrite E4. destruct (decide (i = j)) as [<-|Hj]; [done|].
    rewrite lookup_insert_ne by done. intros H; specialize (Hb j H); lia.
  - rewrite length_app; simpl; lia.
  - rewrite fmap_app. apply StronglySorted_app_2; [|done|by repeat constructor].
    intros x y (o' & -> & Ho')%list_elem_of_fmap Hy%list_elem_of_singleton.
    subst. by apply Hold.
  - intros o' a [Ho'| ->%list_elem_of_singleton]%elem_of_app Ha'; [by apply Hf|].
    subst; by apply Hact.
Qed.

Lemma submit_inv cfg w w' t ob runner request submission r :
  Inv cfg w -> ids_start w -> s_next_id (w_state w) < u64_max ->
  submit cfg t ob runner request submission w = (r, w') ->
  Inv cfg w' /\ ids_start w'.
Proof.
  intros Hinv Hst Hlt. unfold submit, ids_start in *.
  destruct (submit_deadline _ _) as [dl|e]; [|by intros [= <- <-]].
  destruct (s_accepting (w_state w)); [simpl|by intros [= <- <-]].
  pose proof (next_id_succ (s_next_id (w_state w)) ltac:(lia)) as Hnext.
  set (i := s_next_id (w_state w)) in *.
  pose proof (unborn_next _ _ i Hinv ltac:(lia)) as Hun. unfold view_of in Hun.
  injection Hun as Hq Hr Ha Ht Hres Hc.
  destruct (decide (Z.of_nat (size _) < _ /\ _)) as [[Hlim Hqe]|Hno];
    [|destruct (decide (Z.of_nat (length _) >= _)) as [Hfull|Hroom]];
    intros [= <- <-]; simpl; rewrite Hnext; (split; [|lia]).
  - eapply (admit_inv cfg w _ i (TaskOwner i request runner dl PermitActive)
      (control_record_queue_wait ob
         (mark_accepted (control_new (x_backend runner) t dl (enabled (ob_sample ob))))));
      try reflexivity; try done; simpl; try lia.
    + intros j Hj. unfold view_of; simpl. rewrite lookup_insert_ne by done. f_equal.
      * rewrite of_id_app; unfold of_id at 2; simpl. rewrite filter_cons, decide_False by done.
        by rewrite app_nil_r.
      * apply bool_decide_ext; set_solver.
    + unfold view_of; simpl. rewrite lookup_insert_eq, of_id_app, Hq, Hr, Ht, Hres.
      unfold of_id; simpl. rewrite filter_cons, decide_True by done. f_equal.
      apply bool_decide_eq_true; set_solver.
    + rewrite Hqe. by intros ? ?%not_elem_of_nil.
  - eapply inv_ext_next; [done|..]; simpl; done || lia.
  - eapply (enqueue_inv cfg w _ _ _ i); try reflexivity; try done; simpl; try lia.
    + unfold view_of; by rewrite Hq, Hr, Ha, Ht, Hres, Hc.
    + intros o' Ho'; by apply (queued_ids_old cfg).
    + intros a Ha'; by apply (active_ids_old cfg).
Qed.
