(* ===== verification/Scheduling.v ===== *)
(** * What the admission scheduler guarantees.

    The invariant of SchedulerInv lifted to every interleaving, the facts about
    shutdown and the manager thread that need the other threads' positions, and
    the properties. *)
From S2P Require Import Prelude Errors Timing Options Cancel Execution Control Scheduler SchedulerInv.
From stdpp Require Import gmap sorting.
Local Open Scope Z_scope.

(** ** What each critical section leaves alone *)

(** The fields no move of an owner touches. *)
Definition threads (w : world)
    : bool * list manager_pc * list submit_pc * option sweep * Z * bool :=
  (w_manager_started w, w_managers w, w_submits w, w_sweep w, s_next_id (w_state w),
   s_accepting (w_state w)).

Lemma threads_update_control i f w : threads (update_control i f w) = threads w.
Proof. unfold update_control; by destruct (_ !! _). Qed.
Lemma threads_eq w w' : threads w' = threads w ->
  w_manager_started w' = w_manager_started w /\ w_managers w' = w_managers w /\
  w_submits w' = w_submits w /\ w_sweep w' = w_sweep w /\
  s_next_id (w_state w') = s_next_id (w_state w) /\
  s_accepting (w_state w') = s_accepting (w_state w).
Proof. unfold threads; intros [= -> -> -> -> -> ->]; done. Qed.

Lemma threads_take_cancelled r o w : threads (take_cancelled r o w) = threads w.
Proof. apply threads_update_control. Qed.

Lemma threads_expire_queue now l : forall k w, threads (expire_queue now k l w) = threads w.
Proof.
  induction l as [|o l IH]; intros k w; simpl; [done|].
  destruct (expired _ _); rewrite IH; [by rewrite threads_take_cancelled|done].
Qed.
Lemma threads_expire_ready now l : forall k w, threads (expire_ready now k l w) = threads w.
Proof.
  induction l as [|o l IH]; intros k w; simpl; [done|].
  destruct (expired _ _); rewrite IH; [by rewrite threads_take_cancelled|done].
Qed.
Lemma threads_expire_active now w : threads (expire_active now w) = threads w.
Proof.
  unfold expire_active. induction (List.filter _ _) as [|i l IH]; simpl; [done|].
  by rewrite threads_update_control.
Qed.
Lemma threads_admit cfg fuel ob : forall w, threads (admit_queued cfg fuel ob w) = threads w.
Proof.
  induction fuel as [|fuel IH]; intros w; simpl; [done|].
  case_decide; [|done]. destruct (s_queue _); [done|]. by rewrite IH, threads_update_control.
Qed.
Lemma threads_tick cfg ob w : threads (manager_tick cfg ob w).2 = threads w.
Proof.
  unfold manager_tick. set (w4 := admit_queued _ _ _ _).
  assert (threads (pop_ready w4).2 = threads w4) as E.
  { unfold pop_ready; by destruct (s_ready (w_state w4)). }
  destruct (pop_ready w4) as [d w5]; simpl in *. rewrite E. unfold w4.
  by rewrite threads_admit, threads_expire_active, threads_expire_ready, threads_expire_queue.
Qed.
Lemma threads_cancel id r w : threads (request_cancel id r w).2 = threads w.
Proof.
  unfold request_cancel. destruct (_ !! _); [|done]. destruct (is_terminal _); [done|].
  destruct (list_find _ _) as [[]|]; simpl; [by rewrite threads_take_cancelled|].
  destruct (list_find _ _) as [[]|]; simpl; [by rewrite threads_take_cancelled|apply threads_update_control].
Qed.
Lemma threads_submit cfg w w' t ob runner request submission r :
  submit cfg t ob runner request submission w = (r, w') ->
  w_manager_started w' = w_manager_started w /\ w_managers w' = w_managers w /\
  w_submits w' = w_submits w /\ w_sweep w' = w_sweep w /\ w_tasks w' = w_tasks w /\
  s_accepting (w_state w') = s_accepting (w_state w) /\
  (forall id c, w_controls w !! id = Some c -> id <> s_next_id (w_state w) ->
     w_controls w' !! id = Some c) /\
  (s_accepting (w_state w) = false \/ (exists e, r = inl e) ->
     s_queue (w_state w') = s_queue (w_state w) /\ s_ready (w_state w') = s_ready (w_state w) /\
     w_controls w' = w_controls w /\ s_active (w_state w') = s_active (w_state w)).
Proof.
  unfold submit. destruct (submit_deadline _ _); [|by intros [= <- <-]].
  destruct (s_accepting (w_state w)) eqn:Ea; simpl; [|by intros [= <- <-]].
  destruct (decide _); [|destruct (decide _)]; intros [= <- <-]; simpl; split_and!; try done.
  - intros id c Hc Hne. by rewrite lookup_insert_ne.
  - by intros [|[? [=]]].
  - intros id c Hc Hne. by rewrite lookup_insert_ne.
  - by intros [|[? [=]]].
Qed.
Lemma threads_drain f l :
  (forall o w, threads (f o w) = threads w) ->
  forall w, threads (drain_queue f l w) = threads w /\ threads (drain_ready f l w) = threads w.
Proof.
  intros Hf; induction l as [|o l IH]; intros w; simpl; [done|].
  destruct (IH (f o (set_queue w l))) as [-> _]. destruct (IH (f o (set_ready w l))) as [_ ->].
  by rewrite !Hf.
Qed.
Lemma threads_fail_pending m w : threads (fail_pending m w) = threads w.
Proof.
  unfold fail_pending. rewrite (proj2 (threads_drain (send_failed m) _ ltac:(done) _)).
  by rewrite (proj1 (threads_drain (send_failed m) _ ltac:(done) _)).
Qed.
Lemma threads_task ev o pc w w' : task_step ev o pc w = Some w' -> threads w' = threads w.
Proof.
  unfold task_step, finish_backend, drop_permit, release_active, publish.
  destruct (_ !! _); [|done].
  destruct pc, ev; try done; repeat case_match; intros; simplify_eq/=; done.
Qed.

(** ** Once the scheduler is closed *)

(** Submission [id] is owned by a thread that could still start it. *)
Definition may_start (w : world) (id : Z) : Prop :=
  exists o pc c, w_tasks w !! id = Some (o, pc) /\ (pc = PSpawned \/ pc = PRunning) /\
    w_controls w !! id = Some c /\ tc_state c = AcceptedNotStarted.

Definition sweeping (w : world) (id : Z) : Prop :=
  exists sw, w_sweep w = Some sw /\ (id ∈ sw_todo sw \/ sw_pc sw = SweepMark id).

Record Closed (w : world) : Prop := {
  cl_sweep : is_Some (w_sweep w) -> s_accepting (w_state w) = false;
  cl_queue : s_accepting (w_state w) = false -> s_queue (w_state w) = [];
  cl_ready : s_accepting (w_state w) = false -> s_ready (w_state w) = [];
  cl_start : s_accepting (w_state w) = false -> forall id, may_start w id -> sweeping w id }.

(** A step that changes neither the lists nor who accepts, and makes nothing
    startable. *)
Definition calm (w w' : world) : Prop :=
  s_accepting (w_state w') = s_accepting (w_state w) /\
  s_queue (w_state w') = s_queue (w_state w) /\ s_ready (w_state w') = s_ready (w_state w) /\
  s_active (w_state w') ⊆ s_active (w_state w) /\
  (forall id, may_start w' id -> may_start w id).

Lemma calm_refl w : calm w w.
Proof. by split_and!. Qed.
Lemma calm_trans a b c : calm a b -> calm b c -> calm a c.
Proof. intros (?&?&?&?&?) (?&?&?&?&?); split_and!; try congruence; [set_solver|auto]. Qed.

Lemma calm_closed w w' : Closed w -> calm w w' -> w_sweep w' = w_sweep w -> Closed w'.
Proof.
  intros [H1 H2 H3 H4] (E1 & E2 & E3 & _ & Hm) Es; split; rewrite ?E1, ?E2, ?E3, ?Es; auto.
  intros Ha id Hid. destruct (H4 Ha id (Hm id Hid)) as (sw & ? & ?). exists sw; by rewrite Es.
Qed.

Lemma mark_cancelling_not_accepted r c :
  tc_state (cancel_control r c) = AcceptedNotStarted -> tc_state c = AcceptedNotStarted.
Proof.
  unfold cancel_control, mark_cancelling. by destruct (is_terminal _), (tc_reason c).
Qed.

Lemma calm_update id r w : calm w (update_control id (cancel_control r) w).
Proof.
  unfold calm. rewrite state_update_control. split_and!; try done.
  intros j (o & pc & c & Ht & Hpc & Hc & Hs). unfold update_control in *.
  destruct (w_controls w !! id) as [c0|] eqn:E; simpl in *; [|by exists o, pc, c].
  destruct (decide (id = j)) as [->|Hne].
  - rewrite lookup_insert_eq in Hc; injection Hc as <-.
    exists o, pc, c0. split_and!; try done. by eapply mark_cancelling_not_accepted.
  - rewrite lookup_insert_ne in Hc by done. by exists o, pc, c.
Qed.

Lemma calm_expire_active now w : calm w (expire_active now w).
Proof.
  unfold expire_active. induction (List.filter _ _) as [|i l IH]; simpl; [apply calm_refl|].
  eapply calm_trans; [exact IH|apply calm_update].
Qed.

(** Stepping one owner: only its own task and control move. *)
Definition start_pc (pc : task_pc) : Prop := pc = PSpawned \/ pc = PRunning.

Definition own_move (pc : task_pc) (c c' : task_control) : Prop :=
  (tc_state c' = AcceptedNotStarted -> tc_state c = AcceptedNotStarted) /\
  (tc_state c' = Started -> tc_state c = Started \/ start_pc pc /\ tc_state c = AcceptedNotStarted).

Lemma own_move_refl pc c : own_move pc c c.
Proof. split; auto. Qed.
Lemma own_move_terminal pc c c' : is_terminal (tc_state c') = true -> own_move pc c c'.
Proof. intros H; split; intros E; by rewrite E in H. Qed.
Lemma own_move_eq pc c c' : tc_state c' = tc_state c -> own_move pc c c'.
Proof. intros E; split; rewrite E; auto. Qed.

Lemma begin_start_move c now :
  control_ok c -> tc_state c <> Queued -> own_move PSpawned c (begin_start now c).2.
Proof.
  intros [Hok _] Hq. unfold begin_start.
  destruct (is_terminal (tc_state c)) eqn:Et; simpl; [apply own_move_refl|].
  case_bool_decide as Hr; simpl; [apply own_move_refl|].
  destruct (is_some_and _ _); simpl; [by split|].
  case_decide; simpl; [apply own_move_refl|]. split; simpl; [done|].
  intros _. destruct (tc_state c) eqn:Es; try done;
    [right; split; [by left|done]|by left|destruct Hr; by apply Hok].
Qed.

Lemma mark_started_move c : own_move PRunning c (mark_started c).2.
Proof.
  unfold mark_started; case_decide as H; simpl; [|apply own_move_refl].
  split; [done|]. intros _; right; split; [by right|by destruct H].
Qed.

Lemma failure_move pc e ob d cl tr p c : own_move pc c (control_failure e ob d cl tr p c).1.
Proof. apply own_move_eq, control_failure_state. Qed.

Definition task_shape (w w' : world) (o : task_owner) (pc : task_pc) (c : task_control) : Prop :=
  exists c', w_controls w' = <[ow_id o := c']> (w_controls w) /\ own_move pc c c' /\
    s_accepting (w_state w') = s_accepting (w_state w) /\
    s_queue (w_state w') = s_queue (w_state w) /\ s_ready (w_state w') = s_ready (w_state w) /\
    s_active (w_state w') ⊆ s_active (w_state w) /\
    (w_tasks w' = delete (ow_id o) (w_tasks w) \/
     exists pc', w_tasks w' = <[ow_id o := (o, pc')]> (w_tasks w) /\ (start_pc pc' -> start_pc pc)).

Lemma shape_task w o pc pc' c c' :
  own_move pc c c' -> (start_pc pc' -> start_pc pc) ->
  task_shape w (set_task (set_control w (ow_id o) c') o pc') o pc c.
Proof. intros Hm Hp. exists c'. split_and!; try done. right; eauto. Qed.

Lemma shape_same w o pc pc' c :
  w_controls w !! ow_id o = Some c -> (start_pc pc' -> start_pc pc) ->
  task_shape w (set_task w o pc') o pc c.
Proof.
  intros Hc Hp. rewrite <- (set_control_self w (ow_id o) c) at 2 by done.
  by apply shape_task; [apply own_move_refl|].
Qed.

Lemma not_start pc' pc :
  match pc' with PSpawned | PRunning => False | _ => True end -> start_pc pc' -> start_pc pc.
Proof. intros H [-> | ->]; done. Qed.

Lemma shape_drop_permit w o pc c (w' : world) :
  w_controls w !! ow_id o = Some c ->
  w_controls w' = w_controls w -> w_state w' = w_state (drop_permit o w) \/ w_state w' = w_state w ->
  (w_tasks w' = delete (ow_id o) (w_tasks w) \/
   exists r, w_tasks w' = <[ow_id o := (o, PPublish r)]> (w_tasks w)) ->
  task_shape w w' o pc c.
Proof.
  intros Hc E Hs Ht. exists c. rewrite E, insert_id by done. split; [done|].
  split; [apply own_move_refl|].
  assert (s_accepting (w_state w') = s_accepting (w_state w) /\
    s_queue (w_state w') = s_queue (w_state w) /\ s_ready (w_state w') = s_ready (w_state w) /\
    s_active (w_state w') ⊆ s_active (w_state w)) as (?&?&?&?).
  { destruct Hs as [-> | ->]; [|done]. unfold drop_permit, release_active.
    destruct (ow_permit o); simpl; split_and!; try done; set_solver. }
  split_and!; try done. destruct Ht as [|[r Hr]]; [by left|right].
  exists (PPublish r); split; [done|by apply not_start].
Qed.

Lemma shape_backend w ob r o c0 c :
  own_move PRunning c0 c -> control_ok c ->
  task_shape w (finish_backend ob r o c w) o PRunning c0.
Proof.
  intros Hm Hok. unfold finish_backend.
  destruct (resolve_backend_result _ _ _ _) as [out c'] eqn:E.
  destruct (resolve_ok _ _ _ _ _ _ Hok E) as (_ & _ & Ht & _).
  apply shape_task; [by apply own_move_terminal|]. apply not_start. by destruct out as [[]|].
Qed.

Lemma task_step_shape cfg w w' o pc ev c :
  Inv cfg w -> w_tasks w !! ow_id o = Some (o, pc) -> w_controls w !! ow_id o = Some c ->
  task_step ev o pc w = Some w' -> task_shape w w' o pc c.
Proof.
  intros Hinv Ht Hc Hstep.
  destruct (located_task w _ o pc (inv_located _ _ Hinv _) Ht) as (_ & c0 & Hc0 & Hok & Hpc & _ & _ & _ & Hres).
  rewrite Hc in Hc0; injection Hc0 as <-.
  unfold task_step in Hstep; rewrite Hc in Hstep.
  destruct pc, ev; try done; simpl in Hpc.
  - injection Hstep as <-. apply shape_same; [done|by apply not_start].
  - pose proof (begin_start_move c now Hok ltac:(by destruct Hpc as (_&_&?))) as Hm.
    destruct (begin_start now c) as [b c']; injection Hstep as <-.
    apply shape_task; [done|]. intros _; by left.
  - injection Hstep as <-. apply shape_same; [done|by apply not_start].
  - injection Hstep as <-. rewrite (set_control_task_self w _ _ o PRunning) by done.
    apply shape_task; [apply mark_started_move|done].
  - injection Hstep as <-. apply shape_backend; [apply own_move_refl|done].
  - pose proof (failure_move PRunning (ExInternal "submission backend panicked") ob
      (Some (x_backend (ow_runner o))) None None None c) as Hm.
    pose proof (control_failure_state (ExInternal "submission backend panicked") ob
      (Some (x_backend (ow_runner o))) None None None c) as Hst.
    destruct (control_failure _ _ _ _ _ _ c) as [c' f]; injection Hstep as <-.
    apply shape_backend; [done|]. by apply (control_eqs_le c c' Hok Hst).
  - injection Hstep as <-. apply shape_same; [done|by apply not_start].
  - injection Hstep as <-. apply shape_same; [done|by apply not_start].
  - injection Hstep as <-. apply shape_same; [done|by apply not_start].
  - pose proof (failure_move (PSend s c0) (cause_error c0) ob None None None None c) as Hm.
    destruct (control_failure _ _ _ _ _ _ c) as [c' f]; injection Hstep as <-.
    apply shape_task; [done|by apply not_start].
  - destruct (mark_terminal s c) as [b c'] eqn:E; injection Hstep as <-.
    destruct (mark_terminal_ok _ _ _ _ Hok (proj1 Hpc) E) as (_ & _ & Ht' & _).
    apply shape_task; [by apply own_move_terminal|by apply not_start; destruct b].
  - injection Hstep as <-. apply shape_drop_permit; try done.
    + simpl. unfold drop_permit; by destruct (ow_permit o).
    + by left.
    + right; exists r. simpl. unfold drop_permit; by destruct (ow_permit o).
  - injection Hstep as <-. unfold publish; rewrite Hres. apply shape_drop_permit; try done; [by right|by left].
Qed.

Lemma tick_empty_calm cfg ob w :
  s_queue (w_state w) = [] -> s_ready (w_state w) = [] ->
  calm w (manager_tick cfg ob w).2 /\ (manager_tick cfg ob w).1.1 = false.
Proof.
  intros Hq Hr. unfold manager_tick. rewrite Hq. simpl.
  assert (set_queue w [] = w) as E1 by (rewrite <- Hq; apply set_queue_self).
  assert (set_ready w [] = w) as E2 by (rewrite <- Hr; apply set_ready_self).
  rewrite E1, Hr; simpl. rewrite E2.
  pose proof (calm_expire_active (ob_now ob) w) as Hc.
  pose proof Hc as (_ & Eq & Er & _). rewrite Eq, Hq; simpl.
  unfold pop_ready. rewrite Er, Hr; simpl. done.
Qed.

Lemma cancel_empty_calm id r w :
  s_queue (w_state w) = [] -> s_ready (w_state w) = [] -> calm w (request_cancel id r w).2.
Proof.
  intros Hq Hr. unfold request_cancel. destruct (_ !! _); [|apply calm_refl].
  destruct (is_terminal _); [apply calm_refl|]. rewrite Hq, Hr; simpl. apply calm_update.
Qed.

Lemma fail_pending_empty m w :
  s_queue (w_state w) = [] -> s_ready (w_state w) = [] -> fail_pending m w = w.
Proof. intros Hq Hr. unfold fail_pending. rewrite Hq; simpl. by rewrite Hr. Qed.

Lemma task_step_calm cfg w w' id o pc ev :
  Inv cfg w -> w_tasks w !! id = Some (o, pc) -> task_step ev o pc w = Some w' -> calm w w'.
Proof.
  intros Hinv Ht Hstep.
  destruct (located_task w id o pc (inv_located _ _ Hinv _) Ht) as (<- & c & Hc & _).
  destruct (task_step_shape cfg w w' o pc ev c Hinv Ht Hc Hstep)
    as (c' & Ec & [Hm1 _] & Ha & Hq & Hr & Hact & Htasks).
  split_and!; try done. intros j (o' & pc' & cj & Hj & Hpc & Hcj & Hs).
  destruct (decide (j = ow_id o)) as [->|Hne].
  - rewrite Ec, lookup_insert_eq in Hcj; injection Hcj as <-.
    destruct Htasks as [E|(pc0 & E & Hp)]; rewrite E in Hj; [by rewrite lookup_delete_eq in Hj|].
    rewrite lookup_insert_eq in Hj; injection Hj as <- <-.
    exists o, pc, c. split_and!; try done; [by apply Hp|by apply Hm1].
  - exists o', pc', cj. rewrite Ec, lookup_insert_ne in Hcj by done.
    split_and!; try done.
    destruct Htasks as [E|(pc0 & E & Hp)]; rewrite E in Hj;
      [by rewrite lookup_delete_ne in Hj|by rewrite lookup_insert_ne in Hj].
Qed.

Lemma threads_shutdown_begin order w :
  w_manager_started (shutdown_begin order w).2 = w_manager_started w /\
  w_managers (shutdown_begin order w).2 = w_managers w /\
  w_submits (shutdown_begin order w).2 = w_submits w /\
  s_next_id (w_state (shutdown_begin order w).2) = s_next_id (w_state w).
Proof.
  unfold shutdown_begin; simpl.
  set (w0 := set_sched w (with_accepting (w_state w) false)).
  destruct (threads_drain send_cancelled (s_queue (w_state w)) ltac:(done) w0) as [E1 _].
  set (w1 := drain_queue _ _ w0) in *.
  destruct (threads_drain (take_cancelled Shutdown) (s_ready (w_state w))
    (threads_take_cancelled Shutdown) w1) as [_ E2].
  apply threads_eq in E1 as (? & ? & ? & _ & ? & _).
  apply threads_eq in E2 as (? & ? & ? & _ & ? & _).
  split_and!; etrans; try eassumption; done.
Qed.

Lemma shutdown_begin_next order w :
  s_next_id (w_state (shutdown_begin order w).2) = s_next_id (w_state w).
Proof. apply threads_shutdown_begin. Qed.

(** The lists are emptied and every startable owner is in the pass. *)
Lemma shutdown_begin_closed cfg order w :
  Inv cfg w -> order ≡ₚ elements (s_active (w_state w)) -> Closed (shutdown_begin order w).2.
Proof.
  intros Hinv Hord. pose proof (shutdown_begin_inv cfg order w Hinv) as Hinv'.
  pose proof (shutdown_begin_lists cfg order w Hinv) as (Hq & Hr & Ha & Hacc).
  split; try done. intros _ id (o & pc & c & Ht & Hpc & Hc & Hs).
  destruct (located_task _ id o pc (inv_located _ _ Hinv' id) Ht)
    as (_ & c0 & _ & _ & Hok & _ & _ & Hact & _).
  eexists; split; [reflexivity|left]; simpl. rewrite Hord. apply elem_of_elements.
  rewrite <- Ha. eapply bool_decide_eq_true_1. rewrite Hact. unfold permit_held.
  destruct Hpc as [-> | ->]; destruct Hok as (-> & _); done.
Qed.

Lemma not_accepted_after_cancel c out c' r :
  control_ok c -> mark_cancelling r c = (out, c') -> tc_state c' <> AcceptedNotStarted.
Proof.
  intros [_ Hok]. unfold mark_cancelling.
  destruct (is_terminal (tc_state c)) eqn:Et; [intros [= <- <-] E; by rewrite E in Et|].
  destruct (tc_reason c) as [r0|]; intros [= <- <-]; [|done].
  intros E. destruct Hok as [H|H]; [by eexists|congruence|congruence].
Qed.

Lemma located_control_ok w id c :
  located id (view_of w id) -> w_controls w !! id = Some c -> control_ok c.
Proof.
  intros H Hc. remember (view_of w id) as v eqn:E. unfold view_of in E; rewrite Hc in E.
  destruct H as [|? ? ? ? Hs Hr|? ? ? ? Hs Hr| |]; injection E as E1 E2 E3 E4 E5 E6; subst; try done;
    (split; rewrite Hs, ?Hr; [done|by intros [? [=]]]).
Qed.

(** One access of the shutdown pass. *)
Lemma sweep_step_inv cfg w sw :
  Inv cfg w -> Closed w -> w_sweep w = Some sw ->
  Inv cfg (set_sweep (sweep_step sw w).2 (sweep_step sw w).1) /\
  Closed (set_sweep (sweep_step sw w).2 (sweep_step sw w).1).
Proof.
  intros Hinv [H1 H2 H3 H4] Hsw.
  pose proof (H1 ltac:(by rewrite Hsw)) as Hacc.
  specialize (H2 Hacc); specialize (H3 Hacc); specialize (H4 Hacc).
  unfold sweep_step. destruct sw as [todo pc count]; simpl.
  destruct pc as [|id].
  - destruct todo as [|id todo]; simpl.
    + split; [by eapply inv_ext|]. split; try done. intros _ id Hid.
      destruct (H4 id Hid) as (sw & E & Hin). rewrite Hsw in E; injection E as <-.
      simpl in Hin. destruct Hin as [Hin%not_elem_of_nil|]; done.
    + split; [by eapply inv_ext|]. split; try done. intros _ j Hid.
      destruct (H4 j Hid) as (sw & E & Hin). rewrite Hsw in E; injection E as <-.
      eexists; split; [reflexivity|]; simpl in *.
      destruct Hin as [[->|Hin]%elem_of_cons|]; [|by left|done]. right.
      rewrite decide_True; [done|]. destruct Hid as (o & pc & c & _ & _ & Hc & Hs).
      unfold control_state; simpl in *. rewrite Hc; simpl; by rewrite Hs.
  - destruct (w_controls w !! id) as [c|] eqn:Ec; simpl.
    + destruct (mark_cancelling Shutdown c) as [out c'] eqn:Em; simpl.
      assert (set_control w id c' = update_control id (cancel_control Shutdown) w) as Ew
        by (unfold update_control, cancel_control; by rewrite Ec, Em).
      rewrite Ew. split.
      * eapply inv_ext; [apply (update_control_inv cfg w id (cancel_control Shutdown))|..]; try done.
        -- by rewrite H2.
        -- by rewrite H3.
        -- apply cancel_control_free.
      * pose proof (calm_update id Shutdown w) as (E1 & E2 & E3 & _ & Hm). split; simpl; rewrite ?E1, ?E2, ?E3; try done.
        intros _ j Hj. destruct (H4 j (Hm j Hj)) as (sw & E & Hin). rewrite Hsw in E; injection E as <-.
        eexists; split; [reflexivity|]; simpl in *. destruct Hin as [Hin|[= ->]]; [by left|]. exfalso.
        destruct Hj as (o & pc & c0 & Ht & Hpc & Hc0 & Hs). simpl in *. rewrite <- Ew in Hc0; simpl in Hc0.
        rewrite lookup_insert_eq in Hc0; injection Hc0 as <-.
        apply (not_accepted_after_cancel c out c' Shutdown); try done.
        pose proof (inv_located _ _ Hinv j) as Hl. by eapply located_control_ok.
    + split; [by eapply inv_ext|]. split; try done. intros _ j Hid.
      destruct (H4 j Hid) as (sw & E & Hin). rewrite Hsw in E; injection E as <-.
      eexists; split; [reflexivity|]; simpl in *. destruct Hin as [Hin|[= ->]]; [by left|].
      destruct Hid as (o & pc & c & _ & _ & Hc & Hs). simpl in Hc. by rewrite Ec in Hc.
Qed.

(** ** Every interleaving *)
Definition Full (cfg : admission_config) (w : world) : Prop :=
  Inv cfg w /\ ids_start w /\ Closed w.

Lemma threads_inv cfg w b m s : Inv cfg w -> Inv cfg (set_threads w b m s).
Proof. intros H; by eapply inv_ext. Qed.

(** [Closed] for a step that only runs while no pass is under way: when the
    scheduler is open nothing is promised, when it is closed the lists are
    empty. *)
Lemma closed_step w w' :
  Closed w -> threads w' = threads w -> w_sweep w = None ->
  (s_queue (w_state w) = [] -> s_ready (w_state w) = [] -> calm w w') -> Closed w'.
Proof.
  intros Hcl Hth Hsw Hcalm. apply threads_eq in Hth as (_ & _ & _ & Es & _ & Ea).
  destruct (s_accepting (w_state w)) eqn:E.
  - split; rewrite ?Es, ?Hsw, ?Ea; done.
  - eapply calm_closed; [done| |done]. apply Hcalm; by apply Hcl.
Qed.

Lemma set_threads_closed w b m s : Closed w -> Closed (set_threads w b m s).
Proof. intros [H1 H2 H3 H4]; by split. Qed.

Lemma ids_start_threads w w' : threads w' = threads w -> ids_start w -> ids_start w'.
Proof. intros (_&_&_&_&E&_)%threads_eq; unfold ids_start; by rewrite E. Qed.

Lemma moved_full cfg w w' :
  Full cfg w -> Inv cfg w' -> threads w' = threads w -> w_sweep w = None ->
  (s_queue (w_state w) = [] -> s_ready (w_state w) = [] -> calm w w') -> Full cfg w'.
Proof.
  intros (_ & Hi & Hc) Hinv Hth Hsw Hcalm. split_and!; [done|by eapply ids_start_threads|].
  by eapply closed_step.
Qed.

Lemma threads_full cfg w b m s : Full cfg w -> Full cfg (set_threads w b m s).
Proof.
  intros (?&?&?). split_and!; [by apply threads_inv|done|by apply set_threads_closed].
Qed.

Lemma submit_full cfg w w' t ob runner request submission r :
  Full cfg w -> w_sweep w = None -> s_next_id (w_state w) < u64_max ->
  submit cfg t ob runner request submission w = (r, w') -> Full cfg w'.
Proof.
  intros (Hinv & Hi & Hc) Hsw Hlt E.
  destruct (submit_inv cfg w w' _ _ _ _ _ _ Hinv Hi Hlt E) as [Hinv' Hi'].
  destruct (threads_submit _ _ _ _ _ _ _ _ _ E) as (_ & _ & _ & Es & Et & Ea & _ & Hno).
  split_and!; [done..|].
  destruct (s_accepting (w_state w)) eqn:Eacc.
  - split; rewrite ?Es, ?Hsw, ?Ea; done.
  - destruct (Hno (or_introl eq_refl)) as (Eq & Er & Ec & Eac).
    eapply calm_closed; [done| |done]. split_and!; try done; try (by rewrite Eacc);
      [by rewrite Eac|].
    intros id (o & pc & c & H1 & H2 & H3 & H4). rewrite Et in H1; rewrite Ec in H3.
    by exists o, pc, c.
Qed.

Lemma step_full cfg w w' : Full cfg w -> sched_step cfg w w' -> Full cfg w'.
Proof.
  intros Hf Hstep. pose proof Hf as (Hinv & Hi & Hc). destruct Hstep as
    [w w' t ob runner request submission id Hsw Hlt E
    |w w' t ob runner request submission e Hsw Hlt E
    |w i E|w i r E|w i m Hsw E|w i ob Hsw E|w i now Hsw E|w i E|w id r Hsw
    |w w' id o pc ev Ht Hlock E|w order Hsw Hord|w sw Hsw].
  - apply threads_full. by eapply submit_full.
  - by eapply submit_full.
  - unfold ensure_manager; destruct (w_manager_started w); by apply threads_full.
  - unfold spawn_manager; destruct r; by apply threads_full.
  - apply threads_full. apply (moved_full cfg w); [done|by apply fail_pending_inv| |done|].
    + apply threads_fail_pending.
    + intros Hq Hr. rewrite fail_pending_empty by done. apply calm_refl.
  - unfold manager_loop_tick. pose proof (threads_tick cfg ob w) as Hth.
    pose proof (manager_tick_inv cfg ob w Hinv) as Hinv'.
    pose proof (tick_empty_calm cfg ob w) as Hcalm.
    destruct (manager_tick cfg ob w) as [[d x] w1]; simpl in *.
    apply threads_full. apply (moved_full cfg w); try done. by intros; apply Hcalm.
  - unfold manager_loop_recheck; destruct (manager_recheck _ _ _); by apply threads_full.
  - by apply threads_full.
  - apply (moved_full cfg w); [done|by apply request_cancel_inv|apply threads_cancel|done|].
    intros; by apply cancel_empty_calm.
  - pose proof (threads_task _ _ _ _ _ E) as Hth.
    split_and!; [by eapply task_step_inv|by eapply ids_start_threads|].
    apply threads_eq in Hth as (_ & _ & _ & Es & _).
    eapply calm_closed; [done|by eapply task_step_calm|done].
  - split_and!; [by apply shutdown_begin_inv| |by eapply shutdown_begin_closed].
    unfold ids_start in *. by rewrite shutdown_begin_next.
  - destruct (sweep_step_inv cfg w sw Hinv Hc Hsw) as [H1 H2]. split_and!; [done| |done].
    unfold ids_start in *; simpl. unfold sweep_step.
    destruct (sw_pc sw); [by destruct (sw_todo sw)|].
    destruct (w_controls w !! id); [by destruct (mark_cancelling _ _)|done].
Qed.

Lemma full_init cfg :
  0 < ac_active_limit cfg -> 0 <= ac_queue_limit cfg -> Full cfg scheduler_new.
Proof.
  intros Ha Hq. split_and!.
  - assert (forall id, view_of scheduler_new id = View [] [] false None None None) as Hv.
    { intros id. unfold view_of; cbn [w_state scheduler_new s_active s_queue s_ready w_tasks w_results w_controls].
      by rewrite !lookup_empty, bool_decide_eq_false_2 by set_solver. }
    split; [intros id; rewrite Hv; apply at_unborn| | |simpl; lia|constructor|
      by intros ? ? ?%not_elem_of_nil]; [|change (Z.of_nat (size (∅ : gset Z)) <= ac_active_limit cfg);
      rewrite size_empty; lia].
    intros id [c Hc]. specialize (Hv id). unfold view_of in Hv. rewrite Hc in Hv. discriminate Hv.
  - unfold ids_start; simpl; lia.
  - split; try done. by intros [? [=]].
Qed.

Lemma full_reachable cfg w :
  0 < ac_active_limit cfg -> 0 <= ac_queue_limit cfg ->
  reachable (sched_step cfg) scheduler_new w -> Full cfg w.
Proof.
  intros Ha Hq. apply reachable_invariant; [by apply full_init|]. intros; by eapply step_full.
Qed.

(** ** The manager thread *)

Definition is_sub_spawn (s : submit_pc) : bool := match s with SubSpawn => true | _ => false end.
Definition spawns (l : list submit_pc) : nat :=
  sum_list_with (fun s => if is_sub_spawn s then 1%nat else 0%nat) l.

Definition starts (w : world) (id : Z) : Prop :=
  exists o pc, w_tasks w !! id = Some (o, pc) /\ start_pc pc.

Record Managed (w : world) : Prop := {
  mg_flag : (length (w_managers w) + spawns (w_submits w) =
             if w_manager_started w then 1 else 0)%nat;
  mg_exit : MgrExiting ∈ w_managers w ->
    s_accepting (w_state w) = false /\ s_active (w_state w) = ∅;
  mg_pending : s_queue (w_state w) <> [] \/ s_ready (w_state w) <> [] ->
    w_managers w <> [] \/ w_submits w <> [];
  mg_running : forall id, starts w id -> w_managers w <> [] }.

(** Steps that start nothing and queue nothing. *)
Definition quiet (w w' : world) : Prop :=
  (forall id, starts w' id -> starts w id) /\
  (s_queue (w_state w') <> [] -> s_queue (w_state w) <> []) /\
  (s_ready (w_state w') <> [] -> s_ready (w_state w) <> []) /\
  (w_managers w', w_submits w', w_manager_started w', s_accepting (w_state w')) =
  (w_managers w, w_submits w, w_manager_started w, s_accepting (w_state w)).

Lemma quiet_managed w w' :
  Managed w -> quiet w w' ->
  (s_accepting (w_state w) = false -> s_active (w_state w') ⊆ s_active (w_state w)) -> Managed w'.
Proof.
  intros [H1 H2 H3 H4] (Q1 & Q2 & Q3 & [= E1 E2 E3 E4]) Hact.
  split; rewrite ?E1, ?E2, ?E3, ?E4; auto.
  - intros Hin. destruct (H2 Hin) as [Ha He]. split; [done|].
    specialize (Hact Ha). rewrite He in Hact. set_solver.
  - intros [H|H]; apply H3; auto.
  - intros id Hid. by apply (H4 id), Q1.
Qed.

Lemma starts_set_task w o pc id :
  ~ start_pc pc -> starts (set_task w o pc) id -> starts w id.
Proof.
  intros Hpc (o' & pc' & Ht & Hs). simpl in Ht. destruct (decide (ow_id o = id)) as [<-|Hne].
  - rewrite lookup_insert_eq in Ht; injection Ht as <- <-; done.
  - rewrite lookup_insert_ne in Ht by done. by exists o', pc'.
Qed.

Lemma tasks_update_control i f w : w_tasks (update_control i f w) = w_tasks w.
Proof. unfold update_control; by destruct (_ !! _). Qed.

Lemma starts_same w w' id : w_tasks w' = w_tasks w -> starts w' id -> starts w id.
Proof. unfold starts; by intros ->. Qed.

Lemma not_start_send s c : ~ start_pc (PSend s c).
Proof. by intros [|]. Qed.

Lemma starts_take r o w id : starts (take_cancelled r o w) id -> starts w id.
Proof.
  intros H%starts_set_task; [|apply not_start_send]. eapply starts_same; [|done].
  apply tasks_update_control.
Qed.

Lemma delete_nonempty {A} i (l : list A) : delete i l <> [] -> l <> [].
Proof. intros H ->; by destruct i. Qed.

Lemma quiet_of_threads w w' :
  threads w' = threads w -> (forall id, starts w' id -> starts w id) ->
  (s_queue (w_state w') <> [] -> s_queue (w_state w) <> []) ->
  (s_ready (w_state w') <> [] -> s_ready (w_state w) <> []) -> quiet w w'.
Proof. intros (E1&E2&E3&_&_&E4)%threads_eq ???; split_and!; auto. congruence. Qed.

Lemma quiet_cancel id r w : quiet w (request_cancel id r w).2.
Proof.
  apply quiet_of_threads; [apply threads_cancel|..].
  - intros j. unfold request_cancel. destruct (_ !! _); [|done]. destruct (is_terminal _); [done|].
    destruct (list_find _ _) as [[]|]; simpl; [intros H%starts_take; by eapply starts_same|].
    destruct (list_find _ _) as [[]|]; simpl; [intros H%starts_take; by eapply starts_same|].
    apply starts_same, tasks_update_control.
  - unfold request_cancel. destruct (_ !! _); [|done]. destruct (is_terminal _); [done|].
    destruct (list_find _ _) as [[]|]; simpl; [rewrite state_update_control; apply delete_nonempty|].
    destruct (list_find _ _) as [[]|]; simpl; by rewrite state_update_control.
  - unfold request_cancel. destruct (_ !! _); [|done]. destruct (is_terminal _); [done|].
    destruct (list_find _ _) as [[]|]; simpl; [by rewrite state_update_control|].
    destruct (list_find _ _) as [[]|]; simpl;
      [rewrite state_update_control; apply delete_nonempty|by rewrite state_update_control].
Qed.

Lemma starts_drain f l :
  (forall o w id, starts (f o w) id -> starts w id) -> forall w id,
  (starts (drain_queue f l w) id -> starts w id) /\
  (starts (drain_ready f l w) id -> starts w id).
Proof.
  intros Hf; induction l as [|o l IH]; intros w id; simpl; [done|].
  split; intros H; apply IH, Hf in H; by eapply starts_same.
Qed.

Lemma quiet_task cfg w w' id o pc ev :
  Inv cfg w -> w_tasks w !! id = Some (o, pc) -> task_step ev o pc w = Some w' -> quiet w w'.
Proof.
  intros Hinv Ht Hstep.
  destruct (located_task w id o pc (inv_located _ _ Hinv _) Ht) as (<- & c & Hc & _).
  destruct (task_step_shape cfg w w' o pc ev c Hinv Ht Hc Hstep)
    as (c' & _ & _ & _ & Hq & Hr & _ & Htasks).
  apply quiet_of_threads; [by eapply threads_task| |by rewrite Hq|by rewrite Hr].
  intros j (o' & pc' & Hj & Hs). destruct Htasks as [E|(pc0 & E & Hp)]; rewrite E in Hj.
  - destruct (decide (ow_id o = j)) as [<-|]; [by rewrite lookup_delete_eq in Hj|].
    rewrite lookup_delete_ne in Hj by done. by exists o', pc'.
  - destruct (decide (ow_id o = j)) as [<-|].
    + rewrite lookup_insert_eq in Hj; injection Hj as <- <-. exists o, pc. auto.
    + rewrite lookup_insert_ne in Hj by done. by exists o', pc'.
Qed.

Lemma spawns_delete l i s : l !! i = Some s ->
  (spawns (delete i l) + (if is_sub_spawn s then 1 else 0) = spawns l)%nat.
Proof.
  unfold spawns; revert i; induction l as [|x l IH]; intros [|i] H; simplify_eq/=; [lia|].
  specialize (IH _ H); lia.
Qed.
Lemma spawns_insert l i s s' : l !! i = Some s ->
  (spawns (<[i := s']> l) + (if is_sub_spawn s then 1 else 0) =
   spawns l + (if is_sub_spawn s' then 1 else 0))%nat.
Proof. intros H. apply (sum_list_insert (fun s => if is_sub_spawn s then 1%nat else 0%nat)); done. Qed.
Lemma spawns_pos l i : l !! i = Some SubSpawn -> (1 <= spawns l)%nat.
Proof. intros H%spawns_delete; simpl in H; lia. Qed.

Lemma all_empty_spec s :
  all_empty s = true <-> s_active s = ∅ /\ s_queue s = [] /\ s_ready s = [].
Proof.
  unfold all_empty. rewrite !andb_true_iff, !bool_decide_eq_true, !length_zero_iff_nil.
  naive_solver.
Qed.

Lemma tick_exit cfg ob w :
  (manager_tick cfg ob w).1.2 = true ->
  s_accepting (w_state (manager_tick cfg ob w).2) = false /\
  s_active (w_state (manager_tick cfg ob w).2) = ∅.
Proof.
  unfold manager_tick. destruct (pop_ready _) as [d w1]; simpl.
  intros [H1%negb_true_iff H2%all_empty_spec]%andb_true_iff. by destruct H2.
Qed.

Lemma starts_active cfg w id : Inv cfg w -> starts w id -> id ∈ s_active (w_state w).
Proof.
  intros Hinv (o & pc & Ht & Hs).
  destruct (located_task w id o pc (inv_located _ _ Hinv id) Ht)
    as (_ & c0 & _ & _ & Hok & _ & _ & Hact & _).
  eapply bool_decide_eq_true_1. rewrite Hact. unfold permit_held.
  destruct Hs as [-> | ->]; destruct Hok as (-> & _); done.
Qed.

Lemma lookup_nonempty {A} (l : list A) i x : l !! i = Some x -> l <> [].
Proof. intros H ->; by destruct i. Qed.

(** Changing only the thread fields. *)
Lemma managed_threads cfg w (b : bool) (m : list manager_pc) (s : list submit_pc) :
  Inv cfg w -> Managed w ->
  (length m + spawns s = if b then 1 else 0)%nat ->
  (MgrExiting ∈ m -> MgrExiting ∈ w_managers w) ->
  (s_queue (w_state w) <> [] \/ s_ready (w_state w) <> [] -> m <> [] \/ s <> []) ->
  (s_active (w_state w) <> ∅ -> w_managers w <> [] -> m <> []) ->
  Managed (set_threads w b m s).
Proof.
  intros Hinv [H1 H2 H3 H4] F1 F2 F3 F4; split; simpl; auto.
  intros id Hid. pose proof (starts_active cfg w id Hinv Hid) as Ha.
  apply F4; [set_solver|by apply (H4 id)].
Qed.

Lemma fail_pending_lists m w :
  s_queue (w_state (fail_pending m w)) = [] /\ s_ready (w_state (fail_pending m w)) = [] /\
  s_active (w_state (fail_pending m w)) = s_active (w_state w).
Proof.
  unfold fail_pending. set (w1 := drain_queue _ _ w).
  destruct (drain_frame (send_failed m) (s_queue (w_state w)) ltac:(done) w) as (A1 & _ & _).
  destruct (drain_frame (send_failed m) (s_ready (w_state w1)) ltac:(done) w1) as (_ & _ & _ & A2 & _ & Q2).
  rewrite Q2, A2. split_and!; [|by apply drained_ready|done]. by apply drained_queue.
Qed.

Lemma starts_shutdown_begin order w id : starts (shutdown_begin order w).2 id -> starts w id.
Proof.
  unfold shutdown_begin; simpl. intros H.
  eapply (starts_same (drain_ready (take_cancelled Shutdown) (s_ready (w_state w)) _)) in H; [|done].
  apply starts_drain in H; [|intros; by eapply starts_take].
  apply starts_drain in H; [|intros; eapply starts_set_task; [apply not_start_send|done]].
  by eapply starts_same.
Qed.

Lemma sweep_step_frame sw w :
  w_state (sweep_step sw w).2 = w_state w /\ w_tasks (sweep_step sw w).2 = w_tasks w /\
  threads (sweep_step sw w).2 = threads w.
Proof.
  unfold sweep_step. destruct (sw_pc sw); [by destruct (sw_todo sw)|].
  destruct (w_controls w !! id); [by destruct (mark_cancelling _ _)|done].
Qed.

Lemma managed_tick cfg w i ob :
  Inv cfg w -> Closed w -> Managed w -> w_managers w !! i = Some MgrTop ->
  Managed (manager_loop_tick cfg w i ob).
Proof.
  intros Hinv Hcl [H1 H2 H3 H4] Hi. unfold manager_loop_tick.
  pose proof (tick_exit cfg ob w) as Hx. pose proof (threads_tick cfg ob w) as Hth.
  destruct (manager_tick cfg ob w) as [[d x] w1]; simpl in *.
  apply threads_eq in Hth as (E1 & E2 & E3 & _ & _ & E4).
  assert (forall p, <[i := p]> (w_managers w1) <> []) as Hne.
  { intros p. rewrite E2. intros E%(f_equal length). rewrite length_insert in E.
    by apply lookup_nonempty in Hi; destruct (w_managers w). }
  assert (length (w_managers w) = 1%nat) as Hlen.
  { pose proof (lookup_lt_Some _ _ _ Hi). destruct (w_manager_started w); lia. }
  split; simpl; try (by left); try (by intros; apply Hne).
  - rewrite length_insert, E1, E2, E3. done.
  - destruct x; [by intros _; apply Hx|]. intros Hin. exfalso.
    rewrite E2 in Hin. destruct (w_managers w) as [|m [|]]; try done.
    destruct i; simpl in *; [|done]. apply list_elem_of_singleton in Hin. by destruct d.
Qed.

Lemma managed_submit cfg w w' t ob runner request submission r :
  Managed w -> submit cfg t ob runner request submission w = (r, w') ->
  Managed (match r with
           | inr _ => set_threads w' (w_manager_started w') (w_managers w') (w_submits w' ++ [SubEnsure])
           | inl _ => w'
           end).
Proof.
  intros Hm E; pose proof Hm as [H1 H2 H3 H4].
  pose proof (threads_submit _ _ _ _ _ _ _ _ _ E) as (E1 & E2 & E3 & _ & Et & Ea & _ & Hno); destruct r as [e|id].
  - destruct (Hno (or_intror (ex_intro _ e eq_refl))) as (Eq & Er & _ & Eac).
    apply (quiet_managed w); [done| |by rewrite Eac]. split_and!; rewrite ?Eq, ?Er; try done; [|congruence].
    intros j; by apply starts_same.
  - split; simpl; rewrite ?E1, ?E2, ?E3.
    + unfold spawns in *; rewrite sum_list_with_app; simpl; lia.
    + intros Hin. destruct (H2 Hin) as [Ha He]. rewrite Ea. split; [done|].
      destruct (Hno (or_introl Ha)) as (_ & _ & _ & ->). done.
    + intros _; right; by destruct (w_submits w).
    + intros j Hj. apply (H4 j). by eapply starts_same.
Qed.

(** A submission that gave its turn to the next state is still there. *)
Lemma insert_nonempty {A} (l : list A) (i : nat) (x y : A) : l !! i = Some y -> <[i:=x]> l <> [].
Proof. intros E%lookup_nonempty Hn%(f_equal length); rewrite length_insert in Hn; by destruct l. Qed.

Lemma managed_ensure cfg w i :
  Inv cfg w -> Managed w -> w_submits w !! i = Some SubEnsure -> Managed (ensure_manager w i).
Proof.
  intros Hinv Hm E; pose proof Hm as [H1 H2 H3 H4]; unfold ensure_manager.
  destruct (w_manager_started w) eqn:Es; apply (managed_threads cfg); try done.
  - pose proof (spawns_delete _ _ _ E); simpl in *; lia.
  - intros _. destruct (w_managers w) eqn:Em; [right|by left]. simpl in H1.
    pose proof (spawns_delete _ _ _ E) as Hd; simpl in Hd.
    intros Hn; rewrite Hn in Hd; simpl in Hd; unfold spawns in *; simpl in *; lia.
  - pose proof (spawns_insert _ _ _ SubSpawn E); simpl in *; lia.
  - intros _; right; by eapply insert_nonempty.
Qed.

Lemma managed_spawn cfg w i r :
  Inv cfg w -> Managed w -> w_submits w !! i = Some SubSpawn -> Managed (spawn_manager w i r).
Proof.
  intros Hinv Hm E; pose proof Hm as [H1 H2 H3 H4]; pose proof (spawns_pos _ _ E) as Hpos; unfold spawn_manager.
  destruct r as [[]|e]; apply (managed_threads cfg); try done.
  - pose proof (spawns_delete _ _ _ E); rewrite length_app; simpl in *; lia.
  - intros [|?%list_elem_of_singleton]%elem_of_app; done.
  - intros _; left; by destruct (w_managers w).
  - intros _ _; by destruct (w_managers w).
  - pose proof (spawns_insert _ _ _ (SubFailPending ("failed to start execution manager: " +:+ e)) E);
      simpl in *. destruct (w_manager_started w); lia.
  - intros _; right; by eapply insert_nonempty.
Qed.

Lemma managed_fail_pending w i m :
  Managed w -> w_submits w !! i = Some (SubFailPending m) ->
  Managed (set_threads (fail_pending m w) (w_manager_started w) (w_managers w) (delete i (w_submits w))).
Proof.
  intros [H1 H2 H3 H4] E; destruct (fail_pending_lists m w) as (Q & R & A).
  pose proof (threads_fail_pending m w) as (T1 & T2 & T3 & _ & _ & T4)%threads_eq.
  split; simpl; rewrite ?T4.
  - pose proof (spawns_delete _ _ _ E); simpl in *; lia.
  - by rewrite A.
  - rewrite Q, R; by intros [|].
  - intros j Hj. apply (H4 j).
    apply (starts_same (fail_pending m w)) in Hj; [|done]. unfold fail_pending in Hj.
    apply starts_drain in Hj; [apply starts_drain in Hj; [done|]|];
      intros; eapply starts_set_task; try done; apply not_start_send.
Qed.

Lemma managed_recheck cfg w i now :
  Inv cfg w -> Managed w -> w_managers w !! i = Some MgrRecheck -> Managed (manager_loop_recheck cfg w i now).
Proof.
  intros Hinv Hm E; pose proof Hm as [H1 H2 H3 H4]; unfold manager_loop_recheck, manager_recheck.
  pose proof (lookup_lt_Some _ _ _ E) as Hlt.
  destruct (all_empty (w_state w)) eqn:Ee;
    [apply all_empty_spec in Ee as (A & Q & R)|destruct (has_dispatchable_pending _ _ _ _)].
  1: { apply (managed_threads cfg); try done.
    + rewrite length_delete by eauto. destruct (w_manager_started w); lia.
    + intros Hin. by eapply elem_of_sublist, sublist_delete.
    + rewrite Q, R; by intros [|]. }
  all: apply (managed_threads cfg); try done; rewrite ?length_insert; try done;
    [intros (j & Hj)%list_elem_of_lookup; apply list_elem_of_lookup;
       destruct (decide (i = j)) as [<-|]; [by rewrite list_lookup_insert_eq in Hj|
         rewrite list_lookup_insert_ne in Hj by done; eauto]
    |intros _; left; by eapply insert_nonempty
    |intros _ _; by eapply insert_nonempty].
Qed.

Lemma managed_exit cfg w i :
  Inv cfg w -> Closed w -> Managed w -> w_managers w !! i = Some MgrExiting ->
  Managed (set_threads w false (delete i (w_managers w)) (w_submits w)).
Proof.
  intros Hinv Hc Hm E; pose proof Hm as [H1 H2 H3 H4].
  pose proof (list_elem_of_lookup_2 _ _ _ E) as Hin; destruct (H2 Hin) as [Ha He].
  pose proof (lookup_lt_Some _ _ _ E) as Hlt.
  apply (managed_threads cfg); try done.
  - rewrite length_delete by eauto. destruct (w_manager_started w); lia.
  - rewrite (cl_queue _ Hc Ha), (cl_ready _ Hc Ha). by intros [|].
Qed.

Lemma managed_shutdown_begin cfg w order :
  Inv cfg w -> Managed w -> Managed (shutdown_begin order w).2.
Proof.
  intros Hinv [H1 H2 H3 H4]; destruct (threads_shutdown_begin order w) as (E1 & E2 & E3 & _).
  destruct (shutdown_begin_lists cfg order w Hinv) as (Q & R & A & Acc).
  split; rewrite ?E1, ?E2, ?E3, ?Q, ?R, ?A, ?Acc; try done.
  - intros Hin; split; [done|by apply H2].
  - by intros [|].
  - intros j Hj. apply (H4 j). by eapply starts_shutdown_begin.
Qed.

Lemma managed_sweep w sw :
  Managed w -> Managed (set_sweep (sweep_step sw w).2 (sweep_step sw w).1).
Proof.
  intros Hm; destruct (sweep_step_frame sw w) as (Es & Et & Eth).
  apply threads_eq in Eth as (E1 & E2 & E3 & _ & _ & E4).
  apply (quiet_managed w); [done| |simpl; by rewrite Es].
  split_and!; simpl; rewrite ?Es; try done; [|congruence].
  intros j Hj. by eapply starts_same.
Qed.

Lemma step_managed cfg w w' : Full cfg w -> Managed w -> sched_step cfg w w' -> Managed w'.
Proof.
  intros (Hinv & Hi & Hc) Hm Hstep. destruct Hstep as
    [w w' t ob runner request submission id Hsw Hlt E
    |w w' t ob runner request submission e Hsw Hlt E
    |w i E|w i r E|w i m Hsw E|w i ob Hsw E|w i now Hsw E|w i E|w id r Hsw
    |w w' id o pc ev Ht Hlock E|w order Hsw Hord|w sw Hsw].
  - by apply (managed_submit cfg w w' t ob runner request submission (inr id)).
  - by apply (managed_submit cfg w w' t ob runner request submission (inl e)).
  - by apply (managed_ensure cfg).
  - by apply (managed_spawn cfg).
  - by apply managed_fail_pending.
  - by apply managed_tick.
  - by apply managed_recheck.
  - by apply (managed_exit cfg).
  - apply (quiet_managed w); [done|apply quiet_cancel|].
    intros Ha. by apply cancel_empty_calm; apply Hc.
  - apply (quiet_managed w); [done|by eapply quiet_task|].
    intros Ha. by eapply task_step_calm.
  - by apply (managed_shutdown_begin cfg).
  - by apply managed_sweep.
Qed.

Lemma managed_init : Managed scheduler_new.
Proof.
  split; simpl; try done; [by intros ?%not_elem_of_nil|by intros [|]|].
  intros id (o & pc & H & _). change (w_tasks scheduler_new) with (∅ : gmap Z (task_owner * task_pc)) in H.
  by rewrite lookup_empty in H.
Qed.

Section Reachable.
Context (cfg : admission_config).
Context (Ha : 0 < ac_active_limit cfg) (Hq : 0 <= ac_queue_limit cfg).

Lemma reachable_full w : reachable (sched_step cfg) scheduler_new w -> Full cfg w.
Proof. by apply full_reachable. Qed.

Lemma reachable_managed w : reachable (sched_step cfg) scheduler_new w -> Managed w.
Proof.
  intros H.
  assert (Full cfg w /\ Managed w) as [_ ?]; [|done].
  revert H. apply (reachable_invariant _ (fun w => Full cfg w /\ Managed w)).
  - split; [by apply full_init|apply managed_init].
  - intros a b [Hf Hm] Hs. split; [by eapply step_full|by eapply step_managed].
Qed.
End Reachable.

(** ** Monotonicity: controls only move forward, results never change *)
Definition mono (w w' : world) : Prop :=
  (forall id c, w_controls w !! id = Some c ->
     exists c', w_controls w' !! id = Some c' /\ control_le c c') /\
  (forall id r, w_results w !! id = Some r -> w_results w' !! id = Some r).

Lemma mono_same w w' : w_controls w' = w_controls w -> w_results w' = w_results w -> mono w w'.
Proof. intros E1 E2; split; rewrite ?E1, ?E2; [|done]. intros id c Hc; exists c; eauto using control_le_refl. Qed.
Lemma mono_refl w : mono w w.
Proof. by apply mono_same. Qed.
Lemma mono_trans a b c : mono a b -> mono b c -> mono a c.
Proof.
  intros [H1 H2] [K1 K2]; split; [|auto].
  intros id x Hx. destruct (H1 _ _ Hx) as (y & Hy & Hxy). destruct (K1 _ _ Hy) as (z & Hz & Hyz).
  exists z; split; [done|by eapply control_le_trans].
Qed.

Lemma mono_set_control w id c c' :
  w_controls w !! id = Some c -> control_le c c' -> mono w (set_control w id c').
Proof.
  intros Hc Hle; split; [|done]. intros j x Hx; simpl.
  destruct (decide (id = j)) as [<-|].
  - rewrite lookup_insert_eq. exists c'. by simplify_eq.
  - rewrite lookup_insert_ne by done. eauto using control_le_refl.
Qed.

Lemma mono_update w id f :
  (forall c, w_controls w !! id = Some c -> control_le c (f c)) -> mono w (update_control id f w).
Proof.
  intros H; unfold update_control. destruct (w_controls w !! id) eqn:E; [|apply mono_refl].
  by eapply mono_set_control; [|apply H].
Qed.

Lemma cancel_control_le r c : control_le c (cancel_control r c).
Proof.
  unfold cancel_control, mark_cancelling.
  destruct (is_terminal (tc_state c)) eqn:Et, (tc_reason c) eqn:Er; simpl;
    eauto using control_le_refl. by apply set_cancelling_ok.
Qed.

Lemma accept_le ob c : control_le c (control_record_queue_wait ob (mark_accepted c)).
Proof.
  unfold mark_accepted; case_decide as H; split_and!; simpl; try done. by rewrite H.
Qed.

Lemma mono_take r o w : mono w (take_cancelled r o w).
Proof.
  eapply mono_trans; [|by apply (mono_same (update_control (ow_id o) (cancel_control r) w))].
  apply mono_update; intros; apply cancel_control_le.
Qed.

Lemma mono_expire_queue now l : forall k w, mono w (expire_queue now k l w).
Proof.
  induction l as [|o l IH]; intros k w; simpl; [by apply mono_same|].
  destruct (expired _ _); [|apply IH]. eapply mono_trans; [|apply IH].
  eapply mono_trans; [by apply (mono_same w (set_queue w (k ++ l)))|apply mono_take].
Qed.
Lemma mono_expire_ready now l : forall k w, mono w (expire_ready now k l w).
Proof.
  induction l as [|o l IH]; intros k w; simpl; [by apply mono_same|].
  destruct (expired _ _); [|apply IH]. eapply mono_trans; [|apply IH].
  eapply mono_trans; [by apply (mono_same w (set_ready w (k ++ l)))|apply mono_take].
Qed.
Lemma mono_expire_active now w : mono w (expire_active now w).
Proof.
  unfold expire_active. induction (List.filter _ _) as [|i l IH]; simpl; [apply mono_refl|].
  eapply mono_trans; [exact IH|]. apply mono_update; intros; apply cancel_control_le.
Qed.
Lemma mono_admit cfg fuel ob : forall w, mono w (admit_queued cfg fuel ob w).
Proof.
  induction fuel as [|fuel IH]; intros w; simpl; [apply mono_refl|].
  case_decide; [|apply mono_refl]. destruct (s_queue _) as [|o q]; [apply mono_refl|].
  eapply mono_trans; [|apply IH].
  eapply mono_trans; [|apply mono_update; intros; apply accept_le]. by apply mono_same.
Qed.
Lemma mono_tick cfg ob w : mono w (manager_tick cfg ob w).2.
Proof.
  unfold manager_tick. set (w4 := admit_queued _ _ _ _).
  assert (mono w4 (pop_ready w4).2) as Hp.
  { unfold pop_ready; destruct (s_ready (w_state w4)); by apply mono_same. }
  destruct (pop_ready w4) as [d w5]; simpl in *. eapply mono_trans; [|exact Hp]. unfold w4.
  eapply mono_trans; [|apply mono_admit]. eapply mono_trans; [|apply mono_expire_active].
  eapply mono_trans; [|apply mono_expire_ready]. apply mono_expire_queue.
Qed.
Lemma mono_cancel id r w : mono w (request_cancel id r w).2.
Proof.
  unfold request_cancel. destruct (_ !! _); [|apply mono_refl]. destruct (is_terminal _); [apply mono_refl|].
  destruct (list_find _ _) as [[]|]; simpl;
    [eapply mono_trans; [|apply mono_take]; by apply mono_same|].
  destruct (list_find _ _) as [[]|]; simpl;
    [eapply mono_trans; [|apply mono_take]; by apply mono_same|].
  apply mono_update; intros; apply cancel_control_le.
Qed.
Lemma mono_drain f l : (forall o w, mono w (f o w)) ->
  forall w, mono w (drain_queue f l w) /\ mono w (drain_ready f l w).
Proof.
  intros Hf; induction l as [|o l IH]; intros w; simpl; [split; apply mono_refl|].
  split; (eapply mono_trans; [|apply IH]); (eapply mono_trans; [|apply Hf]); by apply mono_same.
Qed.
Lemma mono_fail_pending m w : mono w (fail_pending m w).
Proof.
  unfold fail_pending. eapply mono_trans; [|apply mono_drain; intros; by apply mono_same].
  apply mono_drain; intros; by apply mono_same.
Qed.
Lemma mono_shutdown order w : mono w (shutdown_begin order w).2.
Proof.
  unfold shutdown_begin; simpl.
  eapply mono_trans; [|by apply (mono_same (drain_ready (take_cancelled Shutdown) (s_ready (w_state w))
    (drain_queue send_cancelled (s_queue (w_state w)) (set_sched w (with_accepting (w_state w) false)))))].
  eapply mono_trans; [|apply mono_drain; intros; apply mono_take].
  eapply mono_trans; [|apply mono_drain; intros; by apply mono_same]. by apply mono_same.
Qed.
Lemma mono_sweep sw w : mono w (sweep_step sw w).2.
Proof.
  unfold sweep_step. destruct (sw_pc sw) as [|id]; [destruct (sw_todo sw); apply mono_refl|].
  destruct (w_controls w !! id) as [c|] eqn:E; [|apply mono_refl].
  pose proof (cancel_control_le Shutdown c) as Hle. unfold cancel_control in Hle.
  destruct (mark_cancelling Shutdown c) as [o c']; simpl in *. by eapply mono_set_control.
Qed.
Lemma mono_submit cfg w w' t ob runner request submission r :
  Inv cfg w -> submit cfg t ob runner request submission w = (r, w') -> mono w w'.
Proof.
  intros Hinv E.
  pose proof (threads_submit _ _ _ _ _ _ _ _ _ E) as (_ & _ & _ & _ & _ & _ & Hc & _).
  split.
  - intros id c Hid. exists c; split; [|apply control_le_refl]. apply Hc; [done|].
    pose proof (inv_born _ _ Hinv id ltac:(by rewrite Hid)); lia.
  - revert E. unfold submit. destruct (submit_deadline _ _); [|by intros [= <- <-]].
    destruct (negb _); [by intros [= <- <-]|].
    destruct (decide _); [by intros [= <- <-]|]. destruct (decide _); by intros [= <- <-].
Qed.

Lemma mono_set_task w w' o pc : mono w w' -> mono w (set_task w' o pc).
Proof. intros H; eapply mono_trans; [done|by apply mono_same]. Qed.

Lemma mono_backend w ob r o c0 c :
  w_controls w !! ow_id o = Some c0 -> control_ok c -> control_le c0 c ->
  mono w (finish_backend ob r o c w).
Proof.
  intros Hc Hok Hle. unfold finish_backend.
  destruct (resolve_backend_result _ _ _ _) as [out c'] eqn:E.
  destruct (resolve_ok _ _ _ _ _ _ Hok E) as (_ & Hle' & _).
  apply mono_set_task. eapply mono_set_control; [done|by eapply control_le_trans].
Qed.

Lemma mono_task cfg w w' id o pc ev :
  Inv cfg w -> w_tasks w !! id = Some (o, pc) -> task_step ev o pc w = Some w' -> mono w w'.
Proof.
  intros Hinv Ht.
  destruct (located_task w id o pc (inv_located _ _ Hinv _) Ht)
    as (<- & c & Hc & Hok & Hpc & _ & _ & _ & Hres). unfold task_step; rewrite Hc.
  destruct pc, ev; try done; simpl in Hpc; try (intros [= <-]; by apply mono_same).
  - destruct (begin_start now c) as [b c'] eqn:E; intros [= <-].
    destruct (begin_start_ok _ _ _ _ Hok E) as (_ & Hle & _).
    apply mono_set_task. by eapply mono_set_control.
  - destruct (mark_started c) as [b c'] eqn:E; intros [= <-].
    destruct (mark_started_ok _ _ _ Hok E) as (_ & Hle & _). by eapply mono_set_control.
  - intros [= <-]. eapply mono_backend; eauto using control_le_refl.
  - pose proof (control_failure_state (ExInternal "submission backend panicked") ob
      (Some (x_backend (ow_runner o))) None None None c) as Hst.
    destruct (control_failure _ _ _ _ _ _ c) as [c' f]; intros [= <-].
    destruct (control_eqs_le c c' Hok Hst). by eapply mono_backend.
  - pose proof (control_failure_state (cause_error c0) ob None None None None c) as Hst.
    destruct (control_failure _ _ _ _ _ _ c) as [c' f]; intros [= <-].
    destruct (control_eqs_le c c' Hok Hst). apply mono_set_task. by eapply mono_set_control.
  - destruct (mark_terminal s c) as [b c'] eqn:E; intros [= <-].
    destruct (mark_terminal_ok _ _ _ _ Hok (proj1 Hpc) E) as (_ & Hle & _).
    apply mono_set_task. by eapply mono_set_control.
  - intros [= <-]. apply mono_set_task. unfold drop_permit; destruct (ow_permit o); by apply mono_same.
  - intros [= <-]. unfold publish; rewrite Hres. split; simpl.
    + intros j x Hx; eauto using control_le_refl.
    + intros j x Hx. rewrite lookup_insert_ne; [done|by intros <-; rewrite Hres in Hx].
Qed.

Lemma step_mono cfg w w' : Full cfg w -> sched_step cfg w w' -> mono w w'.
Proof.
  intros (Hinv & _) Hstep. destruct Hstep as
    [w w' t ob runner request submission id Hsw Hlt E
    |w w' t ob runner request submission e Hsw Hlt E
    |w i E|w i r E|w i m Hsw E|w i ob Hsw E|w i now Hsw E|w i E|w id r Hsw
    |w w' id o pc ev Ht Hlock E|w order Hsw Hord|w sw Hsw].
  - eapply mono_trans; [by eapply mono_submit|by apply mono_same].
  - by eapply mono_submit.
  - unfold ensure_manager; destruct (w_manager_started w); by apply mono_same.
  - unfold spawn_manager; destruct r; by apply mono_same.
  - eapply mono_trans; [apply mono_fail_pending|by apply mono_same].
  - unfold manager_loop_tick. pose proof (mono_tick cfg ob w).
    destruct (manager_tick cfg ob w) as [[d x] w1]. eapply mono_trans; [done|by apply mono_same].
  - unfold manager_loop_recheck; destruct (manager_recheck _ _ _); by apply mono_same.
  - by apply mono_same.
  - apply mono_cancel.
  - by eapply mono_task.
  - apply mono_shutdown.
  - eapply mono_trans; [apply mono_sweep|by apply mono_same].
Qed.

Lemma reach_mono cfg w w' :
  Full cfg w -> reachable (sched_step cfg) w w' -> Full cfg w' /\ mono w w'.
Proof.
  intros Hf H; induction H as [|s s' _ [IH1 IH2] Hs]; [split; [done|apply mono_refl]|].
  split; [by eapply step_full|]. eapply mono_trans; [done|by eapply step_mono].
Qed.

(** What [request_cancel] does to a control that is not finished. *)
Lemma controls_take r o w id c :
  w_controls w !! id = Some c -> ow_id o = id ->
  w_controls (take_cancelled r o w) !! id = Some (cancel_control r c).
Proof.
  intros Hc <-. unfold take_cancelled, update_control; rewrite Hc; simpl. apply lookup_insert_eq.
Qed.

Lemma request_cancel_control w id r c :
  w_controls w !! id = Some c -> is_terminal (tc_state c) = false ->
  w_controls (request_cancel id r w).2 !! id = Some (cancel_control r c) /\
  (request_cancel id r w).1 = (mark_cancelling r c).1.
Proof.
  intros Hc Ht. unfold request_cancel; rewrite Hc, Ht.
  destruct (list_find _ (s_queue _)) as [[i o]|] eqn:Eq; simpl.
  { apply list_find_Some in Eq as (_ & Ho & _). split; [|done]. by apply controls_take. }
  destruct (list_find _ (s_ready _)) as [[i o]|] eqn:Er; simpl.
  { apply list_find_Some in Er as (_ & Ho & _). split; [|done]. by apply controls_take. }
  split; [|done]. unfold update_control; rewrite Hc; simpl. apply lookup_insert_eq.
Qed.

Lemma cancelled_reason w id r c :
  w_controls w !! id = Some c -> Some (tc_state c) = Some AcceptedNotStarted ->
  Some (tc_reason c) = Some None ->
  exists c', w_controls (request_cancel id r w).2 !! id = Some c' /\ tc_reason c' = Some r.
Proof.
  intros Hc [= Hs] [= Hr]. destruct (request_cancel_control w id r c Hc) as [H _]; [by rewrite Hs|].
  rewrite H. eexists; split; [done|]. unfold cancel_control, mark_cancelling. by rewrite Hs, Hr.
Qed.

(** ** Properties *)

(** C1. Admission never exceeds its limits and is first in, first out: in every
    reachable state at most [active_limit] submissions hold a permit and at most
    [queue_limit] wait; the queue is in submission order and everything active
    was submitted before everything still queued. *)
Theorem admission_bounded_fifo (cfg : admission_config) (w : world)
    (Ha : 0 < ac_active_limit cfg) (Hq : 0 <= ac_queue_limit cfg)
    (Hw : reachable (sched_step cfg) scheduler_new w) :
  Z.of_nat (size (s_active (w_state w))) <= ac_active_limit cfg /\
  Z.of_nat (length (s_queue (w_state w))) <= ac_queue_limit cfg /\
  StronglySorted Z.lt (ow_id <$> s_queue (w_state w)) /\
  (forall o a, o ∈ s_queue (w_state w) -> a ∈ s_active (w_state w) -> a < ow_id o).
Proof. destruct (full_reachable cfg w Ha Hq Hw) as ([] & _). by split_and!. Qed.

Definition demo_config : admission_config := AdmissionConfig 1 1.
Definition demo_executor : executor := Executor "/p" InProcess BackInProcess.
Definition demo_request : execution_request := ExecutionRequest "main.ts" options_default.

(** Two submissions with one active slot: the second is queued. *)
Lemma demo_reachable : exists w,
  reachable (sched_step demo_config) scheduler_new w /\
  s_active (w_state w) = {[1]} /\ ow_id <$> s_queue (w_state w) = [2] /\
  ow_id <$> s_ready (w_state w) = [1] /\ s_accepting (w_state w) = true /\ w_sweep w = None /\
  control_state w 1 = Some AcceptedNotStarted /\ (tc_reason <$> w_controls w !! 1) = Some None.
Proof.
  eexists. split.
  - eapply reachable_head.
    { eapply (ss_submit _ _ _ 0 (Observation 0 resource_sample_default) demo_executor demo_request
        (SubmissionOptions None)); reflexivity. }
    eapply reachable_head.
    { eapply (ss_submit _ _ _ 5 (Observation 5 resource_sample_default) demo_executor demo_request
        (SubmissionOptions (Some 100))); reflexivity. }
    apply reach_refl.
  - vm_compute. by split_and!.
Qed.

Lemma admission_bounded_fifo_witness : exists w,
  reachable (sched_step demo_config) scheduler_new w /\
  ow_id <$> s_queue (w_state w) = [2] /\ s_active (w_state w) = {[1]} /\
  Z.of_nat (size (s_active (w_state w))) <= 1.
Proof.
  destruct demo_reachable as (w & Hw & H1 & H2 & _). exists w.
  refine (conj Hw (conj H2 (conj H1 _))).
  exact (proj1 (admission_bounded_fifo demo_config w eq_refl ltac:(vm_compute; discriminate) Hw)).
Defined.

(** C2. Every submission id is in exactly one place, and its result is published
    exactly when it is finished: a published result means a terminal control,
    no permit and no owner; until then exactly one of queue, ready list and an
    owning thread has it, no owner is ever dropped without publishing, and a
    submission refused at start always has a recorded reason. *)
Theorem submission_lifecycle (cfg : admission_config) (w : world) (id : Z) (c : task_control)
    (Ha : 0 < ac_active_limit cfg) (Hq : 0 <= ac_queue_limit cfg)
    (Hw : reachable (sched_step cfg) scheduler_new w) (Hc : w_controls w !! id = Some c) :
  match w_results w !! id with
  | Some _ => is_terminal (tc_state c) = true /\ id ∉ s_active (w_state w) /\
      w_tasks w !! id = None /\
      (forall o, o ∈ s_queue (w_state w) ++ s_ready (w_state w) -> ow_id o <> id)
  | None =>
      match w_tasks w !! id with
      | Some (o, pc) =>
          ow_id o = id /\ pc <> PDrop /\
          (is_terminal (tc_state c) = true <-> exists r, pc = PRelease r \/ pc = PPublish r) /\
          (pc = PNotStarted -> is_Some (tc_reason c)) /\
          (id ∈ s_active (w_state w) <-> permit_held o pc = true) /\
          (forall o, o ∈ s_queue (w_state w) ++ s_ready (w_state w) -> ow_id o <> id)
      | None => tc_reason c = None /\
          ((exists o, of_id id (s_queue (w_state w)) = [o] /\ of_id id (s_ready (w_state w)) = [] /\
              tc_state c = Queued /\ id ∉ s_active (w_state w)) \/
           (exists o, of_id id (s_queue (w_state w)) = [] /\ of_id id (s_ready (w_state w)) = [o] /\
              tc_state c = AcceptedNotStarted /\ id ∈ s_active (w_state w)))
      end
  end.
Proof.
  destruct (full_reachable cfg w Ha Hq Hw) as (Hinv & _).
  pose proof (inv_located _ _ Hinv id) as H.
  remember (view_of w id) as v eqn:E. unfold view_of in E. rewrite Hc in E.
  assert (forall P, of_id id (s_queue (w_state w)) = [] -> of_id id (s_ready (w_state w)) = [] ->
    P = true -> forall o, o ∈ s_queue (w_state w) ++ s_ready (w_state w) -> ow_id o <> id) as Hfree.
  { intros _ Hq' Hr' _ o Ho. pose proof (proj1 (of_id_nil id _) Hq').
    pose proof (proj1 (of_id_nil id _) Hr'). apply elem_of_app in Ho as [Ho|Ho]; auto. }
  destruct H as [|o c' Ho Hp Hs Hr _|o c' Ho Hp Hs Hr _|o pc c' Ho Hok Hpc|r c' Hok Ht];
    injection E as E1 E2 E3 E4 E5 E6; subst; try done; rewrite <- E4, <- E5.
  - split; [done|left]. exists o. split_and!; try done. by eapply bool_decide_eq_false_1.
  - split; [done|right]. exists o. split_and!; try done. by eapply bool_decide_eq_true_1.
  - split_and!; [done|by intros ->| | | |by apply (Hfree true)].
    + split; [|by intros [r [-> | ->]]; destruct Hpc].
      intros Ht; destruct pc; simpl in Hpc; try naive_solver congruence; eauto.
    + intros ->. by destruct Hpc as (_ & _ & ?).
    + rewrite E3. by rewrite bool_decide_eq_true.
  - split_and!; [done|by eapply bool_decide_eq_false_1|done|by apply (Hfree true)].
Qed.

Lemma submission_lifecycle_witness : exists w c,
  reachable (sched_step demo_config) scheduler_new w /\ w_controls w !! 1 = Some c /\
  w_results w !! 1 = None.
Proof.
  destruct demo_reachable as (w & Hw & H1 & H2 & H3 & _ & _ & H4 & _).
  unfold control_state in H4. destruct (w_controls w !! 1) as [c|] eqn:Ec; [|discriminate H4].
  exists w, c. split; [exact Hw|]. split; [exact Ec|].
  pose proof (submission_lifecycle demo_config w 1 c eq_refl ltac:(vm_compute; discriminate) Hw Ec) as H.
  destruct (w_results w !! 1); [|reflexivity].
  destruct H as (H & _). injection H4 as E. rewrite E in H. discriminate H.
Defined.

(** What a caller has seen never changes: along every execution a published
    result stays the same, a terminal state stays, and the first recorded cancel
    reason is kept. *)
Theorem submission_outcome_stable (cfg : admission_config) (w w' : world) (id : Z)
    (Ha : 0 < ac_active_limit cfg) (Hq : 0 <= ac_queue_limit cfg)
    (Hw : reachable (sched_step cfg) scheduler_new w) (Hw' : reachable (sched_step cfg) w w') :
  (forall r, w_results w !! id = Some r -> w_results w' !! id = Some r) /\
  (forall s, control_state w id = Some s -> is_terminal s = true ->
     control_state w' id = Some s) /\
  (forall c r, w_controls w !! id = Some c -> tc_reason c = Some r ->
     exists c', w_controls w' !! id = Some c' /\ tc_reason c' = Some r).
Proof.
  destruct (reach_mono cfg w w' (full_reachable cfg w Ha Hq Hw) Hw') as [_ [Hc Hr]].
  split_and!; [apply Hr|..].
  - unfold control_state. intros s Hs Ht. destruct (w_controls w !! id) as [c|] eqn:E; simplify_eq/=.
    destruct (Hc _ _ E) as (c' & -> & _ & _ & Hst & _); simpl. by rewrite Hst.
  - intros c r E Er. destruct (Hc _ _ E) as (c' & E' & _ & _ & _ & Hrs). eauto.
Qed.

Lemma submission_outcome_stable_witness : exists w w' : world,
  reachable (sched_step demo_config) scheduler_new w /\
  reachable (sched_step demo_config) w w' /\
  exists c, w_controls w' !! 1 = Some c /\ tc_reason c = Some User.
Proof.
  destruct demo_reachable as (w & Hw & H1 & H2 & H3 & H4 & H5 & H6 & H7).
  destruct (w_controls w !! 1) as [c|] eqn:Ec; [|discriminate H7].
  unfold control_state in H6; rewrite Ec in H6.
  assert (reachable (sched_step demo_config) w (request_cancel 1 User w).2) as Hs.
  { eapply reachable_head; [|apply reach_refl]. by apply ss_cancel. }
  assert (reachable (sched_step demo_config) scheduler_new (request_cancel 1 User w).2) as Hw1
    by (eapply reachable_trans; eassumption).
  assert (exists c', w_controls (request_cancel 1 User w).2 !! 1 = Some c' /\ tc_reason c' = Some User)
    as (c' & Hc' & Hr') by (exact (cancelled_reason w 1 User c Ec H6 H7)).
  exists (request_cancel 1 User w).2, (request_cancel 1 Deadline (request_cancel 1 User w).2).2.
  assert (reachable (sched_step demo_config) (request_cancel 1 User w).2
    (request_cancel 1 Deadline (request_cancel 1 User w).2).2) as Hs2.
  { eapply reachable_head; [|apply reach_refl]. apply ss_cancel.
    by rewrite (proj1 (proj2 (proj2 (proj2 (threads_eq _ _ (threads_cancel 1 User w)))))). }
  split; [exact Hw1|]. split; [exact Hs2|].
  exact (proj2 (proj2 (submission_outcome_stable demo_config _ _ 1 eq_refl
    ltac:(vm_compute; discriminate) Hw1 Hs2)) c' User Hc' Hr').
Defined.

Lemma tick_empty_controls cfg ob w :
  s_queue (w_state w) = [] -> s_ready (w_state w) = [] ->
  w_controls (manager_tick cfg ob w).2 = w_controls (expire_active (ob_now ob) w).
Proof.
  intros Hq Hr. unfold manager_tick. rewrite Hq. simpl.
  assert (set_queue w [] = w) as E1 by (rewrite <- Hq; apply set_queue_self).
  assert (set_ready w [] = w) as E2 by (rewrite <- Hr; apply set_ready_self).
  rewrite E1, Hr; simpl. rewrite E2.
  pose proof (calm_expire_active (ob_now ob) w) as (_ & Eq & Er & _). rewrite Eq, Hq; simpl.
  unfold pop_ready. by rewrite Er, Hr.
Qed.


(** Which ids a step may newly put into [Started]. *)
Lemma started_update w id r j :
  control_state (update_control id (cancel_control r) w) j = Some Started ->
  control_state w j = Some Started.
Proof.
  unfold control_state, update_control. destruct (w_controls w !! id) as [c|] eqn:E; simpl; [|done].
  destruct (decide (id = j)) as [<-|]; [|by rewrite lookup_insert_ne].
  rewrite lookup_insert_eq, E; simpl. unfold cancel_control, mark_cancelling.
  by destruct (is_terminal (tc_state c)), (tc_reason c).
Qed.

Lemma started_expire_active now w j :
  control_state (expire_active now w) j = Some Started -> control_state w j = Some Started.
Proof.
  unfold expire_active. induction (List.filter _ _) as [|i l IH]; simpl; [done|].
  intros H%started_update. auto.
Qed.

Lemma started_closed_step cfg w w' id :
  Full cfg w -> s_accepting (w_state w) = false -> w_sweep w = None ->
  sched_step cfg w w' -> control_state w' id = Some Started -> control_state w id = Some Started.
Proof.
  intros (Hinv & Hi & Hc) Hacc Hsw Hstep.
  pose proof (cl_queue _ Hc Hacc) as Hq. pose proof (cl_ready _ Hc Hacc) as Hr.
  destruct Hstep as
    [w w' t ob runner request submission i Hs' Hlt E
    |w w' t ob runner request submission e Hs' Hlt E
    |w i E|w i r E|w i m Hs' E|w i ob Hs' E|w i now Hs' E|w i E|w i r Hs'
    |w w' i o pc ev Ht Hlock E|w order Hs' Hord|w sw Hs']; unfold control_state.
  - pose proof (threads_submit _ _ _ _ _ _ _ _ _ E) as (_&_&_&_&_&_&_&Hno).
    destruct (Hno (or_introl Hacc)) as (_ & _ & Ec & _); simpl. by rewrite Ec.
  - pose proof (threads_submit _ _ _ _ _ _ _ _ _ E) as (_&_&_&_&_&_&_&Hno).
    destruct (Hno (or_introl Hacc)) as (_ & _ & Ec & _). by rewrite Ec.
  - unfold ensure_manager; by destruct (w_manager_started w).
  - unfold spawn_manager; by destruct r.
  - simpl. by rewrite fail_pending_empty.
  - unfold manager_loop_tick. pose proof (tick_empty_controls cfg ob w Hq Hr) as Ec.
    destruct (manager_tick cfg ob w) as [[d x] w1]; simpl in *. rewrite Ec. apply started_expire_active.
  - unfold manager_loop_recheck; by destruct (manager_recheck _ _ _).
  - done.
  - unfold request_cancel. destruct (w_controls w !! i); [|done]. destruct (is_terminal _); [done|].
    rewrite Hq, Hr; simpl. apply started_update.
  - destruct (located_task w i o pc (inv_located _ _ Hinv _) Ht) as (<- & c & Hcc & _).
    destruct (task_step_shape cfg w w' o pc ev c Hinv Ht Hcc E) as (c' & -> & [_ Hm] & _).
    destruct (decide (ow_id o = id)) as [<-|]; [|by rewrite lookup_insert_ne].
    rewrite lookup_insert_eq, Hcc; simpl. intros [= Hs]. destruct (Hm Hs) as [->|[Hp Hst]]; [done|].
    exfalso. destruct (cl_start _ Hc Hacc (ow_id o)) as (sw & E1 & _); [|by rewrite Hsw in E1].
    by exists o, pc, c.
  - unfold shutdown_begin; simpl. rewrite Hq, Hr. done.
  - by rewrite Hsw in Hs'.
Qed.

Lemma accepting_step cfg w w' :
  s_accepting (w_state w) = false -> sched_step cfg w w' -> s_accepting (w_state w') = false.
Proof.
  intros Hacc Hstep. destruct Hstep as
    [w w' t ob runner request submission i Hs' Hlt E
    |w w' t ob runner request submission e Hs' Hlt E
    |w i E|w i r E|w i m Hs' E|w i ob Hs' E|w i now Hs' E|w i E|w i r Hs'
    |w w' i o pc ev Ht Hlock E|w order Hs' Hord|w sw Hs'].
  - pose proof (threads_submit _ _ _ _ _ _ _ _ _ E) as (_&_&_&_&_&Ea&_); simpl. by rewrite Ea.
  - pose proof (threads_submit _ _ _ _ _ _ _ _ _ E) as (_&_&_&_&_&Ea&_). by rewrite Ea.
  - unfold ensure_manager; by destruct (w_manager_started w).
  - unfold spawn_manager; by destruct r.
  - simpl. pose proof (threads_fail_pending m w) as (_&_&_&_&_&Ea)%threads_eq. by rewrite Ea.
  - unfold manager_loop_tick. pose proof (threads_tick cfg ob w) as Hth.
    destruct (manager_tick cfg ob w) as [[d x] w1]; simpl in *.
    apply threads_eq in Hth as (_&_&_&_&_&Ea). by rewrite Ea.
  - unfold manager_loop_recheck; by destruct (manager_recheck _ _ _).
  - done.
  - pose proof (threads_cancel i r w) as (_&_&_&_&_&Ea)%threads_eq. by rewrite Ea.
  - pose proof (threads_task _ _ _ _ _ E) as (_&_&_&_&_&Ea)%threads_eq. by rewrite Ea.
  - unfold shutdown_begin; simpl.
    set (w0 := set_sched w (with_accepting (w_state w) false)).
    destruct (drain_frame send_cancelled (s_queue (w_state w)) ltac:(done) w0) as (_ & C1 & _).
    destruct (drain_frame (take_cancelled Shutdown) (s_ready (w_state w))
      ltac:(intros; by rewrite state_take_cancelled) (drain_queue send_cancelled (s_queue (w_state w)) w0))
      as (_ & _ & _ & _ & C2 & _). by rewrite C2, C1.
  - simpl. destruct (sweep_step_frame sw w) as (-> & _). done.
Qed.

(** The pass visits finitely many controls: run alone, it ends. *)
Definition sweep_measure (sw : sweep) : nat :=
  2 * length (sw_todo sw) + match sw_pc sw with SweepMark _ => 1 | SweepCheck => 0 end.

Lemma sweep_step_measure sw w sw' :
  (sweep_step sw w).1 = Some sw' -> (sweep_measure sw' < sweep_measure sw)%nat.
Proof.
  unfold sweep_step, sweep_measure. destruct sw as [todo [|id] count]; simpl.
  - destruct todo as [|id todo]; simpl; [done|]. intros [= <-]; simpl. destruct (decide _); lia.
  - destruct (w_controls w !! id); [destruct (mark_cancelling _ _)|]; intros [= <-]; simpl; lia.
Qed.

Lemma sweep_ends cfg n : forall w sw, (sweep_measure sw < n)%nat ->
  w_sweep w = Some sw -> s_accepting (w_state w) = false ->
  exists w', reachable (sched_step cfg) w w' /\ w_sweep w' = None /\ s_accepting (w_state w') = false.
Proof.
  induction n as [|n IH]; intros w sw Hn E Hacc; [lia|].
  pose proof (ss_sweep cfg w sw E) as S. pose proof (accepting_step _ _ _ Hacc S) as A.
  destruct (sweep_step sw w).1 as [sw'|] eqn:E'.
  - pose proof (sweep_step_measure _ _ _ E') as Hm.
    destruct (IH (set_sweep (sweep_step sw w).2 (Some sw')) sw') as (w' & R & H); [lia|done|done|].
    exists w'; split; [by eapply reachable_head|done].
  - eexists; split; [eapply reach_step; [apply reach_refl|exact S]|done].
Qed.

(** C3. Shutdown stops new work for good: once the pass over the active controls
    is over nothing is queued or ready, every further submission is refused,
    the scheduler stays closed, and no step ever starts a submission that had
    not started. *)
Theorem shutdown_stops_starts (cfg : admission_config) (w w' : world)
    (Ha : 0 < ac_active_limit cfg) (Hq : 0 <= ac_queue_limit cfg)
    (Hw : reachable (sched_step cfg) scheduler_new w)
    (Hclosed : s_accepting (w_state w) = false) (Hsweep : w_sweep w = None)
    (Hstep : sched_step cfg w w') :
  s_queue (w_state w) = [] /\ s_ready (w_state w) = [] /\
  (forall t ob runner request submission, is_ok (submit_deadline t submission) = true ->
     submit cfg t ob runner request submission w = (inl ShutdownErr, w)) /\
  s_accepting (w_state w') = false /\
  (forall id, control_state w' id = Some Started -> control_state w id = Some Started).
Proof.
  pose proof (full_reachable cfg w Ha Hq Hw) as Hf. pose proof Hf as (Hinv & _ & Hc).
  split_and!; [by apply Hc|by apply Hc| |by eapply accepting_step|].
  - intros t ob runner request submission Hd. unfold submit. rewrite Hclosed.
    by destruct (submit_deadline t submission).
  - intros id. by apply (started_closed_step cfg).
Qed.

Lemma shutdown_stops_starts_witness : exists w w' : world,
  reachable (sched_step demo_config) scheduler_new w /\ sched_step demo_config w w' /\
  s_accepting (w_state w) = false /\ w_sweep w = None /\ s_queue (w_state w) = [].
Proof.
  destruct demo_reachable as (w & Hw & H1 & H2 & H3 & H4 & H5 & _).
  set (w1 := (shutdown_begin [1] w).2).
  assert (sched_step demo_config w w1) as S1.
  { apply ss_shutdown; [exact H5|]. rewrite H1, elements_singleton. reflexivity. }
  assert (reachable (sched_step demo_config) scheduler_new w1) as R1
    by (eapply reach_step; [exact Hw|exact S1]).
  destruct (sweep_ends demo_config _ w1 _ (Nat.lt_succ_diag_r _) eq_refl) as (w3 & R3 & Hs3 & Ha3).
  { exact (proj2 (proj2 (proj2 (shutdown_begin_lists demo_config [1] w (proj1 (full_reachable
      demo_config w eq_refl ltac:(vm_compute; discriminate) Hw)))))). }
  assert (reachable (sched_step demo_config) scheduler_new w3) as R by (eapply reachable_trans; eassumption).
  exists w3, (request_cancel 1 User w3).2.
  assert (sched_step demo_config w3 (request_cancel 1 User w3).2) as S by (apply ss_cancel; exact Hs3).
  refine (conj R (conj S (conj Ha3 (conj Hs3 _)))).
  exact (proj1 (shutdown_stops_starts demo_config w3 _ eq_refl ltac:(vm_compute; discriminate)
    R Ha3 Hs3 S)).
Defined.
