(* ===== verification/SchedulerLive.v ===== *)
(** * Progress of the admission scheduler: the manager thread is there when it is
    needed and sleeps only when nothing can be dispatched, owners publish,
    cancellation has the documented outcomes, and what shutdown reports. *)
From S2P Require Import Prelude Errors Timing Options Cancel Execution Control Scheduler SchedulerInv Scheduling.
From stdpp Require Import gmap sorting.
Local Open Scope Z_scope.

(** C5. No submission is stranded by the manager's start and exit races: there is
    never more than one manager, a manager that is exiting leaves a closed
    scheduler with nothing active, pending owners always have a manager or a
    submitter that is about to start one (or to fail them), and a dispatched
    submission always has a manager watching its deadline. *)
Theorem manager_never_lost (cfg : admission_config) (w : world)
    (Ha : 0 < ac_active_limit cfg) (Hq : 0 <= ac_queue_limit cfg)
    (Hw : reachable (sched_step cfg) scheduler_new w) :
  (length (w_managers w) <= 1)%nat /\
  (w_managers w <> [] -> w_manager_started w = true) /\
  (MgrExiting ∈ w_managers w -> s_accepting (w_state w) = false /\ all_empty (w_state w) = true) /\
  (s_queue (w_state w) <> [] \/ s_ready (w_state w) <> [] ->
     w_managers w <> [] \/ w_submits w <> []) /\
  (forall id o pc, w_tasks w !! id = Some (o, pc) -> pc = PSpawned \/ pc = PRunning ->
     exists p, w_managers w = [p] /\ p <> MgrExiting).
Proof.
  destruct (full_reachable cfg w Ha Hq Hw) as (Hinv & _ & Hc).
  destruct (reachable_managed cfg Ha Hq w Hw) as [H1 H2 H3 H4].
  split_and!; auto.
  - destruct (w_manager_started w); lia.
  - intros Hne. destruct (w_manager_started w); [done|]. destruct (w_managers w); simpl in *; [done|lia].
  - intros Hin. destruct (H2 Hin) as [Hacc He]. split; [done|].
    apply all_empty_spec. by rewrite (cl_queue _ Hc Hacc), (cl_ready _ Hc Hacc).
  - intros id o pc Ht Hpc. assert (starts w id) as Hs by (by exists o, pc).
    specialize (H4 id Hs). pose proof (starts_active cfg w id Hinv Hs) as Hact.
    destruct (w_managers w) as [|p [|p' l]]; [done| |destruct (w_manager_started w); simpl in *; lia].
    exists p; split; [done|intros ->]. destruct H2 as [_ He]; [by left|set_solver].
Qed.

Lemma manager_never_lost_witness : exists w,
  reachable (sched_step demo_config) scheduler_new w /\ s_queue (w_state w) <> [] /\
  (w_managers w <> [] \/ w_submits w <> []).
Proof.
  destruct demo_reachable as (w & Hw & _ & H2 & _). exists w. split; [exact Hw|].
  assert (s_queue (w_state w) <> []) as Hne by (intros E; rewrite E in H2; discriminate H2).
  split; [exact Hne|].
  exact (proj1 (proj2 (proj2 (proj2 (manager_never_lost demo_config w eq_refl
    ltac:(vm_compute; discriminate) Hw)))) (or_introl Hne)).
Defined.

(** ** When the manager sleeps *)

Lemma option_min_le (a b : option Z) m : option_min a b = Some m ->
  (forall x, a = Some x -> m <= x) /\ (forall x, b = Some x -> m <= x).
Proof. destruct a, b; simpl; intros; simplify_eq; split; intros; simplify_eq; lia. Qed.

Definition min_of (l : list Z) : option Z := foldr (fun d m => option_min (Some d) m) None l.

Lemma min_of_cons x l : min_of (x :: l) = option_min (Some x) (min_of l).
Proof. done. Qed.

Lemma min_of_none l : min_of l = None -> l = [].
Proof. destruct l as [|x l]; [done|]. rewrite min_of_cons. by destruct (min_of l). Qed.

Lemma min_of_le l : forall m, min_of l = Some m -> m ∈ l /\ forall d, d ∈ l -> m <= d.
Proof.
  induction l as [|x l IH]; intros m H; [done|]. rewrite min_of_cons in H.
  pose proof (option_min_le _ _ _ H) as [H1 H2].
  destruct (min_of l) as [m'|] eqn:E; simpl in H.
  - destruct (IH m' eq_refl) as [Hin Hle]. injection H as <-. split.
    + apply elem_of_cons. destruct (Z.min_spec x m') as [[_ ->]|[_ ->]]; auto.
    + intros d [->|Hd]%elem_of_cons; [by apply H1|]. specialize (H2 m' eq_refl).
      specialize (Hle d Hd); lia.
  - apply min_of_none in E as ->. injection H as ->. split; [by left|].
    by intros d ->%list_elem_of_singleton.
Qed.

(** The deadlines the manager enforces: of waiting owners and of active controls
    that have not been cancelled. *)
Definition pending_deadline (w : world) (d : Z) : Prop :=
  (exists o, o ∈ s_queue (w_state w) ++ s_ready (w_state w) /\ ow_deadline o = Some d) \/
  (exists id c, id ∈ s_active (w_state w) /\ w_controls w !! id = Some c /\
     (tc_state c = AcceptedNotStarted \/ tc_state c = Started) /\ tc_deadline c = Some d).

Definition deadlines (w : world) : list Z :=
  omap ow_deadline (s_queue (w_state w) ++ s_ready (w_state w)) ++
  omap (fun id =>
      c ← w_controls w !! id;
      if decide (tc_state c = AcceptedNotStarted \/ tc_state c = Started)
      then tc_deadline c else None) (elements (s_active (w_state w))).

Lemma elem_of_deadlines w d : d ∈ deadlines w <-> pending_deadline w d.
Proof.
  unfold deadlines, pending_deadline. rewrite elem_of_app, !list_elem_of_omap.
  split; (intros [(x & Hx & E)|H]; [left; by exists x|right]).
  - destruct H as (id & Hid%elem_of_elements & E).
    destruct (w_controls w !! id) as [c|] eqn:Ec; simpl in E; [|done].
    case_decide; [|done]. by exists id, c.
  - destruct H as (id & c & Hid & Hc & Hs & E). exists id. split; [by apply elem_of_elements|].
    rewrite Hc; simpl. by rewrite decide_True.
Qed.

Lemma next_deadline_spec w :
  match next_deadline w with
  | Some m => pending_deadline w m /\ forall d, pending_deadline w d -> m <= d
  | None => forall d, ~ pending_deadline w d
  end.
Proof.
  change (next_deadline w) with (min_of (deadlines w)).
  destruct (min_of (deadlines w)) as [m|] eqn:E.
  - apply min_of_le in E as [H1 H2]. split; [by apply elem_of_deadlines|].
    intros d Hd. by apply H2, elem_of_deadlines.
  - apply min_of_none in E. intros d Hd%elem_of_deadlines. rewrite E in Hd. by apply not_elem_of_nil in Hd.
Qed.

(** The manager goes to sleep only when no owner can be dispatched (nothing is
    ready, and the queue is empty or every slot is taken), and never past the
    earliest deadline it has to enforce; it exits only when everything is
    empty. *)
Theorem manager_sleeps_safely (cfg : admission_config) (now : Z) (w : world) :
  match manager_recheck cfg now w with
  | RecheckExit => s_active (w_state w) = ∅ /\ s_queue (w_state w) = [] /\ s_ready (w_state w) = []
  | RecheckAgain => s_ready (w_state w) <> [] \/
      (s_queue (w_state w) <> [] /\ Z.of_nat (size (s_active (w_state w))) < ac_active_limit cfg)
  | RecheckWait wait =>
      s_ready (w_state w) = [] /\
      (s_queue (w_state w) = [] \/ ac_active_limit cfg <= Z.of_nat (size (s_active (w_state w)))) /\
      (forall d, pending_deadline w d -> wait <= duration_since d now) /\
      ((forall d, ~ pending_deadline w d) -> wait = from_millis 100)
  end.
Proof.
  unfold manager_recheck. destruct (all_empty (w_state w)) eqn:Ee; [by apply all_empty_spec|].
  unfold has_dispatchable_pending.
  destruct (s_ready (w_state w)) as [|r rs] eqn:Er; simpl; [|by left].
  destruct (s_queue (w_state w)) as [|q qs] eqn:Eq; simpl; [|case_bool_decide as Hlt; simpl; [by right|]].
  all: pose proof (next_deadline_spec w) as Hn.
  all: split; [done|]; split; [first [by left|right; lia]|].
  all: destruct (next_deadline w) as [m|]; [destruct Hn as [Hp Hle]|]; (split; [intros d Hd|intros Hno]);
    try done; try (by destruct (Hno m)); try (by destruct (Hn d)).
  all: specialize (Hle d Hd); unfold duration_since; lia.
Qed.

(** ** Owners publish *)

(** One owner stepping by itself through a list of events. *)
Fixpoint drive (evs : list task_event) (id : Z) (w : world) : option world :=
  match evs with
  | [] => Some w
  | ev :: evs =>
      match w_tasks w !! id with
      | Some (o, pc) => match task_step ev o pc w with Some w => drive evs id w | None => None end
      | None => None
      end
  end.

Definition published (w : world) (id : Z) (r : run_result) : Prop :=
  w_results w !! id = Some r /\ w_tasks w !! id = None /\ id ∉ s_active (w_state w).

(** The events that finish an owner from where it stands. *)
Definition finish_events (pc : task_pc) (ob : observation) (r : run_result) : list task_event :=
  match pc with
  | PSpawned => []
  | PRunning => [EvBackend ob r; EvNext ob; EvNext ob]
  | PNotStarted => replicate 5 (EvNext ob)
  | PSend _ _ => replicate 4 (EvNext ob)
  | PMark _ _ => replicate 3 (EvNext ob)
  | PRelease _ => replicate 2 (EvNext ob)
  | PPublish _ | PDrop => [EvNext ob]
  end.

Lemma drive_cons ev evs w w1 o pc :
  w_tasks w !! ow_id o = Some (o, pc) -> task_step ev o pc w = Some w1 ->
  drive (ev :: evs) (ow_id o) w = drive evs (ow_id o) w1.
Proof. intros H E; simpl. by rewrite H, E. Qed.

Lemma drive_publish cfg w o r ob :
  Inv cfg w -> w_tasks w !! ow_id o = Some (o, PPublish r) ->
  exists w', drive [EvNext ob] (ow_id o) w = Some w' /\ published w' (ow_id o) r.
Proof.
  intros Hinv Ht.
  destruct (located_task w _ o _ (inv_located _ _ Hinv _) Ht) as (_ & c & Hc & _).
  destruct (publish_inv cfg w o r Hinv Ht) as [Hinv2 Hres2].
  erewrite drive_cons; [|exact Ht|unfold task_step; rewrite Hc; reflexivity].
  eexists; split; [reflexivity|]. split; [|split].
  - rewrite Hres2. apply lookup_insert_eq.
  - apply lookup_delete_eq.
  - pose proof (inv_located _ _ Hinv2 (ow_id o)) as Hl.
    remember (view_of _ (ow_id o)) as v eqn:E. unfold view_of in E. rewrite Hres2, lookup_insert_eq in E.
    destruct Hl; injection E as E1 E2 E3 E4 E5 E6; try done. by eapply bool_decide_eq_false_1.
Qed.

Lemma drive_release cfg w o r ob :
  Inv cfg w -> w_tasks w !! ow_id o = Some (o, PRelease r) ->
  exists w', drive [EvNext ob; EvNext ob] (ow_id o) w = Some w' /\ published w' (ow_id o) r.
Proof.
  intros Hinv Ht.
  destruct (located_task w _ o _ (inv_located _ _ Hinv _) Ht) as (_ & c & Hc & _).
  erewrite drive_cons; [|exact Ht|unfold task_step; rewrite Hc; reflexivity].
  eapply drive_publish; [by apply release_inv|]. apply lookup_insert_eq.
Qed.

Lemma drive_mark cfg w o s r ob :
  Inv cfg w -> w_tasks w !! ow_id o = Some (o, PMark s r) ->
  exists w', drive (replicate 3 (EvNext ob)) (ow_id o) w = Some w' /\ published w' (ow_id o) r.
Proof.
  intros Hinv Ht.
  destruct (located_task w _ o _ (inv_located _ _ Hinv _) Ht) as (_ & c & Hc & _ & [_ Hnt] & _).
  assert (exists w1, task_step (EvNext ob) o (PMark s r) w = Some w1 /\
    w_tasks w1 !! ow_id o = Some (o, PRelease r)) as (w1 & E & Ht1).
  { unfold task_step; rewrite Hc. unfold mark_terminal; rewrite Hnt.
    eexists; split; [reflexivity|]. apply lookup_insert_eq. }
  simpl. rewrite Ht, E. eapply drive_release; [by eapply task_step_inv|done].
Qed.

Lemma drive_send cfg w o s cause ob :
  Inv cfg w -> w_tasks w !! ow_id o = Some (o, PSend s cause) ->
  exists w' f, drive (replicate 4 (EvNext ob)) (ow_id o) w = Some w' /\
    published w' (ow_id o) (Err f) /\ xf_error f = cause_error cause.
Proof.
  intros Hinv Ht.
  destruct (located_task w _ o _ (inv_located _ _ Hinv _) Ht) as (_ & c & Hc & _).
  assert (exists w1 f, task_step (EvNext ob) o (PSend s cause) w = Some w1 /\
    w_tasks w1 !! ow_id o = Some (o, PMark s (Err f)) /\ xf_error f = cause_error cause)
    as (w1 & f & E & Ht1 & Hf).
  { unfold task_step; rewrite Hc. unfold control_failure, control_report; cbv zeta.
    destruct (snapshot _ _) as [t p].
    eexists _, _; split; [reflexivity|]. split; [apply lookup_insert_eq|done]. }
  change (replicate 4 (EvNext ob)) with (EvNext ob :: replicate 3 (EvNext ob)).
  erewrite drive_cons; [|exact Ht|exact E].
  destruct (drive_mark cfg w1 o s (Err f) ob) as (w' & H1 & H2); [by eapply task_step_inv|done|].
  by exists w', f.
Qed.

(** C4. No owner is stuck and none fails silently: a dispatched owner's start either
    runs its backend or is refused, and from every other point the owner's own
    next steps publish a result, with its control out of the active set; an
    owner that never ran publishes the failure it was taken for. *)
Theorem owner_publishes (cfg : admission_config) (w : world) (o : task_owner) (pc : task_pc)
    (ob : observation) (r : run_result)
    (Ha : 0 < ac_active_limit cfg) (Hq : 0 <= ac_queue_limit cfg)
    (Hw : reachable (sched_step cfg) scheduler_new w)
    (Ht : w_tasks w !! ow_id o = Some (o, pc)) :
  match pc with
  | PSpawned => exists w1 pc1, task_step (EvStart (ob_now ob)) o pc w = Some w1 /\
    w_tasks w1 !! ow_id o = Some (o, pc1) /\ (pc1 = PRunning \/ pc1 = PNotStarted)
  | _ => exists w' res, drive (finish_events pc ob r) (ow_id o) w = Some w' /\
    published w' (ow_id o) res /\
    (forall s cause, pc = PSend s cause -> exists f, res = Err f /\ xf_error f = cause_error cause)
  end.
Proof.
  destruct (full_reachable cfg w Ha Hq Hw) as (Hinv & _).
  destruct (located_task w _ o _ (inv_located _ _ Hinv _) Ht) as (_ & c & Hc & Hok & Hpc & _).
  destruct pc as [| | |s cause|s r0|r0|r0|]; try done; cbn [finish_events].
  - unfold task_step; rewrite Hc. destruct (begin_start (ob_now ob) c) as [b c'].
    eexists _, _; split; [reflexivity|]. split; [apply lookup_insert_eq|destruct b; auto].
  - pose proof Hpc as (_ & Hnt & _).
    destruct (resolve_backend_result ob r (x_backend (ow_runner o)) c) as [out c'] eqn:E.
    destruct (resolve_ok _ _ _ _ _ _ Hok E) as (_ & _ & _ & Hn).
    destruct out as [[s r']|]; [|rewrite (proj1 Hn eq_refl) in Hnt; done].
    assert (exists w1, task_step (EvBackend ob r) o PRunning w = Some w1 /\
      w_tasks w1 !! ow_id o = Some (o, PRelease r')) as (w1 & E1 & Ht1).
    { unfold task_step, finish_backend; rewrite Hc, E. eexists; split; [reflexivity|].
      apply lookup_insert_eq. }
    erewrite drive_cons; [|exact Ht|exact E1].
    destruct (drive_release cfg w1 o r' ob) as (w' & H1 & H2); [by eapply task_step_inv|done|].
    by exists w', r'.
  - assert (exists w1 cause, task_step (EvNext ob) o PNotStarted w = Some w1 /\
      w_tasks w1 !! ow_id o = Some (o, PSend Terminated cause)) as (w1 & cause & E1 & Ht1).
    { unfold task_step; rewrite Hc. eexists _, _; split; [reflexivity|]. apply lookup_insert_eq. }
    change (replicate 5 (EvNext ob)) with (EvNext ob :: replicate 4 (EvNext ob)).
    erewrite drive_cons; [|exact Ht|exact E1].
    destruct (drive_send cfg w1 o Terminated cause ob) as (w' & f & H1 & H2 & _);
      [by eapply task_step_inv|done|]. by exists w', (Err f).
  - destruct (drive_send cfg w o s cause ob Hinv Ht) as (w' & f & H1 & H2 & H3).
    exists w', (Err f). split_and!; try done. intros ? ? [= <- <-]. eauto.
  - destruct (drive_mark cfg w o s r0 ob Hinv Ht) as (w' & H1 & H2). by exists w', r0.
  - destruct (drive_release cfg w o r0 ob Hinv Ht) as (w' & H1 & H2). by exists w', r0.
  - destruct (drive_publish cfg w o r0 ob Hinv Ht) as (w' & H1 & H2). by exists w', r0.
Qed.

(** Submission 1 admitted, then cancelled before it was dispatched. *)
Lemma demo_cancelled : exists w o,
  reachable (sched_step demo_config) scheduler_new w /\ ow_id o = 1 /\
  w_tasks w !! ow_id o = Some (o, PSend Terminated CauseCancelled).
Proof.
  eexists _, (TaskOwner 1 demo_request demo_executor None PermitActive). split; [|split].
  - eapply reachable_head.
    { eapply (ss_submit _ _ _ 0 (Observation 0 resource_sample_default) demo_executor demo_request
        (SubmissionOptions None)); reflexivity. }
    eapply reachable_head; [apply (ss_cancel _ _ 1 User); reflexivity|]. apply reach_refl.
  - reflexivity.
  - vm_compute. reflexivity.
Qed.

Lemma owner_publishes_witness : exists w o w' f,
  reachable (sched_step demo_config) scheduler_new w /\
  published w' (ow_id o) (Err f) /\ xf_error f = ExCancelled.
Proof.
  destruct demo_cancelled as (w & o & Hw & Hi & Ht).
  destruct (owner_publishes demo_config w o _ (Observation 0 resource_sample_default)
    (Err (failure demo_executor (Clock 0 0 0 0 0 0 resource_sample_default) None (Timeout "") disabled))
    eq_refl ltac:(vm_compute; discriminate) Hw Ht) as (w' & res & _ & Hp & Hc).
  destruct (Hc _ _ eq_refl) as (f & -> & Hf).
  exists w, o, w', f. exact (conj Hw (conj Hp Hf)).
Defined.

(** ** Cancellation *)

Lemma elem_unique_nil id l (o : task_owner) : of_id id l = [] -> o ∈ l -> ow_id o <> id.
Proof. intros H; by apply of_id_nil. Qed.

(** In a list whose other entries of that id are gone there is one owner. *)
Lemma unique_in_lists id pre (o o' : task_owner) post l :
  of_id id pre = [] -> of_id id post = [] -> of_id id l = [] -> ow_id o' = id ->
  o' ∈ (pre ++ o :: post) ++ l \/ o' ∈ l ++ (pre ++ o :: post) -> o' = o.
Proof.
  intros H1 H2 H3 Ho H. rewrite !elem_of_app, elem_of_cons in H.
  pose proof (elem_unique_nil id pre o' H1). pose proof (elem_unique_nil id post o' H2).
  pose proof (elem_unique_nil id l o' H3). naive_solver.
Qed.

Lemma request_with_reason_requested c r : cx_requested (request_with_reason c r) = true.
Proof. unfold request_with_reason; simpl. by destruct (cx_isolate c). Qed.

(** Where the owner goes. *)
Lemma request_cancel_taken cfg w id r c :
  Inv cfg w -> w_controls w !! id = Some c -> is_terminal (tc_state c) = false ->
  let w' := (request_cancel id r w).2 in
  (tc_reason c <> None -> w_state w' = w_state w /\ w_tasks w' = w_tasks w) /\
  (tc_reason c = None ->
    of_id id (s_queue (w_state w')) = [] /\ of_id id (s_ready (w_state w')) = [] /\
    (forall o, o ∈ s_queue (w_state w) ++ s_ready (w_state w) -> ow_id o = id ->
       w_tasks w' !! id = Some (o, PSend Terminated (cause_of_reason r)))).
Proof.
  intros Hinv Hc Ht. cbv zeta. unfold request_cancel; rewrite Hc, Ht.
  pose proof (inv_located _ _ Hinv id) as Hl.
  destruct (list_find _ (s_queue _)) as [[i o]|] eqn:Eq;
    [|destruct (list_find _ (s_ready _)) as [[i o]|] eqn:Er]; simpl.
  - apply list_find_split in Eq as (pre & post & E & -> & Ho).
    destruct (located_mid_queue w id pre o post Hl E Ho)
      as (c' & Hpre & Hpost & Hr & _ & _ & _ & Hre & _ & _ & _ & Hc'). simplify_eq.
    split; [by rewrite Hre|intros _]. rewrite state_update_control; simpl.
    rewrite of_id_app, Hpre, Hpost, Hr. split_and!; [done..|].
    intros o' Hin Ho'. assert (o' = o) as ->.
    { apply (unique_in_lists (ow_id o) pre o o' post (s_ready (w_state w))); try done. rewrite <- E; by left. }
    apply lookup_insert_eq.
  - apply list_find_none in Eq. apply list_find_split in Er as (pre & post & E & -> & Ho).
    destruct (located_mid_ready w id pre o post Hl E Ho)
      as (c' & Hpre & Hpost & Hr & _ & _ & _ & Hre & _ & _ & _ & Hc'). simplify_eq.
    split; [by rewrite Hre|intros _]. rewrite state_update_control; simpl.
    rewrite of_id_app, Hpre, Hpost, Hr. split_and!; [done..|].
    intros o' Hin Ho'. assert (o' = o) as ->.
    { apply (unique_in_lists (ow_id o) pre o o' post (s_queue (w_state w))); try done. rewrite <- E; by right. }
    apply lookup_insert_eq.
  - apply list_find_none in Eq, Er. rewrite state_update_control, tasks_update_control.
    split; [done|intros _; split_and!; try done].
    intros o Hin Ho. pose proof (proj1 (of_id_nil id _) Eq). pose proof (proj1 (of_id_nil id _) Er).
    apply elem_of_app in Hin as [Hin|Hin]; naive_solver.
Qed.

(** [cancel] answers by the control's state and never with
    [NotEnforceableForStartedSubprocess]: a finished submission is left alone, a
    second request keeps the first reason, and the first one records its
    reason, enters [Cancelling] and requests the run's context; if the
    submission was still waiting, its owner is taken out of the list and will
    publish the matching failure without ever starting. *)
Theorem request_cancel_spec (cfg : admission_config) (w : world) (id : Z) (r : cancel_reason)
    (c : task_control)
    (Ha : 0 < ac_active_limit cfg) (Hq : 0 <= ac_queue_limit cfg)
    (Hw : reachable (sched_step cfg) scheduler_new w) (Hc : w_controls w !! id = Some c) :
  let '(out, w') := request_cancel id r w in
  if is_terminal (tc_state c) then out = AlreadyTerminal /\ w' = w
  else match tc_reason c with
  | Some _ => out = AlreadyRequested /\ w_controls w' !! id = Some c /\
      w_state w' = w_state w /\ w_tasks w' = w_tasks w
  | None => out = Requested /\
      (exists c', w_controls w' !! id = Some c' /\ tc_state c' = Cancelling /\
         tc_reason c' = Some r /\ cx_requested (tc_cancellation c') = true) /\
      of_id id (s_queue (w_state w')) = [] /\ of_id id (s_ready (w_state w')) = [] /\
      (forall o, o ∈ s_queue (w_state w) ++ s_ready (w_state w) -> ow_id o = id ->
         w_tasks w' !! id = Some (o, PSend Terminated (cause_of_reason r)))
  end.
Proof.
  destruct (full_reachable cfg w Ha Hq Hw) as (Hinv & _).
  pose proof (request_cancel_control w id r c Hc) as Hrc.
  pose proof (request_cancel_inv cfg id r w Hinv) as Hinv'.
  destruct (is_terminal (tc_state c)) eqn:Et.
  { unfold request_cancel; by rewrite Hc, Et. }
  destruct (Hrc eq_refl) as [Hc' Hout]. pose proof (request_cancel_taken cfg w id r c Hinv Hc Et) as [Htk1 Htk2].
  destruct (request_cancel id r w) as [out w'] eqn:E; simpl in *.
  unfold cancel_control, mark_cancelling in *; rewrite Et in *.
  destruct (tc_reason c) as [r0|] eqn:Er; simpl in *.
  - split; [done|]. split; [done|]. apply Htk1; by rewrite ?Er.
  - split; [done|]. split; [|by apply Htk2].
    exists (set_cancelling c r); split_and!; try done.
    apply request_with_reason_requested.
Qed.

Lemma request_cancel_spec_witness : exists w w',
  reachable (sched_step demo_config) scheduler_new w /\
  request_cancel 1 User w = (Requested, w').
Proof.
  destruct demo_reachable as (w & Hw & _ & _ & _ & _ & _ & H6 & H7).
  destruct (w_controls w !! 1) as [c|] eqn:Ec; [|discriminate H7].
  unfold control_state in H6; rewrite Ec in H6.
  exists w, (request_cancel 1 User w).2. split; [exact Hw|].
  pose proof (request_cancel_spec demo_config w 1 User c eq_refl ltac:(vm_compute; discriminate) Hw Ec) as H.
  injection H6 as H6. injection H7 as H7.
  destruct (request_cancel 1 User w) as [out w']. rewrite H6, H7 in H.
  destruct H as [-> _]. reflexivity.
Defined.

(** ** What shutdown reports *)

(** The pass from [sw] to its end, with nothing in between. *)
Fixpoint sweep_run (fuel : nat) (sw : sweep) (w : world) : Z * world :=
  match fuel with
  | O => (sw_count sw, w)
  | S fuel =>
      match sweep_step sw w with
      | (Some sw', w') => sweep_run fuel sw' w'
      | (None, w') => (sw_count sw, w')
      end
  end.

Definition accepted_ids (w : world) (l : list Z) : list Z :=
  List.filter (fun id => bool_decide (control_state w id = Some AcceptedNotStarted)) l.

Lemma control_state_set w id c j :
  control_state (set_control w id c) j = if decide (id = j) then Some (tc_state c) else control_state w j.
Proof. unfold control_state; simpl. rewrite lookup_insert. by case_decide. Qed.

(** The pass leaves the controls it does not visit alone. *)
Lemma sweep_run_other fuel : forall todo w count id, id ∉ todo ->
  control_state (sweep_run fuel (Sweep todo SweepCheck count) w).2 id = control_state w id.
Proof.
  induction fuel as [fuel IH] using lt_wf_ind. intros todo w count id Hid.
  destruct fuel as [|fuel]; [done|]. destruct todo as [|j todo]; simpl; [done|].
  apply not_elem_of_cons in Hid as [Hne Hid].
  destruct (decide (control_state w j = Some AcceptedNotStarted)).
  - destruct fuel as [|fuel]; [done|]. simpl; unfold sweep_step; simpl.
    destruct (w_controls w !! j) as [c|]; [|by rewrite IH by (lia || done)].
    destruct (mark_cancelling Shutdown c) as [out c'].
    rewrite IH by (lia || done). rewrite control_state_set, decide_False; [done|congruence].
  - by rewrite IH by (lia || done).
Qed.

Lemma sweep_run_count fuel : forall todo w count,
  (sweep_measure (Sweep todo SweepCheck count) < fuel)%nat -> NoDup todo ->
  (forall id c, w_controls w !! id = Some c -> control_ok c) ->
  (sweep_run fuel (Sweep todo SweepCheck count) w).1 =
    count + Z.of_nat (length (accepted_ids w todo)) /\
  (forall id, id ∈ todo ->
     control_state (sweep_run fuel (Sweep todo SweepCheck count) w).2 id <> Some AcceptedNotStarted).
Proof.
  induction fuel as [fuel IH] using lt_wf_ind. intros todo w count Hf Hnd Hok.
  destruct fuel as [|fuel]; [unfold sweep_measure in Hf; simpl in Hf; lia|].
  destruct todo as [|id todo]; simpl; [split; [lia|by intros ? ?%not_elem_of_nil]|].
  apply NoDup_cons in Hnd as [Hnin Hnd].
  unfold sweep_measure in Hf; simpl in Hf.
  case_bool_decide as Hs; [rewrite decide_True by done|rewrite decide_False by done].
  - destruct fuel as [|fuel]; [lia|]. simpl; unfold sweep_step; simpl.
    unfold control_state in Hs. destruct (w_controls w !! id) as [c|] eqn:Ec; [|done].
    injection Hs as Hs. destruct (mark_cancelling Shutdown c) as [out c'] eqn:Em.
    destruct (mark_cancelling_ok _ _ _ _ (Hok _ _ Ec) Em) as (Hok' & _).
    pose proof (not_accepted_after_cancel _ _ _ _ (Hok _ _ Ec) Em) as Hna.
    assert (tc_reason c = None) as Hr.
    { destruct (tc_reason c) eqn:Er; [|done]. destruct (proj2 (Hok _ _ Ec)) as [H|H];
        [by rewrite Er|congruence|by rewrite Hs in H]. }
    assert (out = Requested) as ->.
    { unfold mark_cancelling in Em; rewrite Hs, Hr in Em. by injection Em. }
    simpl.
    destruct (IH fuel ltac:(lia) todo (set_control w id c') (count + 1)) as [IH1 IH2];
      [unfold sweep_measure; simpl; lia|done| |].
    { intros j cj Hj; simpl in Hj. destruct (decide (id = j)) as [<-|].
      - rewrite lookup_insert_eq in Hj; by injection Hj as <-.
      - rewrite lookup_insert_ne in Hj by done. by eapply Hok. }
    split.
    + rewrite IH1. assert (accepted_ids (set_control w id c') todo = accepted_ids w todo) as ->; [|lia].
      apply filter_ext_in. intros j Hj%list_elem_of_In. rewrite control_state_set, decide_False; [done|].
      by intros <-.
    + intros j [->|Hj]%elem_of_cons; [|by apply IH2].
      rewrite sweep_run_other by done. rewrite control_state_set, decide_True by done. congruence.
  - destruct (IH fuel ltac:(lia) todo w count) as [IH1 IH2]; [unfold sweep_measure; simpl; lia|done..|].
    split; [exact IH1|]. intros j [->|Hj]%elem_of_cons; [|by apply IH2].
    by rewrite sweep_run_other.
Qed.

(** What an uninterrupted shutdown pass does and reports: every queued and every
    ready owner is handed a cancellation to publish, [queued_cancelled] is the
    length of the queue, [accepted_not_started_cancelled] counts the ready
    owners and the dispatched ones that had not started, and none of the latter
    is left able to start. *)
Theorem shutdown_pass_report (cfg : admission_config) (w : world) (order : list Z) (fuel : nat)
    (Ha : 0 < ac_active_limit cfg) (Hq : 0 <= ac_queue_limit cfg)
    (Hw : reachable (sched_step cfg) scheduler_new w) (Hs : w_sweep w = None)
    (Hord : order ≡ₚ elements (s_active (w_state w))) (Hf : (2 * length order < fuel)%nat) :
  let '(queued, w1) := shutdown_begin order w in
  queued = Z.of_nat (length (s_queue (w_state w))) /\
  exists sw, w_sweep w1 = Some sw /\
    let '(accepted, w2) := sweep_run fuel sw w1 in
    accepted = Z.of_nat (length (s_ready (w_state w)) + length (accepted_ids w1 order)) /\
    (forall id, id ∈ s_active (w_state w) -> control_state w2 id <> Some AcceptedNotStarted).
Proof.
  destruct (full_reachable cfg w Ha Hq Hw) as (Hinv & _).
  pose proof (shutdown_begin_inv cfg order w Hinv) as Hinv1.
  destruct (shutdown_begin order w) as [queued w1] eqn:E.
  assert (queued = Z.of_nat (length (s_queue (w_state w))) /\
    w_sweep w1 = Some (Sweep order SweepCheck (Z.of_nat (length (s_ready (w_state w)))))) as [-> E1]
    by (unfold shutdown_begin in E; injection E as <- <-; done).
  split; [done|]. eexists; split; [exact E1|].
  destruct (sweep_run_count fuel order w1 (Z.of_nat (length (s_ready (w_state w))))) as [H1 H2].
  - unfold sweep_measure; simpl; lia.
  - rewrite Hord. apply NoDup_elements.
  - intros id c Hc. eapply located_control_ok; [apply (inv_located _ _ Hinv1)|exact Hc].
  - destruct (sweep_run _ _ _) as [acc w2]; simpl in *. split; [lia|].
    intros id Hid. apply H2. rewrite Hord. by apply elem_of_elements.
Qed.

Lemma shutdown_pass_report_witness : exists w,
  reachable (sched_step demo_config) scheduler_new w /\ (shutdown_begin [1] w).1 = 1.
Proof.
  destruct demo_reachable as (w & Hw & H1 & H2 & H3 & _ & H5 & _). exists w. split; [exact Hw|].
  pose proof (shutdown_pass_report demo_config w [1] 3 eq_refl ltac:(vm_compute; discriminate) Hw H5
    ltac:(rewrite H1, elements_singleton; reflexivity) ltac:(simpl; lia)) as H.
  destruct (shutdown_begin [1] w) as [q w1]. destruct H as [-> _]. simpl.
  apply (f_equal length) in H2. rewrite length_fmap in H2. simpl in H2. rewrite H2. reflexivity.
Defined.

(** The pass reads a control's state and marks it under two separate locks of the
    control, and starting a task takes neither the scheduler lock nor looks at
    the pass: a submission can start in between and is then cancelled without
    grace and counted as not started. *)
Theorem shutdown_counts_a_started_submission :
  exists w sw,
    reachable (sched_step demo_config) scheduler_new w /\ w_sweep w = Some sw /\
    sw_count sw = 0 /\ control_state w 1 = Some Started /\
    (exists o, w_tasks w !! 1 = Some (o, PRunning)) /\
    (sweep_step sw w).1 = Some (Sweep [] SweepCheck 1).
Proof.
  eexists _, _. split.
  - eapply reachable_head.
    { eapply (ss_submit _ _ _ 0 (Observation 0 resource_sample_default) demo_executor demo_request
        (SubmissionOptions None)); reflexivity. }
    eapply reachable_head; [eapply (ss_ensure _ _ 0); reflexivity|].
    eapply reachable_head; [eapply (ss_spawn _ _ 0 (Ok tt)); reflexivity|].
    eapply reachable_head; [eapply (ss_tick _ _ 0 (Observation 1 resource_sample_default)); reflexivity|].
    eapply reachable_head; [eapply (ss_shutdown _ _ [1]); [reflexivity|vm_compute; reflexivity]|].
    eapply reachable_head; [eapply ss_sweep; reflexivity|].
    eapply reachable_head.
    { eapply (ss_task _ _ _ 1 (TaskOwner 1 demo_request demo_executor None PermitActive) PSpawned (EvStart 2));
        [vm_compute; reflexivity|discriminate|vm_compute; reflexivity]. }
    apply reach_refl.
  - vm_compute. split_and!; try reflexivity. eexists; reflexivity.
Qed.
