(* ===== verification/Waiting.v ===== *)
(** * Waiting: results and cancellation requests reach those who wait for them
    ([ResultCell] of src/executor.rs, [CancellationContext::wait_requested] of
    src/limits.rs).

    Both wait on a [tokio::sync::Notify]: [notified()] remembers how many times
    [notify_waiters] has been called, and awaiting it ends once there was another
    call.  Publishers and waiters are any number of threads and tasks whose atomic
    steps interleave freely; a waiter may be dropped at any point. *)
From S2P Require Import Prelude.

Section Waiting.
Context {T : Type}.

(** The value, and the number of [notify_waiters] calls. *)
Record cell := Cell { c_completion : option T; c_notified : nat }.
Definition cell_new : cell := Cell None 0.

(** ** Publishing *)
Inductive publisher :=
| Publish (v : T)     (** about to store [v] *)
| NotifyWaiters       (** stored, about to notify *)
| PublishDone.

(** [ResultCell::publish] stores and notifies only if nothing was stored;
    [request_with_reason] keeps what was stored and notifies in any case. *)
Definition publish_step (always_notify : bool) (p : publisher) (c : cell) : option (publisher * cell) :=
  match p with
  | Publish v =>
      match c_completion c with
      | None => Some (NotifyWaiters, Cell (Some v) (c_notified c))
      | Some _ => Some (if always_notify then NotifyWaiters else PublishDone, c)
      end
  | NotifyWaiters => Some (PublishDone, Cell (c_completion c) (S (c_notified c)))
  | PublishDone => None
  end.

(** ** Waiting *)
Inductive waiter :=
| FirstCheck                  (** the look before [notified()] *)
| CreateNotified
| CheckAgain (seen : nat)
| Awaiting (seen : nat)
| Finished (v : T)
| Dropped.

(** The loop of [ResultCell::wait] begins with [notified()]; that of
    [wait_requested] looks first.  [None] is a waiter that does not go on. *)
Definition loop_start (check_first : bool) : waiter := if check_first then FirstCheck else CreateNotified.
Definition wait_step (check_first : bool) (w : waiter) (c : cell) : option waiter :=
  match w with
  | FirstCheck => Some (match c_completion c with Some v => Finished v | None => CreateNotified end)
  | CreateNotified => Some (CheckAgain (c_notified c))
  | CheckAgain seen => Some (match c_completion c with Some v => Finished v | None => Awaiting seen end)
  | Awaiting seen => if (seen <? c_notified c)%nat then Some (loop_start check_first) else None
  | Finished _ | Dropped => None
  end.

Record system := System { sy_cell : cell; sy_publishers : list publisher; sy_waiters : list waiter }.

(** Any thread or task takes its next step; callers come and go. *)
Inductive system_step (always_notify check_first : bool) : system -> system -> Prop :=
| step_publisher (s : system) (i : nat) (p p' : publisher) (c : cell) :
    sy_publishers s !! i = Some p -> publish_step always_notify p (sy_cell s) = Some (p', c) ->
    system_step always_notify check_first s (System c (<[i := p']> (sy_publishers s)) (sy_waiters s))
| step_waiter (s : system) (i : nat) (w w' : waiter) :
    sy_waiters s !! i = Some w -> wait_step check_first w (sy_cell s) = Some w' ->
    system_step always_notify check_first s (System (sy_cell s) (sy_publishers s) (<[i := w']> (sy_waiters s)))
| step_drop (s : system) (i : nat) (w : waiter) :
    sy_waiters s !! i = Some w ->
    system_step always_notify check_first s (System (sy_cell s) (sy_publishers s) (<[i := Dropped]> (sy_waiters s)))
| step_new_publisher (s : system) (v : T) :
    system_step always_notify check_first s (System (sy_cell s) (sy_publishers s ++ [Publish v]) (sy_waiters s))
| step_new_waiter (s : system) :
    system_step always_notify check_first s (System (sy_cell s) (sy_publishers s) (sy_waiters s ++ [loop_start check_first])).

(** ** No wake-up is lost *)
Definition waiter_ok (s : system) (w : waiter) : Prop :=
  match w with
  | CheckAgain seen => (seen <= c_notified (sy_cell s))%nat
  | Awaiting seen =>
      (seen <= c_notified (sy_cell s))%nat /\
      (c_completion (sy_cell s) = None \/ (seen < c_notified (sy_cell s))%nat \/ NotifyWaiters ∈ sy_publishers s)
  | Finished v => c_completion (sy_cell s) = Some v
  | _ => True
  end.
(** A stored value means somebody has notified or is about to. *)
Definition system_ok (s : system) : Prop := Forall (waiter_ok s) (sy_waiters s).

Lemma publish_keeps (always_notify : bool) (p p' : publisher) (c c' : cell) :
  publish_step always_notify p c = Some (p', c') ->
  (c_notified c <= c_notified c')%nat /\ (forall v, c_completion c = Some v -> c_completion c' = Some v) /\
  (p = NotifyWaiters -> c_completion c' = c_completion c /\ c_notified c' = S (c_notified c)) /\
  (p <> NotifyWaiters -> c_notified c' = c_notified c /\ (c_completion c' = c_completion c \/ p' = NotifyWaiters)).
Proof.
  destruct p as [u| |]; simpl; [|intros [= <- <-]; simpl; split; [lia|by split_and!]|done].
  destruct (c_completion c) as [x|] eqn:E; intros [= <- <-]; simpl; (split; [lia|]).
  - split; [by intros v [= <-]|]; split; [done|]; intros _; split; [done|by left].
  - split; [done|]; split; [done|]; intros _; split; [done|by right].
Qed.

Lemma insert_publishers (l : list publisher) (i : nat) (p p' : publisher) :
  l !! i = Some p -> p <> NotifyWaiters -> NotifyWaiters ∈ l -> NotifyWaiters ∈ <[i := p']> l.
Proof.
  intros Hi Hp (j & Hj)%list_elem_of_lookup_1; assert (i <> j) as Hne by congruence.
  apply (list_elem_of_lookup_2 _ j); by rewrite list_lookup_insert_ne.
Qed.

Lemma waiter_ok_publisher (always_notify : bool) (s : system) (i : nat) (p p' : publisher) (c : cell) (w : waiter) :
  sy_publishers s !! i = Some p -> publish_step always_notify p (sy_cell s) = Some (p', c) ->
  waiter_ok s w -> waiter_ok (System c (<[i := p']> (sy_publishers s)) (sy_waiters s)) w.
Proof.
  intros Hi Hp; destruct (publish_keeps _ _ _ _ _ Hp) as (H1 & H2 & H3 & H4).
  pose proof (lookup_lt_Some _ _ _ Hi) as Hlt; destruct w as [| |seen|seen|v|]; simpl; [done|done|lia| |by apply H2|done].
  intros [Hle Hor]; split; [lia|]; revert Hor.
  destruct p as [u| |]; [|destruct (H3 eq_refl) as [_ ->]; intros _; right; left; lia|done].
  destruct H4 as [Hn Hc]; [done|]; rewrite Hn; intros [He|[He|He]]; [|by right; left|right; right; by eapply insert_publishers].
  destruct Hc as [-> | ->]; [by left|right; right; by apply (list_elem_of_lookup_2 _ i), list_lookup_insert_eq].
Qed.

Lemma wait_step_ok (check_first : bool) (s : system) (w w' : waiter) :
  waiter_ok s w -> wait_step check_first w (sy_cell s) = Some w' -> waiter_ok s w'.
Proof.
  destruct w as [| |seen|seen|v|]; simpl; [| | | |done..].
  - intros _ [= <-]; by destruct (c_completion _) eqn:E.
  - intros _ [= <-]; simpl; lia.
  - intros Hs [= <-]; destruct (c_completion _) eqn:E; simpl; [done|]; split; [done|by left].
  - intros _; destruct (seen <? _)%nat; [|done]; intros [= <-]; by destruct check_first.
Qed.

Lemma system_step_ok (always_notify check_first : bool) (s s' : system) :
  system_ok s -> system_step always_notify check_first s s' -> system_ok s'.
Proof.
  unfold system_ok; intros Hs Hstep; destruct Hstep as [s i p p' c Hi Hp|s i w w' Hi Hw|s i w Hi|s v|s]; simpl.
  - eapply Forall_impl; [exact Hs|]; intros w; by eapply waiter_ok_publisher.
  - apply Forall_insert; [eapply Forall_impl; [exact Hs|]; by intros []|].
    rewrite Forall_lookup in Hs; apply wait_step_ok in Hw; [by destruct w'|by eapply Hs].
  - apply Forall_insert; [eapply Forall_impl; [exact Hs|]; by intros []|done].
  - eapply Forall_impl; [exact Hs|]; intros [| |seen|seen|u|]; simpl; try done; set_solver.
  - apply Forall_app; split; [eapply Forall_impl; [exact Hs|]; by intros []|]; repeat constructor; by destruct check_first.
Qed.

Lemma completion_stable (always_notify check_first : bool) (s s' : system) (v : T) :
  reachable (system_step always_notify check_first) s s' -> c_completion (sy_cell s) = Some v -> c_completion (sy_cell s') = Some v.
Proof.
  intros Hr Hv; induction Hr as [|a b _ IH Hs]; [done|]; destruct Hs as [a i p p' c Hi Hp| | | |]; simpl; try done.
  by apply (publish_keeps _ _ _ _ _ Hp).
Qed.

(** What a waiter that is never dropped still has to do once there is a value. *)
Definition rank (w : waiter) : nat :=
  match w with Awaiting _ => 4 | FirstCheck => 3 | CreateNotified => 2 | CheckAgain _ => 1 | Finished _ | Dropped => 0 end.

(** C24. A result, and a cancellation request, reaches everybody who waits for it.
    However publishers, waiters and dropped waiters interleave: a waiter that
    finished has the value that was stored first, which never changes; and from the
    moment a value is stored and its publisher has notified, no waiter is blocked
    and each step of its own brings it nearer to the end, so that it finishes with
    that value after at most four, whatever the others do. *)
Theorem value_reaches_waiters (always_notify check_first : bool) (s s' : system) (v : T) :
  reachable (system_step always_notify check_first) (System cell_new [] []) s ->
  c_completion (sy_cell s) = Some v ->
  reachable (system_step always_notify check_first) s s' ->
  c_completion (sy_cell s') = Some v /\
  (forall i u, sy_waiters s' !! i = Some (Finished u) -> u = v) /\
  (NotifyWaiters ∉ sy_publishers s' ->
   forall i w, sy_waiters s' !! i = Some w ->
     rank w = 0 \/ exists w', wait_step check_first w (sy_cell s') = Some w' /\ (rank w' < rank w)%nat).
Proof.
  intros Hr Hv Hr'; pose proof (completion_stable _ _ _ _ _ Hr' Hv) as Hv'.
  assert (system_ok s') as Hok.
  { apply (reachable_invariant (system_step always_notify check_first) system_ok (System cell_new [] []) s');
      [by apply Forall_nil|intros a b; apply system_step_ok|by eapply reachable_trans]. }
  unfold system_ok in Hok; rewrite Forall_lookup in Hok; split_and!; [done| |].
  - intros i u Hi; specialize (Hok _ _ Hi); simpl in Hok; congruence.
  - intros Hn i w Hi; specialize (Hok _ _ Hi); destruct w as [| |seen|seen|u|]; simpl in *; rewrite ?Hv'; [right..|by left|by left].
    + eexists; split; [done|]; simpl; lia.
    + eexists; split; [done|]; simpl; lia.
    + eexists; split; [done|]; simpl; lia.
    + destruct Hok as [_ [Hok|[Hok|Hok]]]; [congruence| |done].
      apply Nat.ltb_lt in Hok as ->; eexists; split; [done|]; destruct check_first; simpl; lia.
Qed.
End Waiting.

(** A caller waits, the owner publishes, and the caller can go on. *)
Lemma value_reaches_waiters_witness :
  let s := System (Cell (Some 7%Z) 1) [PublishDone] [Awaiting 0] in
  reachable (system_step false false) (System cell_new [] []) s /\ wait_step false (Awaiting 0) (sy_cell s) = Some CreateNotified /\
  c_completion (sy_cell s) = Some 7%Z.
Proof.
  intros s; assert (reachable (system_step false false) (System cell_new [] []) s) as Hr.
  { set (s0 := System cell_new [] []); set (s3 := System cell_new [] [Awaiting 0] : @system Z).
    set (s4 := System cell_new [Publish 7%Z] [Awaiting 0]).
    set (s5 := System (Cell (Some 7%Z) 0) [NotifyWaiters] [Awaiting 0]).
    assert (reachable (system_step false false) s0 s3) as H3.
    { refine (reach_step _ _ (System cell_new [] [CheckAgain 0]) s3 (reach_step _ _ (System cell_new [] [CreateNotified]) _
        (reach_step _ _ s0 _ (reach_refl _ _) _) _) _).
      - exact (step_new_waiter false false s0).
      - exact (step_waiter false false (System cell_new [] [CreateNotified]) 0 CreateNotified (CheckAgain 0) eq_refl eq_refl).
      - exact (step_waiter false false (System cell_new [] [CheckAgain 0]) 0 (CheckAgain 0) (Awaiting 0) eq_refl eq_refl). }
    refine (reach_step _ _ s5 s (reach_step _ _ s4 s5 (reach_step _ _ s3 s4 H3 _) _) _).
    - exact (step_new_publisher false false s3 7%Z).
    - exact (step_publisher false false s4 0 (Publish 7%Z) NotifyWaiters _ eq_refl eq_refl).
    - exact (step_publisher false false s5 0 NotifyWaiters PublishDone _ eq_refl eq_refl). }
  split; [exact Hr|]; split; [reflexivity|].
  exact (proj1 (value_reaches_waiters false false s s 7%Z Hr eq_refl (reach_refl _ _))).
Defined.
