(* ===== verification/Token.v ===== *)
(** * Token: random tokens, their hex form, and comparison without early exit.

    Models [src/token.rs] and [SupervisorToken] of [src/supervisor.rs].  Bytes
    are integers below 256, texts are byte strings. *)
From S2P Require Import Prelude Text.
Open Scope Z_scope.

Definition str_bytes (s : string) : list Z :=
  map (fun c => Z.of_nat (Ascii.nat_of_ascii c)) (String.list_ascii_of_string s).

(** [format!("{byte:02x}")] *)
Definition hex_byte (b : Z) : list Ascii.ascii := [hex_char (b / 16); hex_char (b mod 16)].
Definition hex_string (bytes : list Z) : string :=
  String.string_of_list_ascii (bytes ≫= hex_byte).

(** The operating system either fills the buffer or reports an error. *)
Section RandomHex.
Context {getrandom_error : Type} (fill : nat -> result (list Z) getrandom_error).

Definition random_hex (bytes : nat) : result string getrandom_error :=
  let? buffer := fill bytes in Ok (hex_string buffer).
End RandomHex.

(** [difference |= byte ^ candidate.get(index).copied().unwrap_or_default()] *)
Definition accumulate (candidate : list Z) (difference : Z) (item : nat * Z) : Z :=
  Z.lor difference (Z.lxor item.2 (default 0 (candidate !! item.1))).

Definition constant_time_eq (candidate expected : list Z) : bool :=
  if decide (candidate = []) then false
  else
    let difference := Z.b2z (negb (length candidate =? length expected)%nat) in
    Z.eqb (foldl (accumulate candidate) difference (imap pair expected)) 0.

Definition SUPERVISOR_TOKEN_LEN : nat := 16.

Definition supervisor_token := list Z.

Definition authenticate (self : supervisor_token) (candidate : list Z) : bool :=
  let difference := Z.b2z (negb (length candidate =? length self)%nat) in
  Z.eqb (foldl (accumulate candidate) difference (imap pair self)) 0.

Definition to_hex (self : supervisor_token) : string := hex_string self.

Definition invalid_data (message : string) : io_error := IoError InvalidData message.

Definition hex_digit (value : Z) : result Z io_error :=
  if decide (48 <= value <= 57) then Ok (value - 48)
  else if decide (97 <= value <= 102) then Ok (value - 97 + 10)
  else if decide (65 <= value <= 70) then Ok (value - 65 + 10)
  else Err (invalid_data "invalid supervisor token").

(** The loop over [as_chunks::<2>()]; a trailing odd byte is in no chunk. *)
Fixpoint hex_pairs (bytes : list Z) : result (list Z) io_error :=
  match bytes with
  | hi :: lo :: rest =>
      let? h := hex_digit hi in
      let? l := hex_digit lo in
      let? tail := hex_pairs rest in
      Ok (Z.lor (Z.land (Z.shiftl h 4) 255) l :: tail)
  | _ => Ok []
  end.

Definition from_hex (value : string) : result supervisor_token io_error :=
  if negb (String.length value =? SUPERVISOR_TOKEN_LEN * 2)%nat
  then Err (invalid_data "invalid supervisor token")
  else hex_pairs (str_bytes value).

(** ** Comparison *)
Lemma accumulate_zero (candidate : list Z) (items : list (nat * Z)) (d : Z) :
  foldl (accumulate candidate) d items = 0 <->
  d = 0 /\ forall i b, (i, b) ∈ items -> default 0 (candidate !! i) = b.
Proof.
  revert d; induction items as [|[i b] items IH]; intros d; simpl.
  - split; [intros ->; split; [done|]; intros ? ? []%elem_of_nil | by intros [? _]].
  - rewrite IH; unfold accumulate; rewrite Z.lor_eq_0_iff; simpl; split.
    + intros [[-> Hx%Z.lxor_eq] Hr]; split; [done|].
      intros j c [Hj|Hj]%elem_of_cons; [by simplify_eq|eauto].
    + intros [-> Hr]; split_and!; [done| |].
      * rewrite (Hr i b) by constructor; apply Z.lxor_nilpotent.
      * intros j c Hj; apply Hr; by constructor.
Qed.

Lemma comparison_zero (candidate expected : list Z) :
  foldl (accumulate candidate) (Z.b2z (negb (length candidate =? length expected)%nat))
    (imap pair expected) = 0 <-> candidate = expected.
Proof.
  rewrite accumulate_zero; split.
  - intros [Hl Hi].
    assert (length candidate = length expected) as Hlen.
    { destruct (Nat.eqb_spec (length candidate) (length expected)); [done|discriminate]. }
    apply (list_eq_same_length _ _ (length expected)); [done|done|].
    intros i x y Hlt Hx Hy.
    assert (default 0 (candidate !! i) = y) as E.
    { apply Hi, elem_of_lookup_imap; eauto. }
    by rewrite Hx in E.
  - intros ->; rewrite Nat.eqb_refl; split; [done|].
    intros i b (j & y & ? & Hy)%elem_of_lookup_imap; simplify_eq. by rewrite Hy.
Qed.

Lemma constant_time_eq_spec (candidate expected : list Z) :
  constant_time_eq candidate expected = true <-> candidate <> [] /\ candidate = expected.
Proof.
  unfold constant_time_eq; case_decide; [naive_solver|].
  rewrite Z.eqb_eq, comparison_zero; naive_solver.
Qed.

(** A supervisor peer is authenticated exactly when it presents the token's
    bytes, and the child-mode comparison accepts exactly the non-empty equal
    byte strings: comparing without an early exit (also over the part a short
    candidate lacks, which reads as zero bytes) decides equality. *)
Theorem comparison_decides_equality (candidate expected : list Z) :
  (authenticate expected candidate = true <-> candidate = expected) /\
  (constant_time_eq candidate expected = true <-> candidate <> [] /\ candidate = expected).
Proof.
  unfold authenticate; rewrite Z.eqb_eq, comparison_zero; split; [done|]; apply constant_time_eq_spec.
Qed.

(** ** Hex *)
Lemma Forall_range (P : Z -> bool) (n : nat) :
  forallb P (map Z.of_nat (seq 0 n)) = true -> forall z, 0 <= z < Z.of_nat n -> P z = true.
Proof.
  rewrite forallb_forall; intros H z Hz; apply H, in_map_iff.
  exists (Z.to_nat z); rewrite Z2Nat.id by lia; split; [done|]. apply in_seq; lia.
Qed.

Definition hex_pair_ok (b : Z) : bool :=
  match hex_pairs (map (fun c => Z.of_nat (Ascii.nat_of_ascii c)) (hex_byte b)) with
  | Ok [b'] => Z.eqb b' b
  | _ => false
  end.

Lemma hex_pairs_app (a b : list Z) (ha hb : list Z) (n : nat) :
  length a = (2 * n)%nat ->
  hex_pairs a = Ok ha -> hex_pairs b = Ok hb -> hex_pairs (a ++ b) = Ok (ha ++ hb).
Proof.
  revert a ha; induction n as [|n IH]; intros [|x [|y a]] ha Hl Ha Hb; simplify_eq/=; try lia.
  - done.
  - repeat destr_match; erewrite IH in *; eauto; simplify_eq/=; try done; lia.
Qed.

Lemma hex_pairs_hex_byte (b : Z) :
  is_u8 b -> hex_pairs (map (fun c => Z.of_nat (Ascii.nat_of_ascii c)) (hex_byte b)) = Ok [b].
Proof.
  intros Hb.
  assert (hex_pair_ok b = true) as H.
  { apply (Forall_range hex_pair_ok 256); [by vm_compute|exact Hb]. }
  unfold hex_pair_ok in H; repeat destr_match; apply Z.eqb_eq in H; by subst.
Qed.

Lemma hex_pairs_bytes (bytes : list Z) :
  Forall is_u8 bytes -> hex_pairs (str_bytes (hex_string bytes)) = Ok bytes.
Proof.
  unfold str_bytes, hex_string; rewrite String.list_ascii_of_string_of_list_ascii.
  induction 1 as [|b bytes Hb _ IH]; [done|].
  change (hex_pairs (map (fun c => Z.of_nat (Ascii.nat_of_ascii c)) (hex_byte b ++ (bytes ≫= hex_byte))) = Ok ([b] ++ bytes)).
  rewrite map_app; apply (hex_pairs_app _ _ _ _ 1); [done|by apply hex_pairs_hex_byte|done].
Qed.

Lemma hex_string_length (bytes : list Z) :
  String.length (hex_string bytes) = (2 * length bytes)%nat.
Proof.
  unfold hex_string; induction bytes as [|b bytes IH]; [done|].
  change (String.length (String.string_of_list_ascii ((b :: bytes) ≫= hex_byte)))
    with (S (S (String.length (String.string_of_list_ascii (bytes ≫= hex_byte))))).
  rewrite IH; simpl; lia.
Qed.

Definition is_hex_digit (v : Z) : Prop := 48 <= v <= 57 \/ 97 <= v <= 102 \/ 65 <= v <= 70.

Lemma hex_digit_ok (v : Z) : is_ok (hex_digit v) = true <-> is_hex_digit v.
Proof. unfold hex_digit, is_hex_digit; repeat case_decide; simpl; split; (done || lia). Qed.

Lemma hex_digit_range (v n : Z) : hex_digit v = Ok n -> 0 <= n < 16.
Proof. unfold hex_digit; repeat case_decide; intros; simplify_eq; lia. Qed.

Lemma hex_pairs_spec (n : nat) (bytes : list Z) :
  length bytes = (2 * n)%nat ->
  (is_ok (hex_pairs bytes) = true <-> Forall is_hex_digit bytes) /\
  (forall t, hex_pairs bytes = Ok t -> length t = n).
Proof.
  revert bytes; induction n as [|n IH]; intros [|x [|y a]] Hl; simplify_eq/=; try lia.
  { split; [split; [constructor|done]|]. intros t Ht; by simplify_eq. }
  destruct (IH a) as [IH1 IH2]; [lia|].
  rewrite !Forall_cons, <- !hex_digit_ok, <- IH1; split.
  - destruct (hex_digit x), (hex_digit y), (hex_pairs a); simpl; naive_solver.
  - intros t Ht; repeat destr_match; simpl; f_equal; by apply IH2.
Qed.

Lemma str_bytes_length (s : string) : length (str_bytes s) = String.length s.
Proof. unfold str_bytes; rewrite length_map; induction s; simpl; congruence. Qed.

(** The token the parent hands to the child in its environment survives the
    trip: a 16-byte token is printed as 32 characters that read back as the
    same token; conversely a text is accepted exactly when it is 32 hexadecimal
    digits (of either case), and what is read is always a 16-byte token. *)
Theorem token_hex_roundtrip (t : supervisor_token) (value : string) :
  (Forall is_u8 t -> length t = SUPERVISOR_TOKEN_LEN ->
   String.length (to_hex t) = 32%nat /\ from_hex (to_hex t) = Ok t) /\
  (is_ok (from_hex value) = true <->
   String.length value = 32%nat /\ Forall is_hex_digit (str_bytes value)) /\
  (forall t', from_hex value = Ok t' -> length t' = SUPERVISOR_TOKEN_LEN).
Proof.
  split.
  - intros Hu Hl; unfold from_hex, to_hex; rewrite hex_string_length, Hl; simpl.
    split; [done|]. by apply hex_pairs_bytes.
  - unfold from_hex; destruct (Nat.eqb_spec (String.length value) (SUPERVISOR_TOKEN_LEN * 2)) as [E|E]; simpl.
    + destruct (hex_pairs_spec 16 (str_bytes value)) as [H1 H2].
      { rewrite str_bytes_length, E; done. }
      rewrite H1; split; [|exact H2]. split; [by split|by intros [_ ?]].
    + split; [split; [done|by intros [? _]]|done].
Qed.

Lemma token_hex_roundtrip_witness :
  let t := map Z.of_nat (seq 240 16) in
  from_hex (to_hex t) = Ok t /\ from_hex "0g" = Err (invalid_data "invalid supervisor token").
Proof.
  split; [|by vm_compute].
  apply (token_hex_roundtrip (map Z.of_nat (seq 240 16)) ""); [|reflexivity].
  repeat constructor; vm_compute; intuition congruence.
Defined.
