(* ===== verification/Frame.v ===== *)
(** * Frame: the framed supervisor transport.

    Models the framing layer of [src/supervisor.rs]: frame kinds, the header,
    reading a frame from a socket that delivers its bytes in arbitrary pieces,
    and writing one with deadline and cancellation checks.  The socket, the
    clock and the cancellation flag are a script with one entry per iteration
    of the loops; an exhausted script means that the call is still waiting. *)
From S2P Require Import Prelude Token.
Open Scope Z_scope.

Definition SUPERVISOR_MAGIC : list Z := [76; 68; 83; 86].
Definition SUPERVISOR_VERSION : Z := 2.
Definition MAX_SUPERVISOR_FRAME_PAYLOAD : Z := Z.shiftl 1 20.
Definition SUPERVISOR_FRAME_TIMEOUT : Z := from_secs 10.
Definition SUPERVISOR_HEADER_LEN : nat := 4 + 1 + 1 + 8 + 4.

Inductive frame_direction := ParentToChild | ChildToParent.
Inductive frame_kind :=
| KRequest | KStart | KCancel | KHello | KAccepted | KStarted | KTerminal.

#[export] Instance frame_direction_eq_dec : EqDecision frame_direction.
Proof. solve_decision. Defined.
#[export] Instance frame_kind_eq_dec : EqDecision frame_kind.
Proof. solve_decision. Defined.

Definition to_byte (k : frame_kind) : Z :=
  match k with
  | KRequest => 1 | KStart => 2 | KCancel => 3 | KHello => 4
  | KAccepted => 5 | KStarted => 6 | KTerminal => 7
  end.

Definition from_byte (value : Z) : option frame_kind :=
  match value with
  | 1 => Some KRequest | 2 => Some KStart | 3 => Some KCancel | 4 => Some KHello
  | 5 => Some KAccepted | 6 => Some KStarted | 7 => Some KTerminal
  | _ => None
  end.

Definition direction (k : frame_kind) : frame_direction :=
  match k with
  | KRequest | KStart | KCancel => ParentToChild
  | KHello | KAccepted | KStarted | KTerminal => ChildToParent
  end.

Definition validate_direction (k : frame_kind) (expected : frame_direction)
  : result unit io_error :=
  if decide (direction k = expected) then Ok ()
  else Err (invalid_data "supervisor frame has the wrong direction").

Record supervisor_frame := SupervisorFrame {
  f_kind : frame_kind;
  f_request_id : Z;
  f_payload : list Z
}.

Definition payload_len (f : supervisor_frame) : Z := Z.of_nat (length (f_payload f)).

Definition frame_new (k : frame_kind) (request_id : Z) (payload : list Z)
  : result supervisor_frame io_error :=
  if decide (Z.of_nat (length payload) > MAX_SUPERVISOR_FRAME_PAYLOAD)
  then Err (invalid_data "supervisor frame payload is too large")
  else Ok (SupervisorFrame k request_id payload).

(** ** Big-endian integers: [to_be_bytes] and [from_be_bytes]. *)
Fixpoint to_be_bytes (n : nat) (z : Z) : list Z :=
  match n with
  | O => []
  | S n => Z.land (Z.shiftr z (8 * Z.of_nat n)) 255 :: to_be_bytes n z
  end.

Definition from_be_bytes (bytes : list Z) : Z :=
  foldl (fun acc b => acc * 256 + b) 0 bytes.

Definition encode_header (f : supervisor_frame) : result (list Z) io_error :=
  if decide (payload_len f > u32_max)
  then Err (invalid_data "supervisor frame payload length does not fit")
  else Ok (SUPERVISOR_MAGIC ++ [SUPERVISOR_VERSION] ++ [to_byte (f_kind f)]
           ++ to_be_bytes 8 (f_request_id f) ++ to_be_bytes 4 (payload_len f)).

(** ** Reading *)
Definition frame_cancel_error : io_error := IoError Interrupted "supervisor cancellation requested".
Definition frame_deadline_error : io_error := IoError TimedOut "supervisor frame deadline exceeded".

(** What the loop sees at one point: the cancellation flag and the clock. *)
Record io_probe := IoProbe { o_cancelled : bool; o_now : Z }.

(** What [read] answers.  [RData k] delivers at most [k + 1] of the bytes the
    peer sent, and end of file once they are used up; [RError] is an error of
    the given kind. *)
Inductive read_reply := RData (k : nat) | RError (e : io_error).

Record read_turn := ReadTurn {
  r_before : io_probe;
  r_set_timeout : result unit io_error;
  r_read : read_reply;
  r_after : io_probe
}.

(** The incoming half of a socket: the peer's bytes and the script. *)
Record incoming := Incoming { in_bytes : list Z; in_turns : list read_turn }.

(** A reading computation: [None] when it is still waiting. *)
Definition reader (A : Type) : Type := incoming -> option (result A io_error * incoming).

Definition rret {A} (r : result A io_error) : reader A := fun s => Some (r, s).
Definition rbind {A B} (m : reader A) (k : A -> reader B) : reader B := fun s =>
  match m s with
  | None => None
  | Some (Err e, s') => Some (Err e, s')
  | Some (Ok a, s') => k a s'
  end.
Notation "'let!' x := m 'in' k" := (rbind m (fun x => k))
  (at level 10, x name, m at level 100, k at level 200) : rust_scope.

(** Both [SupervisorCancellation]s and deadlines are optional. *)
Record limits := Limits { l_deadline : option Z; l_cancellation : bool }.

Definition cancel_seen (l : limits) (o : io_probe) : bool := l_cancellation l && o_cancelled o.

(** The timeout handed to the socket before a read. *)
Definition poll_wait (l : limits) (now : Z) : option Z :=
  match option_map (fun at_ => duration_since at_ now) (l_deadline l), l_cancellation l with
  | Some remaining, true => Some (Z.min remaining (from_millis 10))
  | Some remaining, false => Some remaining
  | None, true => Some (from_millis 10)
  | None, false => None
  end.

Definition read_past_deadline (l : limits) (now : Z) : bool :=
  is_some_and (l_deadline l) (fun at_ => Z.eqb (duration_since at_ now) 0).

(** [read_until_with]: fills a buffer of [want] bytes; [got] is what the earlier
    iterations stored. *)
Fixpoint read_loop (l : limits) (turns : list read_turn) (bytes got : list Z) (want : nat)
  : option (result (list Z) io_error * incoming) :=
  match want with
  | O => Some (Ok got, Incoming bytes turns)
  | S _ =>
      match turns with
      | [] => None
      | t :: turns =>
          let stop e := Some (Err e, Incoming bytes turns) in
          if cancel_seen l (r_before t) then stop frame_cancel_error
          else if read_past_deadline l (o_now (r_before t)) then stop frame_deadline_error
          else
            match r_set_timeout t with
            | Err e => stop e
            | Ok _ =>
                match r_read t with
                | RData k =>
                    let chunk := take (Nat.min (S k) want) bytes in
                    match length chunk with
                    | O => stop (IoError UnexpectedEof "truncated supervisor frame")
                    | count =>
                        read_loop l turns (drop count bytes) (got ++ chunk) (want - count)
                    end
                | RError e =>
                    if kind_is e Interrupted then read_loop l turns bytes got want
                    else if kind_is e TimedOut || kind_is e WouldBlock then
                      if cancel_seen l (r_after t) then stop frame_cancel_error
                      else if is_some_and (l_deadline l) (fun at_ => Z.leb at_ (o_now (r_after t)))
                      then stop frame_deadline_error
                      else read_loop l turns bytes got want
                    else stop e
                end
            end
      end
  end.

Definition read_until (want : nat) (l : limits) : reader (list Z) :=
  fun s => read_loop l (in_turns s) (in_bytes s) [] want.

Definition read_frame_with_magic (expected_direction : frame_direction) (magic : list Z)
    (l : limits) : reader supervisor_frame :=
  if negb (bool_decide (magic = SUPERVISOR_MAGIC))
  then rret (Err (invalid_data "invalid supervisor frame magic"))
  else
    let! version := read_until 1 l in
    if negb (bool_decide (version = [SUPERVISOR_VERSION]))
    then rret (Err (invalid_data "unsupported supervisor frame version"))
    else
      let! kind_byte := read_until 1 l in
      match from_byte (default 0 (head kind_byte)) with
      | None => rret (Err (invalid_data "unknown supervisor frame kind"))
      | Some kind =>
          let! _ := rret (validate_direction kind expected_direction) in
          let! request_id := read_until 8 l in
          let! len_bytes := read_until 4 l in
          let len := from_be_bytes len_bytes in
          if decide (len > MAX_SUPERVISOR_FRAME_PAYLOAD)
          then rret (Err (invalid_data "supervisor frame payload is too large"))
          else
            let! payload := read_until (Z.to_nat len) l in
            rret (Ok (SupervisorFrame kind (from_be_bytes request_id) payload))
      end.

Definition read_frame_with_deadline (expected_direction : frame_direction) (l : limits)
  : reader supervisor_frame :=
  let! magic := read_until 4 l in
  read_frame_with_magic expected_direction magic l.

Definition read_frame (expected_direction : frame_direction) (deadline : Z)
  : reader supervisor_frame :=
  read_frame_with_deadline expected_direction (Limits (Some deadline) false).

(** The first byte has a deadline of its own; [frame_started] is the clock when
    it has arrived. *)
Definition read_frame_after_first_byte (expected_direction : frame_direction)
    (first_byte_deadline assembly_deadline : option Z) (cancellation : bool)
    (frame_started : Z) : reader supervisor_frame :=
  let! first := read_until 1 (Limits first_byte_deadline cancellation) in
  let assembly :=
    match assembly_deadline with
    | Some d => d
    | None => default frame_started (checked_add frame_started SUPERVISOR_FRAME_TIMEOUT)
    end in
  let! rest := read_until 3 (Limits (Some assembly) cancellation) in
  read_frame_with_magic expected_direction (first ++ rest) (Limits (Some assembly) cancellation).

Definition eof_or_timeout (e : io_error) : bool := kind_is e UnexpectedEof || kind_is e TimedOut.

(** [Err] arms that turn an early end into a refusal of the frame. *)
Definition truncated_duplicate (e : io_error) : io_error :=
  if eof_or_timeout e then invalid_data "truncated duplicate supervisor frame" else e.

Definition read_optional_frame_until (expected_direction : frame_direction) (deadline : Z)
  : reader (option supervisor_frame) := fun s =>
  let l := Limits (Some deadline) false in
  match read_until 1 l s with
  | None => None
  | Some (Err e, s) => if eof_or_timeout e then Some (Ok None, s) else Some (Err e, s)
  | Some (Ok first, s) =>
      match read_until 3 l s with
      | None => None
      | Some (Err e, s) => Some (Err (truncated_duplicate e), s)
      | Some (Ok rest, s) =>
          match read_frame_with_magic expected_direction (first ++ rest) l s with
          | None => None
          | Some (Ok f, s) => Some (Ok (Some f), s)
          | Some (Err e, s) => Some (Err (truncated_duplicate e), s)
          end
      end
  end.

(** ** Writing *)
Definition check_write_conditions (l : limits) (o : io_probe) : result unit io_error :=
  if cancel_seen l o then Err frame_cancel_error
  else if is_some_and (l_deadline l) (fun at_ => Z.leb at_ (o_now o)) then Err frame_deadline_error
  else Ok ().

Definition duration_to_poll_timeout_ms (duration : Z) : Z :=
  let round_up := Z.b2z (negb (Z.eqb ((duration mod 10 ^ 9) mod 1000000) 0)) in
  Z.min (duration / 10 ^ 6 + round_up) i32_max.

Definition POLLOUT : Z := 4.
Definition POLLERR : Z := 8.
Definition POLLHUP : Z := 16.
Definition POLLNVAL : Z := 32.

(** What [send] and [poll] answer, [getsockopt] included. *)
Inductive send_reply := Sent (count : nat) | SendError (e : io_error).
Inductive poll_reply :=
| PollError (e : io_error)
| PollTimeout
| PollReady (revents : Z) (socket_error : result Z io_error).

(** One iteration of either loop. *)
Record write_turn := WriteTurn {
  w_before : io_probe;
  w_wait_from : Z;                (** the clock when the poll timeout is computed *)
  w_send : send_reply;
  w_poll : poll_reply;
  w_after : io_probe
}.

Section Write.
Context (from_raw_os_error : Z -> io_error).

Definition EBADF : Z := 9.

(** [poll_writable]: [None] while it waits. *)
Fixpoint poll_writable (l : limits) (turns : list write_turn)
  : option (result unit io_error * list write_turn) :=
  match turns with
  | [] => None
  | t :: turns =>
      match check_write_conditions l (w_before t) with
      | Err e => Some (Err e, turns)
      | Ok _ =>
          match w_poll t with
          | PollError e => if kind_is e Interrupted then poll_writable l turns
                           else Some (Err e, turns)
          | PollTimeout => poll_writable l turns
          | PollReady revents socket_error =>
              if negb (Z.eqb (Z.land revents POLLNVAL) 0)
              then Some (Err (from_raw_os_error EBADF), turns)
              else if negb (Z.eqb (Z.land revents (Z.lor POLLERR POLLHUP)) 0)
              then
                Some (match socket_error with
                      | Err e => Err e
                      | Ok code =>
                          if negb (Z.eqb code 0) then Err (from_raw_os_error code)
                          else Err (IoError BrokenPipe "supervisor peer closed")
                      end, turns)
              else if negb (Z.eqb (Z.land revents POLLOUT) 0) then Some (Ok (), turns)
              else poll_writable l turns
          end
      end
  end.

(** The timeout of the poll of that turn, [-1] for none. *)
Definition poll_timeout (l : limits) (t : write_turn) : Z :=
  match poll_wait l (w_wait_from t) with
  | Some d => duration_to_poll_timeout_ms d
  | None => -1
  end.

(** [write_until]: [sent] is what the kernel has taken, [last] the final check's
    io_probe.  [fuel] bounds the iterations; every iteration uses a turn. *)
Fixpoint write_loop (fuel : nat) (l : limits) (last : io_probe) (turns : list write_turn)
    (bytes sent : list Z) : option (result unit io_error * list Z * list write_turn) :=
  match bytes with
  | [] => Some (check_write_conditions l last, sent, turns)
  | _ :: _ =>
      match fuel, turns with
      | S fuel, t :: turns =>
          match check_write_conditions l (w_before t) with
          | Err e => Some (Err e, sent, turns)
          | Ok _ =>
              match w_send t with
              | Sent O => Some (Err (IoError WriteZero "failed to write supervisor frame"), sent, turns)
              | Sent count =>
                  let sent := sent ++ take count bytes in
                  match check_write_conditions l (w_after t) with
                  | Err e => Some (Err e, sent, turns)
                  | Ok _ => write_loop fuel l last turns (drop count bytes) sent
                  end
              | SendError e =>
                  if kind_is e Interrupted then write_loop fuel l last turns bytes sent
                  else if kind_is e WouldBlock then
                    match poll_writable l turns with
                    | None => None
                    | Some (Err e, turns) => Some (Err e, sent, turns)
                    | Some (Ok _, turns) => write_loop fuel l last turns bytes sent
                    end
                  else Some (Err e, sent, turns)
              end
          end
      | _, _ => None
      end
  end.

Definition write_until (l : limits) (last : io_probe) (turns : list write_turn)
    (bytes : list Z) : option (result unit io_error * list Z * list write_turn) :=
  write_loop (S (length turns)) l last turns bytes [].

(** What a write leaves on the wire. *)
Record written := Written {
  wr_result : result unit io_error;
  wr_sent : list Z;
  wr_shutdown : bool
}.

Definition write_frame_until (f : supervisor_frame) (l : limits)
    (header_last payload_last : io_probe) (turns : list write_turn) : option written :=
  if decide (payload_len f > MAX_SUPERVISOR_FRAME_PAYLOAD)
  then Some (Written (Err (invalid_data "supervisor frame payload is too large")) [] false)
  else
    match encode_header f with
    | Err e => Some (Written (Err e) [] false)
    | Ok header =>
        match write_until l header_last turns header with
        | None => None
        | Some (Err e, sent, _) => Some (Written (Err e) sent true)
        | Some (Ok _, sent, turns) =>
            match write_until l payload_last turns (f_payload f) with
            | None => None
            | Some (r, sent', _) => Some (Written r (sent ++ sent') (negb (is_ok r)))
            end
        end
    end.
End Write.

(** ** The wire format *)
Definition frame_bytes (f : supervisor_frame) : list Z :=
  SUPERVISOR_MAGIC ++ [SUPERVISOR_VERSION] ++ [to_byte (f_kind f)]
  ++ to_be_bytes 8 (f_request_id f) ++ to_be_bytes 4 (payload_len f) ++ f_payload f.

(** Frames as the code builds them: a [u64] identifier and a bounded payload. *)
Definition frame_ok (f : supervisor_frame) : Prop :=
  is_u64 (f_request_id f) /\ payload_len f <= MAX_SUPERVISOR_FRAME_PAYLOAD.

Lemma length_to_be_bytes (n : nat) (z : Z) : length (to_be_bytes n z) = n.
Proof. induction n; simpl; congruence. Qed.

Lemma from_be_bytes_snoc (bytes : list Z) (b : Z) :
  from_be_bytes (bytes ++ [b]) = from_be_bytes bytes * 256 + b.
Proof. unfold from_be_bytes; by rewrite foldl_app. Qed.

Lemma from_be_bytes_acc (bytes : list Z) (acc : Z) :
  foldl (fun acc b => acc * 256 + b) acc bytes
  = acc * 256 ^ Z.of_nat (length bytes) + from_be_bytes bytes.
Proof.
  unfold from_be_bytes; revert acc; induction bytes as [|b bytes IH]; intros acc.
  { simpl; lia. }
  cbn [foldl length]; rewrite IH, (IH (0 * 256 + b)), Nat2Z.inj_succ, Z.pow_succ_r by lia; ring.
Qed.

Lemma from_be_bytes_cons (b : Z) (bytes : list Z) :
  from_be_bytes (b :: bytes) = b * 256 ^ Z.of_nat (length bytes) + from_be_bytes bytes.
Proof. unfold from_be_bytes at 1; cbn [foldl]; by rewrite from_be_bytes_acc. Qed.

Lemma from_be_bytes_range (bytes : list Z) :
  Forall is_u8 bytes -> 0 <= from_be_bytes bytes < 256 ^ Z.of_nat (length bytes).
Proof.
  induction 1 as [|b bs Hb Hu IH]; [done|].
  rewrite from_be_bytes_cons; cbn [length]; rewrite Nat2Z.inj_succ, Z.pow_succ_r by lia.
  unfold is_u8 in Hb; nia.
Qed.

Lemma be_roundtrip (n : nat) (z : Z) :
  0 <= z -> from_be_bytes (to_be_bytes n z) = z mod 256 ^ Z.of_nat n.
Proof.
  intros Hz; induction n as [|n IH]; [simpl; by rewrite Z.mod_1_r|].
  cbn [to_be_bytes]; rewrite from_be_bytes_cons, length_to_be_bytes, IH.
  change 255 with (Z.ones 8); rewrite Z.land_ones, Z.shiftr_div_pow2 by lia.
  change 256 with (2 ^ 8); rewrite <- !Z.pow_mul_r by lia.
  replace (8 * Z.of_nat (S n)) with (8 * Z.of_nat n + 8) by lia.
  rewrite (Z.pow_add_r 2 (8 * Z.of_nat n) 8) by lia.
  rewrite Z.rem_mul_r by (apply Z.pow_nonzero || apply Z.pow_pos_nonneg; lia).
  ring.
Qed.

Lemma be_inverse (bytes : list Z) :
  Forall is_u8 bytes -> to_be_bytes (length bytes) (from_be_bytes bytes) = bytes.
Proof.
  intros Hu.
  enough (forall bs z, Forall is_u8 bs ->
            to_be_bytes (length bs) (z * 256 ^ Z.of_nat (length bs) + from_be_bytes bs) = bs) as H.
  { specialize (H bytes 0 Hu); by rewrite Z.mul_0_l, Z.add_0_l in H. }
  clear; intros bs z Hu; revert z; induction Hu as [|b bs Hb Hu IH]; intros z; [done|].
  pose proof (from_be_bytes_range bs Hu) as Hr; unfold is_u8 in Hb.
  rewrite from_be_bytes_cons; cbn [length to_be_bytes].
  replace (z * 256 ^ Z.of_nat (S (length bs)) + (b * 256 ^ Z.of_nat (length bs) + from_be_bytes bs))
    with ((z * 256 + b) * 256 ^ Z.of_nat (length bs) + from_be_bytes bs)
    by (rewrite Nat2Z.inj_succ, Z.pow_succ_r by lia; ring).
  rewrite IH; f_equal.
  change 255 with (Z.ones 8); rewrite Z.land_ones, Z.shiftr_div_pow2 by lia.
  rewrite Z.pow_mul_r by lia; change (2 ^ 8) with 256.
  rewrite Z.div_add_l, Z.div_small, Z.add_0_r by lia.
  rewrite Z.add_comm, Z.mod_add by lia; by apply Z.mod_small.
Qed.

Arguments to_be_bytes : simpl never.
Arguments from_be_bytes : simpl never.
Arguments frame_bytes : simpl never.

(** ** Reading: what a filled buffer says about the stream *)
Lemma read_loop_bytes (l : limits) (turns : list read_turn) (bytes got : list Z) (want : nat)
    (r : result (list Z) io_error) (s' : incoming) :
  read_loop l turns bytes got want = Some (r, s') ->
  exists c, bytes = c ++ in_bytes s' /\
    match r with
    | Ok v => v = got ++ c /\ length c = want
    | Err _ => (length c < want)%nat
    end.
Proof.
  revert bytes got want; induction turns as [|t turns IH]; intros bytes got [|want] H; cbn in H;
    simplify_eq/=; try (exists []; split_and!; simpl; rewrite ?app_nil_r; (done || lia)).
  destruct (cancel_seen l (r_before t)); [simplify_eq; exists []; simpl; split; (done || lia)|].
  destruct (read_past_deadline l _); [simplify_eq; exists []; simpl; split; (done || lia)|].
  destruct (r_set_timeout t); [|simplify_eq; exists []; simpl; split; (done || lia)].
  destruct (r_read t) as [k|e].
  - destruct bytes as [|b bytes]; cbn in H; [simplify_eq; exists []; simpl; split; (done || lia)|].
    apply IH in H as (c & Hc & Hr).
    exists (b :: take (Nat.min k want) bytes ++ c).
    rewrite length_take in Hc, Hr.
    assert (drop (Nat.min (Nat.min k want) (length bytes)) bytes = drop (Nat.min k want) bytes) as E.
    { destruct (decide (Nat.min k want <= length bytes)%nat); [by rewrite Nat.min_l by lia|].
      rewrite Nat.min_r by lia; rewrite !drop_ge by lia; done. }
    split.
    + simpl; rewrite <- app_assoc, <- Hc, E, take_drop; done.
    + destruct r; simpl; rewrite ?length_app, ?length_take.
      * destruct Hr as [-> Hl]; rewrite <- app_assoc; split; [done|]. lia.
      * lia.
  - destruct (kind_is e Interrupted); [eauto|].
    destruct (kind_is e TimedOut || kind_is e WouldBlock);
      [|simplify_eq; exists []; simpl; split; (done || lia)].
    destruct (cancel_seen l (r_after t)); [simplify_eq; exists []; simpl; split; (done || lia)|].
    destruct (is_some_and _ _); [simplify_eq; exists []; simpl; split; (done || lia)|eauto].
Qed.

Lemma read_until_ok (want : nat) (l : limits) (s s' : incoming) (v : list Z) :
  read_until want l s = Some (Ok v, s') -> length v = want /\ in_bytes s = v ++ in_bytes s'.
Proof. intros (c & Hc & -> & Hl)%read_loop_bytes; by split. Qed.

Lemma rbind_ok {A B} (m : reader A) (k : A -> reader B) (s s' : incoming) (b : B) :
  rbind m k s = Some (Ok b, s') <->
  exists a s1, m s = Some (Ok a, s1) /\ k a s1 = Some (Ok b, s').
Proof.
  unfold rbind; destruct (m s) as [[[a|e] s1]|]; split; naive_solver.
Qed.

Lemma from_byte_to_byte (b : Z) (k : frame_kind) : from_byte b = Some k -> to_byte k = b.
Proof.
  unfold from_byte; intros H; repeat (destr_match || done).
Qed.

Lemma to_byte_from_byte (k : frame_kind) : from_byte (to_byte k) = Some k.
Proof. by destruct k. Qed.

Lemma Forall_app_r {A} (P : A -> Prop) (a b : list A) : Forall P (a ++ b) -> Forall P b.
Proof. by intros [_ H]%Forall_app. Qed.

(** After the magic, an accepted frame is what the stream held. *)
Lemma read_magic_sound (d : frame_direction) (magic : list Z) (l : limits) (s s' : incoming)
    (f : supervisor_frame) :
  Forall is_u8 (in_bytes s) ->
  read_frame_with_magic d magic l s = Some (Ok f, s') ->
  magic ++ in_bytes s = frame_bytes f ++ in_bytes s' /\ frame_ok f /\ direction (f_kind f) = d.
Proof.
  intros Hu H; unfold read_frame_with_magic in H.
  case_bool_decide as Hm; cbn [negb] in H; [|discriminate H]; subst magic.
  apply rbind_ok in H as (version & s1 & [_ E1]%read_until_ok & H).
  case_bool_decide as Hv; cbn [negb] in H; [|discriminate H]; subst version.
  apply rbind_ok in H as (kb & s2 & [L2 E2]%read_until_ok & H).
  destruct kb as [|b [|]]; try discriminate L2; cbn [head from_option id] in H; clear L2.
  cbn [app] in E2; cbn [app] in E1.
  destruct (from_byte b) as [k|] eqn:Hk; [|discriminate H]; apply from_byte_to_byte in Hk.
  apply rbind_ok in H as ([] & s2' & Hd & H); unfold rret, validate_direction in Hd.
  case_decide as Hdir; simplify_eq.
  apply rbind_ok in H as (idb & s3 & [L3 E3]%read_until_ok & H).
  apply rbind_ok in H as (lb & s4 & [L4 E4]%read_until_ok & H).
  case_decide as Hlen; [discriminate H|].
  apply rbind_ok in H as (p & s5 & [L5 E5]%read_until_ok & H); unfold rret in H; simplify_eq.
  rewrite E1, E2, E3, E4 in Hu; apply Forall_cons in Hu as [_ Hu]; apply Forall_cons in Hu as [_ Hu].
  apply Forall_app in Hu as [U3 [U4 _]%Forall_app].
  pose proof (from_be_bytes_range _ U3) as R3; rewrite L3 in R3.
  pose proof (from_be_bytes_range _ U4) as R4; rewrite L4 in R4.
  pose proof (be_inverse _ U3) as B3; pose proof (be_inverse _ U4) as B4; rewrite L3 in B3; rewrite L4 in B4.
  assert (payload_len (SupervisorFrame k (from_be_bytes idb) p) = from_be_bytes lb) as Hp.
  { unfold payload_len; simpl; lia. }
  split; [|split; [split; [split|]|done]].
  - unfold frame_bytes; rewrite Hp; cbn [f_kind f_request_id f_payload].
    rewrite B3, B4, E1, E2, E3, E4, E5, <- !app_assoc; done.
  - simpl; lia.
  - simpl; unfold u64_max; lia.
  - rewrite Hp; lia.
Qed.

Lemma read_frame_sound (d : frame_direction) (l : limits) (s s' : incoming)
    (f : supervisor_frame) :
  Forall is_u8 (in_bytes s) ->
  read_frame_with_deadline d l s = Some (Ok f, s') ->
  in_bytes s = frame_bytes f ++ in_bytes s' /\ frame_ok f /\ direction (f_kind f) = d.
Proof.
  intros Hu (m & s1 & [_ E]%read_until_ok & H)%rbind_ok.
  rewrite E in *; apply Forall_app_r in Hu; by apply read_magic_sound in H.
Qed.

(** ** Reading: a stream that holds a frame is read to its end *)

(** A turn that neither stops the read nor fails. *)
Definition delivers (l : limits) (t : read_turn) : Prop :=
  cancel_seen l (r_before t) = false /\
  read_past_deadline l (o_now (r_before t)) = false /\
  is_ok (r_set_timeout t) = true /\
  match r_read t with
  | RData _ => True
  | RError e => io_kind e = Interrupted \/
      (io_kind e = TimedOut \/ io_kind e = WouldBlock) /\
      cancel_seen l (r_after t) = false /\
      is_some_and (l_deadline l) (fun at_ => Z.leb at_ (o_now (r_after t))) = false
  end.

Definition data_turn (t : read_turn) : nat :=
  match r_read t with RData _ => 1 | RError _ => 0 end.
Definition data_turns (turns : list read_turn) : nat := sum_list_with data_turn turns.

Lemma data_turns_cons (t : read_turn) (turns : list read_turn) :
  data_turns (t :: turns) = (data_turn t + data_turns turns)%nat.
Proof. done. Qed.

Lemma read_loop_delivers (P : read_turn -> Prop) (l : limits) (turns : list read_turn) (got v rest : list Z) :
  (forall t, P t -> delivers l t) -> Forall P turns -> (length v <= data_turns turns)%nat ->
  exists turns', read_loop l turns (v ++ rest) got (length v) = Some (Ok (got ++ v), Incoming rest turns')
    /\ Forall P turns' /\ (data_turns turns <= data_turns turns' + length v)%nat.
Proof.
  intros HP Hf; revert got v; induction Hf as [|t turns Ht Hf IH]; intros got v Hn.
  { destruct v; simpl in Hn; [|lia]. exists []; simpl; rewrite app_nil_r; split_and!; (done || constructor). }
  destruct v as [|b v].
  { exists (t :: turns); simpl; rewrite app_nil_r; split_and!; [done|by constructor|lia]. }
  destruct (HP _ Ht) as (Hc & Hd & Hs & Hr). rewrite data_turns_cons in Hn |- *.
  cbn [read_loop length app]; rewrite Hc, Hd; destruct (r_set_timeout t); [|done].
  unfold data_turn in Hn |- * at 1; destruct (r_read t) as [k|e].
  - cbn [Nat.min take length] in Hn |- *.
    assert (Hmin : length (take (Nat.min k (length v)) (v ++ rest)) = Nat.min k (length v)).
    { rewrite length_take, length_app; lia. }
    rewrite Hmin; cbn [drop Nat.sub].
    rewrite take_app_le, drop_app_le by lia.
    destruct (IH (got ++ b :: take (Nat.min k (length v)) v) (drop (Nat.min k (length v)) v))
      as (turns' & E & Hf' & Hn'); [rewrite length_drop; lia|].
    rewrite length_drop in E, Hn'; rewrite E.
    exists turns'; split_and!; [|done|lia].
    rewrite <- app_assoc; simpl; by rewrite take_drop.
  - destruct (IH got (b :: v)) as (turns' & E & Hf' & Hn'); [simpl in *; lia|].
    exists turns'; split_and!; [|done|simpl in *; lia].
    unfold kind_is; destruct Hr as [->|([->| ->] & -> & ->)]; simpl; exact E.
Qed.

Lemma read_until_delivers_weak (P : read_turn -> Prop) (l : limits) (want : nat) (turns : list read_turn)
    (v rest : list Z) (n : nat) :
  (forall t, P t -> delivers l t) -> Forall P turns -> length v = want -> (want + n <= data_turns turns)%nat ->
  exists turns', read_until want l (Incoming (v ++ rest) turns) = Some (Ok v, Incoming rest turns')
    /\ Forall P turns' /\ (n <= data_turns turns')%nat.
Proof.
  intros HP Hf <- Hn; destruct (read_loop_delivers P l turns [] v rest HP Hf) as (t' & E & H1 & H2); [lia|].
  exists t'; split_and!; [exact E|done|lia].
Qed.

Lemma read_until_delivers (l : limits) (want : nat) (turns : list read_turn) (v rest : list Z) (n : nat) :
  Forall (delivers l) turns -> length v = want -> (want + n <= data_turns turns)%nat ->
  exists turns', read_until want l (Incoming (v ++ rest) turns) = Some (Ok v, Incoming rest turns')
    /\ Forall (delivers l) turns' /\ (n <= data_turns turns')%nat.
Proof. by apply read_until_delivers_weak. Qed.

Lemma length_frame_bytes (f : supervisor_frame) :
  length (frame_bytes f) = (SUPERVISOR_HEADER_LEN + length (f_payload f))%nat.
Proof. unfold frame_bytes; rewrite !length_app, !length_to_be_bytes; cbn; lia. Qed.

Lemma rbind_step {A B} (m : reader A) (k : A -> reader B) (s s1 : incoming) (a : A) :
  m s = Some (Ok a, s1) -> rbind m k s = k a s1.
Proof. unfold rbind; by intros ->. Qed.

Lemma payload_len_be (f : supervisor_frame) :
  frame_ok f -> from_be_bytes (to_be_bytes 4 (payload_len f)) = payload_len f.
Proof.
  intros [_ Hl]; assert (0 <= payload_len f) by (unfold payload_len; lia).
  rewrite be_roundtrip by done; apply Z.mod_small; split; [done|].
  eapply Z.le_lt_trans; [exact Hl|done].
Qed.

Lemma request_id_be (f : supervisor_frame) :
  frame_ok f -> from_be_bytes (to_be_bytes 8 (f_request_id f)) = f_request_id f.
Proof.
  intros [[H0 H1] _]; rewrite be_roundtrip by done; apply Z.mod_small; split; [done|].
  unfold u64_max in H1; change (256 ^ Z.of_nat 8) with (2 ^ 64); lia.
Qed.

(** Reads the next field [v] of a delivered stream, leaving [n] data turns. *)
Ltac read_field v n :=
  match goal with
  | Hf : Forall (delivers ?l) ?turns
    |- context [rbind (read_until ?w ?l) ?k (Incoming (v ++ ?rest) ?turns)] =>
      let t := fresh "t" in let E := fresh "E" in let H := fresh "H" in let N := fresh "N" in
      destruct (read_until_delivers l w turns v rest n) as (t & E & H & N);
      [exact Hf | rewrite ?length_to_be_bytes; unfold payload_len; (done || lia)
      | unfold payload_len in *; lia | rewrite (rbind_step _ _ _ _ _ E); clear E]
  end.

Lemma read_magic_complete (l : limits) (f : supervisor_frame) (rest : list Z)
    (turns : list read_turn) (n : nat) :
  frame_ok f -> Forall (delivers l) turns ->
  (14 + length (f_payload f) + n <= data_turns turns)%nat ->
  exists turns',
    read_frame_with_magic (direction (f_kind f)) SUPERVISOR_MAGIC l
      (Incoming ([SUPERVISOR_VERSION] ++ [to_byte (f_kind f)] ++ to_be_bytes 8 (f_request_id f)
                 ++ to_be_bytes 4 (payload_len f) ++ f_payload f ++ rest) turns)
    = Some (Ok f, Incoming rest turns').
Proof.
  intros Hok Hf Hn; unfold read_frame_with_magic; rewrite bool_decide_eq_true_2 by done; cbn [negb].
  read_field [SUPERVISOR_VERSION] (13 + length (f_payload f) + n)%nat.
  rewrite bool_decide_eq_true_2 by done; cbn [negb].
  read_field [to_byte (f_kind f)] (12 + length (f_payload f) + n)%nat.
  cbn [head from_option]; unfold id; rewrite to_byte_from_byte.
  erewrite (rbind_step (rret _)).
  2: { unfold rret, validate_direction; by rewrite decide_True. }
  read_field (to_be_bytes 8 (f_request_id f)) (4 + length (f_payload f) + n)%nat.
  read_field (to_be_bytes 4 (payload_len f)) (length (f_payload f) + n)%nat.
  rewrite payload_len_be, request_id_be by done.
  rewrite decide_False by (destruct Hok; lia).
  read_field (f_payload f) n.
  eexists; by destruct f.
Qed.

(** C16. The supervisor's wire format round-trips through a socket that cuts the
    stream into arbitrary pieces.  A stream that starts with a frame's bytes is
    read as exactly that frame, and nothing after it is consumed, whenever no
    limit stops the read and the socket delivers often enough.  Conversely a
    frame that is returned is what the stream started with: magic, version and
    kind were right, its direction is the expected one, its identifier fits 64
    bits and its payload is at most 1 MiB. *)
Theorem frame_roundtrip (l : limits) (d : frame_direction) (f : supervisor_frame)
    (rest : list Z) (turns : list read_turn) (s s' : incoming) :
  (frame_ok f -> direction (f_kind f) = d -> Forall (delivers l) turns ->
   (length (frame_bytes f) <= data_turns turns)%nat ->
   exists turns', read_frame_with_deadline d l (Incoming (frame_bytes f ++ rest) turns)
                  = Some (Ok f, Incoming rest turns')) /\
  (Forall is_u8 (in_bytes s) -> read_frame_with_deadline d l s = Some (Ok f, s') ->
   in_bytes s = frame_bytes f ++ in_bytes s' /\ frame_ok f /\ direction (f_kind f) = d).
Proof.
  split; [|apply read_frame_sound].
  intros Hok <- Hf Hn; rewrite length_frame_bytes in Hn; unfold read_frame_with_deadline, frame_bytes.
  rewrite <- !app_assoc; 
  unfold SUPERVISOR_HEADER_LEN in Hn; read_field SUPERVISOR_MAGIC (14 + length (f_payload f))%nat.
  by apply (read_magic_complete l f rest _ 0); [| |lia].
Qed.

Lemma frame_roundtrip_witness :
  let f := SupervisorFrame KCancel 258 [34; 117] in
  let l := Limits (Some 1000) true in
  let o := IoProbe false 999 in
  let retry := ReadTurn o (Ok ()) (RError (IoError WouldBlock "")) o in
  let data := ReadTurn o (Ok ()) (RData 0) o in
  (exists turns', read_frame_with_deadline ParentToChild l
     (Incoming (frame_bytes f ++ [76]) (retry :: replicate 20 data)) = Some (Ok f, Incoming [76] turns'))
  /\ frame_bytes f = [76; 68; 83; 86; 2; 3; 0; 0; 0; 0; 0; 0; 1; 2; 0; 0; 0; 2; 34; 117].
Proof.
  split; [|by vm_compute].
  apply (frame_roundtrip (Limits (Some 1000) true) ParentToChild
           (SupervisorFrame KCancel 258 [34; 117]) [76] _ (Incoming [] []) (Incoming [] []));
    [split; vm_compute; intuition congruence|done| |vm_compute; lia].
  apply Forall_cons; split; [vm_compute; tauto|].
  apply Forall_replicate; vm_compute; tauto.
Defined.

(** ** Reading under limits *)

(** A turn at which the loop gives up. *)
Definition stops (l : limits) (t : read_turn) : Prop :=
  cancel_seen l (r_before t) = true \/ read_past_deadline l (o_now (r_before t)) = true.

(** A reader that cannot outlive a turn that satisfies [P]. *)
Definition bounded_reader {A} (P : read_turn -> Prop) (m : reader A) : Prop :=
  forall s, Exists P (in_turns s) ->
  exists r s', m s = Some (r, s') /\ (is_ok r = true -> Exists P (in_turns s')).

Section Bounded.
Context (P : read_turn -> Prop) (l : limits) (P_stops : forall t, P t -> stops l t).

Lemma bounded_read_until (want : nat) : bounded_reader P (read_until want l).
Proof using P_stops.
  intros [bytes turns] H; unfold read_until; simpl in H |- *; generalize (@nil Z) as got.
  revert bytes want H; induction turns as [|t turns IH]; intros bytes want H got;
    [by apply Exists_nil in H|].
  destruct want as [|want]; [by eexists _, _|]; cbn [read_loop].
  destruct (cancel_seen l (r_before t)) eqn:Hc; [by eexists _, _|].
  destruct (read_past_deadline l (o_now (r_before t))) eqn:Hd; [by eexists _, _|].
  apply Exists_cons in H as [[?|?]%P_stops|H]; [congruence|congruence|].
  repeat (destr_match; try (by eexists _, _); eauto).
Qed.

Lemma bounded_rbind {A B} (m : reader A) (k : A -> reader B) :
  bounded_reader P m -> (forall a, bounded_reader P (k a)) -> bounded_reader P (rbind m k).
Proof.
  intros Hm Hk s H; destruct (Hm s H) as ([a|e] & s1 & E & H1); unfold rbind; rewrite E.
  - by apply Hk, H1.
  - by eexists _, _.
Qed.

Lemma bounded_rret {A} (r : result A io_error) : bounded_reader P (rret r).
Proof. intros s H; by eexists _, _. Qed.

Lemma bounded_magic (d : frame_direction) (magic : list Z) :
  bounded_reader P (read_frame_with_magic d magic l).
Proof using P_stops.
  unfold read_frame_with_magic.
  repeat first [ apply bounded_rret | apply bounded_rbind; [apply bounded_read_until || apply bounded_rret|intros ?]
               | destr_match | case_decide ].
Qed.
End Bounded.

Lemma bounded_returns {A} (P : read_turn -> Prop) (m : reader A) (s : incoming) :
  bounded_reader P m -> Exists P (in_turns s) -> exists r s', m s = Some (r, s').
Proof. intros H Hs; destruct (H s Hs) as (r & s' & E & _); eauto. Qed.

(** Waiting for a frame ends.  As soon as the script holds an iteration at
    which the cancellation flag is set or the deadline has passed, however late
    and whatever the peer sends before, the read returns; met at the next
    iteration it stops the read with the matching error and no byte is
    consumed.  The reader whose first byte has a deadline of its own ends at a
    cancellation, and the read of a duplicate terminal at its deadline. *)
Theorem frame_read_bounded (d : frame_direction) (l : limits) (s : incoming) (t : read_turn)
    (first assembly : option Z) (started deadline : Z) :
  (Exists (stops l) (in_turns s) -> exists r s', read_frame_with_deadline d l s = Some (r, s')) /\
  (stops l t ->
   read_frame_with_deadline d l (Incoming (in_bytes s) (t :: in_turns s))
   = Some (Err (if cancel_seen l (r_before t) then frame_cancel_error else frame_deadline_error), s)) /\
  (Exists (fun t => o_cancelled (r_before t) = true) (in_turns s) ->
   exists r s', read_frame_after_first_byte d first assembly true started s = Some (r, s')) /\
  (Exists (stops (Limits (Some deadline) false)) (in_turns s) ->
   exists r s', read_optional_frame_until d deadline s = Some (r, s')).
Proof.
  split_and!.
  - apply bounded_returns, bounded_rbind; [by apply bounded_read_until|intros m; by apply bounded_magic].
  - intros H; unfold read_frame_with_deadline, rbind, read_until; destruct s; simpl.
    destruct (cancel_seen l (r_before t)) eqn:E; [done|].
    destruct H as [H| ->]; [congruence|done].
  - assert (forall dl t, o_cancelled (r_before t) = true -> stops (Limits dl true) t) as Hc by (by left).
    apply bounded_returns, bounded_rbind; [apply bounded_read_until; eauto|intros m; cbv zeta].
    apply bounded_rbind; [apply bounded_read_until; eauto|intros m'; apply bounded_magic; eauto].
  - intros H; unfold read_optional_frame_until; cbv zeta.
    set (P := stops (Limits (Some deadline) false)) in *.
    destruct (bounded_read_until P (Limits (Some deadline) false) (fun _ H => H) 1 s H)
      as ([v|e] & s1 & -> & H1); [|case_match; eauto].
    destruct (bounded_read_until P (Limits (Some deadline) false) (fun _ H => H) 3 s1 (H1 eq_refl))
      as ([v'|e] & s2 & -> & H2); [|eauto].
    destruct (bounded_magic P (Limits (Some deadline) false) (fun _ H => H) d (v ++ v') s2 (H2 eq_refl))
      as ([f|e] & s3 & -> & _); eauto.
Qed.

Lemma frame_read_bounded_witness :
  let o := IoProbe false 5 in
  let data := ReadTurn o (Ok ()) (RData 3) o in
  let late := ReadTurn (IoProbe false 10) (Ok ()) (RData 9) o in
  exists r s', read_frame_with_deadline ChildToParent (Limits (Some 10) false)
                 (Incoming [76; 68; 83; 86; 2] [data; late]) = Some (r, s').
Proof.
  apply (frame_read_bounded ChildToParent (Limits (Some 10) false)
    (Incoming [76; 68; 83; 86; 2] [ReadTurn (IoProbe false 5) (Ok ()) (RData 3) (IoProbe false 5);
       ReadTurn (IoProbe false 10) (Ok ()) (RData 9) (IoProbe false 5)])
    (ReadTurn (IoProbe false 10) (Ok ()) (RData 9) (IoProbe false 5)) None None 0 0).
  apply Exists_cons_tl, Exists_cons_hd; right; reflexivity.
Defined.

(** ** Duplicate terminals *)
Lemma truncated_duplicate_kind (e : io_error) : eof_or_timeout (truncated_duplicate e) = false.
Proof.
  unfold truncated_duplicate; destruct (eof_or_timeout e) eqn:E; [done|exact E].
Qed.

(** After a terminal the parent tells apart a closed or silent stream from a
    broken duplicate: "nothing" is reported only if not a single byte was
    consumed; a frame is reported only if the stream held exactly it; and a
    frame that breaks off in the middle is refused, never taken for the end of
    the stream or for a timeout. *)
Theorem optional_frame_spec (d : frame_direction) (deadline : Z) (s s' : incoming) :
  (read_optional_frame_until d deadline s = Some (Ok None, s') -> in_bytes s' = in_bytes s) /\
  (forall f, Forall is_u8 (in_bytes s) ->
   read_optional_frame_until d deadline s = Some (Ok (Some f), s') ->
   in_bytes s = frame_bytes f ++ in_bytes s' /\ frame_ok f /\ direction (f_kind f) = d) /\
  (forall e, read_optional_frame_until d deadline s = Some (Err e, s') -> eof_or_timeout e = false).
Proof.
  unfold read_optional_frame_until; split_and!; [intros H|intros f Hu H|intros e H].
  - destruct (read_until 1 _ s) as [[[v|e] s1]|] eqn:E1; [|destruct (eof_or_timeout e)|done].
    + repeat destr_match.
    + simplify_eq. apply read_loop_bytes in E1 as ([|] & -> & Hl); [done|simpl in Hl; lia].
    + done.
  - destruct (read_until 1 _ s) as [[[v|e] s1]|] eqn:E1; [|by destruct (eof_or_timeout e)|done].
    destruct (read_until 3 _ s1) as [[[v'|e] s2]|] eqn:E2; [|done|done].
    destruct (read_frame_with_magic _ _ _ s2) as [[[f'|e] s3]|] eqn:E3; simplify_eq.
    apply read_until_ok in E1 as [_ E1], E2 as [_ E2]; rewrite E1, E2 in *.
    apply Forall_app_r, Forall_app_r in Hu; apply read_magic_sound in E3; [|done].
    by rewrite app_assoc.
  - destruct (read_until 1 _ s) as [[[v|e1] s1]|] eqn:E1; [|destruct (eof_or_timeout e1) eqn:K; by simplify_eq|done].
    destruct (read_until 3 _ s1) as [[[v'|e2] s2]|] eqn:E2; [| |done].
    + destruct (read_frame_with_magic _ _ _ s2) as [[[f'|e3] s3]|] eqn:E3; simplify_eq.
      apply truncated_duplicate_kind.
    + simplify_eq; apply truncated_duplicate_kind.
Qed.

Lemma optional_frame_spec_witness :
  let l := Limits (Some 10) false in
  let data := ReadTurn (IoProbe false 5) (Ok ()) (RData 3) (IoProbe false 5) in
  let s := Incoming [76; 68] [data; data; data] in
  exists e s', read_optional_frame_until ChildToParent 10 s = Some (Err e, s')
    /\ eof_or_timeout e = false /\ e = invalid_data "truncated duplicate supervisor frame".
Proof.
  eexists _, _; split_and!; [reflexivity| |reflexivity].
  eapply (optional_frame_spec ChildToParent 10
    (Incoming [76; 68] (replicate 3 (ReadTurn (IoProbe false 5) (Ok ()) (RData 3) (IoProbe false 5)))));
  reflexivity.
Defined.

(** ** Writing *)
Section WriteSpec.
Context (raw : Z -> io_error).

Lemma write_loop_prefix (fuel : nat) (l : limits) (last : io_probe) (turns turns' : list write_turn)
    (bytes sent sent' : list Z) (r : result unit io_error) :
  write_loop raw fuel l last turns bytes sent = Some (r, sent', turns') ->
  exists done_ rest, bytes = done_ ++ rest /\ sent' = sent ++ done_ /\ (is_ok r = true -> rest = []).
Proof.
  revert turns bytes sent; induction fuel as [|fuel IH]; intros turns [|b bytes] sent H; cbn [write_loop] in H.
  1, 3: simplify_eq; exists [], []; by rewrite !app_nil_r.
  - done.
  - assert (forall e, r = Err e -> sent' = sent ->
              exists done_ rest, b :: bytes = done_ ++ rest /\ sent' = sent ++ done_ /\ (is_ok r = true -> rest = []))
      as Hstop by (intros e -> ->; exists [], (b :: bytes); rewrite app_nil_r; done).
    destruct turns as [|t turns]; [done|].
    destruct (check_write_conditions l (w_before t)) as [[]|e]; [|simplify_eq; eauto].
    destruct (w_send t) as [[|count]|e]; [simplify_eq; eauto| |].
    + assert (b :: bytes = take (S count) (b :: bytes) ++ drop (S count) (b :: bytes)) as E
        by (by rewrite take_drop).
      destruct (check_write_conditions l (w_after t)) as [[]|e].
      * apply IH in H as (d & rest & Hd & -> & Hr).
        exists (take (S count) (b :: bytes) ++ d), rest; split_and!; [|by rewrite app_assoc|done].
        by rewrite <- app_assoc, <- Hd.
      * simplify_eq; by exists (take (S count) (b :: bytes)), (drop (S count) (b :: bytes)).
    + destruct (kind_is e Interrupted); [eauto|].
      destruct (kind_is e WouldBlock); [|simplify_eq; eauto].
      destruct (poll_writable raw l turns) as [[[[]|e'] turns1]|]; [eauto|simplify_eq; eauto|done].
Qed.

(** A turn at which the writer gives up. *)
Definition write_stops (l : limits) (t : write_turn) : Prop :=
  is_ok (check_write_conditions l (w_before t)) = false.

Lemma poll_writable_bounded (l : limits) (turns : list write_turn) :
  Exists (write_stops l) turns ->
  exists r turns', poll_writable raw l turns = Some (r, turns') /\ (length turns' <= length turns)%nat /\
    (is_ok r = true -> Exists (write_stops l) turns').
Proof.
  induction turns as [|t turns IH]; [by intros ?%Exists_nil|]; cbn [poll_writable]; intros H.
  assert (exists e, check_write_conditions l (w_before t) = Err e \/ Exists (write_stops l) turns) as He.
  { apply Exists_cons in H as [H|H]; [|by exists frame_deadline_error; right].
    unfold write_stops in H; destruct (check_write_conditions _ _) as [|e]; [done|by exists e; left]. }
  destruct (check_write_conditions l (w_before t)) as [[]|e] eqn:Ec;
    [|eexists _, _; split_and!; [done|simpl; lia|done]].
  destruct He as (e & [?|Hr]); [done|].
  destruct (IH Hr) as (r & ts & E & Hl & Ho).
  repeat (destr_match; try (eexists _, _; split_and!; [done|simpl; lia|done]));
    rewrite ?E; eexists _, _; split_and!; (done || (simpl; lia)).
Qed.

Lemma write_loop_bounded (fuel : nat) (l : limits) (last : io_probe) (turns : list write_turn)
    (bytes sent : list Z) :
  (length turns < fuel)%nat -> Exists (write_stops l) turns ->
  exists r sent' turns', write_loop raw fuel l last turns bytes sent = Some (r, sent', turns') /\
    (is_ok r = true -> Exists (write_stops l) turns').
Proof.
  revert turns bytes sent; induction fuel as [|fuel IH]; intros turns bytes sent Hf H; [lia|].
  destruct bytes as [|b bytes]; cbn [write_loop]; [by eexists _, _, _|].
  destruct turns as [|t turns]; [by apply Exists_nil in H|]; simpl in Hf.
  destruct (check_write_conditions l (w_before t)) as [[]|e] eqn:Ec; [|by eexists _, _, _].
  apply Exists_cons in H as [H|H]; [unfold write_stops in H; by rewrite Ec in H|].
  destruct (w_send t) as [[|count]|e]; [by eexists _, _, _| |].
  - destruct (check_write_conditions l (w_after t)) as [[]|e]; [apply IH; [lia|done]|by eexists _, _, _].
  - destruct (kind_is e Interrupted); [apply IH; [lia|done]|].
    destruct (kind_is e WouldBlock); [|by eexists _, _, _].
    destruct (poll_writable_bounded l turns H) as ([[]|e'] & ts & -> & Hl & Ho);
      [apply IH; [lia|by apply Ho]|by eexists _, _, _].
Qed.
End WriteSpec.

Lemma encode_header_ok (f : supervisor_frame) :
  payload_len f <= MAX_SUPERVISOR_FRAME_PAYLOAD ->
  exists header, encode_header f = Ok header /\ frame_bytes f = header ++ f_payload f.
Proof.
  intros H; unfold encode_header; rewrite decide_False.
  - eexists; split; [done|]; unfold frame_bytes; by rewrite <- !app_assoc.
  - cut (MAX_SUPERVISOR_FRAME_PAYLOAD <= u32_max); [lia|by vm_compute].
Qed.

Lemma write_frame_sound (raw : Z -> io_error) (f : supervisor_frame) (l : limits)
    (last1 last2 : io_probe) (turns : list write_turn) (w : written) :
  write_frame_until raw f l last1 last2 turns = Some w ->
  (exists rest, frame_bytes f = wr_sent w ++ rest /\ (is_ok (wr_result w) = true -> rest = [])) /\
  (wr_shutdown w = negb (is_ok (wr_result w)) \/
   payload_len f > MAX_SUPERVISOR_FRAME_PAYLOAD /\ wr_sent w = [] /\ is_ok (wr_result w) = false).
Proof.
  unfold write_frame_until; case_decide as Hlen.
  { intros Hw; simplify_eq/=; split; [|by right]. by exists (frame_bytes f). }
  destruct (encode_header_ok f) as (header & -> & ->); [lia|]; intros H.
  destruct (write_until raw l last1 turns header) as [[[[[]|e] s1] t1]|] eqn:E1; [| |done];
    apply write_loop_prefix in E1 as (d1 & r1 & -> & -> & H1); cbn [app] in *.
  - rewrite (H1 eq_refl), app_nil_r in *.
    destruct (write_until raw l last2 t1 (f_payload f)) as [[[r s2] t2]|] eqn:E2; simplify_eq/=.
    apply write_loop_prefix in E2 as (d2 & r2 & -> & -> & H2); cbn [app] in *.
    split; [|by left]. exists r2; split; [by rewrite app_assoc|done].
  - simplify_eq/=; split; [|by left]. exists (r1 ++ f_payload f); by rewrite app_assoc.
Qed.

Lemma write_frame_returns (raw : Z -> io_error) (f : supervisor_frame) (l : limits)
    (last1 last2 : io_probe) (turns : list write_turn) :
  Exists (write_stops l) turns -> exists w, write_frame_until raw f l last1 last2 turns = Some w.
Proof.
  intros H; unfold write_frame_until, write_until; case_decide as Hlen; [eauto|].
  destruct (encode_header_ok f) as (header & -> & _); [lia|].
  destruct (write_loop_bounded raw (S (length turns)) l last1 turns header [])
    as ([[]|e] & s1 & t1 & -> & Ho); [lia|done| |eauto].
  destruct (write_loop_bounded raw (S (length t1)) l last2 t1 (f_payload f) [])
    as (r & s2 & t2 & -> & _); [lia|by apply Ho|]; eauto.
Qed.

(** C17. Writing a frame is all or nothing for the peer: success means that
    exactly the frame's bytes were sent and the socket stays open; every failure
    after the size check shuts the socket down in both directions with a prefix
    of the frame on the wire, so no later frame can follow a torn one; an
    oversized payload is refused before anything is sent; and the write ends
    once an iteration finds the cancellation flag set or the deadline passed,
    also while it waits for the socket to become writable. *)
Theorem write_frame_spec (raw : Z -> io_error) (f : supervisor_frame) (l : limits)
    (last1 last2 : io_probe) (turns : list write_turn) :
  (forall w, write_frame_until raw f l last1 last2 turns = Some w ->
   (exists rest, frame_bytes f = wr_sent w ++ rest /\ (is_ok (wr_result w) = true -> rest = [])) /\
   (wr_shutdown w = negb (is_ok (wr_result w)) \/
    payload_len f > MAX_SUPERVISOR_FRAME_PAYLOAD /\ wr_sent w = [] /\ is_ok (wr_result w) = false)) /\
  (Exists (write_stops l) turns ->
   exists w, write_frame_until raw f l last1 last2 turns = Some w).
Proof.
  split; [intros w; apply write_frame_sound|apply write_frame_returns].
Qed.

Lemma write_frame_spec_witness :
  let f := SupervisorFrame KStart 7 [] in
  let ok := IoProbe false 0 in
  let l := Limits (Some 10) true in
  let full := WriteTurn ok 0 (SendError (IoError WouldBlock "")) PollTimeout ok in
  let torn := WriteTurn ok 0 (Sent 5) PollTimeout ok in
  let stop := WriteTurn (IoProbe true 3) 3 (Sent 99) PollTimeout ok in
  (exists w, write_frame_until (fun _ => IoError OtherKind "") f l ok ok [torn; full; full; stop] = Some w) /\
  write_frame_until (fun _ => IoError OtherKind "") f l ok ok [torn; full; full; stop]
  = Some (Written (Err frame_cancel_error) [76; 68; 83; 86; 2] true).
Proof.
  split; [|by vm_compute].
  apply write_frame_spec; do 3 apply Exists_cons_tl; apply Exists_cons_hd; reflexivity.
Defined.

Lemma poll_timeout_ms_spec (d : Z) :
  0 <= d ->
  let r := duration_to_poll_timeout_ms d in
  0 <= r <= i32_max /\ (r = 0 <-> d = 0) /\ (r - 1) * 10 ^ 6 < d /\ (r < i32_max -> d <= r * 10 ^ 6).
Proof.
  intros Hd r; unfold r, duration_to_poll_timeout_ms, i32_max.
  replace (10 ^ 9) with (1000000 * 1000) by lia; change (10 ^ 6) with 1000000.
  assert ((d mod (1000000 * 1000)) mod 1000000 = d mod 1000000) as ->.
  { rewrite Z.rem_mul_r, (Z.mul_comm 1000000 (_ mod 1000)), Z.mod_add, Z.mod_mod by lia; done. }
  pose proof (Z.div_mod d 1000000 ltac:(lia)); pose proof (Z.mod_pos_bound d 1000000 ltac:(lia)).
  pose proof (Z.div_pos d 1000000 Hd ltac:(lia)).
  destruct (Z.eqb_spec (d mod 1000000) 0); simpl Z.b2z; split_and!; lia.
Qed.

(** The millisecond timeout of a poll never ends early: it covers the whole
    wait unless it is capped at [i32::MAX], exceeds the remaining time by less
    than a millisecond, is zero exactly when no time remains, and is infinite
    exactly when there is neither a deadline nor a cancellation to watch; with a
    cancellation to watch it is at most 10 ms. *)
Theorem poll_timeout_bounds (l : limits) (t : write_turn) :
  (poll_timeout l t = -1 <-> l_deadline l = None /\ l_cancellation l = false) /\
  (l_cancellation l = true -> poll_timeout l t <= 10) /\
  (forall at_, l_deadline l = Some at_ ->
   let remaining := duration_since at_ (w_wait_from t) in
   0 <= poll_timeout l t <= i32_max /\ (poll_timeout l t = 0 <-> remaining = 0) /\
   (poll_timeout l t - 1) * 10 ^ 6 < remaining /\
   (l_cancellation l = false -> poll_timeout l t < i32_max -> remaining <= poll_timeout l t * 10 ^ 6)).
Proof.
  unfold poll_timeout, poll_wait; destruct l as [[at_|] [|]]; simpl;
    try (set (rem := duration_since at_ (w_wait_from t));
         assert (0 <= rem) as Hrem by (unfold rem, duration_since; lia)).
  - destruct (poll_timeout_ms_spec (Z.min rem (from_millis 10))) as (R & Z0 & U & L); [unfold from_millis; lia|].
    unfold from_millis in *; split; [split; [lia|by intros [? _]]|]; split; [unfold i32_max in *; lia|].
    intros ? [= <-]; fold rem; split_and!; [lia|lia|rewrite Z0; lia|lia|done].
  - destruct (poll_timeout_ms_spec rem) as (R & Z0 & U & L); [done|].
    split; [split; [lia|by intros [? _]]|]; split; [done|].
    intros ? [= <-]; fold rem; split_and!; [lia|lia|exact Z0|lia|auto].
  - split; [split; [done|by intros [_ ?]]|]; split; [by vm_compute|done].
  - done.
Qed.

Lemma poll_timeout_bounds_witness :
  let t := WriteTurn (IoProbe false 0) 1500001 (Sent 1) PollTimeout (IoProbe false 0) in
  poll_timeout (Limits (Some 4000000) true) t <= 10 /\ poll_timeout (Limits (Some 4000000) true) t = 3.
Proof.
  split; [|by vm_compute].
  apply (poll_timeout_bounds (Limits (Some 4000000) true)); reflexivity.
Defined.
