(* ===== verification/Session.v ===== *)
(** * Session: the supervisor protocol's two state machines.

    Models the session half of [src/supervisor.rs]: what a terminal may carry,
    [SupervisorParentSession] and [SupervisorChildSession].  JSON is outside
    the repository: [from_slice] and [to_vec] of serde_json are parameters. *)
From S2P Require Import Prelude Errors Cancel Options Execution Token Frame.
Open Scope Z_scope.

Inductive supervisor_outcome := OCompleted | OFailed | OCancelled | ODeadline.

#[export] Instance supervisor_outcome_eq_dec : EqDecision supervisor_outcome.
Proof. solve_decision. Defined.
#[export] Instance cancel_reason_eq_dec' : EqDecision cancel_reason.
Proof. solve_decision. Defined.
#[export] Instance failure_category_eq_dec' : EqDecision failure_category.
Proof. solve_decision. Defined.

Record supervisor_terminal := SupervisorTerminal {
  st_outcome : supervisor_outcome;
  st_exit_code : option Z;
  st_category : option failure_category;
  st_stdout : list Z;
  st_stderr : list Z;
  st_truncated : bool
}.

#[export] Instance supervisor_terminal_eq_dec : EqDecision supervisor_terminal.
Proof. solve_decision. Defined.

Definition is_some {A} (o : option A) : bool := match o with Some _ => true | None => false end.

Definition terminal_fields_valid (t : supervisor_terminal) : bool :=
  match st_outcome t with
  | OCompleted => is_some (st_exit_code t) && negb (is_some (st_category t))
  | OFailed =>
      negb (is_some (st_exit_code t)) &&
      match st_category t with
      | Some (CatPermission | CatRuntime | CatInfrastructure) => true
      | _ => false
      end
  | OCancelled | ODeadline => negb (is_some (st_exit_code t)) && negb (is_some (st_category t))
  end.

Definition validate_supervisor_terminal_shape (t : supervisor_terminal) : result unit io_error :=
  if negb (terminal_fields_valid t)
  then Err (invalid_data "invalid supervisor TERMINAL result fields")
  else if negb (bool_decide (st_stdout t = [])) || negb (bool_decide (st_stderr t = []))
          || st_truncated t
  then Err (invalid_data "supervisor v2 TERMINAL must not carry output")
  else Ok ().

Inductive parent_state :=
| PAwaitHello | PAwaitAccepted | PAccepted | PAwaitStarted | PStarted
| PCancellingBeforeAccepted | PCancellingBeforeStart | PCancelling | PTerminal.
Inductive child_state := CAwaitRequest | CAwaitStart | CStarted | CCancelling | CTerminal.
Inductive frame_event := EvAccepted | EvStarted | EvTerminal.

#[export] Instance parent_state_eq_dec : EqDecision parent_state.
Proof. solve_decision. Defined.
#[export] Instance child_state_eq_dec : EqDecision child_state.
Proof. solve_decision. Defined.

Record parent_session := ParentSession {
  ps_request_id : Z;
  ps_state : parent_state;
  ps_request_sent : bool;
  ps_cancel_sent : bool;
  ps_started_received : bool;
  ps_cancel_reason : option cancel_reason;
  ps_terminal : option supervisor_terminal
}.

Record child_session := ChildSession {
  cs_request_id : option Z;
  cs_state : child_state;
  cs_cancel_reason : option cancel_reason;
  cs_terminal : option supervisor_terminal
}.

(** ** Payloads: [encode_payload] and [decode_payload]. *)
Section Payload.
Context {T : Type} (to_vec : T -> result (list Z) string) (from_slice : list Z -> result T string).

Definition encode_payload (value : T) : result (list Z) io_error :=
  let? payload := map_err (fun e => invalid_data ("invalid supervisor payload: " +:+ e)) (to_vec value) in
  if decide (Z.of_nat (length payload) > MAX_SUPERVISOR_FRAME_PAYLOAD)
  then Err (invalid_data "supervisor payload is too large")
  else Ok payload.

Definition decode_payload (payload : list Z) : result T io_error :=
  if decide (Z.of_nat (length payload) > MAX_SUPERVISOR_FRAME_PAYLOAD)
  then Err (invalid_data "supervisor payload is too large")
  else map_err (fun e => invalid_data ("invalid supervisor payload: " +:+ e)) (from_slice payload).
End Payload.

(** ** The parent *)
Definition parent_new (request_id : Z) : parent_session :=
  ParentSession request_id PAwaitHello false false false None None.

Definition cancellation_before_terminal (p : parent_session) : option cancel_reason :=
  match ps_terminal p with Some _ => ps_cancel_reason p | None => None end.

Definition with_state (s : parent_state) (p : parent_session) : parent_session :=
  ParentSession (ps_request_id p) s (ps_request_sent p) (ps_cancel_sent p)
    (ps_started_received p) (ps_cancel_reason p) (ps_terminal p).
Definition with_request_sent (p : parent_session) : parent_session :=
  ParentSession (ps_request_id p) (ps_state p) true (ps_cancel_sent p)
    (ps_started_received p) (ps_cancel_reason p) (ps_terminal p).
Definition with_cancel_sent (p : parent_session) : parent_session :=
  ParentSession (ps_request_id p) (ps_state p) (ps_request_sent p) true
    (ps_started_received p) (ps_cancel_reason p) (ps_terminal p).
Definition with_started (p : parent_session) : parent_session :=
  ParentSession (ps_request_id p) (ps_state p) (ps_request_sent p) (ps_cancel_sent p)
    true (ps_cancel_reason p) (ps_terminal p).
Definition with_reason (r : cancel_reason) (p : parent_session) : parent_session :=
  ParentSession (ps_request_id p) (ps_state p) (ps_request_sent p) (ps_cancel_sent p)
    (ps_started_received p) (Some r) (ps_terminal p).
Definition with_terminal (t : supervisor_terminal) (p : parent_session) : parent_session :=
  ParentSession (ps_request_id p) PTerminal (ps_request_sent p) (ps_cancel_sent p)
    (ps_started_received p) (ps_cancel_reason p) (Some t).

Definition accept_hello (p : parent_session) (f : supervisor_frame) (token : supervisor_token)
  : result unit io_error * parent_session :=
  if negb (bool_decide (ps_state p = PAwaitHello)) || negb (bool_decide (f_kind f = KHello))
     || negb (Z.eqb (f_request_id f) 0) || negb (authenticate token (f_payload f))
  then (Err (invalid_data "invalid supervisor HELLO"), p)
  else (Ok (), with_state PAwaitAccepted p).

Definition send_request (p : parent_session) : result unit io_error * parent_session :=
  if bool_decide (ps_state p = PAwaitAccepted) && negb (ps_request_sent p)
  then (Ok (), with_request_sent p)
  else (Err (invalid_data "supervisor REQUEST is out of order"), p).

Definition send_cancel (p : parent_session) (reason : cancel_reason)
  : result bool io_error * parent_session :=
  match ps_cancel_reason p with
  | Some previous =>
      if negb (bool_decide (previous = reason))
      then (Err (invalid_data "conflicting supervisor cancellation reason"), p)
      else if bool_decide (ps_state p = PTerminal) || ps_cancel_sent p then (Ok false, p)
      else (Ok true, with_cancel_sent p)
  | None =>
      let record p := (Ok true, with_cancel_sent (with_reason reason p)) in
      match ps_state p with
      | PAwaitAccepted => record (with_state PCancellingBeforeAccepted p)
      | PAccepted => record (with_state PCancellingBeforeStart p)
      | PAwaitStarted | PStarted => record (with_state PCancelling p)
      | PCancellingBeforeAccepted | PCancellingBeforeStart | PCancelling => record p
      | PTerminal => (Ok false, p)
      | PAwaitHello => (Err (invalid_data "supervisor CANCEL is out of order"), p)
      end
  end.

(** [requested] is [cancellation.requested_reason()]. *)
Definition authorize_start (p : parent_session) (requested : option cancel_reason)
  : result bool io_error * parent_session :=
  if negb (bool_decide (ps_state p = PAccepted))
  then (Err (invalid_data "supervisor START is out of order"), p)
  else
    match requested with
    | Some reason => (Ok false, with_reason reason (with_state PCancellingBeforeStart p))
    | None => (Ok true, with_state PAwaitStarted p)
    end.

(** The outcome a terminal must have after a cancellation that won before
    START. *)
Definition expected_outcome (reason : cancel_reason) : supervisor_outcome :=
  match reason with Deadline => ODeadline | User | Shutdown => OCancelled end.

Section Parent.
Context (from_slice : list Z -> result supervisor_terminal string).

Definition receive_terminal (p : parent_session) (f : supervisor_frame)
  : result frame_event io_error * parent_session :=
  let checked :=
    let? t := decode_payload from_slice (f_payload f) in
    let? _ := validate_supervisor_terminal_shape t in
    Ok t in
  match checked with
  | Err e => (Err e, p)
  | Ok t =>
      match ps_terminal p with
      | Some previous =>
          if bool_decide (previous = t) then (Ok EvTerminal, p)
          else (Err (invalid_data "conflicting supervisor TERMINAL frames"), p)
      | None =>
          let outcome_ok :=
            if bool_decide (ps_state p = PCancellingBeforeStart) then
              match ps_cancel_reason p with
              | None => Err (invalid_data "pre-start supervisor cancellation has no reason")
              | Some reason =>
                  if bool_decide (st_outcome t = expected_outcome reason) then Ok ()
                  else Err (invalid_data "pre-start supervisor cancellation has an invalid outcome")
              end
            else Ok () in
          match outcome_ok with
          | Err e => (Err e, p)
          | Ok _ =>
              match ps_state p with
              | PStarted | PCancellingBeforeStart | PCancelling => (Ok EvTerminal, with_terminal t p)
              | _ => (Err (invalid_data "supervisor TERMINAL is out of order"), p)
              end
          end
      end
  end.

Definition receive_child_frame (p : parent_session) (f : supervisor_frame)
  : result frame_event io_error * parent_session :=
  if negb (Z.eqb (f_request_id f) (ps_request_id p))
     && negb (bool_decide (f_kind f = KHello) && Z.eqb (f_request_id f) 0)
  then (Err (invalid_data "supervisor request ID mismatch"), p)
  else
    match f_kind f, f_payload f with
    | KAccepted, [] =>
        match ps_state p with
        | PAwaitAccepted => (Ok EvAccepted, with_state PAccepted p)
        | PCancellingBeforeAccepted => (Ok EvAccepted, with_state PCancellingBeforeStart p)
        | _ => (Err (invalid_data "duplicate or out-of-order supervisor ACCEPTED"), p)
        end
    | KStarted, [] =>
        match ps_state p with
        | PAwaitStarted => (Ok EvStarted, with_state PStarted (with_started p))
        | PCancelling =>
            if negb (ps_started_received p) then (Ok EvStarted, with_started p)
            else (Err (invalid_data "duplicate or out-of-order supervisor STARTED"), p)
        | _ => (Err (invalid_data "duplicate or out-of-order supervisor STARTED"), p)
        end
    | KTerminal, _ => receive_terminal p f
    | _, _ => (Err (invalid_data "invalid supervisor child frame"), p)
    end.
End Parent.

(** ** The child *)
Definition child_new : child_session := ChildSession None CAwaitRequest None None.

Section Child.
Context (from_slice : list Z -> result cancel_reason string).

Definition receive_cancel (c : child_session) (f : supervisor_frame)
  : result (option frame_event) io_error * child_session :=
  match decode_payload from_slice (f_payload f) with
  | Err e => (Err e, c)
  | Ok reason =>
      match cs_cancel_reason c with
      | Some previous =>
          if negb (bool_decide (previous = reason))
          then (Err (invalid_data "conflicting supervisor cancellation reason"), c)
          else (Ok None, c)
      | None =>
          match cs_state c with
          | CAwaitStart | CStarted | CCancelling =>
              (Ok None, ChildSession (cs_request_id c) CCancelling (Some reason) (cs_terminal c))
          | _ => (Err (invalid_data "supervisor CANCEL is out of order"), c)
          end
      end
  end.

Definition receive_parent_frame (c : child_session) (f : supervisor_frame)
  : result (option frame_event) io_error * child_session :=
  if is_some_and (cs_request_id c) (fun request_id => negb (Z.eqb (f_request_id f) request_id))
  then (Err (invalid_data "supervisor request ID mismatch"), c)
  else
    match f_kind f, cs_state c, f_payload f with
    | KRequest, CAwaitRequest, _ =>
        if Z.eqb (f_request_id f) 0
        then (Err (invalid_data "invalid supervisor request ID"), c)
        else (Ok None, ChildSession (Some (f_request_id f)) CAwaitStart (cs_cancel_reason c) (cs_terminal c))
    | KStart, CAwaitStart, [] =>
        (Ok (Some EvStarted), ChildSession (cs_request_id c) CStarted (cs_cancel_reason c) (cs_terminal c))
    | KCancel, _, _ => receive_cancel c f
    | _, _, _ => (Err (invalid_data "invalid supervisor parent frame"), c)
    end.
End Child.

Definition mark_terminal (c : child_session) (t : supervisor_terminal)
  : result bool io_error * child_session :=
  match validate_supervisor_terminal_shape t with
  | Err e => (Err e, c)
  | Ok _ =>
      match cs_terminal c with
      | Some previous =>
          if bool_decide (previous = t) then (Ok false, c)
          else (Err (invalid_data "conflicting supervisor TERMINAL frames"), c)
      | None =>
          match cs_state c with
          | CCancelling | CStarted =>
              (Ok true, ChildSession (cs_request_id c) CTerminal (cs_cancel_reason c) (Some t))
          | _ => (Err (invalid_data "supervisor TERMINAL is out of order"), c)
          end
      end
  end.

(** ** Shapes *)
Lemma shape_ok (t : supervisor_terminal) :
  validate_supervisor_terminal_shape t = Ok () <->
  terminal_fields_valid t = true /\ st_stdout t = [] /\ st_stderr t = [] /\ st_truncated t = false.
Proof.
  unfold validate_supervisor_terminal_shape.
  destruct (terminal_fields_valid t); simpl; [|split; [done|by intros [? _]]].
  repeat case_bool_decide; simpl; destruct (st_truncated t); naive_solver.
Qed.

(** ** Every history of one parent session, whatever the peer sends *)
Inductive parent_op :=
| OpHello (f : supervisor_frame) (token : supervisor_token)
| OpRequest
| OpCancel (reason : cancel_reason)
| OpAuthorize (requested : option cancel_reason)
| OpReceive (f : supervisor_frame).

Section ParentHistory.
Context (from_slice : list Z -> result supervisor_terminal string).

(** The session after an operation, and whether the operation was refused. *)
Definition parent_apply (p : parent_session) (op : parent_op) : bool * parent_session :=
  match op with
  | OpHello f token => let '(r, p') := accept_hello p f token in (is_ok r, p')
  | OpRequest => let '(r, p') := send_request p in (is_ok r, p')
  | OpCancel reason => let '(r, p') := send_cancel p reason in (is_ok r, p')
  | OpAuthorize requested => let '(r, p') := authorize_start p requested in (is_ok r, p')
  | OpReceive f => let '(r, p') := receive_child_frame from_slice p f in (is_ok r, p')
  end.

Definition parent_step (p p' : parent_session) : Prop :=
  exists op, parent_apply p op = (true, p').

Definition start_authorized (s : parent_state) : bool :=
  match s with PAwaitStarted | PStarted | PCancelling => true | _ => false end.
Definition cancelled_before_start (s : parent_state) : bool :=
  match s with PCancellingBeforeAccepted | PCancellingBeforeStart => true | _ => false end.

(** What holds of a session after any history. *)
Definition parent_inv (p : parent_session) : Prop :=
  (is_some (ps_terminal p) = bool_decide (ps_state p = PTerminal)) /\
  (forall t, ps_terminal p = Some t -> validate_supervisor_terminal_shape t = Ok ()) /\
  ((cancelled_before_start (ps_state p) = true \/ ps_state p = PCancelling) -> is_some (ps_cancel_reason p) = true) /\
  (match ps_state p with
   | PAwaitHello | PAwaitAccepted | PAccepted | PAwaitStarted | PStarted => ps_cancel_reason p = None
   | _ => True end) /\
  (match ps_state p with
   | PStarted => ps_started_received p = true
   | PCancelling | PTerminal => True
   | _ => ps_started_received p = false end) /\
  (ps_cancel_sent p = true -> is_some (ps_cancel_reason p) = true).

Lemma receive_terminal_cases (p : parent_session) (f : supervisor_frame) :
  (exists e, receive_terminal from_slice p f = (Err e, p)) \/
  (exists t, ps_terminal p = Some t /\ receive_terminal from_slice p f = (Ok EvTerminal, p)) \/
  (exists t, ps_terminal p = None /\ receive_terminal from_slice p f = (Ok EvTerminal, with_terminal t p) /\
     decode_payload from_slice (f_payload f) = Ok t /\
     validate_supervisor_terminal_shape t = Ok () /\
     (ps_state p = PStarted \/ ps_state p = PCancelling \/
      ps_state p = PCancellingBeforeStart /\
      exists r, ps_cancel_reason p = Some r /\ st_outcome t = expected_outcome r)).
Proof.
  unfold receive_terminal.
  destruct (decode_payload from_slice (f_payload f)) as [t|e]; [|by left; eauto].
  destruct (validate_supervisor_terminal_shape t) as [[]|e] eqn:Hv; [|by left; eauto].
  destruct (ps_terminal p) as [t0|]; [case_bool_decide; eauto|].
  case_bool_decide as Hb.
  - destruct (ps_cancel_reason p) as [r|] eqn:Hr; [|by left; eauto].
    case_bool_decide as Ho; [|by left; eauto]. rewrite Hb; right; right; eauto 12.
  - destruct (ps_state p) eqn:Hs; try (by left; eauto); right; right; eauto 12.
Qed.

(** One step keeps the invariant, keeps what is decided, and never reopens a
    session that was cancelled before START. *)
Definition parent_preserved (p p' : parent_session) : Prop :=
  ps_request_id p' = ps_request_id p /\
  (forall t, ps_terminal p = Some t -> ps_terminal p' = Some t /\ ps_cancel_reason p' = ps_cancel_reason p /\
     ps_started_received p' = ps_started_received p) /\
  (forall r, ps_cancel_reason p = Some r -> ps_cancel_reason p' = Some r) /\
  (cancelled_before_start (ps_state p) = true -> cancelled_before_start (ps_state p') = true \/
     ps_started_received p' = false /\
     exists r t, ps_cancel_reason p' = Some r /\ ps_terminal p' = Some t /\ st_outcome t = expected_outcome r) /\
  (ps_started_received p = true -> ps_started_received p' = true).

Ltac session_solve :=
  split_and!; intros;
  repeat match goal with
         | H : _ \/ _ |- _ => destruct H
         | H : exists _, _ |- _ => destruct H
         | H : forall t, Some ?x = Some t -> _ |- _ => specialize (H x eq_refl)
         end; simplify_eq/=; try done; try (by eauto 3); try (by right; eauto 8).

Lemma parent_step_inv (p p' : parent_session) :
  parent_inv p -> parent_step p p' -> parent_inv p' /\ parent_preserved p p'.
Proof.
  intros (I1 & I2 & I3 & I4 & I5 & I6) [op H]; unfold parent_inv, parent_preserved.
  destruct p as [id st rs cs sr cr tm]; simpl in I1, I2, I3, I4, I5, I6.
  assert (match st with PTerminal => is_some tm = true | _ => tm = None end) as I1'.
  { destruct st, tm; simpl in I1; try done; by vm_compute in I1. }
  clear I1; destruct op; cbn [parent_apply] in H.
  - unfold accept_hello in H; cbn [ps_state] in H.
    destruct st; try (by simpl in H); destruct (_ || _) in H; simplify_eq/=; session_solve.
  - unfold send_request in H; cbn [ps_state ps_request_sent] in H.
    destruct st, rs; simplify_eq/=; session_solve.
  - unfold send_cancel in H; cbn [ps_state ps_cancel_reason ps_cancel_sent] in H; destruct cr as [r0|].
    + case_bool_decide; simplify_eq/=; destruct st, cs; simplify_eq/=; session_solve.
    + destruct st, cs; simplify_eq/=; session_solve.
  - unfold authorize_start in H; cbn [ps_state] in H.
    destruct st; simplify_eq/=; destruct requested; simplify_eq/=; session_solve.
  - unfold receive_child_frame in H; cbn [ps_state ps_started_received ps_request_id] in H.
    destruct (_ && _) in H; simplify_eq/=.
    destruct (f_kind f); try (by destruct (f_payload f); simplify_eq/=).
    + destruct (f_payload f), st; simplify_eq/=; session_solve.
    + destruct (f_payload f), st, sr; simplify_eq/=; session_solve.
    + destruct (receive_terminal_cases (ParentSession id st rs cs sr cr tm) f)
        as [(e & E)|[(t & Ht & E)|(t & Ht & E & _ & Hv & Hs)]]; rewrite E in H; simplify_eq/=.
      * destruct st; simplify_eq/=; session_solve.
      * destruct Hs as [Hs|[Hs|(Hs & r & Hr & Ho)]]; simplify_eq/=; session_solve.
Qed.

Lemma parent_refusal_unchanged (p p' : parent_session) (op : parent_op) :
  parent_apply p op = (false, p') -> p' = p.
Proof.
  destruct op; simpl.
  - unfold accept_hello; destruct (_ || _); naive_solver.
  - unfold send_request; destruct (_ && _); naive_solver.
  - unfold send_cancel; repeat (destr_match; try naive_solver).
  - unfold authorize_start; repeat (destr_match; try naive_solver).
  - unfold receive_child_frame; destruct (_ && _); [naive_solver|].
    destruct (f_kind f) eqn:?; try (by destruct (f_payload f); naive_solver).
    + repeat (destr_match; try naive_solver).
    + repeat (destr_match; try naive_solver).
    + intros H; destruct (receive_terminal_cases p f) as [(e & E)|[(t & _ & E)|(t & _ & E & _)]];
        rewrite E in H; simpl in H; destruct (f_payload f); naive_solver.
Qed.

Lemma parent_inv_new (id : Z) : parent_inv (parent_new id).
Proof. unfold parent_inv, parent_new; simpl; split_and!; naive_solver. Qed.

Lemma parent_reachable_inv (id : Z) (p : parent_session) :
  reachable parent_step (parent_new id) p -> parent_inv p.
Proof.
  apply reachable_invariant; [apply parent_inv_new|].
  intros a b Ha Hs; by destruct (parent_step_inv a b Ha Hs).
Qed.

(** What is decided at [p] and still holds at every later [p']. *)
Definition parent_settled (p p' : parent_session) : Prop :=
  (forall t, ps_terminal p = Some t -> ps_terminal p' = Some t /\ ps_cancel_reason p' = ps_cancel_reason p) /\
  (forall r, ps_cancel_reason p = Some r -> ps_cancel_reason p' = Some r) /\
  (cancelled_before_start (ps_state p) = true ->
     ps_started_received p' = false /\ start_authorized (ps_state p') = false /\
     forall t, ps_terminal p' = Some t ->
       exists r, ps_cancel_reason p = Some r /\ st_outcome t = expected_outcome r).

Lemma parent_settled_reachable (p p' : parent_session) :
  parent_inv p -> reachable parent_step p p' -> parent_settled p p'.
Proof.
  intros Hp Hr.
  cut (parent_inv p' /\
    (forall t, ps_terminal p = Some t -> ps_terminal p' = Some t /\ ps_cancel_reason p' = ps_cancel_reason p) /\
    (forall r, ps_cancel_reason p = Some r -> ps_cancel_reason p' = Some r) /\
    (cancelled_before_start (ps_state p) = true ->
       cancelled_before_start (ps_state p') = true \/
       ps_started_received p' = false /\
       exists r t, ps_cancel_reason p' = Some r /\ ps_terminal p' = Some t /\ st_outcome t = expected_outcome r)).
  { intros (Hp' & H1 & H2 & H3); split_and!; [done|done|]; intros Hc.
    destruct Hp as (_ & _ & P3 & _), Hp' as (Q1 & _ & _ & Q4 & Q5 & _).
    assert (exists r, ps_cancel_reason p = Some r) as [r Er].
    { specialize (P3 (or_introl Hc)); destruct (ps_cancel_reason p); [eauto|done]. }
    rewrite Er in *; specialize (H2 _ eq_refl); destruct (H3 Hc) as [Hb|(Hs & r' & t & E1 & E2 & E3)].
    - destruct (ps_state p'); try done; (split_and!; [done|done|]; intros t Ht; rewrite Ht in Q1; by vm_compute in Q1).
    - rewrite E2 in Q1; symmetry in Q1; apply bool_decide_eq_true_1 in Q1; rewrite Q1.
      split_and!; [done|done|]; intros t' Ht; exists r; split; [done|].
      rewrite E2 in Ht; rewrite H2 in E1; by simplify_eq. }
  induction Hr as [|p1 p2 Hr IH Hs]; [naive_solver|].
  destruct (IH) as (I & J1 & J2 & J3); clear IH.
  destruct (parent_step_inv _ _ I Hs) as [I' (_ & K1 & K2 & K3 & K4)].
  split_and!; [done| | |].
  - intros t Ht; destruct (J1 t Ht) as [A B]; destruct (K1 t A) as (C & D & _); split; [done|congruence].
  - eauto.
  - intros Hc; destruct (J3 Hc) as [Hb|(Hs1 & r & t & E1 & E2 & E3)]; [by apply K3|right].
    destruct (K1 _ E2) as (E2' & E1' & E4); split; [congruence|].
    exists r, t; split_and!; congruence.
Qed.

(** C12. The parent's session fails closed against any peer and any interleaving
    of its own requests: a refused operation changes nothing; the terminal is
    shape-checked, exists exactly in the terminal state and never changes
    again, nor does the cancellation reason recorded with it; the first
    cancellation reason stays; and once a cancellation was recorded before
    START, START is never authorized, STARTED is never accepted, and only a
    terminal whose outcome reports that cancellation is. *)
Theorem parent_session_safe (id : Z) (p p' : parent_session) :
  reachable parent_step (parent_new id) p -> reachable parent_step p p' ->
  (forall op q, parent_apply p op = (false, q) -> q = p) /\
  (is_some (ps_terminal p) = true <-> ps_state p = PTerminal) /\
  (forall t, ps_terminal p = Some t -> validate_supervisor_terminal_shape t = Ok ()) /\
  parent_settled p p'.
Proof.
  intros Hr Hr'; pose proof (parent_reachable_inv id p Hr) as Hp; split_and!.
  - intros op q; apply parent_refusal_unchanged.
  - destruct Hp as (-> & _); apply bool_decide_eq_true.
  - apply Hp.
  - by apply parent_settled_reachable.
Qed.
End ParentHistory.

(** A concrete run: a user cancellation wins before START. *)
Definition sample_slice (bytes : list Z) : result supervisor_terminal string :=
  match bytes with
  | [0] => Ok (SupervisorTerminal OCompleted (Some 0) None [] [] false)
  | [3] => Ok (SupervisorTerminal OCancelled None None [] [] false)
  | _ => Err "bad"
  end.
Definition sample_history : list parent_op :=
  [OpHello (SupervisorFrame KHello 0 [7; 9]) [7; 9]; OpRequest;
   OpReceive (SupervisorFrame KAccepted 1 []); OpAuthorize (Some User)].
Fixpoint run_history (p : parent_session) (ops : list parent_op) : option parent_session :=
  match ops with
  | [] => Some p
  | op :: ops =>
      match parent_apply sample_slice p op with
      | (true, p') => run_history p' ops
      | (false, _) => None
      end
  end.

Lemma run_history_reachable (ops : list parent_op) (p p' : parent_session) :
  run_history p ops = Some p' -> reachable (parent_step sample_slice) p p'.
Proof.
  revert p; induction ops as [|op ops IH]; intros p H; cbn [run_history] in H.
  - simplify_eq; apply reach_refl.
  - destruct (parent_apply sample_slice p op) as [[] q] eqn:E; [|done].
    eapply reachable_head; [by exists op|by apply IH].
Qed.

Lemma parent_session_safe_witness :
  let p := ParentSession 1 PCancellingBeforeStart true false false (Some User) None in
  let t := SupervisorTerminal OCancelled None None [] [] false in
  parent_settled p (ParentSession 1 PTerminal true true false (Some User) (Some t)) /\
  parent_apply sample_slice p (OpReceive (SupervisorFrame KTerminal 1 [0])) = (false, p).
Proof.
  split; [|vm_compute; reflexivity].
  apply (parent_session_safe sample_slice 1).
  - apply (run_history_reachable sample_history); reflexivity.
  - apply (run_history_reachable [OpCancel User; OpReceive (SupervisorFrame KTerminal 1 [3])]); reflexivity.
Defined.
