(* ===== verification/Protocol.v ===== *)
(** * Protocol: a supervised session, parent and child together.

    Models [drive_supervisor_session], the parent's control worker and
    [run_supervisor_child] with its control reader ([src/subprocess.rs]) as
    processes that communicate over two FIFO channels of frames.  Each step is
    one call on a session or one frame written or read; the processes
    interleave freely, cancellation requests arrive at any time, and every
    party may fail at any point (lost connection, timeout, failed write). *)
From S2P Require Import Prelude Errors Cancel Options Execution Token Frame Session.
Open Scope Z_scope.

Definition SUPERVISOR_REQUEST_ID : Z := 1.

(** One direction of the connection: frames already taken and frames under way. *)
Record channel := Channel { ch_read : list supervisor_frame; ch_pending : list supervisor_frame }.
Definition ch_sent (c : channel) : list supervisor_frame := ch_read c ++ ch_pending c.
Definition ch_write (f : supervisor_frame) (c : channel) : channel :=
  Channel (ch_read c) (ch_pending c ++ [f]).

(** [read_frame]: the next frame, if its direction is the expected one. *)
Definition ch_take (expected : frame_direction) (c : channel)
  : option (result supervisor_frame io_error * channel) :=
  match ch_pending c with
  | [] => None
  | f :: rest =>
      Some (let? _ := validate_direction (f_kind f) expected in Ok f,
            Channel (ch_read c ++ [f]) rest)
  end.

(** Where the parent's main thread is. *)
Inductive parent_pc :=
| PpReadHello | PpSendRequest | PpWriteRequest | PpReadAccepted | PpAuthorize
| PpWriteStart | PpSendCancel | PpWriteCancel (r : cancel_reason) | PpReadTerminal
| PpDuplicates (t : supervisor_terminal)
| PpDone (t : supervisor_terminal) (cancellation : option cancel_reason)
| PpRejected (message : string)   (** a protocol violation was reported *)
| PpFault.                        (** the connection or a deadline failed *)

(** The control worker, which exists once START was written. *)
Inductive worker_pc :=
| WkOff | WkIdle | WkWrite (r : cancel_reason) | WkGrace | WkRejected (message : string) | WkFault.

(** Where the child's main thread is. *)
Inductive child_pc :=
| CpHello | CpReadRequest | CpWriteAccepted | CpReadStart | CpWriteStarted
| CpRunning                                              (** user code runs *)
| CpStopping (r : result run_output libdeno_error)       (** it ended; the control thread is joined *)
| CpWriteTerminal (t : supervisor_terminal)
| CpExited (code : Z)
| CpRejected (message : string)
| CpFault.

Inductive control_pc := CtOff | CtReading | CtJoined | CtRejected (message : string) | CtFault.

Record session := Session {
  s_ppc : parent_pc; s_parent : parent_session; s_worker : worker_pc;
  s_request : option cancel_reason;          (** the parent's cancellation context *)
  s_down : channel; s_up : channel;
  s_cpc : child_pc; s_child : child_session; s_control : control_pc;
  s_child_request : option cancel_reason     (** the child's cancellation context *)
}.

(** ** The child's verdict *)
Definition supervisor_child_failure_category (e : libdeno_error) : failure_category :=
  match e with
  | Permission _ => CatPermission
  | _ =>
      if is_permission_error e then CatPermission
      else match e with
           | Configuration _ | Io _ => CatInfrastructure
           | _ => CatRuntime
           end
  end.

Definition no_output (o : supervisor_outcome) (exit_code : option Z) (c : option failure_category)
  : supervisor_terminal := SupervisorTerminal o exit_code c [] [] false.

Definition child_terminal (requested : option cancel_reason)
    (runtime_result : result run_output libdeno_error) : supervisor_terminal :=
  match requested, runtime_result with
  | Some Deadline, _ => no_output ODeadline None None
  | Some (User | Shutdown), _ => no_output OCancelled None None
  | None, Ok output => no_output OCompleted (Some (ro_exit_code output)) None
  | None, Err (Timeout _) => no_output ODeadline None None
  | None, Err error => no_output OFailed None (Some (supervisor_child_failure_category error))
  end.

(** What [supervisor_child_exit] returns after the terminal was written. *)
Definition child_exit_code (t : supervisor_terminal) : Z :=
  match st_outcome t with
  | OCompleted => default 1 (st_exit_code t)
  | OFailed | OCancelled | ODeadline => 1
  end.

Lemma no_output_shape (r : cancel_reason) :
  validate_supervisor_terminal_shape (no_output (expected_outcome r) None None) = Ok ().
Proof. by destruct r. Qed.

Lemma child_terminal_shape (q : option cancel_reason) (r : result run_output libdeno_error) :
  validate_supervisor_terminal_shape (child_terminal q r) = Ok ().
Proof.
  unfold child_terminal, supervisor_child_failure_category.
  destruct q as [[]|]; [done|done|done|]; destruct r as [|[]]; try done; by case_match.
Qed.

Section Protocol.
Context (token : supervisor_token) (request_payload : list Z).
Context (terminal_to_vec : supervisor_terminal -> result (list Z) string)
        (terminal_from_slice : list Z -> result supervisor_terminal string)
        (reason_to_vec : cancel_reason -> result (list Z) string)
        (reason_from_slice : list Z -> result cancel_reason string)
        (request_from_slice : list Z -> result unit string).

Definition set_parent (ppc : parent_pc) (p : parent_session) (s : session) : session :=
  Session ppc p (s_worker s) (s_request s) (s_down s) (s_up s) (s_cpc s) (s_child s) (s_control s) (s_child_request s).
Definition set_worker (w : worker_pc) (p : parent_session) (s : session) : session :=
  Session (s_ppc s) p w (s_request s) (s_down s) (s_up s) (s_cpc s) (s_child s) (s_control s) (s_child_request s).
Definition set_child (cpc : child_pc) (c : child_session) (s : session) : session :=
  Session (s_ppc s) (s_parent s) (s_worker s) (s_request s) (s_down s) (s_up s) cpc c (s_control s) (s_child_request s).
Definition set_control (k : control_pc) (r : option cancel_reason) (s : session) : session :=
  Session (s_ppc s) (s_parent s) (s_worker s) (s_request s) (s_down s) (s_up s) (s_cpc s) (s_child s) k r.
Definition set_down (d : channel) (s : session) : session :=
  Session (s_ppc s) (s_parent s) (s_worker s) (s_request s) d (s_up s) (s_cpc s) (s_child s) (s_control s) (s_child_request s).
Definition set_up (u : channel) (s : session) : session :=
  Session (s_ppc s) (s_parent s) (s_worker s) (s_request s) (s_down s) u (s_cpc s) (s_child s) (s_control s) (s_child_request s).
Definition set_request (r : option cancel_reason) (s : session) : session :=
  Session (s_ppc s) (s_parent s) (s_worker s) r (s_down s) (s_up s) (s_cpc s) (s_child s) (s_control s) (s_child_request s).

Definition session_new : session :=
  Session PpReadHello (parent_new SUPERVISOR_REQUEST_ID) WkOff None (Channel [] []) (Channel [] [])
    CpHello child_new CtOff None.

Definition reject_parent (e : io_error) (s : session) : session :=
  set_parent (PpRejected (io_message e)) (s_parent s) s.
Definition reject_child (e : io_error) (s : session) : session :=
  set_child (CpRejected (io_message e)) (s_child s) s.

Definition parent_frame (k : frame_kind) (payload : list Z) : supervisor_frame :=
  SupervisorFrame k SUPERVISOR_REQUEST_ID payload.

(** Encodes a reason and frames it, as both places that send CANCEL do. *)
Definition cancel_frame (r : cancel_reason) : result supervisor_frame io_error :=
  let? payload := encode_payload reason_to_vec r in
  frame_new KCancel SUPERVISOR_REQUEST_ID payload.

(** Writing a frame down; an unencodable one is reported. *)
Definition write_down (m : result supervisor_frame io_error) (ppc : parent_pc) (s : session) : session :=
  match m with
  | Err e => reject_parent e s
  | Ok f => set_down (ch_write f (s_down s)) (set_parent ppc (s_parent s) s)
  end.

(** A frame arrives at the parent's session. *)
Definition parent_receive (f : supervisor_frame) (next : frame_event -> parent_session -> parent_pc)
    (s : session) : session :=
  match receive_child_frame terminal_from_slice (s_parent s) f with
  | (Err e, _) => reject_parent e s
  | (Ok event, p) => set_parent (next event p) p s
  end.

Definition after_accepted (event : frame_event) (_ : parent_session) : parent_pc :=
  match event with
  | EvAccepted => PpAuthorize
  | _ => PpRejected "supervisor child did not accept REQUEST"
  end.

Definition after_child_frame (event : frame_event) (p : parent_session) : parent_pc :=
  match event, ps_terminal p with
  | EvTerminal, Some t => PpDuplicates t
  | EvTerminal, None => PpRejected "terminal event must store a terminal"
  | _, _ => PpReadTerminal
  end.

Definition after_duplicate (t : supervisor_terminal) (event : frame_event) (_ : parent_session) : parent_pc :=
  match event with
  | EvTerminal => PpDuplicates t
  | _ => PpRejected "supervisor frame follows TERMINAL"
  end.

(** Reading one frame from the child: end of file once the child is gone. *)
Definition child_gone (s : session) : bool :=
  match s_cpc s with CpExited _ | CpRejected _ | CpFault => true | _ => false end.

Definition parent_read (k : supervisor_frame -> session -> session) (at_eof : session) (s : session)
  : option session :=
  match ch_take ChildToParent (s_up s) with
  | Some (Ok f, up) => Some (k f (set_up up s))
  | Some (Err e, up) => Some (reject_parent e (set_up up s))
  | None => if child_gone s then Some at_eof else None
  end.

Definition parent_fault (s : session) : session := set_parent PpFault (s_parent s) s.

(** The main thread of [drive_supervisor_session]; [None] when it waits. *)
Definition parent_main (s : session) : option session :=
  let p := s_parent s in
  match s_ppc s with
  | PpReadHello =>
      parent_read (fun f s =>
        if authenticate token (f_payload f) && bool_decide (f_kind f = KHello) && Z.eqb (f_request_id f) 0
        then match accept_hello p f token with
             | (Err e, _) => reject_parent e s
             | (Ok _, p) => set_parent PpSendRequest p s
             end
        else s) (parent_fault s) s
  | PpSendRequest =>
      Some (match send_request p with
            | (Err e, _) => reject_parent e s
            | (Ok _, p) => set_parent PpWriteRequest p s
            end)
  | PpWriteRequest =>
      Some (write_down (frame_new KRequest SUPERVISOR_REQUEST_ID request_payload) PpReadAccepted s)
  | PpReadAccepted => parent_read (fun f => parent_receive f after_accepted) (parent_fault s) s
  | PpAuthorize =>
      Some (match authorize_start p (s_request s) with
            | (Err e, _) => reject_parent e s
            | (Ok true, p) => set_parent PpWriteStart p s
            | (Ok false, p) => set_parent PpSendCancel p s
            end)
  | PpWriteStart =>
      Some (let s' := write_down (Ok (parent_frame KStart [])) PpReadTerminal s in
            set_worker WkIdle (s_parent s') s')
  | PpSendCancel =>
      match s_request s with
      | None => None
      | Some reason =>
          Some (match send_cancel p reason with
                | (Err e, _) => reject_parent e s
                | (Ok true, p) => set_parent (PpWriteCancel reason) p s
                | (Ok false, p) => set_parent PpReadTerminal p s
                end)
      end
  | PpWriteCancel r => Some (write_down (cancel_frame r) PpReadTerminal s)
  | PpReadTerminal => parent_read (fun f => parent_receive f after_child_frame) (parent_fault s) s
  | PpDuplicates t =>
      match ch_take ChildToParent (s_up s) with
      | Some (Ok f, up) => Some (parent_receive f (after_duplicate t) (set_up up s))
      | Some (Err e, up) => Some (reject_parent e (set_up up s))
      | None => Some (set_parent (PpDone t (cancellation_before_terminal p)) p s)
      end
  | PpDone _ _ | PpRejected _ | PpFault => None
  end.

(** The control worker; the parent's [mark_terminal] and stop signal are read
    before a cancellation is turned into a frame. *)
Definition terminal_seen (s : session) : bool :=
  match s_ppc s with PpDone _ _ => true | _ => false end.

Definition worker_main (s : session) : option session :=
  match s_worker s with
  | WkIdle =>
      match s_request s, terminal_seen s with
      | Some reason, false =>
          Some (match send_cancel (s_parent s) reason with
                | (Err e, _) => set_worker (WkRejected (io_message e)) (s_parent s) s
                | (Ok true, p) => set_worker (WkWrite reason) p s
                | (Ok false, p) => set_worker WkGrace p s
                end)
      | _, _ => None
      end
  | WkWrite r =>
      Some (match cancel_frame r with
            | Err e => set_worker (WkRejected (io_message e)) (s_parent s) s
            | Ok f => set_down (ch_write f (s_down s)) (set_worker WkGrace (s_parent s) s)
            end)
  | WkOff | WkGrace | WkRejected _ | WkFault => None
  end.

(** ** The child *)
Definition child_read (k : supervisor_frame -> session -> session) (s : session) : option session :=
  match ch_take ParentToChild (s_down s) with
  | Some (Ok f, down) => Some (k f (set_down down s))
  | Some (Err e, down) => Some (reject_child e (set_down down s))
  | None => None
  end.

(** A child frame carries the identifier the REQUEST established. *)
Definition child_write (k : frame_kind) (payload : list Z) (cpc : child_pc) (s : session) : session :=
  match cs_request_id (s_child s) with
  | None => set_child (CpRejected "supervisor child has no request ID") (s_child s) s
  | Some id => set_up (ch_write (SupervisorFrame k id payload) (s_up s)) (set_child cpc (s_child s) s)
  end.

(** [supervisor_child_exit] up to the write. *)
Definition child_exit (t : supervisor_terminal) (s : session) : session :=
  match mark_terminal (s_child s) t with
  | (Err e, _) => reject_child e s
  | (Ok _, c) => set_child (CpWriteTerminal t) c s
  end.

(** [stop_supervisor_child_control] and the join. *)
Definition join_control (k : control_pc) : control_pc :=
  match k with CtReading => CtJoined | k => k end.

Definition child_main (s : session) : option session :=
  let c := s_child s in
  match s_cpc s with
  | CpHello =>
      Some (set_up (ch_write (SupervisorFrame KHello 0 token) (s_up s)) (set_child CpReadRequest c s))
  | CpReadRequest =>
      child_read (fun f s =>
        match receive_parent_frame reason_from_slice c f with
        | (Err e, _) => reject_child e s
        | (Ok _, c) =>
            match decode_payload request_from_slice (f_payload f) with
            | Err e => reject_child e s
            | Ok _ => set_child CpWriteAccepted c s
            end
        end) s
  | CpWriteAccepted => Some (child_write KAccepted [] CpReadStart s)
  | CpReadStart =>
      child_read (fun f s =>
        match receive_parent_frame reason_from_slice c f with
        | (Err e, _) => reject_child e s
        | (Ok event, c) =>
            match f_kind f, event with
            | KCancel, _ =>
                let reason := default User (cs_cancel_reason c) in
                child_exit (no_output (expected_outcome reason) None None) (set_child (s_cpc s) c s)
            | KStart, Some EvStarted => set_control CtReading None (set_child CpWriteStarted c s)
            | _, _ => set_child (CpRejected "supervisor START barrier was not satisfied") c s
            end
        end) s
  | CpWriteStarted => Some (child_write KStarted [] CpRunning s)
  | CpRunning => None
  | CpStopping r =>
      let s := set_control (join_control (s_control s)) (s_child_request s) s in
      Some (child_exit (child_terminal (s_child_request s) r) s)
  | CpWriteTerminal t =>
      Some (match encode_payload terminal_to_vec t with
            | Err e => reject_child e s
            | Ok payload => child_write KTerminal payload (CpExited (child_exit_code t)) s
            end)
  | CpExited _ | CpRejected _ | CpFault => None
  end.

(** The control reader; an error of its own requests a user cancellation. *)
Definition child_control (s : session) : option session :=
  match s_control s, s_cpc s with
  | CtReading, (CpWriteStarted | CpRunning | CpStopping _) =>
      match ch_take ParentToChild (s_down s) with
      | None => None
      | Some (r, down) =>
          let s := set_down down s in
          let stop e := set_control (CtRejected (io_message e)) (get_or_insert (s_child_request s) User) s in
          Some (match r with
                | Err e => stop e
                | Ok f =>
                    if negb (bool_decide (f_kind f = KCancel))
                       || negb (bool_decide (Some (f_request_id f) = cs_request_id (s_child s)))
                    then stop (invalid_data "invalid supervisor control frame after START")
                    else
                      match decode_payload reason_from_slice (f_payload f) with
                      | Err e => stop e
                      | Ok reason =>
                          if is_some_and (s_child_request s) (fun p => negb (bool_decide (p = reason)))
                          then stop (invalid_data "conflicting supervisor cancellation reason")
                          else set_control CtReading (get_or_insert (s_child_request s) reason) s
                      end
                end)
      end
  | _, _ => None
  end.

(** ** The session as a transition system *)

(** Steps of the four threads. *)
Inductive thread_step (s : session) : session -> Prop :=
| ts_parent s' : parent_main s = Some s' -> thread_step s s'
| ts_worker s' : worker_main s = Some s' -> thread_step s s'
| ts_child s' : child_main s = Some s' -> thread_step s s'
| ts_control s' : child_control s = Some s' -> thread_step s s'.

(** The parent's caller or a deadline requests a cancellation: first reason
    wins.  User code ends in some way. *)
Inductive event_step (s : session) : session -> Prop :=
| es_cancel r : event_step s (set_request (get_or_insert (s_request s) r) s)
| es_runtime r : s_cpc s = CpRunning -> event_step s (set_child (CpStopping r) (s_child s) s).

(** Any party that is not finished may fail. *)
Inductive fault_step (s : session) : session -> Prop :=
| fs_parent : match s_ppc s with PpDone _ _ | PpRejected _ => False | _ => True end ->
    fault_step s (parent_fault s)
| fs_worker : match s_worker s with WkIdle | WkWrite _ => True | _ => False end ->
    fault_step s (set_worker WkFault (s_parent s) s)
| fs_child : child_gone s = false -> fault_step s (set_child CpFault (s_child s) s)
| fs_control : s_control s = CtReading ->
    fault_step s (set_control CtFault (get_or_insert (s_child_request s) User) s).

Definition honest_step (s s' : session) : Prop := thread_step s s' \/ event_step s s'.
Definition session_step (s s' : session) : Prop := honest_step s s' \/ fault_step s s'.

(** ** The invariant

    What each party has done is a function of what it has received so far; the
    two descriptions meet in the channels. *)
Context (reason_codec : forall r, exists b, reason_to_vec r = Ok b /\ reason_from_slice b = Ok r /\
           Z.of_nat (length b) <= MAX_SUPERVISOR_FRAME_PAYLOAD).
Context (terminal_codec : forall t, validate_supervisor_terminal_shape t = Ok () ->
           exists b, terminal_to_vec t = Ok b /\ terminal_from_slice b = Ok t /\
           Z.of_nat (length b) <= MAX_SUPERVISOR_FRAME_PAYLOAD).
Context (request_decodes : request_from_slice request_payload = Ok ()).
Context (request_bounded : Z.of_nat (length request_payload) <= MAX_SUPERVISOR_FRAME_PAYLOAD).

Definition hello_f : supervisor_frame := SupervisorFrame KHello 0 token.
Definition request_f : supervisor_frame := parent_frame KRequest request_payload.
Definition start_f : supervisor_frame := parent_frame KStart [].
Definition accepted_f : supervisor_frame := parent_frame KAccepted [].
Definition started_f : supervisor_frame := parent_frame KStarted [].
Definition is_cancel (f : supervisor_frame) (r : cancel_reason) : Prop :=
  exists b, f = parent_frame KCancel b /\ decode_payload reason_from_slice b = Ok r.
Definition is_terminal (f : supervisor_frame) (t : supervisor_terminal) : Prop :=
  exists b, f = parent_frame KTerminal b /\ decode_payload terminal_from_slice b = Ok t.

Definition PS (st : parent_state) (rs cs sr : bool) (cr : option cancel_reason)
    (tm : option supervisor_terminal) : parent_session :=
  ParentSession SUPERVISOR_REQUEST_ID st rs cs sr cr tm.

(** The control worker: its position, the session's record of the cancellation,
    the caller's request, and what was sent. *)
Inductive worker_local : worker_pc -> bool -> option cancel_reason -> option cancel_reason ->
    bool -> list supervisor_frame -> Prop :=
| wl_idle w q late : w = WkIdle \/ w = WkFault \/ (w = WkGrace /\ late = true) ->
    worker_local w false None q late [request_f; start_f]
| wl_write w r late : w = WkWrite r \/ w = WkFault ->
    worker_local w true (Some r) (Some r) late [request_f; start_f]
| wl_grace w r c late : w = WkGrace \/ w = WkFault -> is_cancel c r ->
    worker_local w true (Some r) (Some r) late [request_f; start_f; c].

Inductive parent_local : parent_pc -> parent_session -> worker_pc -> option cancel_reason ->
    list supervisor_frame -> list supervisor_frame -> Prop :=
| pl_hello q pc : pc = PpReadHello \/ pc = PpFault ->
    parent_local pc (PS PAwaitHello false false false None None) WkOff q [] []
| pl_send_request q pc : pc = PpSendRequest \/ pc = PpFault ->
    parent_local pc (PS PAwaitAccepted false false false None None) WkOff q [] [hello_f]
| pl_write_request q pc : pc = PpWriteRequest \/ pc = PpFault ->
    parent_local pc (PS PAwaitAccepted true false false None None) WkOff q [] [hello_f]
| pl_read_accepted q pc : pc = PpReadAccepted \/ pc = PpFault ->
    parent_local pc (PS PAwaitAccepted true false false None None) WkOff q [request_f] [hello_f]
| pl_authorize q pc : pc = PpAuthorize \/ pc = PpFault ->
    parent_local pc (PS PAccepted true false false None None) WkOff q [request_f] [hello_f; accepted_f]
| pl_write_start q pc : pc = PpWriteStart \/ pc = PpFault ->
    parent_local pc (PS PAwaitStarted true false false None None) WkOff q [request_f] [hello_f; accepted_f]
| pl_send_cancel r pc : pc = PpSendCancel \/ pc = PpFault ->
    parent_local pc (PS PCancellingBeforeStart true false false (Some r) None) WkOff (Some r)
      [request_f] [hello_f; accepted_f]
| pl_write_cancel r pc : pc = PpWriteCancel r \/ pc = PpFault ->
    parent_local pc (PS PCancellingBeforeStart true true false (Some r) None) WkOff (Some r)
      [request_f] [hello_f; accepted_f]
| pl_cancelled r c pc : pc = PpReadTerminal \/ pc = PpFault -> is_cancel c r ->
    parent_local pc (PS PCancellingBeforeStart true true false (Some r) None) WkOff (Some r)
      [request_f; c] [hello_f; accepted_f]
| pl_cancel_terminal r c t tf pc :
    pc = PpDuplicates t \/ pc = PpDone t (Some r) \/ pc = PpFault -> is_cancel c r -> is_terminal tf t ->
    st_outcome t = expected_outcome r ->
    parent_local pc (PS PTerminal true true false (Some r) (Some t)) WkOff (Some r)
      [request_f; c] [hello_f; accepted_f; tf]
| pl_started (sr cs : bool) cr q w sent pc : pc = PpReadTerminal \/ pc = PpFault ->
    worker_local w cs cr q false sent ->
    parent_local pc
      (PS (match cr with Some _ => PCancelling | None => if sr then PStarted else PAwaitStarted end)
          true cs sr cr None) w q sent
      ([hello_f; accepted_f] ++ if sr then [started_f] else [])
| pl_terminal cs cr t tf q w sent pc :
    pc = PpDuplicates t \/ pc = PpDone t cr \/ pc = PpFault -> is_terminal tf t ->
    worker_local w cs cr q true sent ->
    parent_local pc (PS PTerminal true cs true cr (Some t)) w q sent [hello_f; accepted_f; started_f; tf].

(** The child's control reader. *)
Inductive control_local : control_pc -> option cancel_reason -> list supervisor_frame -> Prop :=
| kl_idle k : k = CtReading \/ k = CtJoined -> control_local k None [request_f; start_f]
| kl_cancel k r c : k = CtReading \/ k = CtJoined -> is_cancel c r ->
    control_local k (Some r) [request_f; start_f; c]
| kl_fault r : control_local CtFault (Some r) [request_f; start_f]
| kl_cancel_fault r c : is_cancel c r -> control_local CtFault (Some r) [request_f; start_f; c].

Definition CS (st : child_state) (cr : option cancel_reason) (tm : option supervisor_terminal)
  : child_session := ChildSession (Some SUPERVISOR_REQUEST_ID) st cr tm.

Inductive child_local : child_pc -> child_session -> control_pc -> option cancel_reason ->
    list supervisor_frame -> list supervisor_frame -> Prop :=
| cl_hello pc : pc = CpHello \/ pc = CpFault -> child_local pc child_new CtOff None [] []
| cl_read_request pc : pc = CpReadRequest \/ pc = CpFault ->
    child_local pc child_new CtOff None [] [hello_f]
| cl_write_accepted pc : pc = CpWriteAccepted \/ pc = CpFault ->
    child_local pc (CS CAwaitStart None None) CtOff None [request_f] [hello_f]
| cl_read_start pc : pc = CpReadStart \/ pc = CpFault ->
    child_local pc (CS CAwaitStart None None) CtOff None [request_f] [hello_f; accepted_f]
| cl_cancelled r c t pc : pc = CpWriteTerminal t \/ pc = CpFault -> is_cancel c r ->
    t = no_output (expected_outcome r) None None ->
    child_local pc (CS CTerminal (Some r) (Some t)) CtOff None [request_f; c] [hello_f; accepted_f]
| cl_cancel_exit r c t tf pc : pc = CpExited 1 \/ pc = CpFault -> is_cancel c r ->
    t = no_output (expected_outcome r) None None -> is_terminal tf t ->
    child_local pc (CS CTerminal (Some r) (Some t)) CtOff None [request_f; c] [hello_f; accepted_f; tf]
| cl_write_started k q recv pc : pc = CpWriteStarted \/ pc = CpFault ->
    control_local k q recv ->
    child_local pc (CS CStarted None None) k q recv [hello_f; accepted_f]
| cl_running k q recv pc : pc = CpRunning \/ (exists r, pc = CpStopping r) \/ pc = CpFault ->
    control_local k q recv ->
    child_local pc (CS CStarted None None) k q recv [hello_f; accepted_f; started_f]
| cl_verdict k q recv t pc : pc = CpWriteTerminal t \/ pc = CpFault ->
    control_local k q recv -> validate_supervisor_terminal_shape t = Ok () ->
    child_local pc (CS CTerminal None (Some t)) k q recv [hello_f; accepted_f; started_f]
| cl_exit k q recv t tf pc : pc = CpExited (child_exit_code t) \/ pc = CpFault ->
    control_local k q recv -> is_terminal tf t -> validate_supervisor_terminal_shape t = Ok () ->
    child_local pc (CS CTerminal None (Some t)) k q recv [hello_f; accepted_f; started_f; tf].

Definition session_inv (s : session) : Prop :=
  parent_local (s_ppc s) (s_parent s) (s_worker s) (s_request s) (ch_sent (s_down s)) (ch_read (s_up s)) /\
  child_local (s_cpc s) (s_child s) (s_control s) (s_child_request s) (ch_read (s_down s)) (ch_sent (s_up s)).

Set Default Proof Using "All".

(** ** Codecs *)
Lemma cancel_frame_ok (r : cancel_reason) :
  exists f, cancel_frame r = Ok f /\ is_cancel f r.
Proof.
  destruct (reason_codec r) as (b & E1 & E2 & E3).
  exists (parent_frame KCancel b); unfold cancel_frame, encode_payload, frame_new; rewrite E1; simpl.
  rewrite !decide_False by lia; split; [done|].
  exists b; split; [done|]. unfold decode_payload; rewrite decide_False by lia; by rewrite E2.
Qed.

Lemma terminal_frame_ok (t : supervisor_terminal) :
  validate_supervisor_terminal_shape t = Ok () ->
  exists b, encode_payload terminal_to_vec t = Ok b /\ is_terminal (parent_frame KTerminal b) t.
Proof.
  intros H; destruct (terminal_codec t H) as (b & E1 & E2 & E3).
  exists b; unfold encode_payload; rewrite E1; simpl; rewrite decide_False by lia; split; [done|].
  exists b; split; [done|]. unfold decode_payload; rewrite decide_False by lia; by rewrite E2.
Qed.

(** The two directions of the connection agree on the frames under way. *)
Lemma receive_terminal_ok (p : parent_session) (b : list Z) (t : supervisor_terminal) :
  decode_payload terminal_from_slice b = Ok t -> validate_supervisor_terminal_shape t = Ok () ->
  ps_terminal p = None ->
  (ps_state p = PStarted \/ ps_state p = PCancelling \/
   ps_state p = PCancellingBeforeStart /\
     exists r, ps_cancel_reason p = Some r /\ st_outcome t = expected_outcome r) ->
  receive_terminal terminal_from_slice p (parent_frame KTerminal b) = (Ok EvTerminal, with_terminal t p).
Proof.
  intros Hd Hv Hn Hs; unfold receive_terminal; cbn [f_payload parent_frame]; rewrite Hd, Hv, Hn.
  destruct Hs as [->|[->|(-> & r & -> & Ho)]]; [done|done|].
  rewrite !bool_decide_eq_true_2 by done; done.
Qed.

Ltac pcs := repeat match goal with H : _ \/ _ |- _ => destruct H | H : exists _, _ |- _ => destruct H end.

Lemma is_cancel_inj (f : supervisor_frame) (r r' : cancel_reason) :
  is_cancel f r -> is_cancel f r' -> r = r'.
Proof. intros (b & -> & H) (b' & E & H'); unfold parent_frame in E; simplify_eq; congruence. Qed.

Lemma is_terminal_inj (f : supervisor_frame) (t t' : supervisor_terminal) :
  is_terminal f t -> is_terminal f t' -> t = t'.
Proof. intros (b & -> & H) (b' & E & H'); unfold parent_frame in E; simplify_eq; congruence. Qed.

(** Frames of different kinds differ. *)
Ltac frames :=
  unfold hello_f, request_f, start_f, accepted_f, started_f, parent_frame in *;
  simplify_eq/=; try done;
  repeat match goal with
  | H : is_cancel (SupervisorFrame _ _ _) _ |- _ =>
      let E := fresh in destruct H as (? & E & H); unfold parent_frame in E; simplify_eq/=
  | H : is_terminal (SupervisorFrame _ _ _) _ |- _ =>
      let E := fresh in destruct H as (? & E & H); unfold parent_frame in E; simplify_eq/=
  end; try done.

Lemma control_recv (k : control_pc) (q : option cancel_reason) (l : list supervisor_frame) :
  control_local k q l -> exists l', l = request_f :: start_f :: l'.
Proof. inversion 1; subst; eauto. Qed.

(** What the child may send next, given what it has sent. *)
Lemma next_hello cpc c k q recv f rest : child_local cpc c k q recv (f :: rest) -> f = hello_f.
Proof. inversion 1; by simplify_eq. Qed.

Lemma next_accepted cpc c k q recv f rest :
  child_local cpc c k q recv (hello_f :: f :: rest) -> f = accepted_f.
Proof. inversion 1; by simplify_eq. Qed.

Lemma next_third cpc c k q recv f rest :
  child_local cpc c k q recv (hello_f :: accepted_f :: f :: rest) ->
  (f = started_f /\ exists l, recv = request_f :: start_f :: l) \/
  exists r cf t, is_terminal f t /\ recv = [request_f; cf] /\ is_cancel cf r /\
    t = no_output (expected_outcome r) None None.
Proof.
  inversion 1; simplify_eq; first [ by (left; split; [done|eapply control_recv]) | right; eauto 10 ].
Qed.

Lemma next_fourth cpc c k q recv f rest :
  child_local cpc c k q recv (hello_f :: accepted_f :: started_f :: f :: rest) ->
  exists t, is_terminal f t /\ validate_supervisor_terminal_shape t = Ok ().
Proof. inversion 1; simplify_eq; eauto. Qed.

Lemma next_none cpc c k q recv tf t f rest :
  child_local cpc c k q recv (hello_f :: accepted_f :: tf :: f :: rest) -> is_terminal tf t -> False.
Proof. inversion 1; simplify_eq; intros (b & E & _); discriminate E. Qed.

Lemma next_none_started cpc c k q recv tf f rest :
  child_local cpc c k q recv (hello_f :: accepted_f :: started_f :: tf :: f :: rest) -> False.
Proof. inversion 1; simplify_eq. Qed.

Lemma parent_read_cases (k : supervisor_frame -> session -> session) (at_eof s s' : session) :
  parent_read k at_eof s = Some s' ->
  (ch_pending (s_up s) = [] /\ s' = at_eof) \/
  exists f rest, ch_pending (s_up s) = f :: rest /\
    (direction (f_kind f) = ChildToParent -> s' = k f (set_up (Channel (ch_read (s_up s) ++ [f]) rest) s)).
Proof.
  unfold parent_read, ch_take, validate_direction; destruct (ch_pending (s_up s)) as [|f rest].
  - destruct (child_gone s); intros; simplify_eq; by left.
  - intros H; right; exists f, rest; split; [done|].
    intros Hd; rewrite decide_True in H by done; by simplify_eq/=.
Qed.

(** The invariant after a read: the parent's description moves on. *)
Lemma session_inv_parent_read (s : session) (pc : parent_pc) (p : parent_session)
    (f : supervisor_frame) (rest : list supervisor_frame) :
  session_inv s -> ch_pending (s_up s) = f :: rest ->
  parent_local pc p (s_worker s) (s_request s) (ch_sent (s_down s)) (ch_read (s_up s) ++ [f]) ->
  session_inv (set_parent pc p (set_up (Channel (ch_read (s_up s) ++ [f]) rest) s)).
Proof.
  intros [_ CL] E PL; split; [exact PL|]; simpl; unfold ch_sent in *; simpl.
  by rewrite <- app_assoc; simpl; rewrite <- E.
Qed.

Lemma session_inv_parent (s : session) (pc : parent_pc) (p : parent_session) :
  session_inv s -> parent_local pc p (s_worker s) (s_request s) (ch_sent (s_down s)) (ch_read (s_up s)) ->
  session_inv (set_parent pc p s).
Proof. by intros [_ CL] PL. Qed.

Lemma parent_fault_inv (s : session) :
  match s_ppc s with PpDone _ _ | PpRejected _ => False | _ => True end ->
  session_inv s -> session_inv (parent_fault s).
Proof.
  intros Hpc [PL CL]; apply session_inv_parent; [by split|].
  destruct PL; econstructor; eauto.
Qed.

Lemma parent_receive_inv (s : session) (f : supervisor_frame) (rest : list supervisor_frame)
    (next : frame_event -> parent_session -> parent_pc) (event : frame_event) (p : parent_session) :
  session_inv s -> ch_pending (s_up s) = f :: rest ->
  receive_child_frame terminal_from_slice (s_parent s) f = (Ok event, p) ->
  parent_local (next event p) p (s_worker s) (s_request s) (ch_sent (s_down s)) (ch_read (s_up s) ++ [f]) ->
  session_inv (parent_receive f next (set_up (Channel (ch_read (s_up s) ++ [f]) rest) s)).
Proof.
  intros I E Hr PL; unfold parent_receive; simpl; rewrite Hr.
  by apply session_inv_parent_read.
Qed.

(** Parent threads that wait for the child. *)
Definition parent_waits (pc : parent_pc) : bool :=
  match pc with PpReadHello | PpReadAccepted | PpReadTerminal | PpDuplicates _ => true | _ => false end.

Lemma parent_read_hello_inv (s s' : session) :
  session_inv s -> s_ppc s = PpReadHello -> parent_main s = Some s' -> session_inv s'.
Proof.
  intros I Hpc H; pose proof I as [PL CL]; unfold parent_main in H; rewrite Hpc in H.
  apply parent_read_cases in H as [[_ ->]|(f & rest & E & Hk)].
  { apply parent_fault_inv; [by rewrite Hpc|done]. }
  rewrite Hpc in PL; inversion PL; subst; pcs; simplify_eq.
  unfold ch_sent in CL; rewrite E in CL.
  match goal with Hu : [] = ch_read (s_up s) |- _ => rewrite <- Hu in CL end.
  apply next_hello in CL as ->; rewrite (Hk eq_refl); cbn [f_payload f_kind f_request_id hello_f].
  assert (authenticate token token = true) as Ha.
  { unfold authenticate; rewrite Z.eqb_eq, comparison_zero; done. }
  match goal with Hp : PS _ _ _ _ _ _ = s_parent s |- _ => rewrite <- Hp end.
  unfold accept_hello; cbn [ps_state PS f_kind f_request_id f_payload hello_f]; rewrite Ha; cbn.
  apply session_inv_parent_read; [done|done|].
  repeat match goal with Hx : _ = ?g s |- _ => rewrite <- Hx | Hx : _ = ?g (?h s) |- _ => rewrite <- Hx end.
  apply pl_send_request; by left.
Qed.

Lemma parent_read_accepted_inv (s s' : session) :
  session_inv s -> s_ppc s = PpReadAccepted -> parent_main s = Some s' -> session_inv s'.
Proof.
  intros I Hpc H; pose proof I as [PL CL]; unfold parent_main in H; rewrite Hpc in H.
  apply parent_read_cases in H as [[_ ->]|(f & rest & E & Hk)].
  { apply parent_fault_inv; [by rewrite Hpc|done]. }
  rewrite Hpc in PL; inversion PL; subst; pcs; simplify_eq.
  unfold ch_sent in CL; rewrite E in CL.
  match goal with Hu : [_] = ch_read (s_up s) |- _ => rewrite <- Hu in CL end.
  apply next_accepted in CL as ->; rewrite (Hk eq_refl).
  eapply parent_receive_inv; [done|done| |].
  - match goal with Hp : PS _ _ _ _ _ _ = s_parent s |- _ => rewrite <- Hp end; reflexivity.
  - repeat match goal with Hx : _ = ?g s |- _ => rewrite <- Hx | Hx : _ = ?g (?h s) |- _ => rewrite <- Hx end.
    apply pl_authorize; by left.
Qed.

(** Replaces the fields of [s] by what the description says of them. *)
Ltac use_fields :=
  repeat match goal with
         | Hx : _ = s_parent ?s |- _ => rewrite <- Hx
         | Hx : _ = s_worker ?s |- _ => rewrite <- Hx
         | Hx : _ = s_request ?s |- _ => rewrite <- Hx
         | Hx : _ = ch_sent (s_down ?s) |- _ => rewrite <- Hx
         | Hx : _ = ch_read (s_up ?s) |- _ => rewrite <- Hx
         end.

Lemma worker_local_late w cs cr q sent :
  worker_local w cs cr q false sent -> worker_local w cs cr q true sent.
Proof. inversion 1; subst; econstructor; naive_solver. Qed.

Lemma worker_local_sent w cs cr q late sent :
  worker_local w cs cr q late sent -> exists l, sent = request_f :: start_f :: l.
Proof. inversion 1; eauto. Qed.

Lemma start_not_cancel (r : cancel_reason) : ~ is_cancel start_f r.
Proof. intros (b & E & _); discriminate E. Qed.

Lemma parent_cancelled_inv (s : session) (r : cancel_reason) (c f : supervisor_frame)
    (rest : list supervisor_frame) :
  session_inv s -> ch_pending (s_up s) = f :: rest ->
  s_parent s = PS PCancellingBeforeStart true true false (Some r) None -> s_worker s = WkOff ->
  s_request s = Some r -> ch_sent (s_down s) = [request_f; c] -> is_cancel c r ->
  ch_read (s_up s) = [hello_f; accepted_f] ->
  direction (f_kind f) = ChildToParent /\
  session_inv (parent_receive f after_child_frame (set_up (Channel (ch_read (s_up s) ++ [f]) rest) s)).
Proof.
  intros I E Hp Hw Hq Hd Hc Hu; pose proof I as [PL CL]; unfold ch_sent in CL; rewrite E, Hu in CL.
  pose proof Hd as Hd'; unfold ch_sent in Hd'.
  apply next_third in CL as [(-> & l & Hl)|(r' & cf & t & Ht & Hl & Hc' & Ho)]; rewrite Hl in Hd'.
  { exfalso; simplify_eq/=; by apply start_not_cancel in Hc. }
  simplify_eq/=; pose proof (is_cancel_inj _ _ _ Hc Hc') as <-.
  set (t := no_output (expected_outcome r) None None) in *.
  pose proof Ht as (b & -> & Hb); split; [done|].
  eapply parent_receive_inv with (event := EvTerminal)
    (p := PS PTerminal true true false (Some r) (Some t)); [done|done| |].
  - rewrite Hp; unfold receive_child_frame; cbn [ps_request_id PS parent_frame f_request_id f_kind f_payload].
    rewrite Z.eqb_refl; cbn [negb andb]; destruct b;
    (etransitivity; [apply (receive_terminal_ok _ _ t); [done|apply no_output_shape|done|]; right; right; split; [done|]; by exists r|done]).
  - rewrite Hd, Hw, Hq, Hu; simpl.
    eapply pl_cancel_terminal; eauto.
Qed.

Lemma parent_started_inv (s : session) (sr cs : bool) (cr : option cancel_reason) (f : supervisor_frame)
    (rest : list supervisor_frame) :
  session_inv s -> ch_pending (s_up s) = f :: rest ->
  s_parent s = PS (match cr with Some _ => PCancelling | None => if sr then PStarted else PAwaitStarted end)
                 true cs sr cr None ->
  worker_local (s_worker s) cs cr (s_request s) false (ch_sent (s_down s)) ->
  ch_read (s_up s) = [hello_f; accepted_f] ++ (if sr then [started_f] else []) ->
  direction (f_kind f) = ChildToParent /\
  session_inv (parent_receive f after_child_frame (set_up (Channel (ch_read (s_up s) ++ [f]) rest) s)).
Proof.
  intros I E Hp W Hu; pose proof I as [PL CL]; unfold ch_sent in CL; rewrite E, Hu in CL.
  pose proof (worker_local_sent _ _ _ _ _ _ W) as [l Hd]; unfold ch_sent in Hd; destruct sr; simpl in CL.
  - apply next_fourth in CL as (t & Ht & Hv); pose proof Ht as (b & -> & Hb); split; [done|].
    eapply parent_receive_inv with (event := EvTerminal)
      (p := PS PTerminal true cs true cr (Some t)); [done|done| |].
    + rewrite Hp; unfold receive_child_frame; cbn [ps_request_id PS parent_frame f_request_id f_kind f_payload].
      rewrite Z.eqb_refl; cbn [negb andb]; destruct b;
      (etransitivity; [apply (receive_terminal_ok _ _ t); [done|done|done|]; destruct cr; [by right; left|by left]|done]).
    + rewrite Hu; simpl; eapply pl_terminal; [by left|done|by apply worker_local_late].
  - apply next_third in CL as [(-> & _)|(r' & cf & t & _ & Hl & Hc' & _)].
    2: { exfalso; rewrite Hl in Hd; simplify_eq/=; by apply start_not_cancel in Hc'. }
    split; [done|].
    eapply parent_receive_inv with (event := EvStarted)
      (p := PS (match cr with Some _ => PCancelling | None => PStarted end) true cs true cr None); [done|done| |].
    + rewrite Hp; by destruct cr.
    + rewrite Hu; simpl; apply (pl_started true); [by left|done].
Qed.

Lemma parent_read_terminal_inv (s s' : session) :
  session_inv s -> s_ppc s = PpReadTerminal -> parent_main s = Some s' -> session_inv s'.
Proof.
  intros I Hpc H; pose proof I as [PL CL]; unfold parent_main in H; rewrite Hpc in H.
  apply parent_read_cases in H as [[_ ->]|(f & rest & E & Hk)].
  { apply parent_fault_inv; [by rewrite Hpc|done]. }
  rewrite Hpc in PL; inversion PL; subst; pcs; simplify_eq.
  - edestruct parent_cancelled_inv as [Hdir Hi]; eauto. by rewrite (Hk Hdir).
  - edestruct parent_started_inv as [Hdir Hi]; eauto. by rewrite (Hk Hdir).
Qed.

Lemma parent_duplicates_inv (s s' : session) (t : supervisor_terminal) :
  session_inv s -> s_ppc s = PpDuplicates t -> parent_main s = Some s' -> session_inv s'.
Proof.
  intros I Hpc H; pose proof I as [PL CL]; unfold parent_main in H; rewrite Hpc in H.
  rewrite Hpc in PL; unfold ch_take in H; unfold ch_sent in CL.
  destruct (ch_pending (s_up s)) as [|f rest] eqn:E.
  - simplify_eq; apply session_inv_parent; [done|].
    inversion PL; subst; pcs; simplify_eq; use_fields.
    + eapply pl_cancel_terminal; eauto.
    + eapply pl_terminal; eauto.
  - exfalso; inversion PL; subst; pcs; simplify_eq.
    + match goal with Hx : _ = ch_read (s_up s) |- _ => rewrite <- Hx in CL end.
      by eapply next_none in CL.
    + match goal with Hx : _ = ch_read (s_up s) |- _ => rewrite <- Hx in CL end.
      by apply next_none_started in CL.
Qed.


Lemma ch_sent_write (f : supervisor_frame) (c : channel) : ch_sent (ch_write f c) = ch_sent c ++ [f].
Proof. unfold ch_sent, ch_write; simpl; by rewrite app_assoc. Qed.

(** The parts of the invariant after a frame was written to the child. *)
Lemma session_inv_write (s : session) (pc : parent_pc) (p : parent_session) (w : worker_pc) (f : supervisor_frame) :
  session_inv s ->
  parent_local pc p w (s_request s) (ch_sent (s_down s) ++ [f]) (ch_read (s_up s)) ->
  session_inv (Session pc p w (s_request s) (ch_write f (s_down s)) (s_up s) (s_cpc s) (s_child s)
                 (s_control s) (s_child_request s)).
Proof. intros [_ CL] PL; split; simpl; [by rewrite ch_sent_write|done]. Qed.

Lemma parent_act_inv (s s' : session) :
  session_inv s -> parent_waits (s_ppc s) = false -> parent_main s = Some s' -> session_inv s'.
Proof.
  intros I Hw H; pose proof I as [PL CL]; unfold parent_main in H.
  inversion PL; subst; pcs;
    match goal with Hx : s_ppc s = _ |- _ => rewrite Hx in Hw, H end; try discriminate; clear Hw;
    repeat match goal with Hx : _ = s_parent s |- _ => rewrite <- Hx in H end; simpl in H.
  - simplify_eq; apply session_inv_parent; [done|]; use_fields; apply pl_write_request; by left.
  - unfold write_down, frame_new in H; rewrite decide_False in H by lia; simplify_eq.
    apply (session_inv_write s _ _ (s_worker s)); [done|]; use_fields; apply pl_read_accepted; by left.
  - unfold authorize_start in H; simpl in H.
    destruct (s_request s) as [r|] eqn:Hr; simplify_eq; apply session_inv_parent; try done; use_fields; rewrite Hr.
    + apply pl_send_cancel; by left.
    + apply pl_write_start; by left.
  - simplify_eq; apply (session_inv_write s PpReadTerminal (s_parent s) WkIdle); [done|]; use_fields.
    apply (pl_started false false None); [by left|]. apply wl_idle; by left.
  - match goal with Hx : Some _ = s_request s |- _ => rewrite <- Hx in H end.
    unfold send_cancel in H; cbn in H; rewrite bool_decide_eq_true_2 in H by done; cbn in H; simplify_eq.
    apply session_inv_parent; [done|]; use_fields; apply pl_write_cancel; by left.
  - destruct (cancel_frame_ok r) as (f & Hf & Hc); unfold write_down in H; rewrite Hf in H; simplify_eq.
    apply (session_inv_write s _ _ (s_worker s)); [done|]; use_fields; apply pl_cancelled; [by left|done].
Qed.

Lemma parent_main_inv (s s' : session) : session_inv s -> parent_main s = Some s' -> session_inv s'.
Proof.
  intros I H; destruct (parent_waits (s_ppc s)) eqn:Hw; [|by eapply parent_act_inv].
  destruct (s_ppc s) eqn:Hpc; try discriminate Hw.
  - by eapply parent_read_hello_inv.
  - by eapply parent_read_accepted_inv.
  - by eapply parent_read_terminal_inv.
  - by eapply parent_duplicates_inv.
Qed.

Lemma worker_started_inv (sr cs : bool) (cr q : option cancel_reason) (w : worker_pc) (ppc : parent_pc)
    (down up : channel) cpc c k cq (s' : session) :
  let s := Session ppc (PS (match cr with Some _ => PCancelling | None => if sr then PStarted else PAwaitStarted end)
             true cs sr cr None) w q down up cpc c k cq in
  ppc = PpReadTerminal \/ ppc = PpFault ->
  worker_local w cs cr q false (ch_sent down) ->
  ch_read up = [hello_f; accepted_f] ++ (if sr then [started_f] else []) ->
  worker_main s = Some s' ->
  parent_local (s_ppc s') (s_parent s') (s_worker s') (s_request s') (ch_sent (s_down s')) (ch_read (s_up s')).
Proof.
  intros s Hpc W Hu H; unfold worker_main, s in H; simpl in H.
  inversion W; subst; pcs; destruct_and?; subst; try discriminate H; try discriminate.
  all: try (match type of H with context [cancel_frame ?r] =>
      destruct (cancel_frame_ok r) as (f & Hf & Hc); rewrite Hf in H; cbn in H; injection H as <-; simpl;
      rewrite Hu, ch_sent_write; match goal with Hx : _ = ch_sent _ |- _ => rewrite <- Hx end;
      apply (pl_started sr true (Some r)); [auto|]; apply wl_grace; [by left|done]
    end).
  all: destruct q as [r|]; [|discriminate H];
    assert (Some (set_worker (WkWrite r) (PS PCancelling true true sr (Some r) None) s) = Some s') as E
      by (by destruct sr);
    injection E as <-; simpl; rewrite Hu;
    match goal with Hx : _ = ch_sent _ |- _ => rewrite <- Hx end;
    apply (pl_started sr true (Some r)); [auto|]; apply wl_write; by left.
Qed.

Lemma worker_terminal_inv (cs : bool) (cr q : option cancel_reason) (w : worker_pc) (ppc : parent_pc)
    (t : supervisor_terminal) (tf : supervisor_frame) (down up : channel) cpc c k cq (s' : session) :
  let s := Session ppc (PS PTerminal true cs true cr (Some t)) w q down up cpc c k cq in
  ppc = PpDuplicates t \/ ppc = PpDone t cr \/ ppc = PpFault ->
  worker_local w cs cr q true (ch_sent down) -> is_terminal tf t ->
  ch_read up = [hello_f; accepted_f; started_f; tf] ->
  worker_main s = Some s' ->
  parent_local (s_ppc s') (s_parent s') (s_worker s') (s_request s') (ch_sent (s_down s')) (ch_read (s_up s')).
Proof.
  intros s Hpc W Ht Hu H; unfold worker_main, s in H; simpl in H.
  inversion W; subst; pcs; destruct_and?; subst; try discriminate H; try discriminate.
  all: try (match type of H with context [cancel_frame ?r] =>
      destruct (cancel_frame_ok r) as (f & Hf & Hc); rewrite Hf in H; cbn in H; injection H as <-; simpl;
      rewrite Hu, ch_sent_write; match goal with Hx : _ = ch_sent _ |- _ => rewrite <- Hx end;
      eapply pl_terminal; eauto; apply wl_grace; auto
    end).
  all: destruct q as [r|]; [|discriminate H]; simpl in H; try discriminate; injection H as <-; simpl;
    rewrite Hu; match goal with Hx : _ = ch_sent _ |- _ => rewrite <- Hx end;
    eapply pl_terminal; eauto; apply wl_idle; auto.
Qed.

Lemma worker_main_child (s s' : session) :
  worker_main s = Some s' ->
  s_cpc s' = s_cpc s /\ s_child s' = s_child s /\ s_control s' = s_control s /\
  s_child_request s' = s_child_request s /\ ch_read (s_down s') = ch_read (s_down s) /\ s_up s' = s_up s.
Proof.
  unfold worker_main; intros H; repeat (destr_match; try done); by simplify_eq/=.
Qed.

Lemma worker_main_inv (s s' : session) : session_inv s -> worker_main s = Some s' -> session_inv s'.
Proof.
  intros [PL CL] H; pose proof (worker_main_child s s' H) as (E1 & E2 & E3 & E4 & E5 & E6).
  split; [|by rewrite E1, E2, E3, E4, E5, E6].
  clear E1 E2 E3 E4 E5 E6 CL; destruct s as [ppc p w q down [ur up] cpc c k cq]; simpl in PL.
  inversion PL; subst; try (unfold worker_main in H; discriminate H).
  - by eapply worker_started_inv in H.
  - by eapply worker_terminal_inv in H.
Qed.

(** What the parent may have sent next, given what the child has received. *)
Lemma next_request ppc p w q f rest read :
  parent_local ppc p w q (f :: rest) read -> f = request_f.
Proof.
  inversion 1; subst; try done; match goal with W : worker_local _ _ _ _ _ _ |- _ => inversion W; by subst end.
Qed.

Lemma next_start ppc p w q f rest read :
  parent_local ppc p w q (request_f :: f :: rest) read ->
  f = start_f \/ exists r, is_cancel f r /\ q = Some r /\ rest = [].
Proof.
  inversion 1; subst; eauto; match goal with W : worker_local _ _ _ _ _ _ |- _ => inversion W; subst; by left end.
Qed.

Lemma next_control ppc p w q f rest read :
  parent_local ppc p w q (request_f :: start_f :: f :: rest) read ->
  exists r, is_cancel f r /\ q = Some r /\ rest = [].
Proof.
  inversion 1; subst; match goal with W : worker_local _ _ _ _ _ _ |- _ => inversion W; subst; eauto end.
Qed.

Lemma session_inv_child (s : session) (pc : child_pc) (c : child_session) (k : control_pc)
    (cq : option cancel_reason) (down up : channel) :
  session_inv s -> ch_sent down = ch_sent (s_down s) -> ch_read up = ch_read (s_up s) ->
  child_local pc c k cq (ch_read down) (ch_sent up) ->
  session_inv (Session (s_ppc s) (s_parent s) (s_worker s) (s_request s) down up pc c k cq).
Proof. intros [PL _] E1 E2 CL; split; simpl; [by rewrite E1, E2|done]. Qed.

Lemma child_read_cases (k : supervisor_frame -> session -> session) (s s' : session) :
  child_read k s = Some s' ->
  exists f rest, ch_pending (s_down s) = f :: rest /\
    (direction (f_kind f) = ParentToChild -> s' = k f (set_down (Channel (ch_read (s_down s) ++ [f]) rest) s)).
Proof.
  unfold child_read, ch_take, validate_direction; destruct (ch_pending (s_down s)) as [|f rest]; [done|].
  intros H; exists f, rest; split; [done|].
  intros Hd; rewrite decide_True in H by done; by simplify_eq/=.
Qed.

Lemma ch_sent_taken (d : channel) (f : supervisor_frame) (rest : list supervisor_frame) :
  ch_pending d = f :: rest -> ch_sent (Channel (ch_read d ++ [f]) rest) = ch_sent d.
Proof. intros E; unfold ch_sent; simpl; by rewrite <- app_assoc, E. Qed.

Lemma child_fault_inv (s : session) :
  child_gone s = false -> session_inv s -> session_inv (set_child CpFault (s_child s) s).
Proof.
  intros Hg [PL CL]; split; [done|]; simpl.
  destruct CL; econstructor; eauto.
Qed.

Lemma decode_cancel_ok (f : supervisor_frame) (r : cancel_reason) :
  is_cancel f r -> f_kind f = KCancel /\ f_request_id f = SUPERVISOR_REQUEST_ID /\
  decode_payload reason_from_slice (f_payload f) = Ok r.
Proof. by intros (b & -> & H). Qed.

Ltac child_fields :=
  repeat match goal with
         | Hx : _ = s_child ?s |- _ => rewrite <- Hx
         | Hx : _ = s_control ?s |- _ => rewrite <- Hx
         | Hx : _ = s_child_request ?s |- _ => rewrite <- Hx
         | Hx : _ = ch_read (s_down ?s) |- _ => rewrite <- Hx
         | Hx : _ = ch_sent (s_up ?s) |- _ => rewrite <- Hx
         end.

Ltac use_sent :=
  repeat match goal with
         | Hx : _ = ch_read ?d |- _ => rewrite <- Hx
         | Hx : _ = ch_sent ?u |- _ => rewrite <- Hx
         end.

Lemma child_read_request_inv (s s' : session) :
  session_inv s -> s_cpc s = CpReadRequest -> child_main s = Some s' -> session_inv s'.
Proof.
  intros I Hpc H; pose proof I as [PL CL]; unfold child_main in H; rewrite Hpc in H, CL.
  apply child_read_cases in H as (f & rest & E & Hk).
  inversion CL; subst; pcs; simplify_eq.
  unfold ch_sent in PL; rewrite E in PL; match goal with Hx : [] = ch_read (s_down s) |- _ => rewrite <- Hx in PL end.
  apply next_request in PL as ->; rewrite (Hk eq_refl).
  match goal with Hx : child_new = s_child s |- _ => rewrite <- Hx end.
  cbn; unfold decode_payload; rewrite decide_False, request_decodes by lia; simpl.
  apply (session_inv_child s CpWriteAccepted _ _ _ _ _ I); [by apply ch_sent_taken|done|]; simpl.
  child_fields; apply cl_write_accepted; by left.
Qed.

Lemma child_read_start_inv (s s' : session) :
  session_inv s -> s_cpc s = CpReadStart -> child_main s = Some s' -> session_inv s'.
Proof.
  intros I Hpc H; pose proof I as [PL CL]; unfold child_main in H; rewrite Hpc in H, CL.
  apply child_read_cases in H as (f & rest & E & Hk).
  inversion CL; subst; pcs; simplify_eq.
  unfold ch_sent in PL; rewrite E in PL; match goal with Hx : [_] = ch_read (s_down s) |- _ => rewrite <- Hx in PL end.
  match goal with Hx : CS _ _ _ = s_child s |- _ => rewrite <- Hx in Hk end.
  apply next_start in PL as [->|(r & Hc & Hq & ->)].
  - rewrite (Hk eq_refl); cbn.
    apply (session_inv_child s CpWriteStarted _ _ _ _ _ I); [by apply ch_sent_taken|done|]; simpl.
    child_fields; apply cl_write_started; [by left|]. apply kl_idle; by left.
  - destruct (decode_cancel_ok _ _ Hc) as (K1 & K2 & K3).
    rewrite Hk by (by rewrite K1); unfold receive_parent_frame; cbn [cs_request_id CS is_some_and].
    rewrite K1, K2, Z.eqb_refl; cbn [negb]; unfold receive_cancel; rewrite K3; cbn [cs_cancel_reason CS cs_state].
    unfold child_exit, mark_terminal; cbn [from_option cs_cancel_reason]; unfold id; simpl s_child.
    rewrite no_output_shape; cbn.
    apply (session_inv_child s (CpWriteTerminal _) _ _ _ _ _ I); [by apply ch_sent_taken|done|]; simpl.
    child_fields; eapply cl_cancelled; [by left|done|done].
Qed.

Lemma control_local_join k q recv :
  control_local k q recv -> control_local (join_control k) q recv.
Proof.
  inversion 1; subst; pcs; subst;
    first [ apply kl_idle; by auto | eapply kl_cancel; [by auto|done] | apply kl_fault | by eapply kl_cancel_fault ].
Qed.

Lemma child_act_inv (s s' : session) :
  session_inv s -> s_cpc s <> CpReadRequest -> s_cpc s <> CpReadStart -> child_main s = Some s' -> session_inv s'.
Proof.
  intros I Hn1 Hn2 H; pose proof I as [PL CL]; destruct s as [ppc p w q down up cpc c k cq].
  unfold child_main in H; simpl in *.
  inversion CL; subst; pcs; subst; try congruence; try discriminate H; cbn in H.
  - simplify_eq; apply (session_inv_child _ CpReadRequest _ _ _ _ _ I); [done|done|]; simpl.
    rewrite ch_sent_write; use_sent; apply cl_read_request; by left.
  - simplify_eq; apply (session_inv_child _ CpReadStart _ _ _ _ _ I); [done|done|]; simpl.
    rewrite ch_sent_write; use_sent; apply cl_read_start; by left.
  - destruct (terminal_frame_ok _ (no_output_shape r)) as (b & Hb & Ht).
    rewrite Hb in H; cbn in H; simplify_eq.
    apply (session_inv_child _ (CpExited _) _ _ _ _ _ I); [done|done|]; simpl.
    rewrite ch_sent_write; use_sent; simpl.
    eapply cl_cancel_exit; [left; by destruct r|done|done|done].
  - simplify_eq; apply (session_inv_child _ CpRunning _ _ _ _ _ I); [done|done|]; simpl.
    rewrite ch_sent_write; use_sent; apply cl_running; [by left|done].
  - unfold child_exit, mark_terminal in H; rewrite child_terminal_shape in H; cbn in H; simplify_eq.
    apply (session_inv_child _ (CpWriteTerminal _) _ _ _ _ _ I); [done|done|]; simpl.
    use_sent; apply cl_verdict; [by left|by apply control_local_join|apply child_terminal_shape].
  - destruct (terminal_frame_ok t) as (b & Hb & Ht); [done|]; rewrite Hb in H; cbn in H; simplify_eq.
    apply (session_inv_child _ (CpExited _) _ _ _ _ _ I); [done|done|]; simpl.
    rewrite ch_sent_write; use_sent; simpl.
    eapply cl_exit; [by left|done|done|done].
Qed.

Lemma child_main_inv (s s' : session) : session_inv s -> child_main s = Some s' -> session_inv s'.
Proof.
  intros I H; destruct (s_cpc s) eqn:Hpc;
    try (by apply (child_act_inv s); [done|rewrite Hpc|rewrite Hpc|]).
  - by eapply child_read_request_inv.
  - by eapply child_read_start_inv.
Qed.

Lemma child_control_inv (s s' : session) : session_inv s -> child_control s = Some s' -> session_inv s'.
Proof.
  intros I H; pose proof I as [PL CL]; destruct s as [ppc p w q down up cpc c k cq].
  unfold child_control in H; simpl in *; destruct k; try discriminate H.
  assert (cpc = CpWriteStarted \/ cpc = CpRunning \/ exists r, cpc = CpStopping r) as Hpc.
  { destruct cpc; try discriminate H; eauto. }
  assert (control_local CtReading cq (ch_read down) /\ c = CS CStarted None None) as [K ->].
  { destruct Hpc as [->|[->|(r & ->)]]; inversion CL; subst; pcs; try discriminate; done. }
  destruct (ch_pending down) as [|f rest] eqn:E.
  { unfold ch_take in H; rewrite E in H; destruct Hpc as [->|[->|(r & ->)]]; discriminate H. }
  unfold ch_sent in PL; rewrite E in PL.
  inversion K; subst; match goal with Hx : _ = ch_read down |- _ => rename Hx into Hd end; rewrite <- Hd in PL;
    cbn [app] in PL; apply next_control in PL as (rc & Hc & Hq & Hr); try discriminate Hr; subst.
  destruct (decode_cancel_ok _ _ Hc) as (K1 & K2 & K3).
  assert (s' = Session ppc p w (Some rc) (Channel (ch_read down ++ [f]) []) up cpc (CS CStarted None None)
                 CtReading (Some rc)) as ->.
  { unfold ch_take, validate_direction in H; rewrite E, K1, decide_True in H by done; cbn in H; rewrite K1, K2, K3 in H; cbn in H.
    destruct Hpc as [->|[->|(r & ->)]]; cbn in H; by simplify_eq. }
  apply (session_inv_child _ cpc (CS CStarted None None) CtReading (Some rc)
           (Channel (ch_read down ++ [f]) []) up I); [by apply ch_sent_taken|done|]; simpl; rewrite <- Hd; cbn [app].
  assert (control_local CtReading (Some rc) [request_f; start_f; f]) as K' by (apply kl_cancel; auto).
  destruct Hpc as [->|[->|(r & ->)]]; inversion CL; subst; pcs; try discriminate; use_sent;
    first [ apply cl_write_started; by auto | apply cl_running; by eauto ].
Qed.

Lemma control_fault_inv (s : session) :
  s_control s = CtReading -> session_inv s ->
  session_inv (set_control CtFault (get_or_insert (s_child_request s) User) s).
Proof.
  intros Hk [PL CL]; split; [done|]; simpl.
  assert (forall q l, control_local CtReading q l -> control_local CtFault (get_or_insert q User) l) as HK.
  { intros q l K; inversion K; subst; [apply kl_fault|by eapply kl_cancel_fault]. }
  rewrite Hk in CL; inversion CL; subst; child_fields.
  - by apply cl_write_started, HK.
  - by apply cl_running, HK.
  - by apply cl_verdict; [|apply HK|].
  - by eapply cl_exit; [|apply HK| |].
Qed.

Lemma worker_fault_inv (s : session) :
  match s_worker s with WkIdle | WkWrite _ => True | _ => False end ->
  session_inv s -> session_inv (set_worker WkFault (s_parent s) s).
Proof.
  intros Hw [PL CL]; split; [|done]; simpl.
  assert (forall cs cr q late l, worker_local (s_worker s) cs cr q late l -> worker_local WkFault cs cr q late l) as HW.
  { intros cs cr q late l W; inversion W; subst;
      [apply wl_idle; auto|apply wl_write; auto|apply wl_grace; auto]. }
  inversion PL; subst;
    try (match goal with Hx : WkOff = s_worker s |- _ => rewrite <- Hx in Hw; done end).
  - by apply pl_started, HW.
  - by eapply pl_terminal, HW.
Qed.

Lemma request_inv (s : session) (r : cancel_reason) :
  session_inv s -> session_inv (set_request (get_or_insert (s_request s) r) s).
Proof.
  intros [PL CL]; split; [|done]; simpl.
  assert (forall cs cr q late l, worker_local (s_worker s) cs cr q late l ->
            worker_local (s_worker s) cs cr (get_or_insert q r) late l) as HW.
  { intros cs cr q late l W; inversion W; subst; simpl; [by apply wl_idle|by apply wl_write|by apply wl_grace]. }
  inversion PL; subst; simpl; econstructor; eauto.
Qed.

Lemma session_step_inv (s s' : session) : session_inv s -> session_step s s' -> session_inv s'.
Proof.
  intros I [[H|H]|H]; destruct H.
  - by eapply parent_main_inv.
  - by eapply worker_main_inv.
  - by eapply child_main_inv.
  - by eapply child_control_inv.
  - by apply request_inv.
  - destruct I as [PL CL]; split; [done|]; simpl; rewrite H in CL.
    inversion CL; subst; pcs; try discriminate; child_fields; apply cl_running; eauto.
  - by apply parent_fault_inv.
  - by apply worker_fault_inv.
  - by apply child_fault_inv.
  - by apply control_fault_inv.
Qed.

Lemma session_inv_new : session_inv session_new.
Proof. split; simpl; [apply pl_hello|apply cl_hello]; by left. Qed.

Lemma session_reachable_inv (s : session) : reachable session_step session_new s -> session_inv s.
Proof. apply reachable_invariant; [apply session_inv_new|apply session_step_inv]. Qed.

(** ** Agreement *)
Definition user_code (s : session) : bool :=
  match s_cpc s with CpRunning | CpStopping _ => true | _ => false end.

Definition rejected (s : session) : bool :=
  match s_ppc s with PpRejected _ => true | _ => false end ||
  match s_worker s with WkRejected _ => true | _ => false end ||
  match s_cpc s with CpRejected _ => true | _ => false end ||
  match s_control s with CtRejected _ => true | _ => false end.

Lemma session_inv_not_rejected (s : session) : session_inv s -> rejected s = false.
Proof.
  intros [PL CL]; unfold rejected.
  assert (match s_ppc s with PpRejected _ => true | _ => false end = false) as ->.
  { inversion PL; pcs; match goal with Hx : s_ppc s = _ |- _ => by rewrite Hx end. }
  assert (match s_worker s with WkRejected _ => true | _ => false end = false) as ->.
  { inversion PL; subst; try done; match goal with W : worker_local _ _ _ _ _ _ |- _ => inversion W; subst; pcs; destruct_and? end;
      match goal with Hx : s_worker s = _ |- _ => by rewrite Hx end. }
  assert (match s_cpc s with CpRejected _ => true | _ => false end = false) as ->.
  { inversion CL; subst; pcs; match goal with Hx : s_cpc s = _ |- _ => by rewrite Hx end. }
  inversion CL; subst; try done;
    match goal with K : control_local _ _ _ |- _ => inversion K; subst; pcs; try done end;
    match goal with Hx : s_control s = _ |- _ => by rewrite Hx end.
Qed.

Lemma started_child (s : session) :
  session_inv s -> user_code s = true ->
  (exists l, ch_read (s_down s) = request_f :: start_f :: l).
Proof.
  intros [_ CL] Hu; unfold user_code in Hu; inversion CL; subst; pcs;
    match goal with Hx : s_cpc s = _ |- _ => rewrite Hx in Hu; try discriminate Hu end;
    by eapply control_recv.
Qed.

Lemma started_parent (s : session) (l : list supervisor_frame) :
  session_inv s -> ch_sent (s_down s) = request_f :: start_f :: l ->
  cancelled_before_start (ps_state (s_parent s)) = false.
Proof.
  intros [PL _] Hd; inversion PL as [| | | | | | | |r c pc _ Hc E1 E2 E3 E4 E5 E6
    |r c t tf pc _ Hc _ _ E1 E2 E3 E4 E5 E6| |]; subst; try done; try congruence.
  - exfalso; match goal with Hx : [request_f; c] = ch_sent (s_down s) |- _ => rewrite Hd in Hx end.
    simplify_eq; by apply start_not_cancel in Hc.
  - simpl; by destruct cr, sr.
Qed.

Ltac same_terminal :=
  match goal with
  | H1 : is_terminal ?f ?a, H2 : is_terminal ?f ?b |- _ =>
      assert_fails (constr_eq a b); pose proof (is_terminal_inj _ _ _ H1 H2); subst
  end.

Lemma done_agrees (s : session) (t : supervisor_terminal) (cr : option cancel_reason) :
  session_inv s -> s_ppc s = PpDone t cr ->
  cs_terminal (s_child s) = Some t /\ validate_supervisor_terminal_shape t = Ok () /\
  (forall r, cr = Some r -> s_request s = Some r /\
     ((exists l, ch_sent (s_down s) = request_f :: start_f :: l) \/ st_outcome t = expected_outcome r)).
Proof.
  intros [PL CL] Hpc; rewrite Hpc in PL; unfold ch_sent in CL; inversion PL; subst; pcs; simplify_eq;
    match goal with Hx : _ = ch_read (s_up s) |- _ => rewrite <- Hx in CL end; cbn [app] in CL.
  - inversion CL; subst; simplify_eq;
      try (match goal with Hx : is_terminal started_f _ |- _ => destruct Hx as (? & E & _); discriminate E end).
    same_terminal.
    simpl; split_and!; [done|apply no_output_shape|].
    intros r' [= <-]; split; [done|by right].
  - inversion CL; subst; simplify_eq.
    same_terminal.
    simpl; split_and!; [done|done|].
    intros r ->; match goal with W : worker_local _ _ _ _ _ _ |- _ => inversion W; subst; eauto 10 end.
Qed.

(** C10. A supervised session is consistent in every interleaving, with
    cancellations and failures at any point.  Neither honest side ever reports a
    protocol violation; user code runs only if the parent authorized START, so
    never after a cancellation that was recorded before; the terminal the parent
    returns is the one the child stored, is well formed, and comes with the
    cancellation reason the parent's caller gave, which a child that was never
    started reports as its outcome; and a cancellation the child observes
    carries that same reason. *)
Theorem session_agreement (s : session) :
  reachable session_step session_new s ->
  rejected s = false /\
  (user_code s = true -> cancelled_before_start (ps_state (s_parent s)) = false) /\
  (forall t cr, s_ppc s = PpDone t cr ->
     cs_terminal (s_child s) = Some t /\ validate_supervisor_terminal_shape t = Ok () /\
     forall r, cr = Some r -> s_request s = Some r /\
       ((exists l, ch_sent (s_down s) = request_f :: start_f :: l) \/ st_outcome t = expected_outcome r)) /\
  (forall r, s_child_request s = Some r -> s_control s <> CtFault -> s_request s = Some r).
Proof.
  intros H; pose proof (session_reachable_inv s H) as I; split_and!.
  - by apply session_inv_not_rejected.
  - intros Hu; destruct (started_child s I Hu) as [l Hl].
    apply (started_parent s (l ++ ch_pending (s_down s))); [done|].
    unfold ch_sent; by rewrite Hl.
  - intros t cr; by apply done_agrees.
  - intros r Hr Hf; destruct I as [PL CL].
    assert (exists f, is_cancel f r /\ ch_read (s_down s) = [request_f; start_f; f]) as (f & Hc & Hd).
    { rewrite Hr in CL; inversion CL; subst;
        match goal with K : control_local _ _ _ |- _ => inversion K; subst; pcs; try congruence; eauto end. }
    unfold ch_sent in PL; rewrite Hd in PL; cbn [app] in PL.
    apply next_control in PL as (r' & Hc' & -> & _); by rewrite (is_cancel_inj _ _ _ Hc Hc').
Qed.

(** ** Termination *)

(** A bound on the steps left. *)
Definition parent_rank (pc : parent_pc) : nat :=
  match pc with
  | PpReadHello => 30 | PpSendRequest => 29 | PpWriteRequest => 28 | PpReadAccepted => 26
  | PpAuthorize => 25 | PpWriteStart => 20 | PpSendCancel => 20 | PpWriteCancel _ => 19
  | PpReadTerminal => 5 | PpDuplicates _ => 4 | PpDone _ _ => 0 | PpRejected _ => 0 | PpFault => 0
  end.
Definition worker_rank (w : worker_pc) : nat :=
  match w with WkIdle => 5 | WkWrite _ => 4 | _ => 0 end.
Definition child_rank (pc : child_pc) : nat :=
  match pc with
  | CpHello => 30 | CpReadRequest => 28 | CpWriteAccepted => 27 | CpReadStart => 25
  | CpWriteStarted => 20 | CpRunning => 18 | CpStopping _ => 17 | CpWriteTerminal _ => 16 | _ => 0
  end.
Definition steps_left (s : session) : nat :=
  parent_rank (s_ppc s) + worker_rank (s_worker s) + child_rank (s_cpc s) +
  length (ch_pending (s_down s)) + length (ch_pending (s_up s)).

Lemma length_write (f : supervisor_frame) (c : channel) :
  length (ch_pending (ch_write f c)) = S (length (ch_pending c)).
Proof. unfold ch_write; simpl; rewrite length_app; simpl; lia. Qed.

Lemma parent_receive_steps (f : supervisor_frame) (next : frame_event -> parent_session -> parent_pc)
    (n : nat) (s : session) :
  (forall e p, (parent_rank (next e p) <= n)%nat) ->
  let s' := parent_receive f next s in
  (parent_rank (s_ppc s') <= n)%nat /\ s_worker s' = s_worker s /\ s_cpc s' = s_cpc s /\
  s_down s' = s_down s /\ s_up s' = s_up s.
Proof.
  intros Hn; unfold parent_receive.
  destruct (receive_child_frame _ _ _) as [[e|e] p]; simpl; split_and!; auto; lia.
Qed.

Lemma parent_read_steps (k : supervisor_frame -> session -> session) (s s' : session) :
  (0 < parent_rank (s_ppc s))%nat ->
  (forall f up, let s1 := k f (set_up up s) in
     (parent_rank (s_ppc s1) <= parent_rank (s_ppc s))%nat /\ s_worker s1 = s_worker s /\
     s_cpc s1 = s_cpc s /\ s_down s1 = s_down s /\ s_up s1 = up) ->
  parent_read k (parent_fault s) s = Some s' -> (steps_left s' < steps_left s)%nat.
Proof.
  intros Hr Hk; unfold parent_read, ch_take, steps_left.
  destruct (ch_pending (s_up s)) as [|f rest] eqn:E.
  - destruct (child_gone s); intros; simplify_eq/=; rewrite E; simpl; lia.
  - destruct (validate_direction _ _) as [[]|e]; intros H; simplify_eq/=; [|lia].
    destruct (Hk f (Channel (ch_read (s_up s) ++ [f]) rest)) as (A & B & C & D & F).
    rewrite B, C, D, F; simpl in *; lia.
Qed.

Lemma write_down_steps (m : result supervisor_frame io_error) (pc : parent_pc) (s : session) :
  (2 + parent_rank pc <= parent_rank (s_ppc s))%nat -> (steps_left (write_down m pc s) < steps_left s)%nat.
Proof.
  intros Hr; unfold write_down, steps_left; destruct m; cbn -[ch_write]; [rewrite length_write|]; lia.
Qed.

Lemma parent_main_steps (s s' : session) :
  parent_main s = Some s' -> (steps_left s' < steps_left s)%nat.
Proof.
  unfold parent_main; destruct (s_ppc s) eqn:Hpc; intros H; try discriminate H.
  - apply parent_read_steps in H; [done|rewrite Hpc; simpl; lia|].
    intros f up; rewrite Hpc; cbv zeta. destruct (_ && _); [|simpl; rewrite Hpc; by split_and!].
    destruct (accept_hello _ _ _) as [[]]; simpl; split_and!; auto; lia.
  - destruct (send_request _) as [[]]; simplify_eq/=; unfold steps_left; simpl; rewrite Hpc; simpl; lia.
  - simplify_eq; apply write_down_steps; rewrite Hpc; simpl; lia.
  - apply parent_read_steps in H; [done|rewrite Hpc; simpl; lia|].
    intros f up; rewrite Hpc; apply (parent_receive_steps f after_accepted 26 (set_up up s)).
    intros [] p; simpl; lia.
  - destruct (authorize_start _ _) as [[[]|]]; simplify_eq/=; unfold steps_left; simpl; rewrite Hpc; simpl; lia.
  - simplify_eq; unfold steps_left; rewrite Hpc; cbn -[ch_write]; rewrite length_write; lia.
  - destruct (s_request s); [|discriminate H].
    destruct (send_cancel _ _) as [[[]|]]; simplify_eq/=; unfold steps_left; simpl; rewrite Hpc; simpl; lia.
  - simplify_eq; apply write_down_steps; rewrite Hpc; simpl; lia.
  - apply parent_read_steps in H; [done|rewrite Hpc; simpl; lia|].
    intros f up; rewrite Hpc; apply (parent_receive_steps f after_child_frame 5 (set_up up s)).
    intros [] p; simpl; try lia; destruct (ps_terminal p); simpl; lia.
  - unfold ch_take in H; unfold steps_left; destruct (ch_pending (s_up s)) as [|f rest] eqn:E.
    + simplify_eq/=; rewrite Hpc, E; simpl; lia.
    + destruct (validate_direction _ _) as [[]|e]; simplify_eq/=; [|rewrite Hpc; simpl; lia].
      destruct (parent_receive_steps f (after_duplicate t) 4 (set_up (Channel (ch_read (s_up s) ++ [f]) rest) s))
        as (A & B & C & D & F); [intros [] p; simpl; lia|].
      rewrite B, C, D, F, Hpc; simpl in *; lia.
Qed.

Lemma worker_main_steps (s s' : session) :
  worker_main s = Some s' -> (steps_left s' < steps_left s)%nat.
Proof.
  unfold worker_main, steps_left; destruct (s_worker s) eqn:Hw; intros H; try discriminate H.
  - destruct (s_request s); [|discriminate H]; destruct (terminal_seen s); [discriminate H|].
    destruct (send_cancel _ _) as [[[]|]]; simplify_eq/=; lia.
  - destruct (cancel_frame r); simplify_eq; cbn -[ch_write]; rewrite ?length_write; lia.
Qed.

Lemma child_read_steps (k : supervisor_frame -> session -> session) (s s' : session) :
  (forall f down, let s1 := k f (set_down down s) in
     (child_rank (s_cpc s1) <= child_rank (s_cpc s))%nat /\ s_ppc s1 = s_ppc s /\ s_worker s1 = s_worker s /\
     s_down s1 = down /\ s_up s1 = s_up s) ->
  child_read k s = Some s' -> (steps_left s' < steps_left s)%nat.
Proof.
  intros Hk; unfold child_read, ch_take, steps_left.
  destruct (ch_pending (s_down s)) as [|f rest] eqn:E; [done|].
  destruct (validate_direction _ _) as [[]|e]; intros H; simplify_eq/=; [|lia].
  destruct (Hk f (Channel (ch_read (s_down s) ++ [f]) rest)) as (A & B & C & D & F).
  rewrite B, C, D, F; simpl in *; lia.
Qed.

Lemma child_write_steps (k : frame_kind) (payload : list Z) (pc : child_pc) (s : session) :
  (2 + child_rank pc <= child_rank (s_cpc s))%nat -> (steps_left (child_write k payload pc s) < steps_left s)%nat.
Proof.
  intros Hr; unfold child_write, steps_left; destruct (cs_request_id _); cbn -[ch_write];
    [rewrite length_write|]; lia.
Qed.

Lemma child_exit_shape (t : supervisor_terminal) (s : session) :
  let s1 := child_exit t s in
  (child_rank (s_cpc s1) <= 16)%nat /\ s_ppc s1 = s_ppc s /\ s_worker s1 = s_worker s /\
  s_down s1 = s_down s /\ s_up s1 = s_up s.
Proof. unfold child_exit; destruct (mark_terminal _ _) as [[]]; simpl; split_and!; auto; lia. Qed.

Lemma child_main_steps (s s' : session) :
  child_main s = Some s' -> (steps_left s' < steps_left s)%nat.
Proof.
  unfold child_main; destruct (s_cpc s) eqn:Hpc; intros H; try discriminate H.
  - simplify_eq; unfold steps_left; rewrite Hpc; cbn -[ch_write]; rewrite length_write; lia.
  - apply child_read_steps in H; [done|]; intros f down; rewrite Hpc; cbv zeta.
    destruct (receive_parent_frame _ _ _) as [[]]; [destruct (decode_payload _ _)|]; simpl; split_and!; auto; lia.
  - simplify_eq; apply child_write_steps; rewrite Hpc; simpl; lia.
  - apply child_read_steps in H; [done|]; intros f down; rewrite Hpc; cbv zeta.
    destruct (receive_parent_frame _ _ _) as [[e|e] c]; [|simpl; split_and!; auto; lia].
    destruct (child_exit_shape (no_output (expected_outcome (default User (cs_cancel_reason c))) None None)
                (set_child (s_cpc (set_down down s)) c (set_down down s))) as (A & B & C & D & E).
    destruct (f_kind f); try (simpl; split_and!; auto; lia).
    + destruct e as [[]|]; simpl; split_and!; auto; lia.
    + split_and!; [etransitivity; [exact A|simpl; lia]|exact B|exact C|exact D|exact E].
  - simplify_eq; apply child_write_steps; rewrite Hpc; simpl; lia.
  - simplify_eq.
    destruct (child_exit_shape (child_terminal (s_child_request s) r)
                (set_control (join_control (s_control s)) (s_child_request s) s)) as (A & B & C & D & E).
    unfold steps_left; simpl s_child_request in *; rewrite B, C, D, E, Hpc; simpl in *; lia.
  - destruct (encode_payload _ _); simplify_eq.
    + apply child_write_steps; rewrite Hpc; simpl; lia.
    + unfold steps_left; rewrite Hpc; simpl; lia.
Qed.

Lemma child_control_steps (s s' : session) :
  child_control s = Some s' -> (steps_left s' < steps_left s)%nat.
Proof.
  unfold child_control, ch_take; destruct (s_control s); intros H; try discriminate H.
  destruct (ch_pending (s_down s)) as [|f rest] eqn:E; [by destruct (s_cpc s)|].
  assert (forall k q, (steps_left (set_control k q (set_down (Channel (ch_read (s_down s) ++ [f]) rest) s))
            < steps_left s)%nat) as Hs.
  { intros k q; unfold steps_left; simpl; rewrite E; simpl; lia. }
  destruct (s_cpc s); try discriminate H;
    repeat (destr_match; try discriminate H); simplify_eq; apply Hs.
Qed.

(** ** Progress of a session in which nobody fails *)
Definition fault_free (s : session) : Prop :=
  s_ppc s <> PpFault /\ s_worker s <> WkFault /\ s_cpc s <> CpFault /\ s_control s <> CtFault.

(** What is not finished has a step. *)
Definition stuck (s : session) : Prop :=
  parent_main s = None /\ worker_main s = None /\ child_main s = None /\ child_control s = None.

Definition completed (s : session) : Prop :=
  exists t cr code, s_ppc s = PpDone t cr /\ s_cpc s = CpExited code /\ cs_terminal (s_child s) = Some t.

Lemma parent_read_none (k : supervisor_frame -> session -> session) (e s : session) :
  parent_read k e s = None -> ch_pending (s_up s) = [].
Proof.
  unfold parent_read, ch_take; destruct (ch_pending (s_up s)); [done|].
  by destruct (validate_direction _ _).
Qed.

Lemma child_read_none (k : supervisor_frame -> session -> session) (s : session) :
  child_read k s = None -> ch_pending (s_down s) = [].
Proof.
  unfold child_read, ch_take; destruct (ch_pending (s_down s)); [done|].
  by destruct (validate_direction _ _).
Qed.

Definition parent_blocked (pc : parent_pc) : bool :=
  match pc with PpReadHello | PpReadAccepted | PpReadTerminal => true | _ => false end.

(** Where a stuck parent and a stuck child stand. *)
Lemma parent_stuck (s : session) :
  session_inv s -> fault_free s -> parent_main s = None ->
  (exists t cr, s_ppc s = PpDone t cr) \/
  ch_pending (s_up s) = [] /\ parent_blocked (s_ppc s) = true.
Proof.
  intros [PL _] (F & _) H; unfold parent_main in H.
  destruct (s_ppc s) eqn:Hpc; try discriminate H; eauto; try done;
    try (by right; split; [by eapply parent_read_none|]).
  - inversion PL; subst; pcs; try discriminate.
    match goal with Hx : Some _ = s_request s |- _ => rewrite <- Hx in H; discriminate H end.
  - destruct (ch_take _ _) as [[[] ?]|]; discriminate H.
  - inversion PL; subst; pcs; discriminate.
Qed.

Lemma child_stuck (s : session) :
  session_inv s -> fault_free s -> child_main s = None ->
  s_cpc s = CpRunning \/ (exists code, s_cpc s = CpExited code) \/
  (s_cpc s = CpReadRequest \/ s_cpc s = CpReadStart) /\ ch_pending (s_down s) = [].
Proof.
  intros [_ CL] (_ & _ & F & _) H; unfold child_main in H.
  destruct (s_cpc s) eqn:Hpc; try discriminate H; eauto; try done;
    try (by right; right; split; [auto|by eapply child_read_none]).
  inversion CL; subst; pcs; discriminate.
Qed.

Lemma blocked_child_not_exited (s : session) (code : Z) :
  session_inv s -> s_ppc s <> PpFault -> s_cpc s = CpExited code -> ch_pending (s_up s) = [] ->
  parent_blocked (s_ppc s) = true -> False.
Proof.
  intros [PL CL] F1 C U W; unfold ch_sent in CL; rewrite U, app_nil_r, C in CL.
  inversion PL; subst; pcs; try congruence;
    match goal with Hx : _ = ch_read (s_up s) |- _ => rewrite <- Hx in CL end;
    match goal with Hx : s_ppc s = _ |- _ => rewrite Hx in W; try discriminate W end;
    inversion CL; subst; pcs; simplify_eq; destruct sr; simplify_eq;
    match goal with Hx : is_terminal started_f _ |- _ => by destruct Hx as (? & Hk & _) end.
Qed.

Lemma stuck_completed (s : session) :
  session_inv s -> fault_free s -> stuck s -> s_cpc s = CpRunning \/ completed s.
Proof.
  intros I F (H1 & _ & H3 & _); pose proof (parent_stuck s I F H1) as P; pose proof (child_stuck s I F H3) as C.
  destruct F as (F1 & F2 & F3 & F4); pose proof I as [PL CL]; clear H1 H3.
  destruct C as [C|[(code & C)|[C D]]]; [by left| |].
  - right; destruct P as [(t & cr & P)|[U W]].
    + exists t, cr, code; split_and!; [done|done|]. by destruct (done_agrees s t cr I P).
    + by destruct (blocked_child_not_exited s code I F1 C U W).
  - exfalso; destruct P as [(t & cr & P)|[U W]].
    + destruct (done_agrees s t cr I P) as (Ht & _).
      destruct C as [C|C]; rewrite C in CL; inversion CL; subst; pcs; try discriminate;
        match goal with Hx : _ = s_child s |- _ => rewrite <- Hx in Ht; discriminate Ht end.
    + unfold ch_sent in CL, PL; rewrite U, app_nil_r in CL; rewrite D, app_nil_r in PL.
      destruct C as [C|C]; rewrite C in CL; inversion CL; subst; pcs; try discriminate;
        match goal with Hx : _ = ch_read (s_up s) |- _ => rewrite <- Hx in PL end;
        match goal with Hx : _ = ch_read (s_down s) |- _ => rewrite <- Hx in PL end;
        inversion PL; subst; pcs; try congruence;
        match goal with Hx : s_ppc s = _ |- _ => rewrite Hx in W; try discriminate W end;
        match goal with Hx : worker_local _ _ _ _ _ _ |- _ => inversion Hx; destruct sr; discriminate end.
Qed.

(** Without failures nobody ends in a failure. *)
Lemma parent_fault_blocked (s s' : session) :
  s_ppc s <> PpFault -> parent_main s = Some s' -> s_ppc s' = PpFault ->
  parent_blocked (s_ppc s) = true /\ ch_pending (s_up s) = [] /\ child_gone s = true.
Proof.
  intros F H Hf; unfold parent_main in H; destruct (s_ppc s) eqn:Hpc; try discriminate H;
    try (match type of H with parent_read _ _ _ = _ =>
      unfold parent_read, ch_take in H; destruct (ch_pending (s_up s));
      [destruct (child_gone s); [by split_and!|discriminate H]|] end);
    exfalso; simplify_eq; repeat (destr_match; simplify_eq/=; try discriminate); try congruence.
  all: unfold parent_receive, write_down in Hf; repeat (destr_match; simplify_eq/=; try discriminate); try congruence.
  all: match goal with v : frame_event |- _ => destruct v end; simpl in Hf;
    repeat (destr_match; simplify_eq/=; try discriminate); try congruence.
Qed.


(** What the steps leave alone. *)
Ltac step_cases := repeat (destr_match; simplify_eq/=; try discriminate); simplify_eq/=; auto.

Lemma parent_main_frame (s s' : session) :
  parent_main s = Some s' ->
  (s_worker s' = s_worker s \/ s_worker s' = WkIdle) /\ s_cpc s' = s_cpc s /\ s_control s' = s_control s.
Proof.
  unfold parent_main, parent_read, parent_receive, write_down, ch_take; intros H.
  destruct (s_ppc s); try discriminate H; step_cases.
Qed.

Lemma worker_main_frame (s s' : session) :
  worker_main s = Some s' ->
  s_ppc s' = s_ppc s /\ s_worker s' <> WkFault /\ s_cpc s' = s_cpc s /\ s_control s' = s_control s.
Proof.
  unfold worker_main; intros H; destruct (s_worker s); try discriminate H; step_cases.
Qed.

Lemma child_main_frame (s s' : session) :
  child_main s = Some s' ->
  s_ppc s' = s_ppc s /\ s_worker s' = s_worker s /\ s_cpc s' <> CpFault /\
  (s_control s <> CtFault -> s_control s' <> CtFault).
Proof.
  unfold child_main, child_read, child_write, child_exit, ch_take, join_control; intros H.
  destruct (s_cpc s) eqn:Hpc; try discriminate H; step_cases; split_and!; (done || congruence || auto).
Qed.

Lemma child_control_frame (s s' : session) :
  child_control s = Some s' ->
  s_ppc s' = s_ppc s /\ s_worker s' = s_worker s /\ s_cpc s' = s_cpc s /\ s_control s' <> CtFault.
Proof.
  unfold child_control, ch_take; intros H.
  destruct (s_control s); try discriminate H; destruct (s_cpc s) eqn:Hpc; try discriminate H;
    step_cases; split_and!; (done || congruence).
Qed.

Lemma honest_step_fault_free (s s' : session) :
  session_inv s -> fault_free s -> honest_step s s' -> fault_free s'.
Proof.
  intros I (F1 & F2 & F3 & F4) [[s1 H|s1 H|s1 H|s1 H]|[r|r H]]; unfold fault_free.
  - destruct (parent_main_frame s s1 H) as (W & -> & ->); split_and!; [|destruct W; congruence|done|done].
    intros Hf; destruct (parent_fault_blocked s s1 F1 H Hf) as (B & U & G).
    unfold child_gone in G; destruct (s_cpc s) eqn:C; try discriminate G; [|by apply session_inv_not_rejected in I; unfold rejected in I; rewrite C, !orb_true_r in I|done].
    by eapply blocked_child_not_exited.
  - destruct (worker_main_frame s s1 H) as (-> & W & -> & ->); by split_and!.
  - destruct (child_main_frame s s1 H) as (-> & -> & C & K); split_and!; auto.
  - destruct (child_control_frame s s1 H) as (-> & -> & -> & K); by split_and!.
  - by split_and!.
  - by split_and!.
Qed.

Lemma honest_reachable (s : session) :
  reachable honest_step session_new s -> session_inv s /\ fault_free s.
Proof.
  apply (reachable_invariant _ (fun s => session_inv s /\ fault_free s));
    [split; [apply session_inv_new|by split_and!]|].
  intros a b [Ia Fa] Hs; split; [eapply session_step_inv; [done|by left]|by eapply honest_step_fault_free].
Qed.

(** C11. Every supervised session ends.  Each step of a thread, whatever happened
    before, uses up one of at most [steps_left] steps, and neither a
    cancellation nor the end of user code adds any; and as long as nobody fails,
    a session in which no thread can move either waits for the user code or is
    complete: the parent has returned exactly the terminal the child stored and
    the child has exited. *)
Theorem session_completes (s s' : session) :
  (thread_step s s' -> (steps_left s' < steps_left s)%nat) /\
  (event_step s s' -> (steps_left s' <= steps_left s)%nat) /\
  (reachable honest_step session_new s -> stuck s -> s_cpc s = CpRunning \/ completed s).
Proof.
  split_and!.
  - intros [s1 H|s1 H|s1 H|s1 H].
    + by apply parent_main_steps.
    + by apply worker_main_steps.
    + by apply child_main_steps.
    + by apply child_control_steps.
  - intros [r|r H]; unfold steps_left; simpl; [lia|rewrite H; simpl; lia].
  - intros H Hs; destruct (honest_reachable s H); by apply stuck_completed.
Qed.

End Protocol.

Unset Default Proof Using.

(** ** A concrete session *)
Definition outcome_code (o : supervisor_outcome) : Z :=
  match o with OCompleted => 0 | OFailed => 1 | OCancelled => 2 | ODeadline => 3 end.
Definition category_code (c : option failure_category) : Z :=
  match c with Some CatPermission => 1 | Some CatRuntime => 2 | Some CatInfrastructure => 3 | _ => 0 end.

Definition sample_terminal_to_vec (t : supervisor_terminal) : result (list Z) string :=
  Ok (outcome_code (st_outcome t) :: category_code (st_category t)
      :: match st_exit_code t with Some n => [n] | None => [] end).
Definition sample_terminal_from_slice (bytes : list Z) : result supervisor_terminal string :=
  match bytes with
  | [0; _; n] => Ok (no_output OCompleted (Some n) None)
  | [1; 1] => Ok (no_output OFailed None (Some CatPermission))
  | [1; 2] => Ok (no_output OFailed None (Some CatRuntime))
  | [1; 3] => Ok (no_output OFailed None (Some CatInfrastructure))
  | [2; _] => Ok (no_output OCancelled None None)
  | [3; _] => Ok (no_output ODeadline None None)
  | _ => Err "bad terminal"
  end.
Definition sample_reason_to_vec (r : cancel_reason) : result (list Z) string :=
  Ok [match r with User => 0 | Deadline => 1 | Shutdown => 2 end].
Definition sample_reason_from_slice (bytes : list Z) : result cancel_reason string :=
  match bytes with [0] => Ok User | [1] => Ok Deadline | [2] => Ok Shutdown | _ => Err "bad reason" end.

Lemma sample_terminal_codec (t : supervisor_terminal) :
  validate_supervisor_terminal_shape t = Ok () ->
  exists b, sample_terminal_to_vec t = Ok b /\ sample_terminal_from_slice b = Ok t /\
  Z.of_nat (length b) <= MAX_SUPERVISOR_FRAME_PAYLOAD.
Proof.
  intros (Hf & Ho & He & Ht)%shape_ok; destruct t as [o x c so se tr]; simpl in *; subst.
  eexists; split; [reflexivity|]; unfold terminal_fields_valid in Hf; simpl in Hf.
  destruct o, x, c as [[]|]; try discriminate Hf; (split; [reflexivity|by vm_compute]).
Qed.

Lemma sample_reason_codec (r : cancel_reason) :
  exists b, sample_reason_to_vec r = Ok b /\ sample_reason_from_slice b = Ok r /\
  Z.of_nat (length b) <= MAX_SUPERVISOR_FRAME_PAYLOAD.
Proof. destruct r; eexists; (split; [reflexivity|split; [reflexivity|by vm_compute]]). Qed.

Inductive schedule_entry :=
| RunParent | RunWorker | RunChild | RunControl | RequestCancel (r : cancel_reason)
| UserCodeEnds (r : result run_output libdeno_error).

Definition schedule_step (s : session) (e : schedule_entry) : option session :=
  match e with
  | RunParent => parent_main [5; 7] [1] sample_terminal_from_slice sample_reason_to_vec s
  | RunWorker => worker_main sample_reason_to_vec s
  | RunChild => child_main [5; 7] sample_terminal_to_vec sample_reason_from_slice (fun _ => Ok ()) s
  | RunControl => child_control sample_reason_from_slice s
  | RequestCancel r => Some (set_request (get_or_insert (s_request s) r) s)
  | UserCodeEnds r => match s_cpc s with CpRunning => Some (set_child (CpStopping r) (s_child s) s) | _ => None end
  end.

Fixpoint run_schedule (s : session) (l : list schedule_entry) : option session :=
  match l with
  | [] => Some s
  | e :: l => match schedule_step s e with Some s' => run_schedule s' l | None => None end
  end.

Lemma run_schedule_reachable (l : list schedule_entry) (s s' : session) :
  run_schedule s l = Some s' ->
  reachable (honest_step [5; 7] [1] sample_terminal_to_vec sample_terminal_from_slice
    sample_reason_to_vec sample_reason_from_slice (fun _ => Ok ())) s s'.
Proof.
  revert s; induction l as [|e l IH]; intros s H; simpl in H; [simplify_eq; apply reach_refl|].
  destruct (schedule_step s e) as [s1|] eqn:E; [|done].
  eapply reachable_head; [|by apply IH].
  destruct e; simpl in E; simplify_eq.
  - left; by apply ts_parent.
  - left; by apply ts_worker.
  - left; by apply ts_child.
  - left; by apply ts_control.
  - right; apply es_cancel.
  - right; destruct (s_cpc s) eqn:C; simplify_eq; by apply es_runtime.
Qed.

(** A user cancellation arrives while the child already runs user code. *)
Definition cancelled_while_running : list schedule_entry :=
  [RunChild; RunParent; RunParent; RunParent; RunChild; RunChild; RunParent; RunParent; RunParent;
   RunChild; RequestCancel User; RunChild; RunWorker; RunWorker; RunControl; RequestCancel Shutdown;
   RunParent; UserCodeEnds (Ok (RunOutput 0 [] [] false)); RunChild; RunChild; RunParent; RunParent].

(** A deadline is found before START. *)
Definition cancelled_before_running : list schedule_entry :=
  [RunChild; RunParent; RunParent; RunParent; RunChild; RunChild; RunParent; RequestCancel Deadline;
   RunParent; RunParent; RunParent; RunChild; RunChild; RunParent; RunParent].

Definition final_state (l : list schedule_entry) : session :=
  default session_new (run_schedule session_new l).

Lemma session_agreement_witness :
  let s := final_state cancelled_while_running in
  let s' := final_state cancelled_before_running in
  s_ppc s = PpDone (no_output OCancelled None None) (Some User) /\ s_request s = Some User /\ rejected s = false /\
  s_ppc s' = PpDone (no_output ODeadline None None) (Some Deadline).
Proof.
  assert (reachable (session_step [5; 7] [1] sample_terminal_to_vec sample_terminal_from_slice
    sample_reason_to_vec sample_reason_from_slice (fun _ => Ok ())) session_new
    (final_state cancelled_while_running)) as H.
  { assert (forall a b, reachable (honest_step [5; 7] [1] sample_terminal_to_vec sample_terminal_from_slice
      sample_reason_to_vec sample_reason_from_slice (fun _ => Ok ())) a b ->
      reachable (session_step [5; 7] [1] sample_terminal_to_vec sample_terminal_from_slice
      sample_reason_to_vec sample_reason_from_slice (fun _ => Ok ())) a b) as Hmono.
    { induction 1; [apply reach_refl|eapply reach_step; [done|by left]]. }
    apply Hmono, (run_schedule_reachable cancelled_while_running); vm_compute; reflexivity. }
  pose proof (session_agreement [5; 7] [1] sample_terminal_to_vec sample_terminal_from_slice
    sample_reason_to_vec sample_reason_from_slice (fun _ => Ok ()) sample_reason_codec sample_terminal_codec
    eq_refl ltac:(by vm_compute) _ H) as (H1 & _ & H3 & _).
  assert (s_ppc (final_state cancelled_while_running) = PpDone (no_output OCancelled None None) (Some User)) as E
    by (vm_compute; reflexivity).
  cbv zeta; split; [exact E|]; split; [|split; [exact H1|vm_compute; reflexivity]].
  destruct (H3 _ _ E) as (_ & _ & H4); exact (proj1 (H4 User eq_refl)).
Defined.

Lemma session_completes_witness :
  s_cpc (final_state cancelled_before_running) = CpExited 1 /\ completed (final_state cancelled_before_running).
Proof.
  assert (s_cpc (final_state cancelled_before_running) = CpExited 1) as E by (vm_compute; reflexivity).
  split; [exact E|].
  destruct (session_completes [5; 7] [1] sample_terminal_to_vec sample_terminal_from_slice
    sample_reason_to_vec sample_reason_from_slice (fun _ => Ok ()) sample_reason_codec sample_terminal_codec
    eq_refl ltac:(by vm_compute) (final_state cancelled_before_running) session_new) as (_ & _ & H).
  destruct H as [H|H]; [| |rewrite E in H; discriminate H|exact H].
  - apply (run_schedule_reachable cancelled_before_running); vm_compute; reflexivity.
  - repeat split; vm_compute; reflexivity.
Defined.
