(* ===== verification/Supervised.v ===== *)
(** * Supervised: the outcome of one supervised subprocess run.

    Models [run_supervised_subprocess_with_executable_observed_and_started] and
    the public [run_in_supervised_subprocess] of [src/subprocess.rs]: option
    validation, the deadline in force, and how the session, the child's exit,
    the captured output and cancellations are turned into one result.  The
    system calls and the session (see Protocol) enter as their results. *)
From S2P Require Import Prelude Errors Cancel Options Execution Token Frame Session Protocol.
Open Scope Z_scope.

Definition SUPERVISOR_CAPTURE_BYTES_PER_STREAM : Z := 64 * 1024.
Definition SUPERVISOR_MAX_CAPTURE_BYTES_PER_STREAM : Z := 96 * 1024.

Definition supervisor_error (message : string) : libdeno_error := Runtime (anyhow message).
Definition supervisor_category_error (c : failure_category) : libdeno_error :=
  Runtime (anyhow (category_summary c)).

Definition supervisor_session_error_is_timeout (e : libdeno_error) : bool :=
  match e with Timeout _ => true | Io e => kind_is e TimedOut | _ => false end.
Definition supervisor_session_error_is_natural_exit (e : libdeno_error) : bool :=
  match e with
  | Io e => kind_is e UnexpectedEof || kind_is e ConnectionReset || kind_is e BrokenPipe
  | _ => false
  end.
Definition supervisor_session_error_is_protocol (e : libdeno_error) : bool :=
  match e with Runtime _ => true | Io e => kind_is e InvalidData | _ => false end.

Definition supervisor_cancel_error (reason : cancel_reason) : libdeno_error :=
  match reason with
  | Deadline => Timeout "supervisor execution deadline exceeded"
  | User | Shutdown => Runtime (anyhow "supervisor execution cancelled")
  end.

(** The status a Unix parent sees: [i32::rem_euclid(256)]. *)
Definition supervisor_exit_code_for_status (exit_code : Z) : Z := exit_code mod 256.

Definition supervisor_capture_limit (capture_stdout capture_stderr : bool)
    (max_capture_bytes : option Z) : result (option Z) libdeno_error :=
  if negb capture_stdout && negb capture_stderr then Ok None
  else
    let limit := default SUPERVISOR_CAPTURE_BYTES_PER_STREAM max_capture_bytes in
    if decide (limit > SUPERVISOR_MAX_CAPTURE_BYTES_PER_STREAM) then
      Err (Configuration ("supervisor capture limit " +:+ pretty limit +:+ " exceeds the " +:+
             pretty SUPERVISOR_MAX_CAPTURE_BYTES_PER_STREAM +:+ "-byte per-stream maximum"))
    else Ok (Some limit).

Definition effective_supervisor_deadline (started : Z) (parent_deadline execution_deadline : option Z)
  : result (option Z) libdeno_error :=
  let? option_deadline :=
    match execution_deadline with
    | None => Ok None
    | Some d =>
        match checked_add started d with
        | Some at_ => Ok (Some at_)
        | None => Err (Configuration "execution deadline is too large for the host clock")
        end
    end in
  Ok (option_min parent_deadline option_deadline).

(** The request that crosses to the child. *)
Record supervisor_request := SupervisorRequest {
  sq_entry : path; sq_cwd : path; sq_permissions : list string; sq_allow_all : bool;
  sq_prompt : bool; sq_args : list string; sq_features : option (list string);
  sq_max_heap_bytes : option Z; sq_execution_deadline : option Z;
  sq_capture_stdout : bool; sq_capture_stderr : bool; sq_max_capture_bytes : option Z
}.

(** The permission arguments are validated by deno_runtime's parser and feature
    names by its table. *)
Section Request.
Context (validate_permission_args : list string -> bool -> bool -> path -> result unit libdeno_error).
Context (static_feature_names : list string -> result (list string) string).

Definition validate_child_options (now : Z) (options : libdeno_options) (cwd : path)
    (capture_stderr : bool) : result unit libdeno_error :=
  let? _ := validate_max_heap_bytes (o_max_heap_bytes options) in
  let? _ := validate_execution_deadline now (o_execution_deadline options) in
  let? _ := reject_zero_deadline (o_execution_deadline options) in
  if o_prompt options && capture_stderr && negb (o_capture_stderr options) then
    Err (Configuration "prompt cannot be combined with run_in_subprocess_with_output: it always captures stderr, and permission prompts require stderr to be a terminal. Use run_in_subprocess (no capture), or grant the capabilities up front")
  else
    let? _ := validate_prompt_capture (o_prompt options) capture_stderr in
    let? _ := validate_permission_args (o_permissions options) (o_allow_all_permissions options)
                (o_prompt options) cwd in
    match o_features options with
    | None => Ok ()
    | Some features =>
        match static_feature_names features with
        | Ok _ => Ok ()
        | Err bad => Err (Configuration ("unknown runtime feature: " +:+ bad))
        end
    end.

Definition make_supervisor_request (now : Z) (entry : path) (options : libdeno_options) (cwd : path)
  : result supervisor_request libdeno_error :=
  match o_extensions options with
  | Some _ =>
      Err (Configuration "native extension factories are not supported by subprocess execution")
  | None =>
      let? _ := validate_child_options now options cwd (o_capture_stderr options) in
      let? max_capture := supervisor_capture_limit (o_capture_stdout options)
                            (o_capture_stderr options) (o_max_capture_bytes options) in
      Ok (SupervisorRequest entry cwd (o_permissions options) (o_allow_all_permissions options)
            (o_prompt options) (o_args options) (o_features options) (o_max_heap_bytes options)
            (o_execution_deadline options) (o_capture_stdout options) (o_capture_stderr options)
            max_capture)
  end.
End Request.

(** ** Reaping *)
Record child_reap := ChildReap { rp_status : option Z; rp_forced_kill : bool }.

(** One [try_wait]: an exit status, still running with the clock, or an error. *)
Inductive wait_reply := Exited (status : option Z) | Running (now : Z) | WaitFailed (e : string).

(** The texts of operating-system errors are left out of these messages. *)
Definition kill_and_wait_supervisor_child (kill : result unit string) (wait : result (option Z) string)
  : result (option Z) io_error :=
  match kill, wait with
  | Ok _, Ok status => Ok status
  | Err _, Ok _ => Err (IoError OtherKind "supervisor child kill failed after reaping")
  | Ok _, Err _ => Err (IoError OtherKind "supervisor child was killed but wait failed")
  | Err _, Err _ => Err (IoError OtherKind "supervisor child kill failed and wait failed")
  end.

(** The polling loop of [reap_supervisor_child]; [None] when the polls end
    before the grace period. *)
Fixpoint reap_supervisor_child (deadline : Z) (polls : list wait_reply)
    (kill : result unit string) (wait : result (option Z) string)
  : option (result child_reap io_error) :=
  match polls with
  | [] => None
  | Exited status :: _ => Some (Ok (ChildReap status false))
  | Running now :: polls =>
      if decide (now < deadline) then reap_supervisor_child deadline polls kill wait
      else Some (let? status := kill_and_wait_supervisor_child kill wait in Ok (ChildReap status true))
  | WaitFailed _ :: _ =>
      Some (Err (match kill_and_wait_supervisor_child kill wait with
                 | Ok _ => IoError OtherKind "supervisor child inspection failed; cleanup reaped exit status"
                 | Err _ => IoError OtherKind "supervisor child inspection failed; cleanup failed"
                 end))
  end.

(** ** Classification *)

(** [requested] is the reason recorded in the cancellation context. *)
Definition supervisor_session_failure_category (e : libdeno_error) (cleanup : result child_reap io_error)
    (requested : option cancel_reason) : option failure_category :=
  match cleanup with
  | Err _ => Some CatInfrastructure
  | Ok reap =>
      match requested with
      | Some Deadline => Some CatTimeout
      | Some (User | Shutdown) => None
      | None =>
          if negb (rp_forced_kill reap) &&
             (supervisor_session_error_is_natural_exit e ||
              (supervisor_session_error_is_timeout e && negb (supervisor_session_error_is_protocol e)))
          then Some CatChildCrash
          else if supervisor_session_error_is_timeout e then Some CatTimeout
          else Some CatInfrastructure
      end
  end.

Definition expected_status (t : supervisor_terminal) : Z :=
  match st_outcome t with
  | OCompleted => supervisor_exit_code_for_status (default 0 (st_exit_code t))
  | OCancelled | ODeadline | OFailed => 1
  end.

Definition outcome_name (o : supervisor_outcome) : string :=
  match o with
  | OCompleted => "completed" | OCancelled => "cancelled" | ODeadline => "deadline" | OFailed => "failed"
  end.

Definition validate_supervisor_terminal (t : supervisor_terminal) : result unit libdeno_error :=
  map_err Io (validate_supervisor_terminal_shape t).

Definition validate_supervisor_terminal_status (t : supervisor_terminal) (status : option Z)
    (forced_kill : bool) : result unit libdeno_error :=
  if forced_kill then Ok ()
  else if bool_decide (status = Some (expected_status t)) then Ok ()
  else Err (supervisor_error (outcome_name (st_outcome t) +:+
              " supervisor TERMINAL disagrees with direct-child exit status")).

Definition map_supervisor_terminal_with_cancellation (t : supervisor_terminal) (status : option Z)
    (forced_kill : bool) (cancellation_before_terminal : option cancel_reason)
  : result run_output libdeno_error :=
  let? _ := validate_supervisor_terminal t in
  match cancellation_before_terminal with
  | Some reason =>
      let? _ := validate_supervisor_terminal_status t status forced_kill in
      Err (supervisor_cancel_error reason)
  | None =>
      let disagrees code := negb forced_kill && negb (bool_decide (status = Some code)) in
      match st_outcome t with
      | OCompleted =>
          let exit_code := default 0 (st_exit_code t) in
          if disagrees (supervisor_exit_code_for_status exit_code)
          then Err (supervisor_error "supervisor TERMINAL disagrees with direct-child exit status")
          else Ok (RunOutput exit_code (st_stdout t) (st_stderr t) (st_truncated t))
      | OCancelled =>
          if disagrees 1
          then Err (supervisor_error "cancelled supervisor TERMINAL disagrees with direct-child exit status")
          else Err (supervisor_cancel_error User)
      | ODeadline =>
          if disagrees 1
          then Err (supervisor_error "deadline supervisor TERMINAL disagrees with direct-child exit status")
          else Err (supervisor_cancel_error Deadline)
      | OFailed =>
          if disagrees 1
          then Err (supervisor_error "failed supervisor TERMINAL disagrees with direct-child exit status")
          else Err (supervisor_error "supervised child execution failed")
      end
  end.

Definition partial_empty : supervisor_partial_output := SupervisorPartialOutput [] [] false false false.
Definition partial_reader_error : supervisor_partial_output := SupervisorPartialOutput [] [] false true true.

Definition with_metadata_and_partial := fun e p c t => SupervisedSubprocessError e None p c t.

Definition with_category_and_partial (c : failure_category) (p : option supervisor_partial_output)
    (cleanup : option cleanup_strength) (t : option transport_status) : supervised_subprocess_error :=
  SupervisedSubprocessError
    (if decide (c = CatTimeout) then Timeout (category_summary c) else supervisor_category_error c)
    (Some c) p cleanup t.

Definition collection_deadline_error (requested : option cancel_reason)
    (p : option supervisor_partial_output) (t : transport_status) : supervised_subprocess_error :=
  match requested with
  | Some ((User | Shutdown) as reason) =>
      with_metadata_and_partial (supervisor_cancel_error reason) p (Some DirectChild) (Some t)
  | Some Deadline | None => with_category_and_partial CatTimeout p (Some DirectChild) (Some t)
  end.

#[export] Instance cleanup_strength_eq_dec : EqDecision cleanup_strength.
Proof. solve_decision. Defined.
#[export] Instance transport_status_eq_dec : EqDecision transport_status.
Proof. solve_decision. Defined.

(** ** The run *)

(** [SupervisorSessionOutcome] *)
Record session_outcome := SessionOutcome {
  so_terminal : supervisor_terminal;
  so_cancellation_before_terminal : option cancel_reason;
  so_transport : transport_status
}.

(** What the operating system and the session answer, in the order they are
    asked; [ev_requested] is the cancellation context at the start,
    [ev_requested_after] after the session. *)
Record supervised_env := SupervisedEnv {
  ev_started : Z;
  ev_now : Z;
  ev_requested : option cancel_reason;
  ev_cwd : result path libdeno_error;
  ev_request : path -> result supervisor_request libdeno_error;
  ev_encode : result unit io_error;
  ev_token : result unit string;
  ev_bind : result unit io_error;
  ev_local_addr : result unit io_error;
  ev_spawn : result unit libdeno_error;
  ev_readers : result unit io_error;
  ev_session : result session_outcome libdeno_error;
  ev_cleanup : result child_reap io_error;
  ev_capture : supervisor_partial_output;
  ev_deadline_won : bool;
  ev_requested_after : option cancel_reason
}.

(** Everything up to the spawn. *)
Definition prepare (env : supervised_env) (parent_deadline : option Z) (options : libdeno_options)
  : result supervisor_request supervised_subprocess_error :=
  let capture_requested := o_capture_stdout options || o_capture_stderr options in
  let partial := if capture_requested then Some partial_empty else None in
  let plain e := with_metadata_and_partial e partial None None in
  let infrastructure := with_category_and_partial CatInfrastructure partial None None in
  let? deadline := map_err plain
    (effective_supervisor_deadline (ev_started env) parent_deadline (o_execution_deadline options)) in
  match ev_requested env with
  | Some reason => Err (plain (supervisor_cancel_error reason))
  | None =>
      if is_some_and deadline (fun d => Z.leb d (ev_now env))
      then Err (plain (supervisor_cancel_error Deadline))
      else
        let? cwd := map_err plain (ev_cwd env) in
        let? request := map_err plain (ev_request env cwd) in
        let? _ := map_err (fun _ => infrastructure) (ev_encode env) in
        let? _ := map_err (fun _ => infrastructure) (ev_token env) in
        let? _ := map_err (fun _ => infrastructure) (ev_bind env) in
        let? _ := map_err (fun _ => infrastructure) (ev_local_addr env) in
        let? _ := map_err (fun _ => infrastructure) (ev_spawn env) in
        Ok request
  end.

(** The category of a run whose terminal did not map to an output. *)
Definition terminal_failure_category (e : libdeno_error) (t : supervisor_terminal) (reap : child_reap)
    (before : option cancel_reason) : option failure_category :=
  let is_timeout := match e with Timeout _ => true | _ => false end in
  let user_cancelled := match before with Some (User | Shutdown) => true | _ => false end in
  if is_timeout && bool_decide (st_outcome t = ODeadline) && negb user_cancelled
  then Some CatTimeout
  else if user_cancelled || bool_decide (st_outcome t = OCancelled) || is_timeout then None
  else if bool_decide (st_outcome t = OFailed) && is_ok (validate_supervisor_terminal t)
          && is_ok (validate_supervisor_terminal_status t (rp_status reap) (rp_forced_kill reap))
  then st_category t
  else Some CatInfrastructure.

Definition partial_failed (p : option supervisor_partial_output) : bool :=
  is_some_and p (fun p => sp_incomplete p || sp_reader_error p).

(** After the session and the reaping. *)
Definition conclude (env : supervised_env) (captured : bool)
  : result supervisor_run_result supervised_subprocess_error :=
  let partial := if captured then Some (ev_capture env) else None in
  let deadline_won := captured && ev_deadline_won env in
  let failed c e t :=
    match c with
    | Some c => with_category_and_partial c partial (Some DirectChild) (Some t)
    | None => with_metadata_and_partial e partial (Some DirectChild) (Some t)
    end in
  match ev_session env with
  | Err e =>
      Err (failed (supervisor_session_failure_category e (ev_cleanup env) (ev_requested_after env))
             (supervisor_cancel_error (default User (ev_requested_after env))) TransportFailed)
  | Ok outcome =>
      match ev_cleanup env with
      | Err _ =>
          Err (with_category_and_partial CatInfrastructure partial (Some DirectChild) (Some TransportFailed))
      | Ok reap =>
          let transport := if partial_failed partial then TransportFailed else so_transport outcome in
          let t := so_terminal outcome in
          let before := so_cancellation_before_terminal outcome in
          match map_supervisor_terminal_with_cancellation t (rp_status reap) (rp_forced_kill reap) before with
          | Ok output =>
              if deadline_won
              then Err (collection_deadline_error (ev_requested_after env) partial transport)
              else Ok (SupervisorRunResult (ro_exit_code output) partial DirectChild transport)
          | Err e => Err (failed (terminal_failure_category e t reap before) e transport)
          end
      end
  end.

Definition run_supervised (env : supervised_env) (parent_deadline : option Z) (options : libdeno_options)
  : result supervisor_run_result supervised_subprocess_error :=
  let? request := prepare env parent_deadline options in
  let captured := o_capture_stdout options || o_capture_stderr options in
  if captured && negb (is_ok (ev_readers env))
  then Err (with_category_and_partial CatInfrastructure (Some partial_reader_error)
              (Some DirectChild) (Some TransportFailed))
  else conclude env captured.

(** The public entry point. *)
Definition run_in_supervised_subprocess (env : supervised_env) (options : libdeno_options)
  : result run_output libdeno_error :=
  match run_supervised env None options with
  | Err e =>
      if negb (is_some (se_category e)) && bool_decide (se_cleanup e = Some DirectChild)
         && bool_decide (se_transport e = Some TransportFailed) && partial_failed (se_partial e)
      then Err (supervisor_category_error CatInfrastructure)
      else Err (se_error e)
  | Ok r =>
      if negb (bool_decide (sr_transport r = TransportClean)) || partial_failed (sr_partial r)
      then Err (supervisor_category_error CatInfrastructure)
      else
        let p := default partial_empty (sr_partial r) in
        Ok (RunOutput (sr_exit_code r) (sp_stdout p) (sp_stderr p) (sp_truncated p))
  end.

(** ** Properties *)
Definition captures (options : libdeno_options) : bool :=
  o_capture_stdout options || o_capture_stderr options.

(** A failure that names a category carries nothing but the category. *)
Definition category_error (c : failure_category) : libdeno_error :=
  if decide (c = CatTimeout) then Timeout (category_summary c) else supervisor_category_error c.

Definition well_formed_failure (captured spawned : bool) (e : supervised_subprocess_error) : Prop :=
  is_some (se_cleanup e) = spawned /\ is_some (se_transport e) = spawned /\
  is_some (se_partial e) = captured /\
  (forall c, se_category e = Some c -> se_error e = category_error c).

Lemma well_formed_category c captured (p : supervisor_partial_output) (spawned : bool) t :
  well_formed_failure captured spawned
    (with_category_and_partial c (if captured then Some p else None)
       (if spawned then Some DirectChild else None) (if spawned then Some t else None)).
Proof. destruct captured, spawned; split_and!; try done; intros c'; simpl; intros [= <-]; done. Qed.

Lemma well_formed_metadata e captured (p : supervisor_partial_output) (spawned : bool) t :
  well_formed_failure captured spawned
    (with_metadata_and_partial e (if captured then Some p else None)
       (if spawned then Some DirectChild else None) (if spawned then Some t else None)).
Proof. destruct captured, spawned; split_and!; done. Qed.

Lemma prepare_failure (env : supervised_env) (pd : option Z) (options : libdeno_options)
    (e : supervised_subprocess_error) :
  prepare env pd options = Err e -> well_formed_failure (captures options) false e.
Proof.
  pose proof (fun e => well_formed_metadata e (captures options) partial_empty false TransportClean) as Hp.
  pose proof (well_formed_category CatInfrastructure (captures options) partial_empty false TransportClean) as Hi.
  unfold prepare; fold (captures options); cbv zeta.
  destruct (effective_supervisor_deadline _ _ _) as [d|]; cbn [map_err]; [|intros [= <-]; apply Hp].
  destruct (ev_requested env); [intros [= <-]; apply Hp|].
  destruct (is_some_and d _); [intros [= <-]; apply Hp|].
  destruct (ev_cwd env) as [cwd|]; cbn [map_err]; [|intros [= <-]; apply Hp].
  destruct (ev_request env cwd); cbn [map_err]; [|intros [= <-]; apply Hp].
  destruct (ev_encode env), (ev_token env), (ev_bind env), (ev_local_addr env), (ev_spawn env);
    cbn [map_err]; intros [= <-]; apply Hi.
Qed.

Lemma map_terminal_ok (t : supervisor_terminal) (status : option Z) (forced : bool)
    (before : option cancel_reason) (out : run_output) :
  map_supervisor_terminal_with_cancellation t status forced before = Ok out ->
  before = None /\ st_outcome t = OCompleted /\ st_exit_code t = Some (ro_exit_code out) /\
  (forced = false -> status = Some (ro_exit_code out mod 256)).
Proof.
  unfold map_supervisor_terminal_with_cancellation, validate_supervisor_terminal.
  destruct (validate_supervisor_terminal_shape t) as [[]|] eqn:Hv; [|done]; cbn [map_err].
  apply shape_ok in Hv as (Hf & _); unfold terminal_fields_valid in Hf.
  destruct before; [by destruct (validate_supervisor_terminal_status _ _ _)|].
  cbv zeta beta; destruct (st_outcome t); [|by destruct forced, (bool_decide _) ..].
  destruct (st_exit_code t) as [code|]; [|done]; cbn [from_option]; unfold id.
  destruct forced; simpl; [intros [= <-]; by split_and!|].
  case_bool_decide as Hs; simpl; [|done]; intros [= <-]; by split_and!.
Qed.

(** See [run_supervised_truthful]. *)
Lemma run_supervised_ok (env : supervised_env) (pd : option Z) (options : libdeno_options) (r : supervisor_run_result) :
  run_supervised env pd options = Ok r ->
  exists outcome reap,
    ev_session env = Ok outcome /\ ev_cleanup env = Ok reap /\
    so_cancellation_before_terminal outcome = None /\
    st_outcome (so_terminal outcome) = OCompleted /\
    st_exit_code (so_terminal outcome) = Some (sr_exit_code r) /\
    (rp_forced_kill reap = false -> rp_status reap = Some (sr_exit_code r mod 256)) /\
    captures options && ev_deadline_won env = false /\
    sr_partial r = (if captures options then Some (ev_capture env) else None) /\
    (sr_transport r = TransportClean <->
     so_transport outcome = TransportClean /\ partial_failed (sr_partial r) = false).
Proof.
  unfold run_supervised; fold (captures options).
  destruct (prepare env pd options) as [req|e0]; [|done]; cbn beta iota.
  destruct (captures options && negb (is_ok (ev_readers env))); [done|]; unfold conclude; cbv zeta.
  intros H; destruct (ev_session env) as [outcome|]; [|done].
  destruct (ev_cleanup env) as [reap|]; [|done].
  destruct (map_supervisor_terminal_with_cancellation _ _ _ _) as [out|] eqn:Hm; [|done].
  destruct (captures options && ev_deadline_won env) eqn:Hd; simplify_eq.
  apply map_terminal_ok in Hm as (Hb & Ho & Hx & Hs).
  exists outcome, reap; split_and!; try done; simpl.
  destruct (partial_failed _); naive_solver.
Qed.

(** C13. The outcome of a supervised run is truthful.  An exit code is reported
    only for a session whose terminal says completed with that code, that was
    not cancelled before, whose child was reaped with the matching status (or
    had to be killed), and whose output was collected in time; the transport is
    reported clean only if both the session and the capture were.  A failure
    carries process metadata exactly if a child was spawned and output exactly
    if output was requested, and one that names a category says nothing else. *)
Theorem run_supervised_truthful (env : supervised_env) (pd : option Z) (options : libdeno_options) :
  (forall r, run_supervised env pd options = Ok r ->
   exists outcome reap,
     ev_session env = Ok outcome /\ ev_cleanup env = Ok reap /\
     so_cancellation_before_terminal outcome = None /\
     st_outcome (so_terminal outcome) = OCompleted /\
     st_exit_code (so_terminal outcome) = Some (sr_exit_code r) /\
     (rp_forced_kill reap = false -> rp_status reap = Some (sr_exit_code r mod 256)) /\
     captures options && ev_deadline_won env = false /\
     sr_partial r = (if captures options then Some (ev_capture env) else None) /\
     (sr_transport r = TransportClean <->
      so_transport outcome = TransportClean /\ partial_failed (sr_partial r) = false)) /\
  (forall e, run_supervised env pd options = Err e ->
   well_formed_failure (captures options) (is_ok (prepare env pd options)) e).
Proof.
  split; [intros r; apply run_supervised_ok|].
  unfold run_supervised; fold (captures options).
  destruct (prepare env pd options) as [req|e0] eqn:Hp; [|intros e [= <-]; by eapply prepare_failure].
  destruct (captures options && negb (is_ok (ev_readers env))) eqn:Hr.
  { apply andb_prop in Hr as [-> _]; intros e [= <-].
    apply (well_formed_category _ true partial_reader_error true). }
  unfold conclude; cbv zeta; intros e H; destruct (ev_session env) as [outcome|e1].
  - destruct (ev_cleanup env) as [reap|].
    + destruct (map_supervisor_terminal_with_cancellation _ _ _ _) as [out|e2] eqn:Hm.
      { destruct (captures options && ev_deadline_won env) eqn:Hd; [|done]; simplify_eq.
        unfold collection_deadline_error; destruct (ev_requested_after env) as [[]|];
          first [apply (well_formed_category _ _ _ true) | apply (well_formed_metadata _ _ _ true)]. }
      simplify_eq; destruct (terminal_failure_category _ _ _ _);
        first [apply (well_formed_category _ _ _ true) | apply (well_formed_metadata _ _ _ true)].
    + simplify_eq; apply (well_formed_category _ _ _ true).
  - simplify_eq; destruct (supervisor_session_failure_category _ _ _);
      first [apply (well_formed_category _ _ _ true) | apply (well_formed_metadata _ _ _ true)].
Qed.

(** The environment of a run in which the session succeeded. *)
Definition session_env (t : supervisor_terminal) (before : option cancel_reason) (status : option Z)
    (request : supervisor_request) : supervised_env :=
  SupervisedEnv 0 0 None (Ok "/") (fun _ => Ok request) (Ok ()) (Ok ()) (Ok ()) (Ok ()) (Ok ()) (Ok ())
    (Ok (SessionOutcome t before TransportClean)) (Ok (ChildReap status false)) partial_empty false before.

(** What the caller must learn from a runtime result and a cancellation that
    reached the child. *)
Definition reported (requested : option cancel_reason) (r : result run_output libdeno_error)
  : result Z (option failure_category) :=
  match requested, r with
  | Some Deadline, _ => Err (Some CatTimeout)
  | Some (User | Shutdown), _ => Err None
  | None, Ok out => Ok (ro_exit_code out)
  | None, Err (Timeout _) => Err (Some CatTimeout)
  | None, Err e => Err (Some (supervisor_child_failure_category e))
  end.

(** The child's exit status, when the parent reaps it, is the terminal's. *)
Definition reaped_status (t : supervisor_terminal) : Z := child_exit_code t mod 256.

(** The verdict of the child in the parent's terms; [before] is a cancellation
    the parent recorded before the terminal. *)
Lemma conclude_verdict (env : supervised_env) (captured : bool) (requested before : option cancel_reason)
    (r : result run_output libdeno_error) (transport : transport_status) :
  let t := child_terminal requested r in
  ev_session env = Ok (SessionOutcome t before transport) ->
  ev_cleanup env = Ok (ChildReap (Some (reaped_status t)) false) ->
  captured && ev_deadline_won env = false ->
  match conclude env captured with
  | Ok out => before = None /\ reported requested r = Ok (sr_exit_code out)
  | Err e =>
      match before with
      | None => reported requested r = Err (se_category e) /\
          (se_category e = None -> se_error e = supervisor_cancel_error User)
      | Some reason =>
          se_category e = (if bool_decide (reason = Deadline /\ st_outcome t = ODeadline) then Some CatTimeout else None) /\
          (se_category e = None -> se_error e = supervisor_cancel_error reason)
      end
  end.
Proof.
  intros t Hs Hc Hd; unfold conclude; rewrite Hs, Hc, Hd; cbv zeta; cbn [so_terminal so_cancellation_before_terminal rp_status rp_forced_kill].
  assert (validate_supervisor_terminal t = Ok ()) as Hv.
  { unfold validate_supervisor_terminal, t; by rewrite child_terminal_shape. }
  assert (validate_supervisor_terminal_status t (Some (reaped_status t)) false = Ok ()) as Hst.
  { unfold validate_supervisor_terminal_status; rewrite bool_decide_eq_true_2; [done|].
    unfold reaped_status, expected_status, child_exit_code, supervisor_exit_code_for_status, t, child_terminal.
    by destruct requested as [[]|], r as [|[]]. }
  unfold map_supervisor_terminal_with_cancellation, terminal_failure_category; rewrite Hv; cbn [map_err].
  destruct before as [reason|].
  - cbn [rp_status rp_forced_kill]; rewrite Hst; cbn beta iota.
    destruct reason; simpl; repeat case_bool_decide; try naive_solver; by destruct (st_outcome t).
  - clear Hst; unfold t, reaped_status, child_terminal, reported, child_exit_code, supervisor_exit_code_for_status,
      validate_supervisor_terminal_status, expected_status, supervisor_exit_code_for_status.
    destruct requested as [[]|]; simpl; try done.
    destruct r as [out|[]]; simpl; rewrite ?bool_decide_eq_true_2 by done; simpl; try done;
      by destruct (is_permission_error _).
Qed.

(** The child's verdict survives the trip: for every runtime result and every
    cancellation the child observed, a parent that receives the child's terminal
    and reaps the exit status the child chose reports exactly that result: the
    script's exit code, or a timeout, a cancellation without category, or the
    failure's category.  The exit status is consistent for every code because
    both sides reduce it modulo 256. *)
Theorem child_verdict_reaches_parent (env : supervised_env) (captured : bool)
    (requested : option cancel_reason) (r : result run_output libdeno_error) (transport : transport_status) :
  let t := child_terminal requested r in
  ev_session env = Ok (SessionOutcome t None transport) ->
  ev_cleanup env = Ok (ChildReap (Some (child_exit_code t mod 256)) false) ->
  captured && ev_deadline_won env = false ->
  match conclude env captured with
  | Ok out => reported requested r = Ok (sr_exit_code out)
  | Err e => reported requested r = Err (se_category e)
  end.
Proof.
  intros t Hs Hc Hd; pose proof (conclude_verdict env captured requested None r transport Hs Hc Hd) as H.
  destruct (conclude env captured); apply H.
Qed.

Definition sample_request : supervisor_request :=
  SupervisorRequest "/m.ts" "/" [] false false [] None None None false false None.
Definition sample_options : libdeno_options :=
  LibdenoOptions [] false false [] None None None false false None None None.
(** The script exits with [-1], which the operating system reports as 255. *)
Definition sample_env : supervised_env :=
  session_env (child_terminal None (Ok (RunOutput (-1) [] [] false))) None (Some 255) sample_request.

Lemma run_supervised_truthful_witness :
  run_supervised sample_env None sample_options
  = Ok (SupervisorRunResult (-1) None DirectChild TransportClean) /\
  exists outcome, ev_session sample_env = Ok outcome /\ st_exit_code (so_terminal outcome) = Some (-1).
Proof.
  assert (run_supervised sample_env None sample_options
          = Ok (SupervisorRunResult (-1) None DirectChild TransportClean)) as E by (vm_compute; reflexivity).
  split; [exact E|].
  destruct (run_supervised_truthful sample_env None sample_options) as [H _].
  destruct (H _ E) as (outcome & reap & H1 & _ & _ & _ & H5 & _); exists outcome; split; [exact H1|exact H5].
Defined.

Lemma child_verdict_reaches_parent_witness :
  match conclude sample_env false with
  | Ok out => Ok (-1) = @Ok Z (option failure_category) (sr_exit_code out)
  | Err e => Ok (-1) = @Err Z (option failure_category) (se_category e)
  end.
Proof.
  exact (child_verdict_reaches_parent sample_env false None (Ok (RunOutput (-1) [] [] false)) TransportClean
    eq_refl eq_refl eq_refl).
Defined.
