(* ===== verification/Pipes.v ===== *)
(** * Pipes: reading a child's output.

    Models the pipe readers and the bounded collection of [src/subprocess.rs]
    ([drain_pipe_to_channel], [SubprocessOutputStream],
    [SubprocessOutputReaders::collect]) and [wait_readable] of
    [src/pipe_read.rs].  The pipe, the clock and the moments at which messages
    become visible are scripts. *)
From S2P Require Import Prelude.
Open Scope Z_scope.

(** ** Waiting for data in slices *)
Definition SLICE : Z := from_millis 50.

(** One [poll]: negative, zero (the slice passed) or positive, and the stop flag
    read before it. *)
Record wait_turn := WaitTurn { wt_stop : bool; wt_poll : result bool io_error }.

(** [wait_readable]; [None] while it waits. *)
Fixpoint wait_readable (turns : list wait_turn) : option (result bool io_error) :=
  match turns with
  | [] => None
  | t :: turns =>
      if wt_stop t then Some (Ok false)
      else match wt_poll t with
           | Err e => if kind_is e Interrupted then wait_readable turns else Some (Err e)
           | Ok true => Some (Ok true)
           | Ok false => wait_readable turns
           end
  end.

(** ** The reader thread *)

(** One iteration: the wait, the bytes the read returns ([[]] is end of file),
    the stop flag after it, and whether the collector still listens. *)
Record drain_turn := DrainTurn {
  dt_wait : result bool io_error;
  dt_read : result (list Z) io_error;
  dt_stop : bool;
  dt_listening : bool
}.

(** The blocks sent, the overflow flag, and how the thread ended. *)
Record drained := Drained {
  dr_blocks : list (list Z);
  dr_overflow : bool;
  dr_result : option (result unit io_error)
}.

Definition drain_send (block : list Z) (d : drained) : drained :=
  Drained (block :: dr_blocks d) (dr_overflow d) (dr_result d).
Definition drain_overflow (d : drained) : drained := Drained (dr_blocks d) true (dr_result d).
Definition drain_end (r : result unit io_error) : drained := Drained [] false (Some r).

Fixpoint drain_pipe_to_channel (waits : bool) (max : nat) (turns : list drain_turn)
    (retained : nat) (discarding : bool) : drained :=
  match turns with
  | [] => Drained [] false None
  | t :: turns =>
      match (if waits then dt_wait t else Ok true) with
      | Err e => drain_end (Err e)
      | Ok false => drain_end (Ok ())
      | Ok true =>
          match dt_read t with
          | Err e =>
              if kind_is e Interrupted then drain_pipe_to_channel waits max turns retained discarding
              else drain_end (Err e)
          | Ok data =>
              if dt_stop t then drain_end (Ok ())
              else
                match data with
                | [] => drain_end (Ok ())
                | _ :: _ =>
                    if discarding then drain_pipe_to_channel waits max turns retained discarding
                    else
                      let keep := Nat.min (max - retained) (length data) in
                      let continue :=
                        let over := (keep <? length data)%nat in
                        let rest := drain_pipe_to_channel waits max turns (retained + keep)
                                      (discarding || over) in
                        if over then drain_overflow rest else rest in
                      if (0 <? keep)%nat then
                        if dt_listening t then drain_send (take keep data) continue
                        else drain_end (Ok ())
                      else continue
                end
          end
      end
  end.

(** What the reader thread sends in all. *)
Inductive reader_message := MData (block : list Z) | MFinished | MFailed (e : io_error).

Definition reader_messages (d : drained) : list reader_message :=
  map MData (dr_blocks d) ++
  match dr_result d with
  | None => []
  | Some (Ok _) => [MFinished]
  | Some (Err e) => [MFailed e]
  end.

(** ** The collector *)
Record output_stream := OutputStream {
  os_queue : list reader_message;   (** messages not yet received *)
  os_output : list Z;
  os_error : option io_error;
  os_done : bool
}.

Definition stream_new (queue : list reader_message) : output_stream := OutputStream queue [] None false.

Definition stream_accept (name : string) (m : reader_message) (s : output_stream) : output_stream :=
  match m with
  | MData block => OutputStream (os_queue s) (os_output s ++ block) (os_error s) (os_done s)
  | MFinished => OutputStream (os_queue s) (os_output s) (os_error s) true
  | MFailed e =>
      OutputStream (os_queue s) (os_output s)
        (Some (IoError OtherKind (name +:+ " reader failed: " +:+ io_message e))) true
  end.

Definition stream_disconnected (name : string) (s : output_stream) : output_stream :=
  OutputStream (os_queue s) (os_output s)
    (Some (IoError OtherKind (name +:+ " reader disconnected unexpectedly"))) true.

(** A receive when [arrived] says whether the reader has sent its next message
    (or, with nothing left, has gone away). *)
Definition stream_receive (name : string) (arrived : bool) (s : output_stream) : bool * output_stream :=
  if arrived then
    match os_queue s with
    | [] => (true, stream_disconnected name s)
    | m :: queue =>
        (true, stream_accept name m (OutputStream queue (os_output s) (os_error s) (os_done s)))
    end
  else (false, s).

(** [while !stream.done && stream.try_receive() {}] when [n] messages are queued. *)
Fixpoint drain_queued (name : string) (n : nat) (s : output_stream) : output_stream :=
  match n with
  | O => s
  | S n => if os_done s then s else drain_queued name n (stream_receive name true s).2
  end.

(** One iteration of the collection loop; streams that were not requested are
    absent. *)
Record collect_turn := CollectTurn {
  ct_arrived : bool * bool;
  ct_now : Z;
  ct_queued : nat * nat;
  ct_wait : bool
}.

Definition stdout_name : string := "subprocess stdout".
Definition stderr_name : string := "subprocess stderr".

Definition streams := (option output_stream * option output_stream)%type.

Definition stream_done (o : option output_stream) : bool :=
  match o with Some s => os_done s | None => true end.

Definition try_stream (name : string) (arrived : bool) (o : option output_stream)
  : bool * option output_stream :=
  match o with
  | Some s => if os_done s then (false, o) else let '(p, s') := stream_receive name arrived s in (p, Some s')
  | None => (false, None)
  end.

(** The streams when the loop ends; [None] while it runs. *)
Fixpoint collect_loop (deadline : Z) (has_effective : bool) (turns : list collect_turn) (s : streams)
  : option streams :=
  match turns with
  | [] => None
  | t :: turns =>
      let '(p0, s0) := try_stream stdout_name (ct_arrived t).1 s.1 in
      let '(p1, s1) := try_stream stderr_name (ct_arrived t).2 s.2 in
      if stream_done s0 && stream_done s1 then Some (s0, s1)
      else if decide (deadline <= ct_now t) then
        Some (if has_effective
              then (option_map (drain_queued stdout_name (ct_queued t).1) s0,
                    option_map (drain_queued stderr_name (ct_queued t).2) s1)
              else (s0, s1))
      else
        collect_loop deadline has_effective turns
          (if p0 || p1 then (s0, s1)
           else if stream_done s0 then (s0, (try_stream stderr_name (ct_wait t) s1).2)
           else ((try_stream stdout_name (ct_wait t) s0).2, s1))
  end.

Record output_capture := OutputCapture {
  oc_stdout : list Z; oc_stderr : list Z; oc_truncated : bool; oc_incomplete : bool;
  oc_reader_error : bool; oc_deadline_won : bool; oc_error : option io_error
}.

Definition SUBPROCESS_OUTPUT_COLLECTION_TIMEOUT : Z := from_millis 500.

Definition fixed_deadline (now : Z) : Z :=
  default now (checked_add now SUBPROCESS_OUTPUT_COLLECTION_TIMEOUT).
Definition collection_deadline (now : Z) (effective_deadline : option Z) : Z :=
  match effective_deadline with Some d => Z.min (fixed_deadline now) d | None => fixed_deadline now end.

Definition stream_output (o : option output_stream) : list Z :=
  match o with Some s => os_output s | None => [] end.
Definition stream_error (o : option output_stream) : option io_error :=
  match o with Some s => os_error s | None => None end.

(** The overflow flags are the readers' own, read when the loop is over. *)
Definition finish_capture (now : Z) (effective_deadline : option Z) (overflow : bool * bool)
    (s : streams) : output_capture :=
  let incomplete := negb (stream_done s.1 && stream_done s.2) in
  let has_error o := match stream_error o with Some _ => true | None => false end in
  let reader_error := has_error s.1 || has_error s.2 in
  let deadline_won := incomplete && negb reader_error &&
    is_some_and effective_deadline (fun d => Z.leb d (fixed_deadline now)) in
  let truncated o b := match o with Some _ => b | None => false end in
  OutputCapture (stream_output s.1) (stream_output s.2)
    (truncated s.1 overflow.1 || truncated s.2 overflow.2)
    (incomplete || reader_error) reader_error deadline_won
    (match stream_error s.1, stream_error s.2 with
     | Some a, Some b => Some (IoError OtherKind (io_message a +:+ "; " +:+ io_message b))
     | Some a, None => Some a
     | None, b => b
     end).

Definition collect (now : Z) (effective_deadline : option Z) (overflow : bool * bool)
    (turns : list collect_turn) (stdout stderr : option (list reader_message)) : option output_capture :=
  option_map (finish_capture now effective_deadline overflow)
    (collect_loop (collection_deadline now effective_deadline)
       (match effective_deadline with Some _ => true | None => false end) turns
       (option_map stream_new stdout, option_map stream_new stderr)).

(** ** The reader keeps exactly the first [max] bytes *)

(** The bytes the pipe delivers up to end of file. *)
Fixpoint pipe_content (turns : list drain_turn) : list Z :=
  match turns with
  | [] => []
  | t :: turns =>
      match dt_read t with
      | Ok [] => []
      | Ok data => data ++ pipe_content turns
      | Err _ => pipe_content turns
      end
  end.

(** An iteration in which nothing goes wrong. *)
Definition undisturbed (t : drain_turn) : Prop :=
  dt_wait t = Ok true /\ dt_stop t = false /\ dt_listening t = true /\
  match dt_read t with Err e => io_kind e = Interrupted | Ok _ => True end.

Definition reaches_eof (turns : list drain_turn) : Prop := Exists (fun t => dt_read t = Ok []) turns.

Lemma drain_discarding (waits : bool) (max : nat) (turns : list drain_turn) (retained : nat) :
  let d := drain_pipe_to_channel waits max turns retained true in
  dr_blocks d = [] /\ dr_overflow d = false.
Proof.
  induction turns as [|t turns IH]; simpl; [done|].
  destruct (if waits then dt_wait t else Ok true) as [[]|]; [|done|done].
  destruct (dt_read t) as [[|b data]|e]; [by destruct (dt_stop t)|by destruct (dt_stop t)|].
  by destruct (kind_is e Interrupted).
Qed.

Lemma drain_prefix (waits : bool) (max : nat) (turns : list drain_turn) (retained : nat) :
  concat (dr_blocks (drain_pipe_to_channel waits max turns retained false))
    `prefix_of` take (max - retained) (pipe_content turns).
Proof.
  revert retained; induction turns as [|t turns IH]; intros retained; [apply prefix_nil|].
  cbn [drain_pipe_to_channel pipe_content].
  destruct (if waits then dt_wait t else Ok true) as [[]|]; [|apply prefix_nil|apply prefix_nil].
  destruct (dt_read t) as [data|e]; [|destruct (kind_is e Interrupted); [apply IH|apply prefix_nil]].
  destruct (dt_stop t); [apply prefix_nil|]; destruct data as [|b data]; [apply prefix_nil|]; lazy beta match.
  set (block := b :: data); cbv zeta; cbn [orb].
  destruct (Nat.ltb_spec (Nat.min (max - retained) (length block)) (length block)) as [Hlt|Hge].
  - rewrite Nat.min_l in * by lia.
    destruct (drain_discarding waits max turns (retained + (max - retained))) as [Hb _].
    destruct (Nat.ltb_spec 0 (max - retained)).
    + destruct (dt_listening t); [|apply prefix_nil].
      cbn [drain_send drain_overflow dr_blocks concat]; rewrite Hb, take_app_le by lia.
      by rewrite app_nil_r.
    + cbn [drain_overflow dr_blocks concat]; rewrite Hb; apply prefix_nil.
  - rewrite Nat.min_r by lia.
    destruct (Nat.ltb_spec 0 (length block)) as [_|Hz]; [|simpl in Hz; lia].
    destruct (dt_listening t); [|apply prefix_nil].
    cbn [drain_send dr_blocks concat]; rewrite (take_ge block) by lia.
    rewrite take_app_ge by lia; apply prefix_app.
    replace (max - retained - length block)%nat with (max - (retained + length block))%nat by lia.
    apply IH.
Qed.

Lemma drain_exact (waits : bool) (max : nat) (turns : list drain_turn) (retained : nat) (discarding : bool) :
  Forall undisturbed turns -> reaches_eof turns ->
  let d := drain_pipe_to_channel waits max turns retained discarding in
  dr_result d = Some (Ok ()) /\
  (discarding = false ->
   concat (dr_blocks d) = take (max - retained) (pipe_content turns) /\
   dr_overflow d = (max - retained <? length (pipe_content turns))%nat).
Proof.
  intros Hf; revert retained discarding.
  induction Hf as [|t turns (Hw & Hs & Hl & Hr) Hf IH]; intros retained discarding He; [by apply Exists_nil in He|].
  cbn [drain_pipe_to_channel pipe_content].
  replace (if waits then dt_wait t else Ok true) with (Ok (E := io_error) true) by (by destruct waits).
  destruct (dt_read t) as [data|e] eqn:Hread; rewrite ?Hs.
  2: { unfold kind_is; rewrite bool_decide_eq_true_2 by done; apply IH.
       apply Exists_cons in He as [?|?]; [congruence|done]. }
  destruct data as [|b data].
  { split; [done|]; intros _; simpl; by rewrite take_nil. }
  assert (reaches_eof turns) as He' by (apply Exists_cons in He as [?|?]; [congruence|done]).
  lazy beta match; destruct discarding; [split; [by apply IH|done]|].
  set (block := b :: data); cbv zeta; cbn [orb].
  destruct (Nat.ltb_spec (Nat.min (max - retained) (length block)) (length block)) as [Hlt|Hge].
  - rewrite Nat.min_l in * by lia; rewrite Hl.
    destruct (IH (retained + (max - retained))%nat true He') as [Hres _].
    destruct (drain_discarding waits max turns (retained + (max - retained))) as [Hb _].
    assert ((max - retained <? length (block ++ pipe_content turns))%nat = true) as ->.
    { apply Nat.ltb_lt; rewrite length_app; lia. }
    rewrite take_app_le by lia.
    destruct (Nat.ltb_spec 0 (max - retained)) as [|Hz];
      cbn [drain_send drain_overflow dr_blocks dr_overflow dr_result concat]; rewrite Hb.
    + split; [done|]; intros _; by rewrite app_nil_r.
    + split; [done|]; intros _. replace (max - retained)%nat with 0%nat by lia. done.
  - rewrite Nat.min_r by lia; rewrite Hl.
    destruct (Nat.ltb_spec 0 (length block)) as [_|Hz]; [|simpl in Hz; lia].
    destruct (IH (retained + length block)%nat false He') as [Hres H]; destruct (H eq_refl) as [Hc Ho].
    cbn [drain_send dr_result dr_blocks dr_overflow concat]; split; [done|]; intros _.
    rewrite Hc, Ho, (take_ge block) by lia; rewrite take_app_ge, length_app by lia.
    replace (max - (retained + length block))%nat with (max - retained - length block)%nat by lia.
    split; [done|].
    destruct (Nat.ltb_spec (max - retained - length block) (length (pipe_content turns))),
      (Nat.ltb_spec (max - retained) (length block + length (pipe_content turns))); (done || lia).
Qed.

(** ** What the collector has is what was sent *)
Definition message_data (m : reader_message) : list Z := match m with MData b => b | _ => [] end.
Definition is_data (m : reader_message) : bool := match m with MData _ => true | _ => false end.

(** [q] is everything the reader sends; the stream has received a prefix. *)
Definition stream_inv (q : list reader_message) (s : output_stream) : Prop :=
  exists pre, q = pre ++ os_queue s /\ os_output s = concat (map message_data pre) /\
  (os_done s = false -> forallb is_data pre = true /\ os_error s = None) /\
  (os_done s = true -> os_error s = None -> MFinished ∈ pre).

Lemma stream_receive_inv (name : string) (arrived : bool) (q : list reader_message) (s : output_stream) :
  stream_inv q s -> os_done s = false -> stream_inv q (stream_receive name arrived s).2.
Proof.
  intros (pre & Hq & Ho & Hd & Hf) Hs; destruct (Hd Hs) as [Hall He].
  unfold stream_receive; destruct arrived; [|by exists pre].
  destruct (os_queue s) as [|m queue] eqn:Eq; simpl.
  { exists pre; simpl; rewrite Eq; by split_and!. }
  exists (pre ++ [m]); rewrite <- app_assoc.
  destruct m as [b| |e]; simpl; (split; [done|]); rewrite map_app, concat_app, forallb_app; simpl;
    rewrite ?app_nil_r, Ho; split_and!; try done; try congruence.
  - intros _; by rewrite Hall.
  - intros _ _; apply elem_of_app; right; by apply list_elem_of_singleton.
Qed.

Lemma try_stream_inv (name : string) (arrived : bool) (q : list reader_message) (s : output_stream) :
  stream_inv q s -> exists s', (try_stream name arrived (Some s)).2 = Some s' /\ stream_inv q s'.
Proof.
  intros H; simpl; destruct (os_done s) eqn:Hd; [by exists s|].
  pose proof (stream_receive_inv name arrived q s H Hd) as H'.
  destruct (stream_receive name arrived s) as [p s']; by exists s'.
Qed.

Lemma drain_queued_inv (name : string) (n : nat) (q : list reader_message) (s : output_stream) :
  stream_inv q s -> stream_inv q (drain_queued name n s).
Proof.
  revert s; induction n as [|n IH]; intros s H; cbn [drain_queued]; [done|].
  destruct (os_done s) eqn:Hd; [done|]. by apply IH, stream_receive_inv.
Qed.

(** Both streams at once; an unrequested stream stays absent. *)
Definition opt_inv (q : option (list reader_message)) (o : option output_stream) : Prop :=
  match q, o with
  | Some q, Some s => stream_inv q s
  | None, None => True
  | _, _ => False
  end.

Lemma try_opt_inv (name : string) (arrived : bool) q o :
  opt_inv q o -> opt_inv q (try_stream name arrived o).2.
Proof.
  destruct q as [q|], o as [s|]; try done; unfold opt_inv at 1; intros H.
  destruct (try_stream_inv name arrived q s H) as (s' & He & H'); unfold opt_inv; by rewrite He.
Qed.

Lemma drain_opt_inv (name : string) (n : nat) q o :
  opt_inv q o -> opt_inv q (option_map (drain_queued name n) o).
Proof. destruct q, o; try done; apply drain_queued_inv. Qed.

Lemma collect_loop_inv (deadline : Z) (eff : bool) (turns : list collect_turn) (q0 q1 : option (list reader_message))
    (s s' : streams) :
  opt_inv q0 s.1 -> opt_inv q1 s.2 -> collect_loop deadline eff turns s = Some s' ->
  opt_inv q0 s'.1 /\ opt_inv q1 s'.2.
Proof.
  revert s; induction turns as [|t turns IH]; intros s H0 H1 H; [done|]; cbn [collect_loop] in H.
  pose proof (try_opt_inv stdout_name (ct_arrived t).1 _ _ H0) as T0.
  pose proof (try_opt_inv stderr_name (ct_arrived t).2 _ _ H1) as T1.
  destruct (try_stream stdout_name _ _) as [p0 s0], (try_stream stderr_name _ _) as [p1 s1]; simpl in T0, T1.
  destruct (stream_done s0 && stream_done s1); [by simplify_eq|].
  case_decide.
  - destruct eff; simplify_eq; [split; simpl; by apply drain_opt_inv|done].
  - apply IH in H; [done| |]; destruct (p0 || p1), (stream_done s0); simpl; try done; by apply try_opt_inv.
Qed.

Lemma reader_messages_done (d : drained) (s : output_stream) :
  dr_result d = Some (Ok ()) -> stream_inv (reader_messages d) s -> os_done s = true -> os_error s = None ->
  os_output s = concat (dr_blocks d).
Proof.
  intros Hr (pre & Hq & Ho & _ & Hf) Hd He; specialize (Hf Hd He).
  unfold reader_messages in Hq; rewrite Hr in Hq.
  apply list_elem_of_split in Hf as (a & b & ->); rewrite <- app_assoc in Hq; simpl in Hq.
  assert (b ++ os_queue s = [] /\ a = map MData (dr_blocks d)) as [Hb ->].
  { clear Ho; revert a Hq; generalize (dr_blocks d) as l; induction l as [|x l IH]; intros [|m a] H; simplify_eq/=; try done.
    - by destruct a.
    - destruct (IH a) as [? ->]; done. }
  apply app_eq_nil in Hb as [-> _]; rewrite Ho, map_app, concat_app, map_map; simpl; rewrite app_nil_r.
  by rewrite map_id.
Qed.

(** ** A run of the readers and the collector together *)

(** The pipes that were requested, each with its reader's iterations. *)
Definition pipe := option (list drain_turn).

Definition pipe_reader (waits : bool) (max : nat) (turns : list drain_turn) : drained :=
  drain_pipe_to_channel waits max turns 0 false.
Definition sent (waits : bool) (max : nat) (p : pipe) : option (list reader_message) :=
  option_map (fun turns => reader_messages (pipe_reader waits max turns)) p.
Definition overflowed (waits : bool) (max : nat) (p : pipe) : bool :=
  match p with Some turns => dr_overflow (pipe_reader waits max turns) | None => false end.
Definition content (p : pipe) : list Z := match p with Some turns => pipe_content turns | None => [] end.
Definition healthy (p : pipe) : Prop :=
  match p with Some turns => Forall undisturbed turns /\ reaches_eof turns | None => True end.

Lemma messages_data (d : drained) : concat (map message_data (reader_messages d)) = concat (dr_blocks d).
Proof.
  unfold reader_messages; rewrite map_app, concat_app, map_map; simpl; rewrite map_id.
  destruct (dr_result d) as [[]|]; simpl; by rewrite app_nil_r.
Qed.

Lemma opt_inv_new (q : option (list reader_message)) : opt_inv q (option_map stream_new q).
Proof. destruct q as [q|]; [|done]; exists []; by split_and!. Qed.

Lemma output_prefix (waits : bool) (max : nat) (p : pipe) (o : option output_stream) :
  opt_inv (sent waits max p) o -> stream_output o `prefix_of` take max (content p).
Proof.
  destruct p as [turns|], o as [s|]; try done; [|intros _; apply prefix_nil].
  intros (pre & Hq & Ho & _); cbn [stream_output content]; rewrite Ho.
  trans (concat (dr_blocks (pipe_reader waits max turns))).
  - rewrite <- messages_data, Hq, map_app, concat_app; by apply prefix_app_r.
  - pose proof (drain_prefix waits max turns 0) as H; by rewrite Nat.sub_0_r in H.
Qed.

Lemma output_exact (waits : bool) (max : nat) (p : pipe) (o : option output_stream) :
  healthy p -> opt_inv (sent waits max p) o -> stream_done o = true -> stream_error o = None ->
  stream_output o = take max (content p) /\
  overflowed waits max p = (max <? length (content p))%nat.
Proof.
  destruct p as [turns|], o as [s|]; try done.
  - intros [Hf He] H Hd Hn; cbn [stream_output stream_error stream_done content overflowed] in *.
    destruct (drain_exact waits max turns 0 false Hf He) as [Hr Hx]; destruct (Hx eq_refl) as [Hc Ho].
    rewrite Nat.sub_0_r in Hc, Ho.
    by rewrite (reader_messages_done _ _ Hr H Hd Hn).
  - intros _ _ _ _; cbn [stream_output content overflowed length]; by rewrite take_nil.
Qed.

Lemma collect_loop_ends (deadline : Z) (eff : bool) (turns : list collect_turn) (s : streams) :
  Exists (fun t => deadline <= ct_now t) turns -> is_Some (collect_loop deadline eff turns s).
Proof.
  intros H; revert s; induction H as [t turns H|t turns _ IH]; intros s; cbn [collect_loop];
    destruct (try_stream stdout_name _ _) as [p0 s0], (try_stream stderr_name _ _) as [p1 s1];
    destruct (stream_done s0 && stream_done s1); try done; case_decide; done.
Qed.

(** C19. What a parent captures of a child's output is what the child wrote.
    Whatever the pipes, the clock and the scheduling do, collection ends once
    the clock passes its deadline, and each stream it returns is a prefix of the
    first [max] bytes of that pipe.  When nothing disturbs the readers and the
    capture is not marked incomplete, each stream is exactly the first [max]
    bytes, no error is reported, and the capture is marked truncated exactly
    when one of the pipes carried more than [max] bytes. *)
Theorem capture_truthful (waits : bool) (max : nat) (out err : pipe) (now : Z) (eff : option Z)
    (overflow : bool * bool) (turns : list collect_turn)
    (Hend : Exists (fun t => collection_deadline now eff <= ct_now t) turns) :
  exists c, collect now eff overflow turns (sent waits max out) (sent waits max err) = Some c /\
  oc_stdout c `prefix_of` take max (content out) /\ oc_stderr c `prefix_of` take max (content err) /\
  (healthy out -> healthy err -> overflow = (overflowed waits max out, overflowed waits max err) ->
   oc_incomplete c = false ->
   oc_stdout c = take max (content out) /\ oc_stderr c = take max (content err) /\ oc_error c = None /\
   (oc_truncated c = true <-> (max < length (content out))%nat \/ (max < length (content err))%nat)).
Proof.
  unfold collect.
  destruct (collect_loop_ends _ (match eff with Some _ => true | None => false end) _
    (option_map stream_new (sent waits max out), option_map stream_new (sent waits max err)) Hend) as [s Hs].
  rewrite Hs; simpl option_map; eexists; split; [done|].
  apply (collect_loop_inv _ _ _ (sent waits max out) (sent waits max err)) in Hs as [H0 H1];
    [|apply opt_inv_new..].
  split_and!; [by eapply output_prefix..|]; intros Ho He -> Hi.
  cbn [finish_capture oc_incomplete oc_stdout oc_stderr oc_error oc_truncated fst snd] in *.
  apply orb_false_iff in Hi as [Hd Hn]; apply negb_false_iff, andb_true_iff in Hd as [Hd0 Hd1].
  apply orb_false_iff in Hn as [Hn0 Hn1].
  assert (stream_error s.1 = None) as E0 by (by destruct (stream_error s.1)).
  assert (stream_error s.2 = None) as E1 by (by destruct (stream_error s.2)).
  destruct (output_exact waits max out _ Ho H0 Hd0 E0) as [-> F0].
  destruct (output_exact waits max err _ He H1 Hd1 E1) as [-> F1].
  rewrite E0, E1, F0, F1; split_and!; try done.
  assert (forall p (o : option output_stream), opt_inv (sent waits max p) o ->
    (match o with Some _ => (max <? length (content p))%nat | None => false end) = (max <? length (content p))%nat) as Hm.
  { intros [|] [|] H; try done; symmetry; apply Nat.ltb_ge; simpl; lia. }
  rewrite !Hm by done; rewrite orb_true_iff, !Nat.ltb_lt; done.
Qed.

Definition sample_turn (block : list Z) : drain_turn := DrainTurn (Ok true) (Ok block) false true.
Definition sample_out : pipe := Some [sample_turn [104; 101]; sample_turn [108; 108]; sample_turn []].
Definition sample_err : pipe := Some [sample_turn [33]; sample_turn []].
Definition sample_collect (now : Z) : collect_turn := CollectTurn (true, true) now (0, 0)%nat false.
Definition sample_turns : list collect_turn := [sample_collect 0; sample_collect 1; sample_collect 2; sample_collect (from_millis 500)].

Lemma capture_truthful_witness :
  exists c, collect 0 None (true, false) sample_turns (sent true 3 sample_out) (sent true 3 sample_err) = Some c /\
  oc_stdout c = [104; 101; 108] /\ oc_stderr c = [33] /\ oc_truncated c = true /\ oc_incomplete c = false.
Proof.
  assert (Exists (fun t => collection_deadline 0 None <= ct_now t) sample_turns) as H
    by (do 3 apply Exists_cons_tl; apply Exists_cons_hd; vm_compute; discriminate).
  pose proof (capture_truthful true 3 sample_out sample_err 0 None (true, false) sample_turns H) as (c & Hc & _).
  exists c; split; [done|]; vm_compute in Hc; injection Hc as <-; by vm_compute.
Defined.
