(* ===== verification/Platform.v ===== *)
(** * Platform: socket and pipe waits that differ by operating system.

    Models the Windows half of [src/supervisor.rs] (the overlapped
    [write_until] with [cancel_and_reap_socket_write] and
    [poll_socket_writable]), the portable [write_until], the Apple
    [poll_readable], and the Windows half of [wait_readable] in
    [src/pipe_read.rs].  The Unix half is in Frame and Pipes.  A call of the
    operating system is answered by a script; the calls made are kept as a
    trace, on which the ownership of the buffer and of the event handle is
    judged by [slot_run]. *)
From S2P Require Import Prelude Token Frame Pipes.
Open Scope Z_scope.

(** ** Timeouts *)
Definition INFINITE : Z := u32_max.

Definition duration_to_win_timeout_ms (duration : Z) : Z :=
  let millis := duration / 10 ^ 6 in
  let round_up := Z.b2z (negb (Z.eqb ((duration mod 10 ^ 9) mod 1000000) 0)) in
  Z.min (millis + round_up) (u32_max - 1).

(** The argument of [WaitForSingleObject]. *)
Definition win_timeout (l : limits) (now : Z) : Z :=
  match poll_wait l now with
  | Some d => duration_to_win_timeout_ms d
  | None => INFINITE
  end.

(** The argument of [WSAPoll] and of Apple's [poll]. *)
Definition win_poll_timeout (l : limits) (now : Z) : Z :=
  match poll_wait l now with
  | Some d => duration_to_poll_timeout_ms d
  | None => -1
  end.

(** ** The overlapped send of Windows *)
Definition WSA_IO_PENDING : Z := 997.
Definition WSAEINTR : Z := 10004.
Definition WSAEWOULDBLOCK : Z := 10035.

Inductive waited := Signaled | WaitFailed (code : Z) | WaitTimeout | WaitOther.

(** [WSAGetOverlappedResult]: its answer, and how many bytes the kernel had taken
    of the buffer when the operation ended. *)
Record harvest := Harvest { hv_result : result unit Z; hv_taken : nat }.

(** [cancel_and_reap_socket_write]: what [CancelIoEx] answers, how the unlimited
    wait ends ([None] while it waits), and the harvest. *)
Record reap := Reap {
  c_cancel : result unit Z;
  c_wait : option waited;
  c_harvest : harvest
}.

(** One iteration of the inner loop. *)
Record wait_answer := WaitAnswer {
  v_probe : io_probe;
  v_from : Z;
  v_wait : waited;
  v_harvest : harvest;
  v_reap : reap
}.

(** One iteration of [poll_socket_writable]. *)
Inductive wsa_poll_reply := WsaError (code : Z) | WsaTimeout | WsaReady (revents : Z).
Record wsa_poll_turn := WsaPollTurn { p_probe : io_probe; p_from : Z; p_reply : wsa_poll_reply }.

(** One iteration of the outer loop. *)
Record overlapped_turn := OverlappedTurn {
  s_before : io_probe;
  s_event : result unit Z;          (** [WSACreateEvent] *)
  s_send : result unit Z;           (** [WSASend] *)
  s_poll : list wsa_poll_turn;
  s_waits : list wait_answer;
  s_after : io_probe
}.

(** The calls made, in order. *)
Inductive sys_call :=
| CCreate (created : bool)
| CSend (len : Z) (accepted : bool)
| CWait (timeout : Z) (r : waited)
| CCancel (ok : bool)
| CHarvest
| CClose
| CPoll (timeout : Z).

(** How the write ends: it returns, or it stops the process. *)
Inductive ending := Returned (r : result unit io_error) | ProcessAborted.

(** How the inner loop ends. *)
Inductive awaited :=
| Transferred (count : nat)
| Stopped (e : io_error) (taken : nat)
| WaitAborted (taken : nat).

Section Windows.
Context (from_raw_os_error : Z -> io_error).

Definition WSA_POLLERR : Z := 1.
Definition WSA_POLLHUP : Z := 2.
Definition WSA_POLLNVAL : Z := 4.
Definition POLLWRNORM : Z := 16.

(** [poll_socket_writable]; [None] while it waits. *)
Fixpoint poll_socket_writable (l : limits) (turns : list wsa_poll_turn)
  : option (result unit io_error * list sys_call) :=
  match turns with
  | [] => None
  | t :: turns =>
      match check_write_conditions l (p_probe t) with
      | Err e => Some (Err e, [])
      | Ok _ =>
          let polled := CPoll (win_poll_timeout l (p_from t)) in
          let again := option_map (fun '(r, tr) => (r, polled :: tr)) (poll_socket_writable l turns) in
          match p_reply t with
          | WsaError code =>
              if Z.eqb code WSAEINTR then again
              else Some (Err (from_raw_os_error code), [polled])
          | WsaTimeout => again
          | WsaReady revents =>
              if negb (Z.eqb (Z.land revents WSA_POLLNVAL) 0)
              then Some (Err (IoError InvalidInput "invalid supervisor socket"), [polled])
              else if negb (Z.eqb (Z.land revents (Z.lor WSA_POLLERR WSA_POLLHUP)) 0)
              then Some (Err (IoError BrokenPipe "supervisor peer closed"), [polled])
              else if negb (Z.eqb (Z.land revents POLLWRNORM) 0) then Some (Ok (), [polled])
              else again
          end
      end
  end.

(** [cancel_and_reap_socket_write]: [true] when it returns, [false] when it stops
    the process. *)
Definition cancel_and_reap_socket_write (c : reap) : option (bool * list sys_call) :=
  let cancelled := CCancel (is_ok (c_cancel c)) in
  match c_wait c with
  | None => None
  | Some Signaled => Some (true, [cancelled; CWait INFINITE Signaled; CHarvest])
  | Some w => Some (false, [cancelled; CWait INFINITE w])
  end.

(** The two ways the inner loop gives up on an operation in flight. *)
Definition give_up_on (c : reap) (e : io_error) : option (awaited * list sys_call) :=
  match cancel_and_reap_socket_write c with
  | None => None
  | Some (true, tr) => Some (Stopped e (hv_taken (c_harvest c)), tr)
  | Some (false, tr) => Some (WaitAborted (hv_taken (c_harvest c)), tr)
  end.

(** The inner loop of [write_until]. *)
Fixpoint await_send (l : limits) (waits : list wait_answer) : option (awaited * list sys_call) :=
  match waits with
  | [] => None
  | t :: waits =>
      match check_write_conditions l (v_probe t) with
      | Err e => give_up_on (v_reap t) e
      | Ok _ =>
          let call_ := CWait (win_timeout l (v_from t)) (v_wait t) in
          let after := option_map (fun '(r, tr) => (r, call_ :: tr)) in
          match v_wait t with
          | Signaled =>
              match hv_result (v_harvest t) with
              | Err code =>
                  Some (Stopped (from_raw_os_error code) (hv_taken (v_harvest t)), [call_; CHarvest])
              | Ok _ => Some (Transferred (hv_taken (v_harvest t)), [call_; CHarvest])
              end
          | WaitFailed code => after (give_up_on (v_reap t) (from_raw_os_error code))
          | WaitTimeout => after (await_send l waits)
          | WaitOther =>
              after (give_up_on (v_reap t)
                (IoError OtherKind "unexpected overlapped send wait result"))
          end
      end
  end.

(** The buffer handed to [WSASend]. *)
Definition send_buffer (bytes : list Z) : list Z :=
  take (Z.to_nat (Z.min (Z.of_nat (length bytes)) u32_max)) bytes.

(** What the kernel puts on the wire when it has taken [count] bytes of it. *)
Definition on_wire (bytes : list Z) (count : nat) : list Z := take count (send_buffer bytes).

(** What one iteration of the outer loop does: it tries again, goes on after
    [count] bytes, or ends the call with [taken] bytes of the buffer gone. *)
Inductive progress :=
| Again
| Wrote (count : nat)
| Ends (e : ending) (taken : nat).

(** From the completion of an accepted send to the end of the iteration. *)
Definition complete_send (l : limits) (t : overlapped_turn) (bytes : list Z)
  : option (progress * list sys_call) :=
  match await_send l (s_waits t) with
  | None => None
  | Some (WaitAborted taken, tr) => Some (Ends ProcessAborted taken, tr)
  | Some (Stopped e taken, tr) => Some (Ends (Returned (Err e)) taken, tr ++ [CClose])
  | Some (Transferred count, tr) =>
      Some (match Nat.min count (length (send_buffer bytes)) with
            | O => Ends (Returned (Err (IoError WriteZero "failed to write supervisor frame"))) O
            | transferred =>
                match check_write_conditions l (s_after t) with
                | Err e => Ends (Returned (Err e)) transferred
                | Ok _ => Wrote transferred
                end
            end, tr ++ [CClose])
  end.

(** From a refused send to the end of the iteration. *)
Definition refused_send (l : limits) (t : overlapped_turn) (code : Z)
  : option (progress * list sys_call) :=
  if Z.eqb code WSAEINTR then Some (Again, [CClose])
  else if Z.eqb code WSAEWOULDBLOCK then
    match poll_socket_writable l (s_poll t) with
    | None => None
    | Some (Err e, polls) => Some (Ends (Returned (Err e)) O, CClose :: polls)
    | Some (Ok _, polls) => Some (Again, CClose :: polls)
    end
  else Some (Ends (Returned (Err (from_raw_os_error code))) O, [CClose]).

(** One iteration. *)
Definition send_once (l : limits) (t : overlapped_turn) (bytes : list Z)
  : option (progress * list sys_call) :=
  match check_write_conditions l (s_before t) with
  | Err e => Some (Ends (Returned (Err e)) O, [])
  | Ok _ =>
      match s_event t with
      | Err code => Some (Ends (Returned (Err (from_raw_os_error code))) O, [CCreate false])
      | Ok _ =>
          let issued accepted :=
            [CCreate true; CSend (Z.of_nat (length (send_buffer bytes))) accepted] in
          let with_calls tr0 := option_map (fun '(r, tr) => (r, tr0 ++ tr)) in
          match s_send t with
          | Ok _ => with_calls (issued true) (complete_send l t bytes)
          | Err code =>
              if Z.eqb code WSA_IO_PENDING
              then with_calls (issued true) (complete_send l t bytes)
              else with_calls (issued false) (refused_send l t code)
          end
      end
  end.

(** [write_until] of Windows: [wire] is what the kernel has taken so far. *)
Fixpoint overlapped_write_until (l : limits) (last : io_probe) (turns : list overlapped_turn)
    (bytes wire : list Z) : option (ending * list Z * list sys_call) :=
  match bytes with
  | [] => Some (Returned (check_write_conditions l last), wire, [])
  | _ :: _ =>
      match turns with
      | [] => None
      | t :: turns =>
          match send_once l t bytes with
          | None => None
          | Some (Ends e taken, tr) => Some (e, wire ++ on_wire bytes taken, tr)
          | Some (Again, tr) =>
              option_map (fun '(r, w, tr') => (r, w, tr ++ tr'))
                (overlapped_write_until l last turns bytes wire)
          | Some (Wrote count, tr) =>
              option_map (fun '(r, w, tr') => (r, w, tr ++ tr'))
                (overlapped_write_until l last turns (drop count bytes) (wire ++ on_wire bytes count))
          end
      end
  end.
End Windows.

(** ** The portable write *)

(** One iteration: [stream.write]. *)
Record plain_turn := PlainTurn {
  pl_before : io_probe;
  pl_write : result nat io_error;
  pl_after : io_probe
}.

Fixpoint plain_write_until (l : limits) (last : io_probe) (turns : list plain_turn)
    (bytes sent : list Z) : option (result unit io_error * list Z) :=
  match bytes with
  | [] => Some (check_write_conditions l last, sent)
  | _ :: _ =>
      match turns with
      | [] => None
      | t :: turns =>
          match check_write_conditions l (pl_before t) with
          | Err e => Some (Err e, sent)
          | Ok _ =>
              match pl_write t with
              | Ok O => Some (Err (IoError WriteZero "failed to write supervisor frame"), sent)
              | Ok count =>
                  let sent := sent ++ take count bytes in
                  match check_write_conditions l (pl_after t) with
                  | Err e => Some (Err e, sent)
                  | Ok _ => plain_write_until l last turns (drop count bytes) sent
                  end
              | Err e =>
                  if kind_is e Interrupted then plain_write_until l last turns bytes sent
                  else Some (Err e, sent)
              end
          end
      end
  end.

(** ** Waiting to read *)
Definition POLLIN : Z := 1.

(** One iteration of Apple's [poll_readable]. *)
Record readable_turn := ReadableTurn {
  rd_probe : io_probe;
  rd_from : Z;
  rd_poll : poll_reply
}.

Section Apple.
Context (from_raw_os_error : Z -> io_error).

Fixpoint poll_readable (l : limits) (turns : list readable_turn) : option (result unit io_error) :=
  match turns with
  | [] => None
  | t :: turns =>
      if cancel_seen l (rd_probe t) then Some (Err frame_cancel_error)
      else if read_past_deadline l (o_now (rd_probe t)) then Some (Err frame_deadline_error)
      else
        match rd_poll t with
        | PollError e => if kind_is e Interrupted then poll_readable l turns else Some (Err e)
        | PollTimeout => poll_readable l turns
        | PollReady revents socket_error =>
            if negb (Z.eqb (Z.land revents POLLNVAL) 0)
            then Some (Err (from_raw_os_error EBADF))
            else if negb (Z.eqb (Z.land revents POLLERR) 0)
            then
              Some (match socket_error with
                    | Err e => Err e
                    | Ok code =>
                        if negb (Z.eqb code 0) then Err (from_raw_os_error code)
                        else Err (IoError ConnectionAborted "supervisor read poll failed")
                    end)
            else if negb (Z.eqb (Z.land revents (Z.lor POLLIN POLLHUP)) 0) then Some (Ok ())
            else poll_readable l turns
        end
  end.

(** One iteration of [read_until_with] on Apple: no timeout is set on the socket,
    a read that would block waits in [poll_readable]. *)
Record apple_turn := AppleTurn {
  ar_before : io_probe;
  ar_read : read_reply;
  ar_polls : list readable_turn
}.

Fixpoint apple_read_loop (l : limits) (turns : list apple_turn) (bytes got : list Z) (want : nat)
  : option (result (list Z) io_error * list Z) :=
  match want with
  | O => Some (Ok got, bytes)
  | S _ =>
      match turns with
      | [] => None
      | t :: turns =>
          if cancel_seen l (ar_before t) then Some (Err frame_cancel_error, bytes)
          else if read_past_deadline l (o_now (ar_before t))
          then Some (Err frame_deadline_error, bytes)
          else
            match ar_read t with
            | RData k =>
                let chunk := take (Nat.min (S k) want) bytes in
                match length chunk with
                | O => Some (Err (IoError UnexpectedEof "truncated supervisor frame"), bytes)
                | count =>
                    apple_read_loop l turns (drop count bytes) (got ++ chunk) (want - count)
                end
            | RError e =>
                if kind_is e Interrupted then apple_read_loop l turns bytes got want
                else if kind_is e TimedOut || kind_is e WouldBlock then
                  match poll_readable l (ar_polls t) with
                  | None => None
                  | Some (Err e) => Some (Err e, bytes)
                  | Some (Ok _) => apple_read_loop l turns bytes got want
                  end
                else Some (Err e, bytes)
            end
      end
  end.

Definition ERROR_BROKEN_PIPE : Z := 109.

(** One iteration of the Windows [wait_readable]: the stop flag, and what
    [PeekNamedPipe] reports. *)
Record pipe_peek_turn := PeekTurn { pk_stop : bool; pk_peek : result Z Z }.

Fixpoint peek_readable (turns : list pipe_peek_turn) : option (result bool io_error) :=
  match turns with
  | [] => None
  | t :: turns =>
      if pk_stop t then Some (Ok false)
      else match pk_peek t with
           | Ok available => if Z.ltb 0 available then Some (Ok true) else peek_readable turns
           | Err code => if Z.eqb code ERROR_BROKEN_PIPE then Some (Ok true)
                         else Some (Err (from_raw_os_error code))
           end
  end.
End Apple.

(** ** Who may use the buffer

    A send that was accepted belongs to the kernel, with the [OVERLAPPED] and the
    buffer, until its event has been signalled; it is harvested before the event
    is closed, and nothing else is sent before that. *)
Inductive slot := Free | Armed | Owned | Completed | Harvested.

Definition slot_step (s : slot) (c : sys_call) : option slot :=
  match s, c with
  | Free, CCreate true => Some Armed
  | Free, CCreate false => Some Free
  | Free, CPoll _ => Some Free
  | Armed, CSend _ true => Some Owned
  | Armed, CSend _ false => Some Armed
  | Armed, CClose => Some Free
  | Owned, CCancel _ => Some Owned
  | Owned, CWait _ Signaled => Some Completed
  | Owned, CWait _ _ => Some Owned
  | Completed, CHarvest => Some Harvested
  | Harvested, CClose => Some Free
  | _, _ => None
  end.

Fixpoint slot_run (s : slot) (tr : list sys_call) : option slot :=
  match tr with
  | [] => Some s
  | c :: tr => match slot_step s c with Some s => slot_run s tr | None => None end
  end.

Lemma slot_run_app (s : slot) (tr tr' : list sys_call) :
  slot_run s (tr ++ tr') = match slot_run s tr with Some s => slot_run s tr' | None => None end.
Proof. revert s; induction tr as [|c tr IH]; intros s; simpl; [done|]; destruct (slot_step s c); auto. Qed.

(** What an inner wait leaves. *)
Definition slot_after (a : awaited) : slot :=
  match a with WaitAborted _ => Owned | _ => Harvested end.

Section WindowsSpec.
Context (raw : Z -> io_error).

Lemma poll_socket_writable_free (l : limits) (turns : list wsa_poll_turn)
    (r : result unit io_error) (tr : list sys_call) :
  poll_socket_writable raw l turns = Some (r, tr) -> slot_run Free tr = Some Free.
Proof.
  revert tr; induction turns as [|t turns IH]; intros tr H; [done|]; cbn [poll_socket_writable] in H.
  destruct (check_write_conditions _ _); [|by simplify_eq].
  destruct (poll_socket_writable raw l turns) as [[r' tr']|]; repeat destr_match; by eauto.
Qed.

Lemma give_up_on_slot (c : reap) (e : io_error) (a : awaited) (tr : list sys_call) :
  give_up_on c e = Some (a, tr) -> slot_run Owned tr = Some (slot_after a).
Proof. unfold give_up_on, cancel_and_reap_socket_write; intros H; repeat destr_match; done. Qed.

Lemma await_send_slot (l : limits) (waits : list wait_answer) (a : awaited) (tr : list sys_call) :
  await_send raw l waits = Some (a, tr) -> slot_run Owned tr = Some (slot_after a).
Proof.
  revert tr; induction waits as [|t waits IH]; intros tr H; [done|]; cbn [await_send] in H.
  destruct (check_write_conditions _ _) as [|e]; [|by eapply give_up_on_slot].
  destruct (v_wait t).
  - destruct (hv_result _); simplify_eq/=; done.
  - destruct (give_up_on _ _) as [[a' tr']|] eqn:E; simplify_eq/=; by eapply give_up_on_slot.
  - destruct (await_send raw l waits) as [[a' tr']|]; simplify_eq/=; eauto.
  - destruct (give_up_on _ _) as [[a' tr']|] eqn:E; simplify_eq/=; by eapply give_up_on_slot.
Qed.

#[local] Arguments send_buffer : simpl never.
#[local] Arguments on_wire : simpl never.
#[local] Arguments take : simpl never.
#[local] Arguments drop : simpl never.

Definition slot_at_end (e : ending) : slot :=
  match e with Returned _ => Free | ProcessAborted => Owned end.

(** What one iteration leaves. *)
Definition slot_after_once (p : progress) : slot :=
  match p with Ends e _ => slot_at_end e | _ => Free end.

Lemma complete_send_slot (l : limits) (t : overlapped_turn) (bytes : list Z) (p : progress)
    (tr : list sys_call) :
  complete_send raw l t bytes = Some (p, tr) -> slot_run Owned tr = Some (slot_after_once p).
Proof.
  unfold complete_send; destruct (await_send raw l (s_waits t)) as [[a tr']|] eqn:E; [|done].
  apply await_send_slot in E; destruct a; intros H; simplify_eq; [| |done];
    rewrite slot_run_app, E; repeat destr_match; done.
Qed.

Lemma refused_send_slot (l : limits) (t : overlapped_turn) (code : Z) (p : progress)
    (tr : list sys_call) :
  refused_send raw l t code = Some (p, tr) -> slot_run Armed tr = Some (slot_after_once p).
Proof.
  unfold refused_send; intros H.
  destruct (poll_socket_writable raw l (s_poll t)) as [[r polls]|] eqn:E;
    [apply poll_socket_writable_free in E|]; repeat destr_match; done.
Qed.

Lemma send_once_slot (l : limits) (t : overlapped_turn) (bytes : list Z) (p : progress)
    (tr : list sys_call) :
  send_once raw l t bytes = Some (p, tr) -> slot_run Free tr = Some (slot_after_once p).
Proof.
  unfold send_once; intros H.
  destruct (check_write_conditions _ _); [|by simplify_eq].
  destruct (s_event t); [|by simplify_eq].
  destruct (complete_send raw l t bytes) as [[p1 tr1]|] eqn:Ec; [apply complete_send_slot in Ec|];
    (destruct (s_send t) as [[]|code];
     [|destruct (Z.eqb code WSA_IO_PENDING); [|destruct (refused_send raw l t code) as [[p2 tr2]|] eqn:Er;
        [apply refused_send_slot in Er|]]]); simplify_eq/=; done.
Qed.

Lemma overlapped_write_slot (l : limits) (last : io_probe) (turns : list overlapped_turn)
    (bytes wire wire' : list Z) (e : ending) (tr : list sys_call) :
  overlapped_write_until raw l last turns bytes wire = Some (e, wire', tr) ->
  slot_run Free tr = Some (slot_at_end e).
Proof.
  revert bytes wire tr; induction turns as [|t turns IH]; intros [|b bytes] wire tr H;
    cbn [overlapped_write_until] in H; [by simplify_eq|done|by simplify_eq|].
  destruct (send_once raw l t (b :: bytes)) as [[p tr1]|] eqn:E; [|done].
  apply send_once_slot in E; destruct p; [| |by simplify_eq].
  all: match type of H with option_map _ ?m = _ => destruct m as [[[r w] tr2]|] eqn:E2 end; simplify_eq/=.
  all: apply IH in E2; by rewrite slot_run_app, E.
Qed.

(** ** What is on the wire *)
Lemma on_wire_prefix (bytes : list Z) (count : nat) :
  (count <= length (send_buffer bytes))%nat -> on_wire bytes count = take count bytes.
Proof.
  intros H; unfold on_wire, send_buffer in *; rewrite length_take in H; rewrite take_take; f_equal; lia.
Qed.

Lemma on_wire_is_prefix (bytes : list Z) (count : nat) : exists rest, bytes = on_wire bytes count ++ rest.
Proof.
  unfold on_wire, send_buffer; rewrite take_take; eexists; symmetry; apply take_drop.
Qed.

Lemma send_once_wrote (l : limits) (t : overlapped_turn) (bytes : list Z) (p : progress)
    (tr : list sys_call) :
  send_once raw l t bytes = Some (p, tr) ->
  match p with
  | Again => True
  | Wrote count => (0 < count <= length (send_buffer bytes))%nat
  | Ends e _ => e <> Returned (Ok ())
  end.
Proof.
  unfold send_once, complete_send, refused_send; intros H.
  destruct (check_write_conditions l (s_before t)); [|by simplify_eq].
  destruct (s_event t); [|by simplify_eq].
  destruct (await_send raw l (s_waits t)) as [[[] ?]|];
    destruct (poll_socket_writable raw l (s_poll t)) as [[[] ?]|];
    repeat destr_match; try done; lia.
Qed.

Lemma overlapped_write_prefix (l : limits) (last : io_probe) (turns : list overlapped_turn)
    (bytes wire wire' : list Z) (e : ending) (tr : list sys_call) :
  overlapped_write_until raw l last turns bytes wire = Some (e, wire', tr) ->
  exists done_ rest, bytes = done_ ++ rest /\ wire' = wire ++ done_ /\
    (e = Returned (Ok ()) -> rest = []).
Proof.
  revert bytes wire tr; induction turns as [|t turns IH]; intros [|b bytes] wire tr H;
    cbn [overlapped_write_until] in H; [|done| |].
  1, 2: simplify_eq; exists [], []; by rewrite !app_nil_r.
  destruct (send_once raw l t (b :: bytes)) as [[p tr1]|] eqn:E; [|done].
  apply send_once_wrote in E; destruct p as [|count|e' taken].
  - destruct (overlapped_write_until _ _ _ _ _ _) as [[[r w] tr2]|] eqn:E2; simplify_eq/=.
    by apply IH in E2.
  - rewrite on_wire_prefix in H by lia.
    destruct (overlapped_write_until _ _ _ _ _ _) as [[[r w] tr2]|] eqn:E2; simplify_eq/=.
    apply IH in E2 as (d & rest & Hd & -> & Hr).
    exists (take count (b :: bytes) ++ d), rest; split_and!; [|by rewrite app_assoc|done].
    by rewrite <- app_assoc, <- Hd, take_drop.
  - simplify_eq; destruct (on_wire_is_prefix (b :: bytes) taken) as [rest Hr].
    eexists _, rest; split_and!; [exact Hr|done|done].
Qed.
End WindowsSpec.

(** ** Every write ends *)
Section WindowsReturns.
Context (raw : Z -> io_error) (l : limits).

Definition gives_up (o : io_probe) : Prop := is_ok (check_write_conditions l o) = false.

(** An iteration whose own waits end: each of its loops sees the cancellation or
    the deadline at some point, and the kernel ends a cancelled operation. *)
Definition settles (t : overlapped_turn) : Prop :=
  Exists (fun p => gives_up (p_probe p)) (s_poll t) /\
  Exists (fun v => gives_up (v_probe v)) (s_waits t) /\
  Forall (fun v => c_wait (v_reap v) <> None) (s_waits t).

Lemma poll_socket_writable_returns (turns : list wsa_poll_turn) :
  Exists (fun p => gives_up (p_probe p)) turns ->
  exists x, poll_socket_writable raw l turns = Some x.
Proof.
  unfold gives_up; induction 1 as [t turns H|t turns H [[r tr] IH]]; cbn [poll_socket_writable].
  - destruct (check_write_conditions _ _); [done|eauto].
  - rewrite IH; cbn [option_map]; repeat destr_match; eauto.
Qed.

Lemma give_up_on_returns (c : reap) (e : io_error) :
  c_wait c <> None -> exists x, give_up_on c e = Some x.
Proof. unfold give_up_on, cancel_and_reap_socket_write; repeat destr_match; eauto; done. Qed.

Lemma await_send_returns (waits : list wait_answer) :
  Forall (fun v => c_wait (v_reap v) <> None) waits ->
  Exists (fun v => gives_up (v_probe v)) waits -> exists x, await_send raw l waits = Some x.
Proof.
  unfold gives_up; intros Hr; induction 1 as [t waits H|t waits H IH]; cbn [await_send];
    apply Forall_cons in Hr as [Hc Hr].
  - destruct (check_write_conditions _ _); [done|by apply give_up_on_returns].
  - destruct (IH Hr) as [[a tr] ->].
    destruct (check_write_conditions _ _); [|by apply give_up_on_returns].
    destruct (v_wait t); [destruct (hv_result _); eauto| |eauto|].
    all: match goal with |- context [give_up_on ?c ?e] =>
           destruct (give_up_on_returns c e Hc) as [[? ?] ->] end; eauto.
Qed.

Lemma send_once_returns (t : overlapped_turn) (bytes : list Z) :
  settles t -> exists x, send_once raw l t bytes = Some x.
Proof.
  intros (Hp & Hw & Hr); unfold send_once, complete_send, refused_send.
  destruct (poll_socket_writable_returns _ Hp) as [[r1 t1] ->].
  destruct (await_send_returns _ Hr Hw) as [[a tr] ->].
  repeat destr_match; eauto.
Qed.

Lemma overlapped_write_returns (last : io_probe) (turns : list overlapped_turn)
    (bytes wire : list Z) :
  Forall settles turns -> Exists (fun t => gives_up (s_before t)) turns ->
  exists x, overlapped_write_until raw l last turns bytes wire = Some x.
Proof.
  intros Hs He; revert bytes wire; induction He as [t turns H|t turns H IH];
    intros [|b bytes] wire; cbn [overlapped_write_until]; eauto; apply Forall_cons in Hs as [Ht Hs].
  - unfold send_once, gives_up in *; destruct (check_write_conditions l (s_before t)); [done|eauto].
  - destruct (send_once_returns t (b :: bytes) Ht) as [[[|n|e n] tr] ->]; [| |eauto].
    + destruct (IH Hs (b :: bytes) wire) as [[[] ?] ->]; simpl; eauto.
    + destruct (IH Hs (drop n (b :: bytes)) (wire ++ on_wire (b :: bytes) n)) as [[[] ?] ->]; simpl; eauto.
Qed.
End WindowsReturns.

(** C27. A Windows socket write never leaves the kernel with its buffer: whatever
    the operating system answers, when [write_until] returns every send that was
    accepted has been waited for, harvested and had its event closed, no second
    one was issued meanwhile, and a call that cannot wait for its operation stops
    the process instead of returning; a prefix of the bytes is on the wire, all
    of them when it succeeds; and it ends once its loops see the cancellation or
    the deadline, provided cancelled operations end. *)
Theorem overlapped_write_safe (raw : Z -> io_error) (l : limits) (last : io_probe)
    (turns : list overlapped_turn) (bytes : list Z) :
  (forall e wire tr, overlapped_write_until raw l last turns bytes [] = Some (e, wire, tr) ->
     slot_run Free tr = Some (slot_at_end e) /\
     exists rest, bytes = wire ++ rest /\ (e = Returned (Ok ()) -> rest = [])) /\
  (Forall (settles l) turns -> Exists (fun t => gives_up l (s_before t)) turns ->
   exists x, overlapped_write_until raw l last turns bytes [] = Some x).
Proof.
  split; [|apply overlapped_write_returns]; intros e wire tr H; split.
  - by eapply overlapped_write_slot.
  - apply overlapped_write_prefix in H as (d & rest & -> & -> & Hr); eauto.
Qed.

(** A write of three bytes: one byte goes at once, the next send is pending when
    the cancellation is seen, and the kernel had taken another byte by then. *)
Lemma overlapped_write_safe_witness :
  let ok := IoProbe false 0 in
  let stop := IoProbe true 0 in
  let l := Limits (Some 100) true in
  let raw := fun _ : Z => IoError OtherKind "os error" in
  let done1 := WaitAnswer ok 0 Signaled (Harvest (Ok ()) 1) (Reap (Ok ()) None (Harvest (Ok ()) 0)) in
  let gone := WaitAnswer stop 0 WaitTimeout (Harvest (Ok ()) 0)
                (Reap (Ok ()) (Some Signaled) (Harvest (Err 995) 1)) in
  let poll := [WsaPollTurn stop 0 WsaTimeout] in
  let t1 := OverlappedTurn ok (Ok ()) (Ok ()) poll [done1] ok in
  let t2 := OverlappedTurn ok (Ok ()) (Err WSA_IO_PENDING) poll [gone] ok in
  exists tr,
    overlapped_write_until raw l ok [t1; t2] [7; 8; 9] [] =
      Some (Returned (Err frame_cancel_error), [7; 8], tr) /\
    slot_run Free tr = Some Free /\
    is_Some (overlapped_write_until raw l ok
      [OverlappedTurn stop (Ok ()) (Ok ()) poll [gone] ok] [7; 8; 9] []).
Proof.
  intros; eexists; split_and!; [vm_compute; reflexivity| |].
  - match goal with |- slot_run Free ?tr = _ =>
      refine (proj1 (proj1 (overlapped_write_safe raw l ok [t1; t2] [7; 8; 9])
        (Returned (Err frame_cancel_error)) [7; 8] tr _)) end; vm_compute; reflexivity.
  - destruct (proj2 (overlapped_write_safe raw l ok
      [OverlappedTurn stop (Ok ()) (Ok ()) poll [gone] ok] [7; 8; 9])) as [x ->]; [| |eauto].
    + repeat constructor; vm_compute; done.
    + by constructor.
Defined.

(** ** Timeouts *)

(** The timeout of an overlapped wait never ends it early and never means "for
    ever". *)
Lemma win_timeout_ms_spec (d : Z) :
  0 <= d ->
  let r := duration_to_win_timeout_ms d in
  0 <= r < INFINITE /\ (r - 1) * 10 ^ 6 < d /\ (r < u32_max - 1 -> d <= r * 10 ^ 6).
Proof.
  intros Hd r; unfold r, duration_to_win_timeout_ms, INFINITE, u32_max; cbv zeta.
  replace (10 ^ 9) with (1000000 * 1000) by lia; change (10 ^ 6) with 1000000.
  assert ((d mod (1000000 * 1000)) mod 1000000 = d mod 1000000) as ->.
  { rewrite Z.rem_mul_r, (Z.mul_comm 1000000 (_ mod 1000)), Z.mod_add, Z.mod_mod by lia; done. }
  pose proof (Z.div_mod d 1000000 ltac:(lia)); pose proof (Z.mod_pos_bound d 1000000 ltac:(lia)).
  pose proof (Z.div_pos d 1000000 Hd ltac:(lia)).
  destruct (Z.eqb_spec (d mod 1000000) 0); simpl Z.b2z; split_and!; lia.
Qed.

(** With a deadline or a cancellation no wait of a write is unlimited, and with a
    cancellation every wait is a slice of at most ten milliseconds. *)
Lemma write_slices (l : limits) (now : Z) :
  (l_deadline l <> None \/ l_cancellation l = true -> 0 <= win_timeout l now < INFINITE) /\
  (l_cancellation l = true -> win_timeout l now <= 10 /\ win_poll_timeout l now <= 10).
Proof.
  assert (forall d, 0 <= d -> 0 <= duration_to_win_timeout_ms d < INFINITE /\
            (d <= 10 ^ 7 -> duration_to_win_timeout_ms d <= 10 /\ duration_to_poll_timeout_ms d <= 10)) as Hd.
  { intros d H; destruct (win_timeout_ms_spec d H) as (? & ? & ?), (poll_timeout_ms_spec d H) as (_ & _ & ? & _).
    split; [done|lia]. }
  unfold win_timeout, win_poll_timeout, poll_wait.
  destruct (l_deadline l) as [at_|], (l_cancellation l); cbn [option_map].
  1: specialize (Hd (Z.min (duration_since at_ now) (from_millis 10))).
  2: specialize (Hd (duration_since at_ now)).
  3: specialize (Hd (from_millis 10)).
  all: unfold duration_since, from_millis in *; split; intros H;
    first [discriminate | by destruct H | destruct Hd as [? Hs]; try apply Hs; lia].
Qed.

(** ** The other writers and readers keep the same contract *)
Lemma plain_write_prefix (l : limits) (last : io_probe) (turns : list plain_turn)
    (bytes sent sent' : list Z) (r : result unit io_error) :
  plain_write_until l last turns bytes sent = Some (r, sent') ->
  exists done_ rest, bytes = done_ ++ rest /\ sent' = sent ++ done_ /\ (is_ok r = true -> rest = []).
Proof.
  revert bytes sent; induction turns as [|t turns IH]; intros [|b bytes] sent H;
    cbn [plain_write_until] in H; [|done| |].
  1, 2: simplify_eq; exists [], []; by rewrite !app_nil_r.
  assert (forall e, r = Err e -> sent' = sent ->
            exists done_ rest, b :: bytes = done_ ++ rest /\ sent' = sent ++ done_ /\ (is_ok r = true -> rest = []))
    as Hstop by (intros e -> ->; exists [], (b :: bytes); rewrite app_nil_r; done).
  destruct (check_write_conditions l (pl_before t)) as [[]|e]; [|simplify_eq; eauto].
  destruct (pl_write t) as [[|n]|e]; [simplify_eq; eauto| |destruct (kind_is e Interrupted); [eauto|simplify_eq; eauto]].
  destruct (check_write_conditions l (pl_after t)).
  - apply IH in H as (d & rest & Hd & -> & Hr).
    exists (take (S n) (b :: bytes) ++ d), rest; split_and!; [|by rewrite app_assoc|done].
    by rewrite <- app_assoc, <- Hd, take_drop.
  - simplify_eq; exists (take (S n) (b :: bytes)), (drop (S n) (b :: bytes)); by rewrite take_drop.
Qed.

Section AppleSpec.
Context (raw : Z -> io_error).

Lemma apple_read_loop_bytes (l : limits) (turns : list apple_turn) (bytes got rest : list Z)
    (want : nat) (r : result (list Z) io_error) :
  apple_read_loop raw l turns bytes got want = Some (r, rest) ->
  exists c, bytes = c ++ rest /\
    match r with
    | Ok v => v = got ++ c /\ length c = want
    | Err _ => (length c < want)%nat
    end.
Proof.
  revert bytes got want; induction turns as [|t turns IH]; intros bytes got [|want] H;
    cbn [apple_read_loop] in H;
    [by simplify_eq; exists []; rewrite app_nil_r|done|by simplify_eq; exists []; rewrite app_nil_r|].
  assert (forall e, r = Err e -> rest = bytes -> exists c, bytes = c ++ rest /\
            match r with Ok v => v = got ++ c /\ length c = S want | Err _ => (length c < S want)%nat end)
    as Hstop by (intros e -> ->; exists []; simpl; split; [done|lia]).
  destruct (cancel_seen l (ar_before t)); [simplify_eq; eauto|].
  destruct (read_past_deadline l _); [simplify_eq; eauto|].
  destruct (ar_read t) as [k|e].
  - pose proof (take_drop (Nat.min (S k) (S want)) bytes) as E.
    set (chunk := take (Nat.min (S k) (S want)) bytes) in *.
    destruct (length chunk) as [|n] eqn:El; [simplify_eq; eauto|].
    assert (S n <= S want)%nat by (rewrite <- El; unfold chunk; rewrite length_take; lia).
    assert (drop (S n) bytes = drop (Nat.min (S k) (S want)) bytes) as Ed.
    { rewrite <- El; unfold chunk; rewrite length_take.
      destruct (decide (Nat.min (S k) (S want) <= length bytes)%nat); [by rewrite Nat.min_l by lia|].
      rewrite Nat.min_r, !drop_ge by lia; done. }
    rewrite Ed in H; apply IH in H as (c & Hc & Hr); exists (chunk ++ c); split.
    + by rewrite <- app_assoc, <- Hc.
    + rewrite length_app; destruct r; [destruct Hr as [-> ?]; rewrite app_assoc; split; [done|]|]; lia.
  - destruct (kind_is e Interrupted); [by apply IH in H|].
    destruct (kind_is e TimedOut || kind_is e WouldBlock); [|simplify_eq; eauto].
    destruct (poll_readable raw l (ar_polls t)) as [[[]|]|]; [by apply IH in H|simplify_eq; eauto|done].
Qed.

(** The two ways of waiting make no difference to what is read. *)
Lemma apple_reads_as_elsewhere (l : limits) (ts : list apple_turn) (ts' : list read_turn)
    (bytes v v' rest : list Z) (s' : incoming) (want : nat) :
  apple_read_loop raw l ts bytes [] want = Some (Ok v, rest) ->
  read_until want l (Incoming bytes ts') = Some (Ok v', s') ->
  v = v' /\ rest = in_bytes s'.
Proof.
  intros (c & -> & -> & Hl)%apple_read_loop_bytes (Hl' & E)%read_until_ok; simpl in *.
  apply app_inj_1 in E as [-> ->]; [done|lia].
Qed.

Lemma poll_readable_returns (l : limits) (turns : list readable_turn) :
  Exists (fun t => cancel_seen l (rd_probe t) = true \/
                   read_past_deadline l (o_now (rd_probe t)) = true) turns ->
  exists r, poll_readable raw l turns = Some r.
Proof.
  induction 1 as [t turns H|t turns H [r IH]]; cbn [poll_readable].
  - destruct H as [-> | ->]; [eauto|destruct (cancel_seen _ _); eauto].
  - rewrite IH; repeat destr_match; eauto.
Qed.

(** A Windows pipe reader stops within one slice of its flag being set, and is
    told to read only when bytes wait or every writer is gone. *)
Lemma peek_readable_spec (turns : list pipe_peek_turn) :
  (Exists (fun t => pk_stop t = true) turns -> exists r, peek_readable raw turns = Some r) /\
  (peek_readable raw turns = Some (Ok false) -> Exists (fun t => pk_stop t = true) turns) /\
  (peek_readable raw turns = Some (Ok true) ->
   Exists (fun t => pk_stop t = false /\
     match pk_peek t with Ok n => 0 < n | Err code => code = ERROR_BROKEN_PIPE end) turns).
Proof.
  induction turns as [|t turns (IH1 & IH2 & IH3)]; cbn [peek_readable];
    [split_and!; [intros ?%Exists_nil|..]; done|].
  rewrite !Exists_cons; destruct (pk_stop t) eqn:Es; [split_and!; eauto; done|].
  destruct (pk_peek t) as [n|code] eqn:Ep.
  - destruct (Z.ltb_spec 0 n); [split_and!; eauto; done|].
    split_and!; [intros [?|?]; [done|eauto]|eauto|eauto].
  - destruct (Z.eqb_spec code ERROR_BROKEN_PIPE); split_and!; eauto; done.
Qed.
End AppleSpec.

(** ** One frame over any of the writers *)

(** What [write_frame_until] asks of its platform's [write_until]. *)
Class SocketWriter (script : Type) := {
  sw_write : limits -> io_probe -> script -> list Z -> option (ending * list Z);
  sw_prefix (l : limits) (last : io_probe) (s : script) (bytes sent : list Z) (e : ending) :
    sw_write l last s bytes = Some (e, sent) ->
    exists rest, bytes = sent ++ rest /\ (e = Returned (Ok ()) -> rest = [])
}.

Lemma prefix_of_loop (bytes sent' : list Z) (P : Prop) :
  (exists done_ rest, bytes = done_ ++ rest /\ sent' = [] ++ done_ /\ (P -> rest = [])) ->
  exists rest, bytes = sent' ++ rest /\ (P -> rest = []).
Proof. intros (d & rest & -> & -> & H); eauto. Qed.

#[export] Instance unix_writer (raw : Z -> io_error) : SocketWriter (list write_turn).
Proof.
  refine {| sw_write l last s bytes :=
    option_map (fun '(r, sent, _) => (Returned r, sent)) (write_until raw l last s bytes) |}.
  intros l last s bytes sent e H.
  destruct (write_until _ _ _ _ _) as [[[r w] tr]|] eqn:E; [|done]; cbn [option_map] in H; simplify_eq.
  apply prefix_of_loop; unfold write_until in E; apply write_loop_prefix in E as (d & rest & Hd & Hw & Hr).
  exists d, rest; split_and!; [done|done|]; intros ?; simplify_eq/=; auto.
Defined.

#[export] Instance windows_writer (raw : Z -> io_error) : SocketWriter (list overlapped_turn).
Proof.
  refine {| sw_write l last s bytes :=
    option_map (fun '(e, wire, _) => (e, wire)) (overlapped_write_until raw l last s bytes []) |}.
  intros l last s bytes sent e H.
  destruct (overlapped_write_until _ _ _ _ _ _) as [[[r w] tr]|] eqn:E; simplify_eq/=.
  eapply prefix_of_loop, overlapped_write_prefix, E.
Defined.

#[export] Instance plain_writer : SocketWriter (list plain_turn).
Proof.
  refine {| sw_write l last s bytes :=
    option_map (fun '(r, sent) => (Returned r, sent)) (plain_write_until l last s bytes []) |}.
  intros l last s bytes sent e H.
  destruct (plain_write_until _ _ _ _ _) as [[r w]|] eqn:E; simplify_eq/=.
  apply prefix_of_loop; apply plain_write_prefix in E as (d & rest & Hd & Hw & Hr).
  exists d, rest; split_and!; [done|done|]; intros ?; simplify_eq/=; auto.
Defined.

(** What the write of a frame leaves: how it ended, the bytes on the wire, and
    whether the socket was shut down. *)
Record frame_end := FrameEnd { fe_ending : ending; fe_wire : list Z; fe_shutdown : bool }.

(** [write_frame_until] over the platform's writer; one script per call. *)
Definition write_frame_with {script} `{SocketWriter script} (f : supervisor_frame) (l : limits)
    (header_last payload_last : io_probe) (header_script payload_script : script)
  : option frame_end :=
  if decide (payload_len f > MAX_SUPERVISOR_FRAME_PAYLOAD)
  then Some (FrameEnd (Returned (Err (invalid_data "supervisor frame payload is too large"))) [] false)
  else
    match encode_header f with
    | Err e => Some (FrameEnd (Returned (Err e)) [] false)
    | Ok header =>
        match sw_write l header_last header_script header with
        | None => None
        | Some (ProcessAborted, sent) => Some (FrameEnd ProcessAborted sent false)
        | Some (Returned (Err e), sent) => Some (FrameEnd (Returned (Err e)) sent true)
        | Some (Returned (Ok _), sent) =>
            match sw_write l payload_last payload_script (f_payload f) with
            | None => None
            | Some (ProcessAborted, sent') => Some (FrameEnd ProcessAborted (sent ++ sent') false)
            | Some (Returned r, sent') =>
                Some (FrameEnd (Returned r) (sent ++ sent') (negb (is_ok r)))
            end
        end
    end.

(** On every platform a frame is all or nothing for the peer: what is on the
    wire is a prefix of the frame, the whole frame when the write reports
    success, and after a torn frame the socket is shut down or the
    process is gone, so no later frame can follow it. *)
Theorem frame_write_any_platform {script} `{SocketWriter script} (f : supervisor_frame)
    (l : limits) (last1 last2 : io_probe) (s1 s2 : script) (w : frame_end) :
  write_frame_with f l last1 last2 s1 s2 = Some w ->
  (exists rest, frame_bytes f = fe_wire w ++ rest /\ (fe_ending w = Returned (Ok ()) -> rest = [])) /\
  (fe_wire w <> [] -> fe_shutdown w = true \/ fe_ending w = ProcessAborted \/
                      fe_wire w = frame_bytes f /\ fe_ending w = Returned (Ok ())).
Proof.
  unfold write_frame_with; case_decide as Hlen; [intros; simplify_eq/=; split; [by exists (frame_bytes f)|done]|].
  destruct (encode_header_ok f) as (header & -> & ->); [lia|]; intros H0.
  destruct (sw_write l last1 s1 header) as [[e1 sent1]|] eqn:E1; [|done].
  apply sw_prefix in E1 as (r1 & -> & H1).
  destruct e1 as [[[]|e]|]; [| |].
  - rewrite (H1 eq_refl), app_nil_r in *.
    destruct (sw_write l last2 s2 (f_payload f)) as [[e2 sent2]|] eqn:E2; [|done].
    apply sw_prefix in E2 as (r2 & Ep & H2); rewrite Ep.
    assert (exists rest, sent1 ++ sent2 ++ r2 = (sent1 ++ sent2) ++ rest /\
              (e2 = Returned (Ok ()) -> rest = [])) by (exists r2; by rewrite app_assoc).
    destruct e2 as [[[]|e]|]; simplify_eq/=; (split; [done|]); auto.
    rewrite (H2 eq_refl), app_nil_r; auto.
  - simplify_eq/=; split; [|auto]; exists (r1 ++ f_payload f); by rewrite app_assoc.
  - simplify_eq/=; split; [|auto]; exists (r1 ++ f_payload f); by rewrite app_assoc.
Qed.

Lemma frame_write_any_platform_witness :
  let f := SupervisorFrame KStart 7 [] in
  let ok := IoProbe false 0 in
  let l := Limits (Some 10) true in
  let torn := [PlainTurn ok (Ok 5%nat) ok; PlainTurn ok (Ok 0%nat) ok] in
  exists w, write_frame_with f l ok ok torn [] = Some w /\
    fe_wire w = take 5 (frame_bytes f) /\ fe_shutdown w = true /\
    exists rest, frame_bytes f = fe_wire w ++ rest.
Proof.
  intros; eexists; split_and!; [vm_compute; reflexivity|vm_compute; reflexivity|reflexivity|].
  match goal with |- exists rest, _ = fe_wire ?w ++ rest =>
    destruct (proj1 (frame_write_any_platform (H := plain_writer) f l ok ok torn [] w ltac:(vm_compute; reflexivity)))
      as (rest & E & _) end.
  by exists rest.
Defined.
