(* ===== verification/Readers.v ===== *)
(** * Readers: the detached threads behind a capture (src/subprocess.rs).

    [SubprocessOutputReader::spawn], its [Drop], and
    [SubprocessOutputReaders::take]: a reader thread owns its pipe and a slot of
    the process-wide budget, and outlives the call that started it.  The threads
    of the process are a list; [pool_step] interleaves their last steps with
    calls that start and drop readers.  What a reader does with the bytes is in
    Pipes, the counter's atomic accesses are in Budget. *)
From S2P Require Import Prelude Budget Pipes.
Open Scope Z_scope.

(** How [catch_unwind] of [drain_pipe_to_channel] ended. *)
Inductive drain_outcome := DrainReturned (r : result unit io_error) | DrainPanicked.

(** Where a reader thread stands. *)
Inductive reader_phase :=
| Reading
| DrainEnded (o : drain_outcome)
| PipeClosed (o : drain_outcome)
| SlotReturned (o : drain_outcome)
| Reported (o : drain_outcome).

(** A thread with what it shares with its [SubprocessOutputReader]; [t_owned]
    says that the latter, with its receiver, still exists. *)
Record reader_thread := ReaderThread {
  t_phase : reader_phase;
  t_stop : bool;
  t_owned : bool;
  t_last : option reader_message      (** the message after the data, once sent *)
}.

Record pool := Pool { pl_slots : Z; pl_threads : list reader_thread }.

Definition reader_slot_name : string := "subprocess output reader/pipe".

(** [reserve_subprocess_output_reader], as one step. *)
Definition reserve_subprocess_output_reader (slots : Z) : result unit io_error * Z :=
  if decide (slots >= MAX_ACTIVE_SUBPROCESS_OUTPUT_READERS)
  then (Err (budget_error reader_slot_name slots MAX_ACTIVE_SUBPROCESS_OUTPUT_READERS), slots)
  else (Ok (), slots + 1).

(** [SubprocessOutputReader::spawn]: [started] is what starting the thread
    answers; a closure that was not started is dropped with its slot. *)
Definition reader_spawn (started : result unit io_error) (p : pool) : result nat io_error * pool :=
  match reserve_subprocess_output_reader (pl_slots p) with
  | (Err e, slots) => (Err e, Pool slots (pl_threads p))
  | (Ok _, slots) =>
      match started with
      | Err e => (Err e, Pool (drop_guard slots) (pl_threads p))
      | Ok _ => (Ok (length (pl_threads p)),
                 Pool slots (pl_threads p ++ [ReaderThread Reading false true None]))
      end
  end.

(** [SubprocessOutputReader::drop], and the receiver goes with it. *)
Definition reader_drop (i : nat) (p : pool) : pool :=
  match pl_threads p !! i with
  | Some t => Pool (pl_slots p) (<[i := ReaderThread (t_phase t) true false (t_last t)]> (pl_threads p))
  | None => p
  end.

(** The last message of a thread. *)
Definition final_message (o : drain_outcome) : reader_message :=
  match o with
  | DrainReturned (Ok _) => MFinished
  | DrainReturned (Err e) => MFailed e
  | DrainPanicked => MFailed (IoError OtherKind "subprocess output reader panicked")
  end.

(** One step of the thread's body after [drain_pipe_to_channel]: [drop(pipe)],
    [drop(reader_budget)], and the send, which a dropped receiver refuses. *)
Definition reader_thread_step (t : reader_thread) (slots : Z) : reader_thread * Z :=
  let at_ ph := ReaderThread ph (t_stop t) (t_owned t) (t_last t) in
  match t_phase t with
  | DrainEnded o => (at_ (PipeClosed o), slots)
  | PipeClosed o => (at_ (SlotReturned o), drop_guard slots)
  | SlotReturned o =>
      (ReaderThread (Reported o) (t_stop t) (t_owned t)
         (if t_owned t then Some (final_message o) else None), slots)
  | _ => (t, slots)
  end.

(** ** [SubprocessOutputReaders::take] *)
Definition missing_pipe (name : string) : io_error :=
  IoError OtherKind ("subprocess " +:+ name +:+ " pipe was not created").

Definition spawn_if (requested : bool) (started : result unit io_error) (p : pool)
  : result (option nat) io_error * pool :=
  if requested then
    match reader_spawn started p with
    | (Ok i, p) => (Ok (Some i), p)
    | (Err e, p) => (Err e, p)
    end
  else (Ok None, p).

Definition drop_taken (o : option nat) (p : pool) : pool :=
  match o with Some i => reader_drop i p | None => p end.

(** [child] says which pipes the child still holds. *)
Definition take (capture_stdout capture_stderr : bool) (started : result unit io_error * result unit io_error)
    (child : bool * bool) (p : pool) : result (option nat * option nat) io_error * (bool * bool) * pool :=
  if capture_stdout && negb child.1 then (Err (missing_pipe "stdout"), child, p)
  else
    let child := (child.1 && negb capture_stdout, child.2) in
    if capture_stderr && negb child.2 then (Err (missing_pipe "stderr"), child, p)
    else
      let child := (child.1, child.2 && negb capture_stderr) in
      match spawn_if capture_stdout started.1 p with
      | (Err e, p) => (Err e, child, p)
      | (Ok stdout, p) =>
          match spawn_if capture_stderr started.2 p with
          | (Err e, p) => (Err e, child, drop_taken stdout p)
          | (Ok stderr, p) => (Ok (stdout, stderr), child, p)
          end
      end.

(** ** The process's readers, interleaved *)
Inductive pool_step : pool -> pool -> Prop :=
| pool_spawn p started : pool_step p (reader_spawn started p).2
| pool_drop p i : pool_step p (reader_drop i p)
| pool_drained p i t o :
    pl_threads p !! i = Some t -> t_phase t = Reading ->
    pool_step p (Pool (pl_slots p)
      (<[i := ReaderThread (DrainEnded o) (t_stop t) (t_owned t) (t_last t)]> (pl_threads p)))
| pool_thread p i t :
    pl_threads p !! i = Some t ->
    pool_step p (Pool (reader_thread_step t (pl_slots p)).2
      (<[i := (reader_thread_step t (pl_slots p)).1]> (pl_threads p))).
#[export] Hint Constructors pool_step : libdeno.

Definition no_readers : pool := Pool 0 [].

(** ** What each thread holds *)
Definition has_slot (t : reader_thread) : nat :=
  match t_phase t with Reading | DrainEnded _ | PipeClosed _ => 1 | _ => 0 end.
Definition holds_pipe (t : reader_thread) : nat :=
  match t_phase t with Reading | DrainEnded _ => 1 | _ => 0 end.

(** An abandoned reader is told to stop, and a reader's last word comes when it
    holds neither its pipe nor its slot. *)
Definition thread_ok (t : reader_thread) : Prop :=
  (t_owned t = false -> t_stop t = true) /\
  (forall m, t_last t = Some m -> exists o, t_phase t = Reported o /\ m = final_message o).

Definition pool_inv (p : pool) : Prop :=
  pl_slots p = Z.of_nat (sum_list_with has_slot (pl_threads p)) /\
  pl_slots p <= MAX_ACTIVE_SUBPROCESS_OUTPUT_READERS /\
  Forall thread_ok (pl_threads p).

Lemma reserve_is_alone (slots : Z) :
  let '(pc, c) := reserve_alone 2 MAX_ACTIVE_SUBPROCESS_OUTPUT_READERS AtLoad slots in
  reserve_subprocess_output_reader slots = (match pc with Holding => Ok () | _ =>
    Err (budget_error reader_slot_name slots MAX_ACTIVE_SUBPROCESS_OUTPUT_READERS) end, c) /\
  is_Some (reserve_result reader_slot_name MAX_ACTIVE_SUBPROCESS_OUTPUT_READERS pc).
Proof. unfold reserve_subprocess_output_reader; simpl; repeat case_decide; try done; eauto. Qed.

Lemma reader_spawn_inv (started : result unit io_error) (p : pool) :
  pool_inv p -> pool_inv (reader_spawn started p).2.
Proof.
  intros (Hs & Hm & Hf); unfold reader_spawn, reserve_subprocess_output_reader.
  case_decide; [done|]; destruct started; unfold drop_guard; split_and!; simpl; try done; try lia.
  - rewrite sum_list_with_app; simpl; lia.
  - apply Forall_app; split; [done|]; by repeat constructor.
Qed.

Lemma slot_update_inv (i : nat) (t t' : reader_thread) (slots : Z) (p : pool) :
  pool_inv p -> pl_threads p !! i = Some t -> thread_ok t' ->
  slots = pl_slots p - Z.of_nat (has_slot t) + Z.of_nat (has_slot t') ->
  (has_slot t' <= has_slot t)%nat ->
  pool_inv (Pool slots (<[i := t']> (pl_threads p))).
Proof.
  intros (Hs & Hm & Hf) Hi Ht -> Hle; pose proof (sum_list_insert has_slot _ _ _ t' Hi).
  split_and!; simpl; [lia|lia|by apply Forall_insert].
Qed.

Lemma pool_inv_thread (i : nat) (t : reader_thread) (p : pool) :
  pool_inv p -> pl_threads p !! i = Some t -> thread_ok t.
Proof. intros (_ & _ & Hf) Hi; by eapply Forall_lookup_1. Qed.

Lemma reader_drop_inv (i : nat) (p : pool) : pool_inv p -> pool_inv (reader_drop i p).
Proof.
  intros H; unfold reader_drop; destruct (pl_threads p !! i) as [t|] eqn:Hi; [|done].
  destruct (pool_inv_thread _ _ _ H Hi) as [_ Hl].
  eapply slot_update_inv; eauto; [by split|unfold has_slot; simpl; lia].
Qed.

Lemma pool_step_inv (a b : pool) : pool_inv a -> pool_step a b -> pool_inv b.
Proof.
  intros H Hstep; destruct Hstep as [p started|p i|p i t o Hi Hp|p i t Hi].
  - by apply reader_spawn_inv.
  - by apply reader_drop_inv.
  - destruct (pool_inv_thread _ _ _ H Hi) as [Ho Hl].
    eapply slot_update_inv; eauto; unfold has_slot; simpl; rewrite ?Hp; [|lia|lia].
    split; [done|]; simpl; intros m Hm; destruct (Hl m Hm) as (? & ? & _); congruence.
  - destruct (pool_inv_thread _ _ _ H Hi) as [Ho Hl].
    eapply slot_update_inv; eauto; unfold reader_thread_step, has_slot, drop_guard; destruct (t_phase t) eqn:Hp;
      simpl; rewrite ?Hp; try lia; split; simpl; try done; intros m Hm.
    all: try (rewrite ?Hp; by apply Hl).
    all: try (destruct (Hl m Hm) as (? & ? & _); congruence).
    destruct (t_owned t); simplify_eq; eauto.
Qed.

Lemma pool_reachable_inv (p : pool) : reachable pool_step no_readers p -> pool_inv p.
Proof.
  intros H; eapply reachable_invariant; [|apply pool_step_inv|exact H].
  split_and!; simpl; [done|by vm_compute|constructor].
Qed.

(** ** What [take] leaves *)
Definition fresh_reader : reader_thread := ReaderThread Reading false true None.
Definition abandoned_reader : reader_thread := ReaderThread Reading true false None.

Lemma reader_spawn_spec (started : result unit io_error) (p : pool) :
  match reader_spawn started p with
  | (Ok i, p') => i = length (pl_threads p) /\ pl_slots p < MAX_ACTIVE_SUBPROCESS_OUTPUT_READERS /\
                  started = Ok () /\ p' = Pool (pl_slots p + 1) (pl_threads p ++ [fresh_reader])
  | (Err e, p') => p' = p /\ (started = Err e \/ pl_slots p >= MAX_ACTIVE_SUBPROCESS_OUTPUT_READERS /\ io_kind e = WouldBlock)
  end.
Proof.
  unfold reader_spawn, reserve_subprocess_output_reader, drop_guard; destruct p as [s l]; simpl.
  case_decide; simpl; [by auto|]; destruct started as [[]|]; simpl; [split_and!; (done || lia)|].
  split; [f_equal; lia|by left].
Qed.

Lemma reader_drop_last (s : Z) (l : list reader_thread) :
  reader_drop (length l) (Pool s (l ++ [fresh_reader])) = Pool s (l ++ [abandoned_reader]).
Proof.
  unfold reader_drop; simpl; rewrite lookup_app_r, Nat.sub_diag by lia; simpl.
  by rewrite insert_app_r_alt, Nat.sub_diag by lia.
Qed.

(** What a call of [take] adds to the threads. *)
Definition requested_readers (capture_stdout capture_stderr : bool) : nat :=
  Nat.b2n capture_stdout + Nat.b2n capture_stderr.

(** A thread that runs to its end by itself. *)
Lemma thread_finishes (p : pool) (i : nat) (t : reader_thread) (o : drain_outcome) :
  pl_threads p !! i = Some t -> t_phase t = DrainEnded o ->
  exists p', reachable pool_step p p' /\ pl_slots p' = pl_slots p - 1 /\
    pl_threads p' !! i = Some (ReaderThread (Reported o) (t_stop t) (t_owned t)
                           (if t_owned t then Some (final_message o) else None)).
Proof.
  intros Hi Hp; pose proof (lookup_lt_Some _ _ _ Hi) as Hl; destruct t as [ph st ow la]; simpl in *; subst ph.
  eexists; split_and!.
  - eapply reach_step; [eapply reach_step; [eapply reach_step; [apply reach_refl|]|]|];
      apply (pool_thread _ i); simpl; rewrite ?list_lookup_insert_eq by (rewrite ?length_insert; lia); done.
  - done.
  - simpl; rewrite list_lookup_insert_eq by (rewrite ?length_insert; lia); done.
Qed.

(** A drain ends once its stop flag is seen, when the reader waits in slices. *)
Lemma drain_sees_stop (max : nat) (turns : list drain_turn) (retained : nat) (discarding : bool) :
  Exists (fun t => dt_wait t = Ok false) turns ->
  exists r, dr_result (drain_pipe_to_channel true max turns retained discarding) = Some r.
Proof.
  intros H; revert retained discarding.
  induction H as [t turns H|t turns _ IH]; intros retained discarding; cbn [drain_pipe_to_channel].
  - rewrite H; simpl; eauto.
  - destruct (dt_wait t) as [[]|e]; simpl; eauto.
    destruct (dt_read t) as [data|e]; [|destruct (kind_is e Interrupted); simpl; eauto].
    destruct (dt_stop t); [simpl; eauto|]; destruct data as [|b data]; [simpl; eauto|].
    destruct discarding; [apply IH|]; lazy zeta.
    repeat match goal with |- context [if ?b then _ else _] => destruct b end; cbn [drain_overflow drain_send dr_result]; simpl; eauto.
Qed.

(** An abandoned reader can give its slot back. *)
Lemma abandoned_recovers (s : Z) (l : list reader_thread) (t : reader_thread) (o : drain_outcome) :
  t_phase t = Reading -> exists p', reachable pool_step (Pool s (l ++ [t])) p' /\ pl_slots p' = s - 1.
Proof.
  intros Hp; set (p := Pool s (l ++ [t])).
  assert (pl_threads p !! length l = Some t) as Hi
    by (simpl; by rewrite lookup_app_r, Nat.sub_diag by lia).
  assert (forall t', <[length l := t']> (pl_threads p) !! length l = Some t') as Hl
    by (intros t'; apply list_lookup_insert_eq; simpl; rewrite length_app; simpl; lia).
  destruct (thread_finishes (Pool s (<[length l := ReaderThread (DrainEnded o) (t_stop t) (t_owned t) (t_last t)]>
    (pl_threads p))) (length l) _ o (Hl _) eq_refl) as (p' & Hr & Hs & _).
  exists p'; split; [|done]; eapply reachable_head; [by apply (pool_drained p (length l) t o)|done].
Qed.

(** What holds of the process's readers at every moment. *)
Lemma readers_bounded (p : pool) (Hp : reachable pool_step no_readers p) :
  pl_slots p = Z.of_nat (sum_list_with has_slot (pl_threads p)) /\
  Z.of_nat (sum_list_with holds_pipe (pl_threads p)) <= pl_slots p <= MAX_ACTIVE_SUBPROCESS_OUTPUT_READERS /\
  (forall i t, pl_threads p !! i = Some t ->
   (t_owned t = false -> t_stop t = true) /\
   (forall m, t_last t = Some m -> exists o, t_phase t = Reported o /\ m = final_message o)).
Proof.
  destruct (pool_reachable_inv p Hp) as (Hs & Hm & Hf); split_and!; [done| |done|].
  - rewrite Hs; clear; induction (pl_threads p) as [|t l IH]; simpl; [lia|].
    unfold has_slot, holds_pipe in *; destruct (t_phase t); lia.
  - intros i t Hi; by eapply Forall_lookup_1 in Hf.
Qed.

(** A reader that is started, drains its pipe and reports. *)
Lemma one_reader_reports (o : drain_outcome) :
  reachable pool_step no_readers
    (Pool 0 [ReaderThread (Reported o) false true (Some (final_message o))]).
Proof.
  pose (at_ ph := ReaderThread ph false true None).
  apply (reach_step _ _ _ _
    (reach_step _ _ _ _
      (reach_step _ _ _ _
        (reach_step _ _ _ _
          (reach_step _ _ _ _ (reach_refl _ _) (pool_spawn no_readers (Ok ())))
          (pool_drained (Pool 1 [fresh_reader]) 0 fresh_reader o eq_refl eq_refl))
        (pool_thread (Pool 1 [at_ (DrainEnded o)]) 0 (at_ (DrainEnded o)) eq_refl))
      (pool_thread (Pool 1 [at_ (PipeClosed o)]) 0 (at_ (PipeClosed o)) eq_refl))
    (pool_thread (Pool 0 [at_ (SlotReturned o)]) 0 (at_ (SlotReturned o)) eq_refl)).
Qed.

(** [take] succeeds entirely or abandons what it started. *)
Lemma take_spec (capture_stdout capture_stderr : bool)
    (started : result unit io_error * result unit io_error) (child : bool * bool) (p : pool) :
  match take capture_stdout capture_stderr started child p with
  | (Ok (out, err), child', p') =>
      let n := requested_readers capture_stdout capture_stderr in
      out = (if capture_stdout then Some (length (pl_threads p)) else None) /\
      err = (if capture_stderr then Some (length (pl_threads p) + Nat.b2n capture_stdout)%nat else None) /\
      child' = (child.1 && negb capture_stdout, child.2 && negb capture_stderr) /\
      p' = Pool (pl_slots p + Z.of_nat n) (pl_threads p ++ replicate n fresh_reader)
  | (Err e, child', p') =>
      exists k, (k < requested_readers capture_stdout capture_stderr)%nat /\
        p' = Pool (pl_slots p + Z.of_nat k) (pl_threads p ++ replicate k abandoned_reader) /\
        exists p'', reachable pool_step p' p'' /\ pl_slots p'' = pl_slots p
  end.
Proof.
  assert (forall n, (0 < n)%nat -> exists k, (k < n)%nat /\
            p = Pool (pl_slots p + Z.of_nat k) (pl_threads p ++ replicate k abandoned_reader) /\
            exists p'', reachable pool_step p p'' /\ pl_slots p'' = pl_slots p) as Hnone.
  { intros n Hn; exists 0%nat; split_and!; [done|destruct p; simpl; f_equal; [lia|by rewrite app_nil_r]|].
    exists p; split; [apply reach_refl|done]. }
  unfold take, spawn_if, requested_readers; destruct capture_stdout; simpl.
  - destruct child as [[] c2]; simpl; [|apply Hnone; lia].
    destruct (capture_stderr && negb c2) eqn:E2; [apply Hnone; lia|].
    pose proof (reader_spawn_spec started.1 p) as H1; destruct (reader_spawn started.1 p) as [[i|e] p1].
    + destruct H1 as (-> & Hlt & Hok & ->); destruct capture_stderr; simpl.
      * match goal with |- context [reader_spawn ?s ?p1] =>
          pose proof (reader_spawn_spec s p1) as H2; destruct (reader_spawn s p1) as [[j|e] p2] end.
        -- destruct H2 as (-> & _ & _ & ->); simpl; rewrite length_app, <- app_assoc; simpl.
           split_and!; try done; f_equal; lia.
        -- destruct H2 as [-> _]; rewrite reader_drop_last; exists 1%nat; split_and!; [lia|done|].
           destruct (abandoned_recovers (pl_slots p + 1) (pl_threads p) abandoned_reader DrainPanicked eq_refl)
             as (p'' & Hr & Hs); exists p''; split; [done|lia].
      * split_and!; try done. all: by rewrite ?andb_true_r.
    + destruct H1 as [-> _]; apply Hnone; lia.
  - destruct capture_stderr; simpl.
    + destruct child as [c1 []]; simpl; [|apply Hnone; lia].
      pose proof (reader_spawn_spec started.2 p) as H1; destruct (reader_spawn started.2 p) as [[i|e] p1].
      * destruct H1 as (-> & _ & _ & ->); split_and!; try done. all: first [f_equal; lia|by rewrite ?andb_true_r].
      * destruct H1 as [-> _]; apply Hnone; lia.
    + destruct child as [c1 c2]; rewrite !andb_true_r; split_and!; try done.
      destruct p; simpl; f_equal; [lia|by rewrite app_nil_r].
Qed.

(** C18. The reader threads of the process stay within their budget and none is
    forgotten: in every interleaving of starts, drops and reader steps the
    counter is the number of threads that still hold a slot, at most 64, no more
    pipes than that are held open, a reader whose collector is gone has been
    told to stop, and a reader's last message says how its drain ended and comes
    only after its pipe was closed and its slot returned.  At each such point,
    starting the readers of a child is all or nothing: on success exactly the
    requested pipes have left the child and each has one new reader, owned and
    reading; on any failure (a pipe the child does not have, an exhausted budget,
    a thread that cannot be started) no new reader has an owner, at most one was
    started, it has been told to stop, the process can return to the slots it
    had, and the readers of other runs are untouched. *)
Theorem readers_accounted (p : pool) (Hp : reachable pool_step no_readers p) :
  (pl_slots p = Z.of_nat (sum_list_with has_slot (pl_threads p)) /\
   Z.of_nat (sum_list_with holds_pipe (pl_threads p)) <= pl_slots p <= MAX_ACTIVE_SUBPROCESS_OUTPUT_READERS /\
   (forall i t, pl_threads p !! i = Some t ->
    (t_owned t = false -> t_stop t = true) /\
    (forall m, t_last t = Some m -> exists o, t_phase t = Reported o /\ m = final_message o))) /\
  (forall capture_stdout capture_stderr started child,
   match take capture_stdout capture_stderr started child p with
   | (Ok (out, err), child', p') =>
       let n := requested_readers capture_stdout capture_stderr in
       out = (if capture_stdout then Some (length (pl_threads p)) else None) /\
       err = (if capture_stderr then Some (length (pl_threads p) + Nat.b2n capture_stdout)%nat else None) /\
       child' = (child.1 && negb capture_stdout, child.2 && negb capture_stderr) /\
       p' = Pool (pl_slots p + Z.of_nat n) (pl_threads p ++ replicate n fresh_reader)
   | (Err e, child', p') =>
       exists k, (k < requested_readers capture_stdout capture_stderr)%nat /\
         p' = Pool (pl_slots p + Z.of_nat k) (pl_threads p ++ replicate k abandoned_reader) /\
         exists p'', reachable pool_step p' p'' /\ pl_slots p'' = pl_slots p
   end).
Proof. split; [by apply readers_bounded|intros; apply take_spec]. Qed.

Lemma readers_accounted_witness :
  let p := Pool 0 [ReaderThread (Reported DrainPanicked) false true (Some (final_message DrainPanicked))] in
  let e := IoError OtherKind "no thread" in
  reachable pool_step no_readers p /\
  take true true (Ok (), Err e) (true, true) p =
    (Err e, (false, false), Pool 1 (pl_threads p ++ [abandoned_reader])) /\
  exists p'', reachable pool_step (Pool 1 (pl_threads p ++ [abandoned_reader])) p'' /\ pl_slots p'' = 0.
Proof.
  intros p e; pose proof (one_reader_reports DrainPanicked) as H; split_and!; [exact H|reflexivity|].
  destruct (proj2 (readers_accounted p H) true true (Ok (), Err e) (true, true)) as ([|k] & Hk & Ep & p'' & Hr & Hs).
  - discriminate Ep.
  - exists p''; by split.
Defined.
