(* ===== verification/Features.v ===== *)
(** * Features: the unstable runtime surface of a run
    (src/deno_runtime_adapter.rs).

    [static_feature_names] and the feature set and namespace ids
    [build_main_worker] enables.  Deno's registry of features is a parameter. *)
From S2P Require Import Prelude Errors Options.
Local Open Scope Z_scope.

Definition DEFAULT_RUNTIME_FEATURES : list string := ["kv"; "cron"; "ffi"; "webgpu"; "worker-options"].

Section Features.
(** [deno_features::UNSTABLE_FEATURES]: names and ids. *)
Context (UNSTABLE_FEATURES : list (string * Z)).

Fixpoint names_from (names features : list string) : result (list string) string :=
  match features with
  | [] => Ok names
  | feature :: features =>
      match list_find (fun d => d.1 = feature) UNSTABLE_FEATURES with
      | None => Err feature
      | Some (_, (name, _)) =>
          names_from (if bool_decide (name ∈ names) then names else names ++ [name]) features
      end
  end.

Definition static_feature_names (features : list string) : result (list string) string :=
  names_from [] features.

(** The features [build_main_worker] enables. *)
Definition enabled_features (features : option (list string)) : result (list string) libdeno_error :=
  match features with
  | Some features =>
      let? names := map_err (fun bad => Configuration ("unknown runtime feature: " +:+ bad))
                      (static_feature_names features) in
      Ok (if bool_decide ("worker-options" ∈ names) then names else names ++ ["worker-options"])
  | None => Ok DEFAULT_RUNTIME_FEATURES
  end.

Definition unstable_ids (enabled : list string) : list Z :=
  map snd (filter (fun f => f.1 ∈ enabled) UNSTABLE_FEATURES).

Definition known (feature : string) : Prop := feature ∈ map fst UNSTABLE_FEATURES.

Lemma registry_lookup (feature : string) :
  match list_find (fun d => d.1 = feature) UNSTABLE_FEATURES with
  | Some (_, (name, _)) => name = feature /\ known feature
  | None => ~ known feature
  end.
Proof.
  unfold known; destruct (list_find _ _) as [[i [name id]]|] eqn:H.
  - apply list_find_Some in H as (Hl & Hn & _); simpl in Hn; subst.
    split; [done|]; apply list_elem_of_fmap; exists (feature, id); split; [done|].
    by eapply list_elem_of_lookup_2.
  - apply list_find_None in H; intros (d & -> & Hd)%list_elem_of_fmap.
    by apply (proj1 (Forall_forall _ _) H d Hd).
Qed.

Lemma names_from_spec (features names : list string) : NoDup names ->
  match names_from names features with
  | Ok l => NoDup l /\ Forall known features /\ forall x, x ∈ l <-> x ∈ names \/ x ∈ features
  | Err bad => exists pre post, features = pre ++ bad :: post /\ Forall known pre /\ ~ known bad
  end.
Proof.
  revert names; induction features as [|f features IH]; intros names Hnd; cbn [names_from].
  - split_and!; [done|constructor|]; set_solver.
  - pose proof (registry_lookup f) as Hf.
    destruct (list_find _ _) as [[i [name id]]|]; [|by exists [], features].
    destruct Hf as [-> Hk].
    set (names' := if bool_decide (f ∈ names) then names else names ++ [f]).
    assert (NoDup names' /\ forall x, x ∈ names' <-> x ∈ names \/ x = f) as [Hnd' Hin].
    { subst names'; case_bool_decide; split; [done|set_solver| |set_solver].
      apply NoDup_app; split_and!; [done|set_solver|apply NoDup_singleton]. }
    specialize (IH names' Hnd'); destruct (names_from _ _) as [l|bad].
    + destruct IH as (H1 & H2 & H3); split_and!; [done|by constructor|].
      intros x; rewrite H3, Hin; set_solver.
    + destruct IH as (pre & post & -> & H1 & H2); exists (f :: pre), post.
      split_and!; [done|by constructor|done].
Qed.

(** The runtime surface of a custom feature list: every name is checked against
    the registry and the first unknown one is reported; otherwise exactly the
    requested features are enabled, each once, and [worker-options] always is,
    so a script can never end the host by creating a worker; the namespace ids
    handed to JavaScript are exactly those of the enabled features. *)
Theorem enabled_features_spec (features : list string) :
  match enabled_features (Some features) with
  | Ok names =>
      NoDup names /\ Forall known features /\
      (forall x, x ∈ names <-> x ∈ features \/ x = "worker-options") /\
      (forall id, id ∈ unstable_ids names <->
         exists name, (name, id) ∈ UNSTABLE_FEATURES /\ (name ∈ features \/ name = "worker-options"))
  | Err e =>
      exists pre bad post, features = pre ++ bad :: post /\ Forall known pre /\ ~ known bad /\
        e = Configuration ("unknown runtime feature: " +:+ bad)
  end.
Proof.
  unfold enabled_features, static_feature_names.
  pose proof (names_from_spec features [] (NoDup_nil_2)) as H.
  destruct (names_from _ _) as [l|bad]; simpl.
  - destruct H as (H1 & H2 & H3).
    set (names := if bool_decide _ then _ else _).
    assert (NoDup names /\ forall x, x ∈ names <-> x ∈ features \/ x = "worker-options") as [Hn Hi].
    { subst names; case_bool_decide; split; [done|set_solver| |set_solver].
      apply NoDup_app; split_and!; [done|set_solver|apply NoDup_singleton]. }
    split_and!; [done..|]; intros id; unfold unstable_ids; rewrite list_elem_of_fmap; split.
    + intros ([name id'] & -> & [Hm Hr]%list_elem_of_filter); exists name; split; [done|]; by apply Hi.
    + intros (name & Hr & Hm); exists (name, id); split; [done|]; apply list_elem_of_filter.
      split; [by apply Hi|done].
  - destruct H as (pre & post & -> & H1 & H2); by exists pre, bad, post.
Qed.
End Features.
