(* ===== verification/Paths.v ===== *)
(** * Paths: [std::path] on Unix, as far as the sources use it.

    A path is its text; [components] is what [Path::components] yields, and
    comparison, prefixes and parents go by components.  The lexical walk at the
    end is the reference the containment checks of the components are measured
    against. *)
From S2P Require Import Prelude Options.
Local Open Scope nat_scope.

Inductive component := RootDir | CurDir | ParentDir | Normal (s : string).

#[export] Instance component_eq_dec : EqDecision component.
Proof. solve_decision. Defined.

Definition slash : Ascii.ascii := Ascii.ascii_of_nat 47.

(** The segments between the separators. *)
Fixpoint segments (s : string) : list string :=
  match s with
  | EmptyString => [EmptyString]
  | String c s =>
      if Ascii.eqb c slash then EmptyString :: segments s
      else match segments s with
           | [] => [String c EmptyString]
           | x :: xs => String c x :: xs
           end
  end.

Definition is_absolute (p : path) : bool :=
  match p with String c _ => Ascii.eqb c slash | EmptyString => false end.

(** Empty segments and [.] vanish, except a leading [.]. *)
Definition segment_component (s : string) : option component :=
  if decide (s = "" \/ s = ".") then None else Some (if decide (s = "..") then ParentDir else Normal s).
Definition plain_components (p : path) : list component := omap segment_component (segments p).

Definition components (p : path) : list component :=
  (if is_absolute p then [RootDir]
   else if bool_decide (head (segments p) = Some ".") then [CurDir] else []) ++ plain_components p.

Definition component_text (c : component) : string :=
  match c with RootDir => "/" | CurDir => "." | ParentDir => ".." | Normal s => s end.

Fixpoint render_rest (cs : list component) : string :=
  match cs with [] => "" | c :: cs => "/" +:+ component_text c +:+ render_rest cs end.
(** A path with the given components. *)
Definition render (cs : list component) : path :=
  match cs with
  | [] => ""
  | RootDir :: [] => "/"
  | RootDir :: cs => render_rest cs
  | c :: cs => component_text c +:+ render_rest cs
  end.

Fixpoint ends_with_slash (p : path) : bool :=
  match p with
  | EmptyString => false
  | String c EmptyString => Ascii.eqb c slash
  | String _ p => ends_with_slash p
  end.

(** [Path::join] *)
Definition join (base p : path) : path :=
  if is_absolute p then p
  else if decide (base = "") then p
  else if ends_with_slash base then base +:+ p
  else base +:+ String slash p.

(** [Path::parent], up to the spelling of separators. *)
Definition parent (p : path) : option path :=
  match last (components p) with
  | None | Some RootDir => None
  | Some _ => Some (render (removelast (components p)))
  end.

Definition file_name (p : path) : option string :=
  match last (components p) with Some (Normal s) => Some s | _ => None end.

Fixpoint strip_components (pre cs : list component) : option (list component) :=
  match pre, cs with
  | [], _ => Some cs
  | a :: pre, b :: cs => if decide (a = b) then strip_components pre cs else None
  | _ :: _, [] => None
  end.
(** [Path::strip_prefix(..).components()] *)
Definition strip_prefix (p base : path) : option (list component) :=
  strip_components (components base) (components p).
Definition starts_with (p base : path) : bool :=
  match strip_prefix p base with Some _ => true | None => false end.

(** ** The lexical walk *)

(** Following [cs] from a directory at [depth] below the base; [None] when the
    walk leaves the base. *)
Fixpoint walk (depth : nat) (cs : list component) : option nat :=
  match cs with
  | [] => Some depth
  | Normal _ :: cs => walk (S depth) cs
  | CurDir :: cs => walk depth cs
  | ParentDir :: cs => match depth with O => None | S d => walk d cs end
  | RootDir :: _ => None
  end.

(** The directories visited, innermost name first; [..] at the top leaves. *)
Fixpoint visit (dir : list string) (cs : list component) : list string :=
  match cs with
  | [] => dir
  | Normal s :: cs => visit (s :: dir) cs
  | CurDir :: cs => visit dir cs
  | ParentDir :: cs => visit (tail dir) cs
  | RootDir :: cs => visit [] cs
  end.

(** [dir] is [base] or below it. *)
Definition below (base dir : list string) : Prop := base `suffix_of` dir.

(** ** Lemmas *)
Lemma strip_components_spec (pre cs rest : list component) :
  strip_components pre cs = Some rest <-> cs = pre ++ rest.
Proof.
  revert cs; induction pre as [|a pre IH]; intros cs; simpl; [naive_solver|].
  destruct cs as [|b cs]; [naive_solver|]; case_decide; [rewrite IH|]; naive_solver.
Qed.

Lemma segments_nonempty (s : string) : segments s <> [].
Proof. destruct s as [|c s]; simpl; [done|]; case_match; [done|]; by destruct (segments s). Qed.

Lemma segments_join (a b : string) : segments (a +:+ String slash b) = segments a ++ segments b.
Proof.
  induction a as [|c a IH]; [done|].
  change (segments (String c (a +:+ String slash b)) = segments (String c a) ++ segments b).
  cbn [segments]; destruct (Ascii.eqb c slash); [by rewrite IH|]; rewrite IH.
  pose proof (segments_nonempty a); by destruct (segments a).
Qed.

Lemma app_cons_string (a b : string) (c : Ascii.ascii) : a +:+ String c b = (a +:+ String c "") +:+ b.
Proof. induction a as [|d a IH]; [done|].
  change (String d (a +:+ String c b) = String d ((a +:+ String c "") +:+ b));
    by rewrite IH.
Qed.

Lemma ends_with_slash_split (a : string) : ends_with_slash a = true -> exists a', a = a' +:+ String slash "".
Proof.
  induction a as [|c a IH]; [done|]; intros H; destruct a as [|c' a].
  - exists ""; simpl in H; apply Ascii.eqb_eq in H; by rewrite H.
  - destruct (IH H) as [a' ->]; by exists (String c a').
Qed.

Lemma plain_components_slash (a b : string) :
  plain_components (a +:+ String slash b) = plain_components a ++ plain_components b.
Proof. unfold plain_components; by rewrite segments_join, omap_app. Qed.

Lemma is_absolute_app (a b : string) : a <> "" -> is_absolute (a +:+ b) = is_absolute a.
Proof. by destruct a. Qed.

Lemma head_segments_app (a b : string) :
  head (segments (a +:+ String slash b)) = head (segments a).
Proof. rewrite segments_join; pose proof (segments_nonempty a); by destruct (segments a). Qed.

(** Joining a relative path appends its components. *)
Lemma components_join (base p : path) :
  is_absolute p = false -> base <> "" -> components (join base p) = components base ++ plain_components p.
Proof.
  intros Hp Hb; unfold join; rewrite Hp, decide_False by done.
  destruct (ends_with_slash base) eqn:He.
  - apply ends_with_slash_split in He as [a ->].
    rewrite <- app_cons_string; unfold components.
    destruct (decide (a = "")) as [->|Ha]; [done|].
    rewrite !is_absolute_app, !head_segments_app, !plain_components_slash by done.
    change (plain_components "") with (@nil component); by rewrite app_nil_r, app_assoc.
  - unfold components; rewrite is_absolute_app, head_segments_app, plain_components_slash by done.
    by rewrite app_assoc.
Qed.

(** Only [RootDir]-free components come from the text after the root. *)
Lemma plain_not_root (p : path) : RootDir ∉ plain_components p /\ CurDir ∉ plain_components p.
Proof.
  split; intros H; apply list_elem_of_omap in H as (s & _ & Hs); unfold segment_component in Hs;
    repeat case_decide; congruence.
Qed.

(** A walk that stays inside visits only directories below the base. *)
Lemma walk_visit (base dir : list string) (cs : list component) (n : nat) :
  walk (length dir) cs = Some n -> exists dir', visit (dir ++ base) cs = dir' ++ base /\ length dir' = n.
Proof.
  revert dir; induction cs as [|c cs IH]; intros dir H; simpl in *; [exists dir; by simplify_eq|].
  destruct c as [| | |s]; [done|by apply IH| |by apply (IH (s :: dir))].
  destruct dir as [|x dir]; [done|]; by apply (IH dir).
Qed.

Lemma walk_prefix (d n : nat) (a b : list component) :
  walk d (a ++ b) = Some n -> exists k, walk d a = Some k.
Proof.
  revert d; induction a as [|c a IH]; intros d H; simpl in *; [by exists d|].
  destruct c; [done|by apply IH| |by apply IH]; destruct d; [done|by apply IH].
Qed.

(** The walk is exactly the condition that no step of the path leaves the
    base. *)
Lemma walk_contained (cs : list component) (base : list string) :
  is_Some (walk 0 cs) -> forall k, below base (visit base (take k cs)).
Proof.
  intros [n H] k; rewrite <- (take_drop k cs) in H; apply walk_prefix in H as [d Hd].
  destruct (walk_visit base [] _ _ Hd) as (dir' & Hv & _); simpl in Hv; rewrite Hv; by eexists.
Qed.

Lemma walk_complete (cs : list component) (base dir : list string) :
  base <> [] -> (forall k, below base (visit (dir ++ base) (take k cs))) -> is_Some (walk (length dir) cs).
Proof.
  intros Hb; revert dir; induction cs as [|c cs IH]; intros dir H; [done|].
  pose proof (fun k => H (S k)) as Hk; cbn [take visit] in Hk; pose proof (Hk 0) as H0; cbn [take visit] in H0.
  rewrite take_0 in H0; simpl in H0.
  destruct c as [| | |s]; simpl.
  - apply suffix_length in H0; destruct base; simpl in H0; [done|lia].
  - by apply IH.
  - destruct dir as [|x dir]; [|by apply IH].
    apply suffix_length in H0; destruct base; simpl in H0; [done|lia].
  - by apply (IH (s :: dir)).
Qed.

(** ** Rendering components *)

(** A component that a segment of a path gives: its text is one segment, itself. *)
Definition plain_component (c : component) : Prop :=
  segments (component_text c) = [component_text c] /\ segment_component (component_text c) = Some c.

Lemma segments_plain (p s : string) : s ∈ segments p -> segments s = [s].
Proof.
  revert s; induction p as [|c p IH]; intros s; cbn [segments]; [by intros ->%list_elem_of_singleton|].
  destruct (Ascii.eqb c slash) eqn:Ec.
  - intros [->|H]%elem_of_cons; [done|by apply IH].
  - pose proof (segments_nonempty p) as Hn; destruct (segments p) as [|x l] eqn:E; [done|].
    intros [->|H]%elem_of_cons; [|by apply IH; right].
    cbn [segments]; rewrite Ec, (IH x) by left; done.
Qed.

Lemma plain_components_plain (p : path) : Forall plain_component (plain_components p).
Proof.
  apply Forall_forall; intros c (s & Hs & Hc)%list_elem_of_omap.
  assert (component_text c = s) as Ht.
  { unfold segment_component in Hc; repeat case_decide; simplify_eq; done. }
  split; rewrite Ht; [by eapply segments_plain|done].
Qed.

Lemma plain_components_single (c : component) : plain_component c -> plain_components (component_text c) = [c].
Proof. intros [H1 H2]; unfold plain_components; rewrite H1; cbn [omap list_omap]; by rewrite H2. Qed.

Lemma plain_components_render_rest (t : string) (cs : list component) :
  Forall plain_component cs -> plain_components (t +:+ render_rest cs) = plain_components t ++ cs.
Proof.
  intros H; revert t; induction H as [|c cs Hc _ IH]; intros t; cbn [render_rest].
  - rewrite app_nil_r; f_equal; induction t as [|a t IHt]; [done|]; change (String a (t +:+ "") = String a t); by rewrite IHt.
  - change ("/" +:+ ?x) with (String slash x); rewrite plain_components_slash, IH; by rewrite plain_components_single.
Qed.

Lemma head_segments_render (t : string) (cs : list component) :
  head (segments (t +:+ render_rest cs)) = head (segments t).
Proof.
  destruct cs as [|c cs]; cbn [render_rest]; [|change ("/" +:+ ?x) with (String slash x); apply head_segments_app].
  do 2 f_equal; induction t as [|a t IHt]; [done|]; change (String a (t +:+ "") = String a t); by rewrite IHt.
Qed.

(** The components of a rendered path, below any prefix a path may have. *)
Lemma components_render_plain (cs : list component) : Forall plain_component cs -> components (render cs) = cs.
Proof.
  intros [|c l [H1 H2] Hl]; [done|].
  assert (component_text c <> "" /\ c <> RootDir /\ component_text c <> ".") as (Hne & Hroot & Hdot).
  { unfold segment_component in H2; repeat case_decide; simplify_eq; naive_solver. }
  assert (render (c :: l) = component_text c +:+ render_rest l) as -> by by destruct c.
  unfold components; rewrite head_segments_render, H1, plain_components_render_rest, plain_components_single by done.
  destruct (component_text c) as [|a t] eqn:Et; [done|]; cbn [is_absolute segments] in *.
  assert (Ascii.eqb a slash = false) as Ha.
  { destruct (Ascii.eqb a slash) eqn:E; [|done]; pose proof (segments_nonempty t); by destruct (segments t). }
  change (is_absolute (String a t +:+ render_rest l)) with (Ascii.eqb a slash); rewrite Ha.
  rewrite bool_decide_eq_false_2; [done|]; cbn [head]; congruence.
Qed.

Lemma components_render (p : path) : components (render (components p)) = components p.
Proof.
  unfold components at 2 3; pose proof (plain_components_plain p) as Hp.
  destruct (is_absolute p); [|case_bool_decide; [|by apply components_render_plain]].
  - destruct (plain_components p) as [|c l]; [done|].
    change (render ([RootDir] ++ c :: l)) with ("" +:+ render_rest (c :: l)).
    cbn [render_rest]; change ("" +:+ ("/" +:+ ?x)) with (String slash x); unfold components.
    change (is_absolute (String slash ?x)) with true; cbn [app]; f_equal.
    change (String slash ?x) with ("" +:+ String slash x); rewrite plain_components_slash; cbn [app].
    apply Forall_cons in Hp as [Hc Hl]; rewrite plain_components_render_rest by done.
    by rewrite plain_components_single.
  - change (render ([CurDir] ++ plain_components p)) with ("." +:+ render_rest (plain_components p)).
    unfold components; rewrite head_segments_render, plain_components_render_rest by done.
    by destruct (plain_components p).
Qed.

(** The parent of a file joined to a directory is that directory. *)
Lemma parent_join (dir name : path) (s : string) :
  is_absolute name = false -> dir <> "" -> plain_components name = [Normal s] ->
  exists p, parent (join dir name) = Some p /\ components p = components dir.
Proof.
  intros Ha Hd Hn; unfold parent; rewrite components_join, Hn, last_snoc, removelast_last by done.
  eexists; split; [done|]; apply components_render.
Qed.

Lemma components_empty (p : path) : components p = [] -> p = "".
Proof.
  destruct p as [|c p]; [done|]; unfold components, plain_components; cbn [is_absolute segments].
  destruct (Ascii.eqb c slash); [done|].
  assert (forall x l, x <> "" -> omap segment_component (x :: l) = [] -> x = ".") as H.
  { intros x l Hx; cbn [omap list_omap]; unfold segment_component at 1; case_decide; [naive_solver|done]. }
  pose proof (segments_nonempty p) as Hs; destruct (segments p) as [|x l]; [done|].
  case_bool_decide as Hb; [done|]; intros H1; cbn [app] in H1; exfalso; apply Hb; cbn [head]; f_equal; by eapply H.
Qed.
