(* ===== verification/Entry.v ===== *)
(** * Entry: what a run starts from (src/lib.rs).

    The effective working directory, entry resolution ([resolve_entry],
    [package_main]), in-memory entries, and the course of one run
    ([run_inner_with_cancellation]).  The file system is a snapshot [host]; JSON
    and URL conversion are the libraries' own. *)
From S2P Require Import Prelude Errors Options Paths Cancel.
Local Open Scope Z_scope.

(** The host's answers at one moment. *)
Record host := Host {
  h_current_dir : result path io_error;
  h_canonicalize : path -> result path io_error;
  h_is_dir : path -> bool;
  h_exists : path -> bool;
  h_read : path -> result string io_error
}.

Definition any_io (e : io_error) : dyn_error := anyhow (io_message e).

Section Entry.
Context (h : host).
(** The [main] string of a package.json, when it parses and has one. *)
Context (json_main : string -> result (option string) string).
Context (url : Type) (from_file_path : path -> option url) (to_file_path : url -> option path).

Definition effective_cwd (options : libdeno_options) : result path libdeno_error :=
  let explicit raw :=
    match h_canonicalize h raw with
    | Err e => Err (Configuration ("LibdenoOptions.cwd " +:+ raw +:+ " is not a usable directory: " +:+ io_message e))
    | Ok resolved =>
        if h_is_dir h resolved then Ok resolved
        else Err (Configuration ("LibdenoOptions.cwd " +:+ raw +:+ " is not a directory"))
    end in
  match o_cwd options with
  | Some cwd =>
      if is_absolute cwd then explicit cwd
      else let? current := map_err Io (h_current_dir h) in explicit (join current cwd)
  | None =>
      let? cwd := map_err Io (h_current_dir h) in
      Ok (match h_canonicalize h cwd with Ok c => c | Err _ => cwd end)
  end.

Inductive source_lang := JavaScript | TypeScript.
Definition ext (l : source_lang) : string := match l with JavaScript => "js" | TypeScript => "ts" end.

Inductive entry_source :=
| EntryPath (p : path)
| EntryMemory (code : list Z) (ext : string) (base_dir cwd : path).

Definition entry_cwd (entry : entry_source) (options : libdeno_options) : result path libdeno_error :=
  match entry with
  | EntryMemory _ _ _ cwd => Ok cwd
  | EntryPath _ => effective_cwd options
  end.

Definition entry_source_memory (code : list Z) (lang : source_lang) (raw cwd : path)
  : result entry_source libdeno_error :=
  let base := if is_absolute raw then raw else join cwd raw in
  match h_canonicalize h base with
  | Err e => Err (Configuration ("in-memory base_dir does not exist or cannot be resolved: " +:+ base +:+ ": " +:+ io_message e))
  | Ok base =>
      if h_is_dir h base then Ok (EntryMemory code (ext lang) base cwd)
      else Err (Configuration ("in-memory base_dir is not a directory: " +:+ base))
  end.

(** The depth loop of [package_main]. *)
Fixpoint escapes (depth : Z) (rest : list component) : bool :=
  match rest with
  | [] => false
  | Normal _ :: rest => escapes (depth + 1) rest
  | CurDir :: rest => escapes depth rest
  | ParentDir :: rest => if decide (depth = 0) then true else escapes (depth - 1) rest
  | RootDir :: _ => true
  end.

(** The offending value is left out of the last message. *)
Definition package_main (pkg_path : path) : result path dyn_error :=
  let? text := map_err any_io (h_read h pkg_path) in
  let? main := map_err anyhow (json_main text) in
  let main := default "index.js" main in
  let dir := default "." (parent pkg_path) in
  let main_path := join dir main in
  let escaped := match strip_prefix main_path dir with None => true | Some rest => escapes 0 rest end in
  if escaped then Err (anyhow "package.json `main` field escapes the package directory")
  else Ok main_path.

Definition entry_file (p cwd : path) : result path dyn_error :=
  let p := if is_absolute p then p else join cwd p in
  if h_is_dir h p then
    let pkg := join p "package.json" in
    if h_exists h pkg then package_main pkg else Ok (join p "index.js")
  else if bool_decide (file_name p = Some "package.json") then package_main p
  else Ok p.

Definition resolve_entry (p cwd : path) : result url dyn_error :=
  let? file_path := entry_file p cwd in
  match from_file_path file_path with
  | Some u => Ok u
  | None => Err (anyhow ("Invalid entry file path: " +:+ file_path))
  end.

Definition config_start_paths (entry : entry_source) (cwd : path) : result (list path) libdeno_error :=
  match entry with
  | EntryMemory _ _ base_dir _ => Ok [base_dir]
  | EntryPath p =>
      let? main_module := map_err Entry (resolve_entry p cwd) in
      Ok (default [cwd] (match to_file_path main_module with
                         | Some p => option_map (fun d => [d]) (parent p)
                         | None => None
                         end))
  end.

(** The run's overlay of in-memory files: URL and source. *)
Definition memory_files := list (url * list Z).

(** [random] is [random_hex(8)]. *)
Definition resolve_main_module (files : memory_files) (entry : entry_source) (cwd : path)
    (random : result string string) : result (url * memory_files) libdeno_error :=
  match entry with
  | EntryPath p => let? u := map_err Entry (resolve_entry p cwd) in Ok (u, files)
  | EntryMemory code ext base_dir _ =>
      match random with
      | Err e => Err (Runtime (anyhow ("failed to generate a virtual in-memory entry name: " +:+ e)))
      | Ok suffix =>
          let virtual_path := join base_dir ("$deno$__libdeno_virtual_" +:+ suffix +:+ "." +:+ ext) in
          match from_file_path virtual_path with
          | None => Err (Entry (anyhow ("Invalid in-memory entry path: " +:+ virtual_path)))
          | Some u => Ok (u, (u, code) :: files)
          end
      end
  end.

(** ** Lemmas on [package_main] *)
Lemma escapes_walk (n : nat) (rest : list component) :
  escapes (Z.of_nat n) rest = match walk n rest with Some _ => false | None => true end.
Proof.
  revert n; induction rest as [|c rest IH]; intros n; simpl; [done|].
  destruct c; [done|apply IH| |].
  - case_decide; destruct n; try done; try lia.
    replace (Z.of_nat (S n) - 1) with (Z.of_nat n) by lia; apply IH.
  - replace (Z.of_nat n + 1) with (Z.of_nat (S n)) by lia; apply IH.
Qed.

Lemma package_main_ok (pkg p : path) :
  package_main pkg = Ok p <->
  exists text main rest, h_read h pkg = Ok text /\ json_main text = Ok main /\
    p = join (default "." (parent pkg)) (default "index.js" main) /\
    components p = components (default "." (parent pkg)) ++ rest /\ is_Some (walk 0 rest).
Proof.
  unfold package_main; rewrite bind_ok; split.
  - intros (text & Ht & H); rewrite bind_ok in H; destruct H as (main & Hm & H).
    destruct (h_read h pkg) as [t|] eqn:Er; [|done]; destruct (json_main text) as [j|] eqn:Ej; [|done]; simplify_eq/=.
    destruct (strip_prefix _ _) as [rest|] eqn:Es; [|done].
    destruct (escapes 0 rest) eqn:Ee; [done|]; injection H as <-.
    apply strip_components_spec in Es; change 0 with (Z.of_nat 0) in Ee; rewrite escapes_walk in Ee.
    eexists _, _, rest; split_and!; try done; by destruct (walk 0 rest).
  - intros (text & main & rest & -> & Hm & -> & Hc & [k Hk]); exists text; split; [done|].
    rewrite Hm; cbn [map_err]; unfold strip_prefix; apply strip_components_spec in Hc; rewrite Hc.
    change 0 with (Z.of_nat 0); by rewrite escapes_walk, Hk.
Qed.
End Entry.

(** ** One run *)

(** What the run's collaborators answer, in the order they are asked:
    the cancellation context at each of the four checkpoints, permission
    construction, the run's services and main module, the entry read check, the
    npm resolver, the worker's bootstrap, the execution itself
    ([run_with_termination]) and the end of the run's workers. *)
Record run_env := RunEnv {
  re_requested : bool * bool * bool * bool;
  re_now : Z;
  re_permissions : result unit libdeno_error;
  re_services : result unit dyn_error;
  re_main_module : result unit libdeno_error;
  re_entry_read : result unit dyn_error;
  re_npm_resolver : result unit dyn_error;
  re_bootstrap : result unit libdeno_error;
  re_execution : result (result unit libdeno_error) execution_termination;
  re_workers_closed : bool;
  re_watcher_exited : bool;
  re_exit_code : Z
}.

(** What the run does to the world: creating the services opens the worker
    registry, which its owner closes on the way out; the script runs; the
    npm snapshot is saved. *)
Inductive run_event := ServicesBuilt | WorkerBuilt | ScriptRan | WorkersClosed | SnapshotSaved.

#[export] Instance run_event_eq_dec : EqDecision run_event.
Proof. solve_decision. Defined.

(** The duration is left out of the deadline's message. *)
Definition termination_error (t : execution_termination) : libdeno_error :=
  match t with
  | TDeadline _ => Timeout "execution deadline exceeded; isolate terminated"
  | TCancelled => Timeout "execution cancellation requested; isolate terminated"
  | TInfrastructure e => Io e
  end.

(** [check_entry_read_permission]: a denial keeps its type. *)
Definition check_entry_read_permission (denied : result unit dyn_error) : result unit libdeno_error :=
  map_err Core denied.

(** The result and the events of the run; [WorkersClosed] is [close_and_wait]
    or the drop of the lifecycle owner. *)
Definition run_inner_with_cancellation (env : run_env) (options : libdeno_options)
  : result Z libdeno_error * list run_event :=
  let '(c1, c2, c3, c4) := re_requested env in
  let before :=
    let? _ := run_validation c1 (re_now env) options in
    let? _ := re_permissions env in
    map_err Runtime (re_services env) in
  match before with
  | Err e => (Err e, [])
  | Ok _ =>
      match re_main_module env with
      | Err e => (Err e, [ServicesBuilt])
      | Ok _ =>
          let ready :=
            let? _ := cancellation_checkpoint c2 in
            let? _ := check_entry_read_permission (re_entry_read env) in
            let? _ := map_err Runtime (re_npm_resolver env) in
            let? _ := cancellation_checkpoint c3 in
            re_bootstrap env in
          match ready with
          | Err e => (Err e, [ServicesBuilt; WorkersClosed])
          | Ok _ =>
              match cancellation_checkpoint c4 with
              | Err e => (Err e, [ServicesBuilt; WorkerBuilt; WorkersClosed])
              | Ok _ =>
                  let ran := [ServicesBuilt; WorkerBuilt; ScriptRan; WorkersClosed] in
                  if negb (re_workers_closed env) then
                    (Err (Runtime (anyhow "worker lifecycle cleanup ended before all workers stopped")), ran)
                  else
                    match re_execution env with
                    | Err t => (Err (termination_error t), ran)
                    | Ok (Ok _) => (Ok (re_exit_code env), ran ++ [SnapshotSaved])
                    | Ok (Err e) =>
                        if re_watcher_exited env then (Ok (re_exit_code env), ran ++ [SnapshotSaved])
                        else (Err e, ran)
                    end
              end
          end
      end
  end.

(** [run_worker_cancellable]: the steps of the worker's life, and the exit a
    script asked for, which ends it at the next poll. *)
Record worker_steps := WorkerSteps {
  ws_execute_main_module : result unit libdeno_error;
  ws_load : result unit libdeno_error;
  (** one turn of the loop: the event loop, [beforeunload] and the process's
      [beforeExit], which ask for another turn by answering [true] *)
  ws_turns : list (result unit libdeno_error * result bool libdeno_error * result bool libdeno_error);
  ws_unload : result unit libdeno_error;
  ws_exit : result unit libdeno_error
}.

Fixpoint worker_turns (turns : list (result unit libdeno_error * result bool libdeno_error * result bool libdeno_error))
  : option (result unit libdeno_error) :=
  match turns with
  | [] => None
  | (event_loop, beforeunload, beforeexit) :: turns =>
      match event_loop with
      | Err e => Some (Err e)
      | Ok _ =>
          match beforeunload with
          | Err e => Some (Err e)
          | Ok true => worker_turns turns
          | Ok false =>
              match beforeexit with
              | Err e => Some (Err e)
              | Ok true => worker_turns turns
              | Ok false => Some (Ok ())
              end
          end
      end
  end.

(** [None] while the event loop is still turning. *)
Definition worker_life (w : worker_steps) : option (result unit libdeno_error) :=
  match (let? _ := ws_execute_main_module w in ws_load w) with
  | Err e => Some (Err e)
  | Ok _ =>
      match worker_turns (ws_turns w) with
      | None => None
      | Some (Err e) => Some (Err e)
      | Some (Ok _) => Some (let? _ := ws_unload w in ws_exit w)
      end
  end.

(** ** Properties *)

(** Decides membership of the closed event lists of a run. *)
Ltac event_mem :=
  match goal with
  | H : _ ∈ _ |- _ => apply (bool_decide_eq_true_2 _) in H; vm_compute in H; discriminate H
  | |- _ ∈ _ => apply (bool_decide_eq_true_1 _); vm_compute; reflexivity
  end.
Ltac events_tac :=
  split_and!; try match goal with |- _ <-> _ => split end; intros; destruct_and?; simplify_eq; cbn [is_ok andb] in *;
  try discriminate; try event_mem; try (split_and!; (done || event_mem)).

(** An entry taken from a package.json stays inside the package: the file
    of an accepted [main] is reached from the package directory by a walk that
    never leaves it, and a relative [main] is accepted exactly when that is so
    (with [index.js] standing for an absent one). *)
Theorem package_main_contained (h : host) (json_main : string -> result (option string) string)
    (pkg text : path) (main : option string) (dir : path)
    (Hread : h_read h pkg = Ok text) (Hjson : json_main text = Ok main)
    (Hdir : dir = default "." (parent pkg)) (Hne : dir <> EmptyString) :
  (forall p, package_main h json_main pkg = Ok p ->
   p = join dir (default "index.js" main) /\
   exists rest, components p = components dir ++ rest /\
     forall base k, below base (visit base (take k rest))) /\
  (is_absolute (default "index.js" main) = false ->
   (is_ok (package_main h json_main pkg) = true <->
    forall base, base <> [] -> forall k,
      below base (visit base (take k (plain_components (default "index.js" main)))))).
Proof.
  subst dir; split.
  - intros p (t & m & rest & Ht & Hm & Hp & Hc & Hw)%package_main_ok.
    rewrite Hread in Ht; injection Ht as <-; rewrite Hjson in Hm; injection Hm as <-.
    split; [done|]; exists rest; split; [done|]; intros base k; by apply walk_contained.
  - intros Ha; split.
    + intros Hok base Hb k; destruct (package_main h json_main pkg) as [p|] eqn:E; [|done].
      apply package_main_ok in E as (t & m & rest & Ht & Hm & Hp & Hc & Hw).
      rewrite Hread in Ht; injection Ht as <-; rewrite Hjson in Hm; injection Hm as <-.
      rewrite Hp, components_join in Hc by done; apply app_inv_head in Hc as ->; by apply walk_contained.
    + intros H; destruct (package_main h json_main pkg) as [p|] eqn:E; [done|]; exfalso.
      assert (exists p, package_main h json_main pkg = Ok p) as [p Hp]; [|congruence].
      eexists; apply package_main_ok; eexists text, main, _.
      split_and!; [done..|by apply components_join|].
      apply (walk_complete _ ["base"] []); [done|]; by apply H.
Qed.

Definition sample_host : host :=
  Host (Ok "/work") Ok (fun p => bool_decide (p = "/pkg")) (fun _ => true) (fun _ => Ok "{}").

Lemma package_main_contained_witness :
  package_main sample_host (fun _ => Ok (Some "lib/../index.js")) "/pkg/package.json" = Ok "/pkg/lib/../index.js" /\
  is_ok (package_main sample_host (fun _ => Ok (Some "lib/../../x.js")) "/pkg/package.json") = false /\
  exists rest, components "/pkg/lib/../index.js" = components "/pkg" ++ rest /\
    forall base k, below base (visit base (take k rest)).
Proof.
  split; [by vm_compute|]; split; [by vm_compute|].
  apply (package_main_contained sample_host (fun _ => Ok (Some "lib/../index.js")) "/pkg/package.json" "{}"
    (Some "lib/../index.js") "/pkg"); (reflexivity || discriminate).
Defined.

(** The course of one run: user code runs exactly when the options are
    valid, no cancellation is visible at any of the four checkpoints, and
    permissions, services, the main module, the read check of the entry, the
    resolver and the worker's bootstrap all succeed; then, and only then, the
    result is read off the execution: a termination is reported as such, an
    exit the script asked for beats an error, and an exit code is reported only
    after every worker of the run is gone.  Whenever the run's services and
    main module exist its workers are closed on the way out. *)
Theorem run_inner_course (env : run_env) (options : libdeno_options) (c1 c2 c3 c4 : bool)
    (Hc : re_requested env = (c1, c2, c3, c4)) :
  let '(r, events) := run_inner_with_cancellation env options in
  (ScriptRan ∈ events <->
   run_validation c1 (re_now env) options = Ok tt /\ c2 = false /\ c3 = false /\ c4 = false /\
   is_ok (re_permissions env) && is_ok (re_services env) && is_ok (re_main_module env) &&
   is_ok (re_entry_read env) && is_ok (re_npm_resolver env) && is_ok (re_bootstrap env) = true) /\
  (ServicesBuilt ∈ events -> is_ok (re_main_module env) = true -> WorkersClosed ∈ events) /\
  (SnapshotSaved ∈ events <-> is_ok r = true) /\
  (forall code, r = Ok code -> ScriptRan ∈ events /\ re_workers_closed env = true /\
     code = re_exit_code env /\
     exists v, re_execution env = Ok v /\ (is_ok v = true \/ re_watcher_exited env = true)) /\
  (forall e, r = Err e -> ScriptRan ∈ events -> re_workers_closed env = true ->
     (exists t, re_execution env = Err t /\ e = termination_error t) \/
     (re_execution env = Ok (Err e) /\ re_watcher_exited env = false)).
Proof.
  unfold run_inner_with_cancellation; rewrite Hc.
  destruct (run_validation c1 (re_now env) options) as [[]|e]; [|by events_tac].
  destruct (re_permissions env) as [|], (re_services env) as [|], (re_main_module env) as [|];
    cbn [map_err is_ok andb]; try (by events_tac).
  unfold cancellation_checkpoint, check_entry_read_permission.
  destruct c2; [by events_tac|]; destruct (re_entry_read env) as [|]; [|by events_tac].
  destruct (re_npm_resolver env) as [|]; [|by events_tac]; destruct c3; [by events_tac|].
  destruct (re_bootstrap env) as [|]; [|by events_tac]; destruct c4; [by events_tac|].
  destruct (re_workers_closed env), (re_execution env) as [[|]|], (re_watcher_exited env);
    cbn [negb is_ok app]; events_tac; eauto 6;
    (split; [event_mem|]; eauto 8).
Qed.

Definition sample_run (permissions : result unit libdeno_error) : run_env :=
  RunEnv (false, false, false, false) 0 permissions (Ok ()) (Ok ()) (Ok ()) (Ok ()) (Ok ()) (Ok (Ok ())) true false 7.

Lemma run_inner_course_witness :
  ScriptRan ∈ (run_inner_with_cancellation (sample_run (Ok ())) options_default).2 /\
  (run_inner_with_cancellation (sample_run (Ok ())) options_default).1 = Ok 7 /\
  ~ ScriptRan ∈ (run_inner_with_cancellation (sample_run (Err (Permission "denied"))) options_default).2.
Proof.
  pose proof (run_inner_course (sample_run (Ok ())) options_default false false false false eq_refl) as H.
  destruct (run_inner_with_cancellation (sample_run (Ok ())) options_default) as [r events] eqn:E.
  split; [by apply H|]; split; [vm_compute in E; by injection E as <-|].
  intros Hx; apply (bool_decide_eq_true_2 _) in Hx; vm_compute in Hx; discriminate.
Defined.
