(* ===== verification/Workers.v ===== *)
(** * Workers: the registry of a run's web workers (src/worker_lifecycle.rs).

    A registry is a mutex-protected map from worker ids to records, a closing
    flag and two watch channels.  The operations are split at the accesses to
    the process-global counter [ACTIVE_WORKERS] that happen inside the critical
    section: [reserve] and [unregister] leave the lock held, and
    [finish_reserve] / [finish_unregister] account for the change and release
    it.  A control (isolate handle and task spawner) is an identity; stopping a
    worker is recorded in [g_stopped]. *)
From stdpp Require Import gmap.
From S2P Require Import Prelude.
Local Open Scope Z_scope.

Record worker_record := WorkerRecord {
  wr_registration : Z; wr_parent : Z; wr_control : option nat
}.

(** What the holder of the lock still has to do. *)
Inductive critical := AfterInsert (fresh : bool) | AfterRemove.

#[export] Instance critical_eq_dec : EqDecision critical.
Proof. solve_decision. Defined.

Record registry := Registry {
  g_closing : bool;
  g_workers : gmap Z worker_record;
  g_lock : option critical;
  (** the [count] channel *)
  g_count : nat;
  (** stop requests taken out of the critical section, and those delivered *)
  g_pending : list nat;
  g_stopped : list nat
}.

Definition registry_new : registry := Registry false ∅ None 0 [] [].

Definition set_workers (g : registry) (m : gmap Z worker_record) (l : option critical) : registry :=
  Registry (g_closing g) m l (g_count g) (g_pending g) (g_stopped g).

(** [reserve], up to the insertion: the registration, unless closing. *)
Definition reserve (g : registry) (worker_id parent_id registration_id : Z) : option registry :=
  if g_closing g then None
  else
    let fresh := match g_workers g !! worker_id with None => true | Some _ => false end in
    Some (set_workers g (<[worker_id := WorkerRecord registration_id parent_id None]> (g_workers g))
            (Some (AfterInsert fresh))).

(** Leaving the critical section: the counter's change and the new count. *)
Definition finish_critical (g : registry) : registry :=
  Registry (g_closing g) (g_workers g) None (size (g_workers g)) (g_pending g) (g_stopped g).
Definition finish_reserve (fresh : bool) (active : Z) (g : registry) : Z * registry :=
  (if fresh then active + 1 else active, finish_critical g).

(** Does the record of [worker_id] belong to this registration? *)
Definition registered (g : registry) (worker_id registration_id : Z) : bool :=
  is_some_and (g_workers g !! worker_id) (fun r => bool_decide (wr_registration r = registration_id)).

(** [WorkerRegistration::drop] up to the removal. *)
Definition unregister (g : registry) (worker_id registration_id : Z) : registry :=
  if registered g worker_id registration_id
  then set_workers g (delete worker_id (g_workers g)) (Some AfterRemove)
  else g.
Definition finish_unregister (active : Z) (g : registry) : Z * registry :=
  (active - 1, finish_critical g).

(** [attach]: a worker that arrives while closing is stopped at once. *)
Definition attach (g : registry) (worker_id registration_id : Z) (control : nat) : registry :=
  match g_workers g !! worker_id with
  | Some r =>
      if bool_decide (wr_registration r = registration_id) then
        Registry (g_closing g)
          (<[worker_id := WorkerRecord (wr_registration r) (wr_parent r) (Some control)]> (g_workers g))
          (g_lock g) (g_count g)
          (g_pending g ++ if g_closing g then [control] else []) (g_stopped g)
      else g
  | None => g
  end.

Definition controls (m : gmap Z worker_record) : list (Z * nat) :=
  omap (fun r => option_map (fun c => (wr_parent r, c)) (wr_control r)) ((map_to_list m).*2).

(** [sort_by_key]: a stable insertion sort by parent. *)
Fixpoint insert_by_parent (x : Z * nat) (l : list (Z * nat)) : list (Z * nat) :=
  match l with
  | [] => [x]
  | y :: l => if decide (x.1 <= y.1) then x :: y :: l else y :: insert_by_parent x l
  end.
Definition sort_by_parent (l : list (Z * nat)) : list (Z * nat) := foldr insert_by_parent [] l.

(** [close]: the controls attached so far are to be stopped, parents first. *)
Definition close (g : registry) : registry :=
  Registry true (g_workers g) (g_lock g) (g_count g)
    (g_pending g ++ (sort_by_parent (controls (g_workers g))).*2) (g_stopped g).

(** [request_stop], one of those taken out. *)
Definition request_stop (g : registry) : registry :=
  match g_pending g with
  | [] => g
  | c :: rest => Registry (g_closing g) (g_workers g) (g_lock g) (g_count g) rest (g_stopped g ++ [c])
  end.

(** What [close_and_wait] waits for. *)
Definition drained (g : registry) : bool := (g_count g =? 0)%nat.

(** ** Lemmas *)

(** A registry's contribution to [ACTIVE_WORKERS]. *)
Definition weight (g : registry) : Z :=
  Z.of_nat (size (g_workers g)) +
  match g_lock g with
  | Some (AfterInsert true) => -1
  | Some AfterRemove => 1
  | _ => 0
  end.

Record registry_inv (g : registry) : Prop := RegistryInv {
  gi_insert : forall b, g_lock g = Some (AfterInsert b) -> g_closing g = false /\ g_workers g <> ∅;
  gi_count : g_lock g = None -> g_count g = size (g_workers g);
  gi_stop : forall w r c, g_closing g = true -> g_workers g !! w = Some r -> wr_control r = Some c ->
    c ∈ g_pending g \/ c ∈ g_stopped g
}.

Lemma registry_new_inv : registry_inv registry_new.
Proof. by split. Qed.

Lemma weight_nonneg (g : registry) : registry_inv g -> 0 <= weight g.
Proof.
  intros [H _ _]; unfold weight; destruct (g_lock g) as [[[]|]|] eqn:E; try lia.
  destruct (H true eq_refl) as [_ Hne].
  destruct (size (g_workers g)) eqn:Es; [|lia]; by apply map_size_empty_inv in Es.
Qed.

Lemma weight_zero (g : registry) :
  registry_inv g -> g_closing g = true -> weight g = 0 -> g_workers g = ∅ /\ g_lock g = None.
Proof.
  intros [H _ _] Hc Hw; unfold weight in Hw; destruct (g_lock g) as [[b|]|] eqn:E.
  - destruct (H b eq_refl); congruence.
  - lia.
  - split; [|done]; apply map_size_empty_inv; lia.
Qed.

Lemma in_sorted (x : Z * nat) (l : list (Z * nat)) : x ∈ l -> x ∈ sort_by_parent l.
Proof.
  assert (forall y z l, z ∈ insert_by_parent y l <-> z = y \/ z ∈ l) as Hi.
  { intros y z; induction l0 as [|a l0 IH]; simpl; [set_solver|].
    case_decide; rewrite !elem_of_cons; [done|rewrite IH; naive_solver]. }
  induction l as [|y l IH]; [done|]; simpl; rewrite elem_of_cons, Hi; naive_solver.
Qed.

Lemma in_controls (m : gmap Z worker_record) (w : Z) (r : worker_record) (c : nat) :
  m !! w = Some r -> wr_control r = Some c -> (wr_parent r, c) ∈ controls m.
Proof.
  intros Hm Hr; unfold controls; apply list_elem_of_omap; exists r; split; [|by rewrite Hr].
  apply list_elem_of_fmap; exists (w, r); split; [done|]; by apply elem_of_map_to_list.
Qed.

(** Every operation keeps the invariant and moves the weight as the counter. *)
Lemma reserve_inv (g g' : registry) (w p i : Z) :
  registry_inv g -> g_lock g = None -> reserve g w p i = Some g' ->
  registry_inv g' /\ g_closing g' = false /\ weight g' = weight g /\
  exists fresh, g_lock g' = Some (AfterInsert fresh).
Proof.
  intros [Hi Hn Hs] Hl; unfold reserve; destruct (g_closing g) eqn:Hc; [done|]; intros [= <-].
  split_and!; simpl; try done; [split; simpl; try done| |by eexists].
  - intros b _; split; [done|apply insert_non_empty].
  - congruence.
  - unfold weight; simpl; rewrite Hl; destruct (g_workers g !! w) as [r|] eqn:Hw.
    + rewrite map_size_insert_Some by (by eexists); lia.
    + rewrite map_size_insert_None by done; lia.
Qed.

Lemma finish_reserve_inv (g : registry) (fresh : bool) (active : Z) :
  registry_inv g -> g_lock g = Some (AfterInsert fresh) ->
  let '(active', g') := finish_reserve fresh active g in
  registry_inv g' /\ g_closing g' = g_closing g /\ active' - active = weight g' - weight g.
Proof.
  intros [Hi Hn Hs] Hl; simpl; split_and!; [by split|done|].
  unfold weight; rewrite Hl; simpl; destruct fresh; lia.
Qed.

Lemma finish_unregister_inv (g : registry) (active : Z) :
  registry_inv g -> g_lock g = Some AfterRemove ->
  let '(active', g') := finish_unregister active g in
  registry_inv g' /\ g_closing g' = g_closing g /\ active' - active = weight g' - weight g.
Proof.
  intros [Hi Hn Hs] Hl; simpl; split_and!; [by split|done|].
  unfold weight; rewrite Hl; simpl; lia.
Qed.

Lemma unregister_inv (g : registry) (w i : Z) :
  registry_inv g -> g_lock g = None ->
  let g' := unregister g w i in
  registry_inv g' /\ g_closing g' = g_closing g /\ weight g' = weight g /\
  (g_workers g = ∅ -> g' = g).
Proof.
  intros [Hi Hn Hs] Hl; unfold unregister, registered.
  destruct (g_workers g !! w) as [r|] eqn:Hw; simpl; [case_bool_decide|]; try by (split_and!; [split|..]).
  split_and!; [split; simpl; try done| done| |].
  - intros w' r' c Hc Hd Hr; rewrite lookup_delete_Some in Hd; destruct Hd; by eapply Hs.
  - unfold weight; simpl; rewrite Hl, map_size_delete_Some by (by eexists).
    assert (size (g_workers g) <> 0)%nat as Hz by (intros Hz%map_size_empty_inv; rewrite Hz in Hw; done); lia.
  - intros He; rewrite He in Hw; done.
Qed.

Lemma attach_inv (g : registry) (w i : Z) (c : nat) :
  registry_inv g -> g_lock g = None ->
  let g' := attach g w i c in
  registry_inv g' /\ g_closing g' = g_closing g /\ weight g' = weight g /\ g_lock g' = None /\
  (g_workers g = ∅ -> g' = g).
Proof.
  intros [Hi Hn Hs] Hl; unfold attach.
  destruct (g_workers g !! w) as [r|] eqn:Hw; [case_bool_decide|]; try by (split_and!; [split|..]).
  assert (size (<[w:=WorkerRecord (wr_registration r) (wr_parent r) (Some c)]> (g_workers g)) = size (g_workers g)) as Hz
    by (apply map_size_insert_Some; by eexists).
  split_and!; [split; simpl| done| |done|].
  - intros b Hb; congruence.
  - intros _; by rewrite Hz, Hn.
  - intros w' r' c' Hc Hd Hr; rewrite Hc; rewrite lookup_insert_Some in Hd.
    destruct Hd as [[<- <-]|[Hne Hd]]; simpl in *; [left; simplify_eq; set_solver|].
    destruct (Hs _ _ _ Hc Hd Hr); [left; set_solver|by right].
  - unfold weight; simpl; by rewrite Hz.
  - intros He; rewrite He in Hw; done.
Qed.

Lemma close_inv (g : registry) :
  registry_inv g -> g_lock g = None -> registry_inv (close g) /\ weight (close g) = weight g.
Proof.
  intros [Hi Hn Hs] Hl; split; [split; simpl|done].
  - intros b Hb; congruence.
  - done.
  - intros w r c _ Hw Hr; left; apply elem_of_app; right.
    apply list_elem_of_fmap; exists (wr_parent r, c); split; [done|].
    by eapply in_sorted, in_controls.
Qed.

Lemma request_stop_inv (g : registry) :
  registry_inv g -> let g' := request_stop g in
  registry_inv g' /\ g_closing g' = g_closing g /\ weight g' = weight g /\ g_workers g' = g_workers g /\
  g_lock g' = g_lock g.
Proof.
  intros [Hi Hn Hs]; unfold request_stop; destruct (g_pending g) as [|x rest] eqn:Hp; simpl; split_and!; try done.
  - split; try done; by rewrite Hp.
  - split; simpl; try done; intros w r c Hc Hw Hr; destruct (Hs _ _ _ Hc Hw Hr); set_solver.
Qed.

(** ** Sequences of operations *)

(** What may be asked of a registry; operations that need the lock wait while
    it is held, and the holder finishes its critical section. *)
Inductive registry_op :=
| OpReserve (worker_id parent_id registration_id : Z)
| OpUnregister (worker_id registration_id : Z)
| OpAttach (worker_id registration_id : Z) (control : nat)
| OpClose | OpFinish | OpStop.

Definition apply_op (g : registry) (op : registry_op) : registry :=
  match g_lock g, op with
  | _, OpStop => request_stop g
  | Some (AfterInsert fresh), OpFinish => (finish_reserve fresh 0 g).2
  | Some AfterRemove, OpFinish => (finish_unregister 0 g).2
  | None, OpReserve w p i => default g (reserve g w p i)
  | None, OpUnregister w i => unregister g w i
  | None, OpAttach w i c => attach g w i c
  | None, OpClose => close g
  | _, _ => g
  end.

Lemma apply_op_inv (g : registry) (op : registry_op) :
  registry_inv g -> registry_inv (apply_op g op) /\ (g_closing g = true -> g_closing (apply_op g op) = true).
Proof.
  intros H; unfold apply_op; destruct (g_lock g) as [[fresh|]|] eqn:Hl, op as [w p i|w i|w i c| | |]; try done;
    try (destruct (request_stop_inv g H) as (H1 & -> & _); done).
  - destruct (finish_reserve_inv g fresh 0 H Hl) as (H1 & H2 & _); split; [done|]; simpl; done.
  - destruct (finish_unregister_inv g 0 H Hl) as (H1 & H2 & _); split; [done|]; simpl; done.
  - destruct (reserve g w p i) as [g'|] eqn:E; simpl; [|done].
    destruct (reserve_inv g g' w p i H Hl E) as (H1 & H2 & _); split; [done|].
    unfold reserve in E; destruct (g_closing g); [done|by intros].
  - destruct (unregister_inv g w i H Hl) as (H1 & -> & _); done.
  - destruct (attach_inv g w i c H Hl) as (H1 & -> & _); done.
  - destruct (close_inv g H Hl) as (H1 & _); by split.
Qed.

Lemma apply_ops_inv (ops : list registry_op) (g : registry) :
  registry_inv g -> registry_inv (foldl apply_op g ops) /\ (g_closing g = true -> g_closing (foldl apply_op g ops) = true).
Proof.
  revert g; induction ops as [|op ops IH]; intros g H; [done|]; simpl.
  destruct (apply_op_inv g op H) as [H1 H2], (IH _ H1) as [I1 I2]; split; [done|]; intros Hc; by apply I2, H2.
Qed.

(** C30. A registry of workers stays well formed under every sequence of its
    operations.  Outside a critical section the published count is the number of
    registered workers, so that waiting for the count to reach zero is waiting
    for the last worker.  Once closed it stays closed and refuses reservations;
    and every worker of a closed registry whose control was attached, before or
    after, is being stopped. *)
Theorem registry_well_formed (before after : list registry_op) (worker parent registration : Z) :
  let g := foldl apply_op registry_new before in
  let g' := foldl apply_op g after in
  (g_lock g = None -> g_count g = size (g_workers g) /\ (drained g = true <-> g_workers g = ∅)) /\
  (g_closing g = true -> g_closing g' = true /\ reserve g' worker parent registration = None) /\
  (forall w r c, g_closing g = true -> g_workers g !! w = Some r -> wr_control r = Some c ->
     c ∈ g_pending g \/ c ∈ g_stopped g).
Proof.
  intros g g'; destruct (apply_ops_inv before registry_new registry_new_inv) as [H _]; fold g in H.
  destruct (apply_ops_inv after g H) as [_ Hc]; fold g' in Hc; split_and!.
  - intros Hl; pose proof (gi_count g H Hl) as Hn; split; [done|]; unfold drained; rewrite Hn, Nat.eqb_eq; split.
    + apply map_size_empty_inv.
    + intros ->; apply map_size_empty.
  - intros Hcl; split; [by apply Hc|]; unfold reserve; by rewrite (Hc Hcl).
  - apply (gi_stop g H).
Qed.
