(* ===== verification/Lease.v ===== *)
(** * Lease: who may run while standard output is captured (src/lib.rs).

    [RunLease]: a lock-free state word admits any number of ordinary runs or one
    exclusive holder (an output capture or the installation of a permission
    broker).  The word interacts with [ACTIVE_WORKERS] (Workers): a run may leave
    workers behind, and those keep captures and installations out.  Each thread
    takes one atomic access per step; registries take the steps of Workers, from
    whatever threads the workers live on. *)
From stdpp Require Import gmap.
From S2P Require Import Prelude Errors Workers.
Local Open Scope Z_scope.

Definition CAPTURE_MARKER : Z := usize_max.
Definition BROKER_INSTALL_MARKER : Z := usize_max - 1.

Definition capture_blocked_by_worker : libdeno_error := Configuration
  "output capture is process-global and cannot coexist with an active run or worker; use run_in_subprocess_with_output instead".
Definition broker_install_in_progress : libdeno_error := Configuration
  "a permission broker or hook is being installed; runs cannot start until installation completes".
Definition broker_install_blocked : libdeno_error := Configuration
  "permission broker or hook installation requires no active runs or workers".

Definition conflict (marker : Z) : libdeno_error :=
  if decide (marker = BROKER_INSTALL_MARKER) then broker_install_blocked else capture_blocked_by_worker.

(** Where a thread stands.  [LHeld e] is a lease with its exclusive marker; a
    run opens its registry after taking the lease ([LRunning]) and its owner
    closes it before the lease is dropped ([LDone]). *)
Inductive lease_pc :=
| LIdle
| LShared (cur : option Z)
| LCheck (marker : Z) | LSwap (marker : Z) | LRecheck (marker : Z) | LRollback (marker : Z)
| LHeld (exclusive : option Z)
| LRunning (exclusive : option Z) (reg : nat)
| LDone (exclusive : option Z) (reg : nat)
| LRefused (e : libdeno_error).

(** [RunLease::acquire], from the beginning. *)
Definition acquire (captured : bool) : lease_pc :=
  if captured then LCheck CAPTURE_MARKER else LShared None.
Definition acquire_broker_install : lease_pc := LCheck BROKER_INSTALL_MARKER.

(** The next atomic access of an acquisition: the state word and the counter
    before, the state word after. *)
Definition lease_access (pc : lease_pc) (run_state active : Z) : lease_pc * Z :=
  match pc with
  | LShared None => (LShared (Some run_state), run_state)
  | LShared (Some cur) =>
      if decide (cur = CAPTURE_MARKER) then (LRefused capture_blocked_by_worker, run_state)
      else if decide (cur = BROKER_INSTALL_MARKER) then (LRefused broker_install_in_progress, run_state)
      else if decide (run_state = cur) then (LHeld None, cur + 1)
      else (LShared None, run_state)
  | LCheck marker =>
      if decide (active <> 0) then (LRefused (conflict marker), run_state) else (LSwap marker, run_state)
  | LSwap marker =>
      if decide (run_state = 0) then (LRecheck marker, marker)
      else (LRefused (if decide (run_state = BROKER_INSTALL_MARKER) then broker_install_in_progress
                      else conflict marker), run_state)
  | LRecheck marker =>
      if decide (active <> 0) then (LRollback marker, run_state) else (LHeld (Some marker), run_state)
  | LRollback marker => (LRefused (conflict marker), 0)
  | _ => (pc, run_state)
  end.

(** [RunLease::drop] *)
Definition drop_lease (exclusive : option Z) (run_state : Z) : Z :=
  match exclusive with Some _ => 0 | None => run_state - 1 end.

Record world := World {
  w_run_state : Z;
  w_active : Z;
  w_next_registration : Z;
  w_threads : list lease_pc;
  w_registries : list registry
}.

Definition with_thread (i : nat) (pc : lease_pc) (run_state : Z) (s : world) : world :=
  World run_state (w_active s) (w_next_registration s) (<[i := pc]> (w_threads s)) (w_registries s).
Definition with_registry (k : nat) (g : registry) (active : Z) (s : world) : world :=
  World (w_run_state s) active (w_next_registration s) (w_threads s) (<[k := g]> (w_registries s)).

Inductive lease_step : world -> world -> Prop :=
| step_acquire s i captured :
    w_threads s !! i = Some LIdle ->
    lease_step s (with_thread i (acquire captured) (w_run_state s) s)
| step_acquire_install s i :
    w_threads s !! i = Some LIdle ->
    lease_step s (with_thread i acquire_broker_install (w_run_state s) s)
| step_access s i pc pc' word :
    w_threads s !! i = Some pc -> lease_access pc (w_run_state s) (w_active s) = (pc', word) ->
    lease_step s (with_thread i pc' word s)
| step_refused s i e :
    w_threads s !! i = Some (LRefused e) ->
    lease_step s (with_thread i LIdle (w_run_state s) s)
| step_start_run s i e :
    w_threads s !! i = Some (LHeld e) -> e <> Some BROKER_INSTALL_MARKER ->
    lease_step s (World (w_run_state s) (w_active s) (w_next_registration s)
      (<[i := LRunning e (length (w_registries s))]> (w_threads s)) (w_registries s ++ [registry_new]))
| step_close_run s i e k g :
    w_threads s !! i = Some (LRunning e k) -> w_registries s !! k = Some g -> g_lock g = None ->
    lease_step s (World (w_run_state s) (w_active s) (w_next_registration s)
      (<[i := LDone e k]> (w_threads s)) (<[k := close g]> (w_registries s)))
| step_drop s i pc e :
    w_threads s !! i = Some pc -> pc = LHeld e \/ (exists k, pc = LDone e k) ->
    lease_step s (with_thread i LIdle (drop_lease e (w_run_state s)) s)
| step_reserve s k g g' worker_id parent_id :
    w_registries s !! k = Some g -> g_lock g = None ->
    reserve g worker_id parent_id (w_next_registration s) = Some g' ->
    lease_step s (World (w_run_state s) (w_active s) (wrapping_add_u64 (w_next_registration s) 1)
      (w_threads s) (<[k := g']> (w_registries s)))
| step_reserve_refused s k g worker_id parent_id :
    w_registries s !! k = Some g -> g_lock g = None ->
    reserve g worker_id parent_id (w_next_registration s) = None ->
    lease_step s (World (w_run_state s) (w_active s) (wrapping_add_u64 (w_next_registration s) 1)
      (w_threads s) (w_registries s))
| step_finish_reserve s k g fresh :
    w_registries s !! k = Some g -> g_lock g = Some (AfterInsert fresh) ->
    lease_step s (with_registry k (finish_reserve fresh (w_active s) g).2 (finish_reserve fresh (w_active s) g).1 s)
| step_attach s k g worker_id registration_id control :
    w_registries s !! k = Some g -> g_lock g = None ->
    lease_step s (with_registry k (attach g worker_id registration_id control) (w_active s) s)
| step_unregister s k g worker_id registration_id :
    w_registries s !! k = Some g -> g_lock g = None ->
    lease_step s (with_registry k (unregister g worker_id registration_id) (w_active s) s)
| step_finish_unregister s k g :
    w_registries s !! k = Some g -> g_lock g = Some AfterRemove ->
    lease_step s (with_registry k (finish_unregister (w_active s) g).2 (finish_unregister (w_active s) g).1 s)
| step_request_stop s k g :
    w_registries s !! k = Some g ->
    lease_step s (with_registry k (request_stop g) (w_active s) s).

(** Any number of threads, fewer than the markers. *)
Definition world_init (threads : nat) : world := World 0 0 1 (replicate threads LIdle) [].

(** ** Specification: a readers-writer lock

    Ordinary runs are readers; a capture or an installation is a writer. *)
Inductive lock_state := Readers (n : nat) | Writer (marker : Z).
Inductive lock_step : lock_state -> lock_state -> Prop :=
| lock_read n : lock_step (Readers n) (Readers (S n))
| lock_read_done n : lock_step (Readers (S n)) (Readers n)
| lock_write m : m = CAPTURE_MARKER \/ m = BROKER_INSTALL_MARKER -> lock_step (Readers 0) (Writer m)
| lock_write_done m : lock_step (Writer m) (Readers 0).

(** The lease a thread holds on the word, from the successful exchange on. *)
Definition shares (pc : lease_pc) : nat :=
  match pc with LHeld None | LRunning None _ | LDone None _ => 1 | _ => 0 end.
Definition excludes (pc : lease_pc) : option Z :=
  match pc with
  | LRecheck m | LRollback m => Some m
  | LHeld e | LRunning e _ | LDone e _ => e
  | _ => None
  end.
(** The exclusive lease a caller has been given. *)
Definition exclusive_lease (pc : lease_pc) : option Z :=
  match pc with LHeld e | LRunning e _ | LDone e _ => e | _ => None end.
(** The registry of the thread's own run. *)
Definition owns (pc : lease_pc) (k : nat) : Prop :=
  match pc with LRunning _ j | LDone _ j => j = k | _ => False end.

#[export] Instance owns_dec (pc : lease_pc) (k : nat) : Decision (owns pc k).
Proof. destruct pc; simpl; apply _. Defined.

Definition readers (ts : list lease_pc) : nat := sum_list_with shares ts.
Definition represents (ts : list lease_pc) (l : lock_state) : Prop :=
  match l with
  | Readers n => n = readers ts /\ Forall (fun pc => excludes pc = None) ts
  | Writer m => exists i pc, ts !! i = Some pc /\ excludes pc = Some m
  end.
(** The state word that stands for a lock state. *)
Definition encode (l : lock_state) : Z :=
  match l with Readers n => Z.of_nat n | Writer m => m end.

(** ** The state word follows the leases *)
Definition marker_ok (m : Z) : Prop := m = CAPTURE_MARKER \/ m = BROKER_INSTALL_MARKER.
Definition wants (pc : lease_pc) : option Z :=
  match pc with LCheck m | LSwap m => Some m | _ => excludes pc end.

Record lock_inv (word : Z) (ts : list lease_pc) : Prop := LockInv {
  li_few : Z.of_nat (length ts) < BROKER_INSTALL_MARKER;
  li_markers : Forall (fun pc => forall m, wants pc = Some m -> marker_ok m) ts;
  li_lock : (word = Z.of_nat (readers ts) /\ Forall (fun pc => excludes pc = None) ts) \/
    (readers ts = 0%nat /\ exists i pc, ts !! i = Some pc /\ excludes pc = Some word /\
       forall j pc', ts !! j = Some pc' -> j <> i -> excludes pc' = None)
}.

Lemma readers_few (ts : list lease_pc) : (readers ts <= length ts)%nat.
Proof.
  unfold readers; induction ts as [|pc ts IH]; simpl; [lia|].
  assert (shares pc <= 1)%nat by (destruct pc as [| | | | | |[]|[]|[]|]; simpl; lia); lia.
Qed.

Lemma excludes_shares (pc : lease_pc) (m : Z) : excludes pc = Some m -> shares pc = 0%nat.
Proof. by destruct pc as [| | | | | |[]|[]|[]|]. Qed.

Lemma marker_big (m : Z) : marker_ok m -> BROKER_INSTALL_MARKER <= m.
Proof. intros [-> | ->]; by vm_compute. Qed.

Lemma readers_zero (ts : list lease_pc) (i : nat) (pc : lease_pc) :
  readers ts = 0%nat -> ts !! i = Some pc -> shares pc = 0%nat.
Proof. intros Hr Hi; pose proof (sum_list_lookup_le shares _ _ _ Hi); unfold readers in Hr; lia. Qed.

Lemma wants_markers (ts : list lease_pc) (i : nat) (pc' : lease_pc) :
  Forall (fun pc => forall m, wants pc = Some m -> marker_ok m) ts ->
  (forall m, wants pc' = Some m -> marker_ok m) ->
  Forall (fun pc => forall m, wants pc = Some m -> marker_ok m) (<[i := pc']> ts).
Proof. intros H H'; by apply Forall_insert. Qed.

Section Update.
Context (word : Z) (ts : list lease_pc) (i : nat) (pc pc' : lease_pc).
Context (H : lock_inv word ts) (Hi : ts !! i = Some pc)
  (Hw : forall m, wants pc' = Some m -> marker_ok m).

(** A move that neither takes nor gives back. *)
Lemma lock_neutral : shares pc' = shares pc -> excludes pc' = excludes pc -> lock_inv word (<[i := pc']> ts).
Proof using H Hi Hw.
  intros Hs He; destruct H as [Hf Hm Hl]; split; [by rewrite length_insert|by apply wants_markers|].
  pose proof (sum_list_insert shares ts i pc pc' Hi) as Hsum; fold (readers ts) (readers (<[i:=pc']> ts)) in Hsum.
  destruct Hl as [[-> Hn]|(Hr & j & q & Hj & Hq & Ho)]; [left|right].
  - split; [lia|]; apply Forall_insert; [done|]; rewrite He; by eapply Forall_lookup_1 in Hn.
  - split; [lia|]; destruct (decide (j = i)) as [->|Hne].
    + exists i, pc'. rewrite list_lookup_insert_eq by (by eapply lookup_lt_Some); split_and!; [done|rewrite He; congruence|].
      intros j' p Hj' Hne; rewrite list_lookup_insert_ne in Hj' by done; by eapply Ho.
    + exists j, q; rewrite list_lookup_insert_ne by done; split_and!; [done..|].
      intros j' p Hj' Hne'; apply list_lookup_insert_Some in Hj' as [(-> & <- & _)|[_ Hj']]; [|by eapply Ho].
      rewrite He; by eapply Ho.
Qed.

Lemma lock_no_writer : word < BROKER_INSTALL_MARKER ->
  word = Z.of_nat (readers ts) /\ Forall (fun pc => excludes pc = None) ts.
Proof using H.
  intros Hlt; destruct H as [Hf Hm [?|(_ & j & q & Hj & Hq & _)]]; [done|exfalso].
  eapply Forall_lookup_1 in Hm; [|done]; assert (marker_ok word) as Hk%marker_big; [|lia].
  apply Hm; destruct q; simpl in *; congruence.
Qed.

(** Taking and giving back a share. *)
Lemma lock_take_share : word < BROKER_INSTALL_MARKER -> excludes pc' = None -> shares pc = 0%nat ->
  shares pc' = 1%nat -> lock_inv (word + 1) (<[i := pc']> ts).
Proof using H Hi Hw.
  intros Hlt He Hs Hs'; destruct (lock_no_writer Hlt) as [-> Hn].
  destruct H as [Hf Hm _]; split; [by rewrite length_insert|by apply wants_markers|left].
  pose proof (sum_list_insert shares ts i pc pc' Hi) as Hsum; fold (readers ts) (readers (<[i:=pc']> ts)) in Hsum.
  split; [lia|]; by apply Forall_insert.
Qed.

Lemma lock_drop_share : excludes pc' = None -> shares pc = 1%nat -> shares pc' = 0%nat ->
  lock_inv (word - 1) (<[i := pc']> ts).
Proof using H Hi Hw.
  intros He Hs Hs'; destruct H as [Hf Hm Hl]; split; [by rewrite length_insert|by apply wants_markers|left].
  pose proof (sum_list_insert shares ts i pc pc' Hi) as Hsum; fold (readers ts) (readers (<[i:=pc']> ts)) in Hsum.
  destruct Hl as [[-> Hn]|(Hr & _)]; [|pose proof (readers_zero _ _ _ Hr Hi); lia].
  split; [lia|]; by apply Forall_insert.
Qed.

(** Taking and giving back the word. *)
Lemma lock_take_word (m : Z) : word = 0 -> marker_ok m -> excludes pc = None -> excludes pc' = Some m ->
  shares pc = 0%nat -> lock_inv m (<[i := pc']> ts).
Proof using H Hi Hw.
  intros Hz Hm He He' Hs; assert (word < BROKER_INSTALL_MARKER) as Hlt by (rewrite Hz; by vm_compute).
  destruct (lock_no_writer Hlt) as [Hword Hn].
  destruct H as [Hf Hk _]; split; [by rewrite length_insert|by apply wants_markers|right].
  pose proof (sum_list_insert shares ts i pc pc' Hi) as Hsum; fold (readers ts) (readers (<[i:=pc']> ts)) in Hsum.
  apply excludes_shares in He' as Hs'; split; [lia|].
  exists i, pc'; rewrite list_lookup_insert_eq by (by eapply lookup_lt_Some); split_and!; [done..|].
  intros j p Hj Hne; rewrite list_lookup_insert_ne in Hj by done; by eapply Forall_lookup_1 in Hn.
Qed.

Lemma lock_drop_word (m : Z) : excludes pc = Some m -> excludes pc' = None -> shares pc' = 0%nat ->
  lock_inv 0 (<[i := pc']> ts).
Proof using H Hi Hw.
  intros He He' Hs'; apply excludes_shares in He as Hs.
  destruct H as [Hf Hk Hl]; split; [by rewrite length_insert|by apply wants_markers|left].
  pose proof (sum_list_insert shares ts i pc pc' Hi) as Hsum; fold (readers ts) (readers (<[i:=pc']> ts)) in Hsum.
  destruct Hl as [[_ Hn]|(Hr & j & q & Hj & Hq & Ho)].
  - eapply Forall_lookup_1 in Hn; [|done]; simpl in Hn; congruence.
  - split; [lia|]; apply Forall_lookup_2; intros j' p Hp.
    apply list_lookup_insert_Some in Hp as [(<- & <- & _)|[Hne Hp]]; [done|].
    destruct (decide (j' = j)) as [->|]; [|by eapply Ho].
    assert (i = j) as ->; [|done]; destruct (decide (i = j)) as [|Hij]; [done|].
    specialize (Ho _ _ Hi Hij); congruence.
Qed.
End Update.

Lemma word_not_marker (word : Z) (ts : list lease_pc) :
  lock_inv word ts -> word <> CAPTURE_MARKER -> word <> BROKER_INSTALL_MARKER -> word < BROKER_INSTALL_MARKER.
Proof.
  intros [Hf Hk [[-> _]|(_ & j & q & Hj & Hq & _)]] H1 H2; [pose proof (readers_few ts); lia|].
  eapply Forall_lookup_1 in Hk; [|done]; assert (marker_ok word) as []; [|done..].
  apply Hk; destruct q; simpl in *; congruence.
Qed.

Lemma access_lock_inv (word active : Z) (ts : list lease_pc) (i : nat) (pc pc' : lease_pc) (word' : Z) :
  lock_inv word ts -> ts !! i = Some pc -> lease_access pc word active = (pc', word') ->
  lock_inv word' (<[i := pc']> ts).
Proof.
  intros H Hi Ha.
  assert (forall m, wants pc = Some m -> marker_ok m) as Hm
    by (destruct H as [_ Hm _]; by eapply Forall_lookup_1 in Hm).
  destruct pc as [|[cur|]|m|m|m|m|e|e k|e k|e]; simpl in Ha; repeat case_decide; simplify_eq;
    try (by eapply lock_neutral); try (eapply lock_neutral; (done || by intros; simplify_eq)).
  - eapply lock_take_share; try done; by eapply word_not_marker.
  - eapply lock_take_word; try done; by apply Hm.
  - eapply lock_drop_word; done.
Qed.

(** ** The whole state *)
Record world_inv (s : world) : Prop := WorldInv {
  wi_lock : lock_inv (w_run_state s) (w_threads s);
  wi_registries : Forall registry_inv (w_registries s);
  wi_active : w_active s = foldr Z.add 0 (map weight (w_registries s));
  wi_owner : forall k g, w_registries s !! k = Some g -> g_closing g = false ->
    exists i e, w_threads s !! i = Some (LRunning e k);
  wi_valid : forall i pc k, w_threads s !! i = Some pc -> owns pc k -> (k < length (w_registries s))%nat;
  wi_install : forall i pc k, w_threads s !! i = Some pc -> owns pc k ->
    exclusive_lease pc <> Some BROKER_INSTALL_MARKER;
  wi_alone : forall i pc m, w_threads s !! i = Some pc -> exclusive_lease pc = Some m ->
    forall k g, w_registries s !! k = Some g -> ~ owns pc k ->
    g_closing g = true /\ g_workers g = ∅ /\ g_lock g = None
}.

Lemma weights_insert (l : list registry) (k : nat) (g g' : registry) :
  l !! k = Some g ->
  foldr Z.add 0 (map weight (<[k := g']> l)) = foldr Z.add 0 (map weight l) - weight g + weight g'.
Proof.
  revert k; induction l as [|a l IH]; intros [|k] H; simplify_eq/=; [lia|]; rewrite (IH k H); lia.
Qed.

Lemma weights_app (l : list registry) (g : registry) :
  foldr Z.add 0 (map weight (l ++ [g])) = foldr Z.add 0 (map weight l) + weight g.
Proof. induction l as [|a l IH]; simpl; [lia|]; rewrite IH; lia. Qed.

Lemma weights_zero (l : list registry) :
  Forall registry_inv l -> foldr Z.add 0 (map weight l) = 0 -> Forall (fun g => weight g = 0) l.
Proof.
  assert (forall l, Forall registry_inv l -> 0 <= foldr Z.add 0 (map weight l)) as Hp.
  { induction 1 as [|g l' Hg Hl IH]; simpl; [done|]; pose proof (weight_nonneg g Hg); lia. }
  induction 1 as [|g l Hg Hl IH]; intros H; [done|]; simpl in H.
  pose proof (weight_nonneg g Hg); pose proof (Hp l Hl); constructor; [lia|apply IH; lia].
Qed.

Lemma init_inv (n : nat) : Z.of_nat n < BROKER_INSTALL_MARKER -> world_inv (world_init n).
Proof.
  intros Hn; split; simpl; try done.
  - assert (forall P : lease_pc -> Prop, P LIdle -> Forall P (replicate n LIdle)) as Hf by (intros; by apply Forall_replicate).
    split; [by rewrite length_replicate|by apply Hf|left].
    split; [|by apply Hf]. unfold readers; clear; by induction n.
  - intros i pc k H; apply lookup_replicate in H as [-> _]; done.
  - intros i pc k H; apply lookup_replicate in H as [-> _]; done.
Qed.

(** A thread's move that leaves the registries alone. *)
Lemma thread_inv (s : world) (i : nat) (pc pc' : lease_pc) (word : Z) :
  world_inv s -> w_threads s !! i = Some pc ->
  lock_inv word (<[i := pc']> (w_threads s)) ->
  (forall e k, pc <> LRunning e k) -> (forall k, owns pc' k -> owns pc k) ->
  (forall m, exclusive_lease pc' = Some m -> (forall k, ~ owns pc' k) ->
    Forall (fun g => g_closing g = true /\ g_workers g = ∅ /\ g_lock g = None) (w_registries s)) ->
  (forall k, ~ owns pc' k) ->
  world_inv (with_thread i pc' word s).
Proof.
  intros [Hl Hr Ha Ho Hv Hb Hal] Hi Hl' Hnr How Hex Hno; split; simpl; try done.
  - intros k g Hk Hc; destruct (Ho k g Hk Hc) as (j & e & Hj); exists j, e.
    rewrite list_lookup_insert_ne; [done|]; intros <-; rewrite Hi in Hj; simplify_eq; by eapply Hnr.
  - intros j p k Hj Hp; apply list_lookup_insert_Some in Hj as [(<- & <- & _)|[_ Hj]]; [by destruct (Hno k)|by eapply Hv].
  - intros j p k Hj Hp; apply list_lookup_insert_Some in Hj as [(<- & <- & _)|[_ Hj]]; [by destruct (Hno k)|by eapply Hb].
  - intros j p m Hj Hm k g Hk Hn; apply list_lookup_insert_Some in Hj as [(<- & <- & _)|[_ Hj]]; [|by eapply Hal].
    eapply Forall_lookup_1 in Hk; [|by eapply Hex]; done.
Qed.

(** A registry's move, made under its lock by whoever lives there. *)
Lemma registry_step_inv (s : world) (k : nat) (g g' : registry) (active next : Z) :
  world_inv s -> w_registries s !! k = Some g -> registry_inv g' -> g_closing g' = g_closing g ->
  active - w_active s = weight g' - weight g ->
  (g_closing g = true -> g_workers g = ∅ -> g_lock g = None -> g_workers g' = ∅ /\ g_lock g' = None) ->
  world_inv (World (w_run_state s) active next (w_threads s) (<[k := g']> (w_registries s))).
Proof.
  intros [Hl Hr Ha Ho Hv Hb Hal] Hk Hg Hc Hw He; split; simpl; try done.
  - by apply Forall_insert.
  - rewrite (weights_insert _ _ _ _ Hk); lia.
  - intros j h Hj Hh; apply list_lookup_insert_Some in Hj as [(<- & <- & _)|[_ Hj]]; [|by eapply Ho].
    eapply Ho; [done|congruence].
  - intros i pc j Hi Hp; rewrite length_insert; by eapply Hv.
  - intros i pc m Hi Hm j h Hj Hn; apply list_lookup_insert_Some in Hj as [(<- & <- & _)|[_ Hj]]; [|by eapply Hal].
    destruct (Hal i pc m Hi Hm k g Hk Hn) as (Hcl & Hwk & Hlk); rewrite Hc; split; [done|]; by apply He.
Qed.

(** The thread that holds the word is alone in the lock. *)
Lemma writer_alone (word : Z) (ts : list lease_pc) (i : nat) (pc : lease_pc) (m : Z) :
  lock_inv word ts -> ts !! i = Some pc -> excludes pc = Some m ->
  word = m /\ readers ts = 0%nat /\
  forall j q, ts !! j = Some q -> shares q = 0%nat /\ (j <> i -> excludes q = None).
Proof.
  intros [_ _ [[_ Hn]|(Hr & j & q & Hj & Hq & Ho)]] Hi He.
  - eapply Forall_lookup_1 in Hn; [|done]; simpl in Hn; congruence.
  - assert (i = j) as ->.
    { destruct (decide (i = j)) as [|Hij]; [done|]; specialize (Ho _ _ Hi Hij); congruence. }
    split_and!; [congruence|done|]; intros j' q' Hj'; split; [by eapply readers_zero|intros Hne; by eapply Ho].
Qed.

Lemma recheck_empty (s : world) (i : nat) (m : Z) :
  world_inv s -> w_threads s !! i = Some (LRecheck m) -> w_active s = 0 ->
  Forall (fun g => g_closing g = true /\ g_workers g = ∅ /\ g_lock g = None) (w_registries s).
Proof.
  intros [Hl Hr Ha Ho Hv Hb Hal] Hi H0; rewrite Ha in H0; apply weights_zero in H0; [|done].
  destruct (writer_alone _ _ _ _ m Hl Hi eq_refl) as (_ & _ & Hw).
  apply Forall_lookup_2; intros k g Hk.
  assert (g_closing g = true) as Hc.
  { destruct (g_closing g) eqn:Hc; [done|]; destruct (Ho k g Hk Hc) as (j & e & Hj).
    destruct (Hw _ _ Hj) as [Hs Hx]; destruct e as [e|]; [|done].
    destruct (decide (j = i)) as [->|Hne]; [congruence|]; by specialize (Hx Hne). }
  eapply Forall_lookup_1 in H0; [|done]; eapply Forall_lookup_1 in Hr; [|done].
  split; [done|by apply weight_zero].
Qed.

(** Is the thread inside an acquisition? *)
Definition acquiring (pc : lease_pc) : bool :=
  match pc with LShared _ | LCheck _ | LSwap _ | LRecheck _ | LRollback _ => true | _ => false end.

Lemma access_pc (pc pc' : lease_pc) (word active word' : Z) :
  lease_access pc word active = (pc', word') -> acquiring pc = true ->
  (forall e k, pc <> LRunning e k) /\ (forall k, ~ owns pc' k) /\
  (forall m, exclusive_lease pc' = Some m -> pc = LRecheck m /\ active = 0).
Proof.
  destruct pc as [|[cur|]|m|m|m|m|e|e k|e k|e]; simpl; intros Ha Hac; repeat case_decide; simplify_eq;
    split_and!; intros; simplify_eq/=; try done; try congruence; try tauto; try (split; [done|lia]).
Qed.

Lemma with_thread_id (s : world) (i : nat) (pc : lease_pc) :
  w_threads s !! i = Some pc -> with_thread i pc (w_run_state s) s = s.
Proof. intros H; unfold with_thread; rewrite list_insert_id by done; by destruct s. Qed.

Lemma access_same (pc pc' : lease_pc) (word active word' : Z) :
  lease_access pc word active = (pc', word') -> acquiring pc = false -> pc' = pc /\ word' = word.
Proof. destruct pc; simpl; intros; by simplify_eq. Qed.

Lemma start_run_inv (s : world) (i : nat) (e : option Z) :
  world_inv s -> w_threads s !! i = Some (LHeld e) -> e <> Some BROKER_INSTALL_MARKER ->
  world_inv (World (w_run_state s) (w_active s) (w_next_registration s)
      (<[i := LRunning e (length (w_registries s))]> (w_threads s)) (w_registries s ++ [registry_new])).
Proof.
  intros [Hl Hr Ha Ho Hv Hb Hal] Hi He.
  assert (forall j q k, <[i:=LRunning e (length (w_registries s))]> (w_threads s) !! j = Some q -> owns q k ->
    j = i /\ k = length (w_registries s) \/ w_threads s !! j = Some q /\ (k < length (w_registries s))%nat) as Hown.
  { intros j q k Hj Hq; apply list_lookup_insert_Some in Hj as [(<- & <- & _)|[_ Hj]]; [by left|right].
    split; [done|by eapply Hv]. }
  split; simpl.
  - eapply lock_neutral; try done; intros m Hm; destruct Hl as [_ Hm' _].
    eapply Forall_lookup_1 in Hm'; [|done]; by apply Hm'.
  - apply Forall_app; split; [done|]; apply Forall_singleton, registry_new_inv.
  - rewrite weights_app, Ha; replace (weight registry_new) with 0 by done; lia.
  - intros k g Hk Hc; apply lookup_app_Some in Hk as [Hk|[Hge Hk]].
    + destruct (Ho k g Hk Hc) as (j & e' & Hj); exists j, e'; rewrite list_lookup_insert_ne; [done|].
      intros <-; congruence.
    + apply list_lookup_singleton_Some in Hk as [Hk _].
      exists i, e; rewrite list_lookup_insert_eq by (by eapply lookup_lt_Some).
      replace k with (length (w_registries s)) by lia; done.
  - intros j q k Hj Hq; rewrite length_app; simpl; destruct (Hown _ _ _ Hj Hq) as [[_ ->]|[_ Hlt]]; lia.
  - intros j q k Hj Hq; apply list_lookup_insert_Some in Hj as [(<- & <- & _)|[_ Hj]]; [done|by eapply Hb].
  - intros j q m Hj Hm k g Hk Hn; apply lookup_app_Some in Hk as [Hk|[Hge Hk]].
    + apply list_lookup_insert_Some in Hj as [(<- & <- & _)|[_ Hj]]; [|by eapply Hal].
      apply (Hal i (LHeld e) m Hi Hm k g Hk); by intros [].
    + apply list_lookup_singleton_Some in Hk as [Hk _]; exfalso.
      apply list_lookup_insert_Some in Hj as [(<- & <- & _)|[Hne Hj]]; [apply Hn; simpl; lia|].
      assert (excludes q = Some m) as Hq by (by destruct q).
      destruct (writer_alone _ _ _ _ m Hl Hj Hq) as (_ & _ & Hw); destruct (Hw _ _ Hi) as [Hs Hx].
      specialize (Hx Hne); simpl in Hx; subst e; done.
Qed.

Lemma close_run_inv (s : world) (i k : nat) (e : option Z) (g : registry) :
  world_inv s -> w_threads s !! i = Some (LRunning e k) -> w_registries s !! k = Some g -> g_lock g = None ->
  world_inv (World (w_run_state s) (w_active s) (w_next_registration s)
      (<[i := LDone e k]> (w_threads s)) (<[k := close g]> (w_registries s))).
Proof.
  intros [Hl Hr Ha Ho Hv Hb Hal] Hi Hk Hg; assert (registry_inv g) as Hgi by (by eapply Forall_lookup_1 in Hr).
  destruct (close_inv g Hgi Hg) as [Hci Hcw].
  split; simpl.
  - eapply lock_neutral; try done; intros m Hm; destruct Hl as [_ Hm' _].
    eapply Forall_lookup_1 in Hm'; [|done]; by apply Hm'.
  - by apply Forall_insert.
  - rewrite (weights_insert _ _ _ _ Hk); lia.
  - intros j h Hj Hh; apply list_lookup_insert_Some in Hj as [(<- & <- & _)|[Hne Hj]]; [done|].
    destruct (Ho j h Hj Hh) as (j' & e' & Hj'); exists j', e'; rewrite list_lookup_insert_ne; [done|].
    intros <-; congruence.
  - intros j q n Hj Hq; rewrite length_insert.
    apply list_lookup_insert_Some in Hj as [(<- & <- & _)|[_ Hj]]; [by apply (Hv i _ n Hi)|by eapply Hv].
  - intros j q n Hj Hq; apply list_lookup_insert_Some in Hj as [(<- & <- & _)|[_ Hj]]; [by apply (Hb i _ n Hi)|by eapply Hb].
  - intros j q m Hj Hm n h Hn Hno.
    assert (exists q', w_threads s !! j = Some q' /\ exclusive_lease q' = Some m /\ ~ owns q' n) as (q' & Hq' & Hm' & Hno').
    { apply list_lookup_insert_Some in Hj as [(<- & <- & _)|[_ Hj]]; [by eexists (LRunning e k)|by exists q]. }
    apply list_lookup_insert_Some in Hn as [(<- & <- & _)|[_ Hn]]; [|by eapply Hal].
    destruct (Hal j q' m Hq' Hm' k g Hk Hno') as (_ & Hw & Hlk); done.
Qed.

Lemma thread_wants (s : world) (i : nat) (pc : lease_pc) (m : Z) :
  world_inv s -> w_threads s !! i = Some pc -> wants pc = Some m -> marker_ok m.
Proof. intros [[_ Hm _] _ _ _ _ _ _] Hi; eapply Forall_lookup_1 in Hm; [apply Hm|done]. Qed.

Lemma drop_lock_inv (word : Z) (ts : list lease_pc) (i : nat) (pc : lease_pc) (e : option Z) :
  lock_inv word ts -> ts !! i = Some pc -> pc = LHeld e \/ (exists k, pc = LDone e k) ->
  lock_inv (drop_lease e word) (<[i := LIdle]> ts).
Proof.
  intros Hl Hi Hpc; destruct e as [m|]; simpl.
  - assert (excludes pc = Some m) as He by (by destruct Hpc as [->|[? ->]]).
    by eapply lock_drop_word.
  - assert (shares pc = 1%nat) as Hs by (by destruct Hpc as [->|[? ->]]).
    by eapply lock_drop_share.
Qed.

(** Facts about program counters that evaluate. *)
Ltac lease_easy := intros; simpl in *; simplify_eq; try done; try (intros ?; simplify_eq; done).

Lemma step_inv (s s' : world) : world_inv s -> lease_step s s' -> world_inv s'.
Proof.
  intros H Hs; assert (lock_inv (w_run_state s) (w_threads s)) as Hl by apply H.
  assert (forall k g, w_registries s !! k = Some g -> registry_inv g) as Hg
    by (intros k g Hk; destruct H as [_ Hr _ _ _ _ _]; by eapply Forall_lookup_1 in Hr).
  destruct Hs as [s i c Hi|s i Hi|s i pc pc' word Hi Ha|s i e Hi|s i e Hi He|s i e k g Hi Hk Hlk|s i pc e Hi Hpc
    |s k g g' w p Hk Hlk Hres|s k g w p Hk Hlk Hres|s k g fresh Hk Hlk|s k g w r c Hk Hlk|s k g w r Hk Hlk
    |s k g Hk Hlk|s k g Hk].
  - destruct c; (apply (thread_inv s i LIdle); [done|exact Hi| |lease_easy..]);
      (apply (lock_neutral _ _ i LIdle); [exact Hl|exact Hi| |done|done]); intros m Hm; simplify_eq/=; by left.
  - apply (thread_inv s i LIdle); [done|exact Hi| |lease_easy..].
    apply (lock_neutral _ _ i LIdle); [exact Hl|exact Hi| |done|done]; intros m Hm; simplify_eq/=; by right.
  - destruct (acquiring pc) eqn:Hac.
    2: { apply access_same in Ha as [-> ->]; [|done]; by rewrite with_thread_id. }
    destruct (access_pc _ _ _ _ _ Ha Hac) as (Hr & Ho & Hx).
    apply (thread_inv s i pc); [done|exact Hi|by eapply access_lock_inv|exact Hr|intros k Hk; by destruct (Ho k)| |exact Ho].
    intros m Hm _; destruct (Hx m Hm) as [-> H0]; by eapply recheck_empty.
  - apply (thread_inv s i (LRefused e)); [done|exact Hi| |lease_easy..].
    by apply (lock_neutral _ _ i (LRefused e)).
  - by apply start_run_inv.
  - by apply close_run_inv.
  - apply (thread_inv s i pc); [done|exact Hi|by eapply drop_lock_inv| |lease_easy..].
    intros e' k ->; by destruct Hpc as [?|[? ?]].
  - destruct (reserve_inv _ _ _ _ _ (Hg _ _ Hk) Hlk Hres) as (Hi & Hc & Hw & _).
    assert (g_closing g = false) as Hc0 by (unfold reserve in Hres; by destruct (g_closing g)).
    eapply registry_step_inv; try done; [congruence|lia|congruence].
  - destruct H; by split.
  - pose proof (finish_reserve_inv g fresh (w_active s) (Hg _ _ Hk) Hlk) as (Hi & Hc & Hw).
    eapply registry_step_inv; try done; congruence.
  - destruct (attach_inv g w r c (Hg _ _ Hk) Hlk) as (Hi & Hc & Hw & Hl' & He).
    eapply registry_step_inv; try done; [lia|]; intros _ H0 _; by rewrite (He H0).
  - destruct (unregister_inv g w r (Hg _ _ Hk) Hlk) as (Hi & Hc & Hw & He).
    eapply registry_step_inv; try done; [lia|]; intros _ H0 _; by rewrite (He H0).
  - pose proof (finish_unregister_inv g (w_active s) (Hg _ _ Hk) Hlk) as (Hi & Hc & Hw).
    eapply registry_step_inv; try done; congruence.
  - destruct (request_stop_inv g (Hg _ _ Hk)) as (Hi & Hc & Hw & Hm & Hl').
    eapply registry_step_inv; try done; [lia|]; intros _ H0 Hn; by rewrite Hm, Hl'.
Qed.

Lemma reachable_inv (n : nat) (s : world) :
  Z.of_nat n < BROKER_INSTALL_MARKER -> reachable lease_step (world_init n) s -> world_inv s.
Proof. intros Hn; apply reachable_invariant; [by apply init_inv|intros a b; apply step_inv]. Qed.

(** ** Refinement *)

(** What a thread's move does to its lease. *)
Inductive lease_move (pc pc' : lease_pc) : Prop :=
| move_none : shares pc' = shares pc -> excludes pc' = excludes pc -> lease_move pc pc'
| move_take : shares pc = 0%nat -> shares pc' = 1%nat -> excludes pc = None -> excludes pc' = None -> lease_move pc pc'
| move_give : shares pc = 1%nat -> shares pc' = 0%nat -> excludes pc = None -> excludes pc' = None -> lease_move pc pc'
| move_lock m : shares pc = 0%nat -> excludes pc = None -> excludes pc' = Some m -> lease_move pc pc'
| move_unlock m : excludes pc = Some m -> excludes pc' = None -> shares pc' = 0%nat -> lease_move pc pc'.

Lemma represents_total (word : Z) (ts : list lease_pc) :
  lock_inv word ts -> exists l, represents ts l /\ encode l = word.
Proof.
  intros [_ _ [[-> Hn]|(_ & i & pc & Hi & He & _)]].
  - by exists (Readers (readers ts)).
  - exists (Writer word); split; [by exists i, pc|done].
Qed.

Lemma represents_readers (word : Z) (ts : list lease_pc) (n : nat) (i : nat) (pc : lease_pc) :
  represents ts (Readers n) -> ts !! i = Some pc -> excludes pc = None.
Proof. intros [_ Hn] Hi; by eapply Forall_lookup_1 in Hn. Qed.

Lemma lease_move_sim (word word' : Z) (ts : list lease_pc) (i : nat) (pc pc' : lease_pc) (l : lock_state) :
  lock_inv word ts -> lock_inv word' (<[i := pc']> ts) -> ts !! i = Some pc -> lease_move pc pc' ->
  represents ts l -> exists l', represents (<[i := pc']> ts) l' /\ (l' = l \/ lock_step l l').
Proof.
  intros H H' Hi Hm Hl; destruct (represents_total _ _ H') as (l' & Hl' & _); exists l'; split; [done|].
  pose proof (sum_list_insert shares ts i pc pc' Hi) as Hsum; fold (readers ts) (readers (<[i:=pc']> ts)) in Hsum.
  assert (<[i:=pc']> ts !! i = Some pc') as Hi' by (apply list_lookup_insert_eq; by eapply lookup_lt_Some).
  destruct l as [n|m], l' as [n'|m'].
  - destruct Hl as [-> _], Hl' as [-> _].
    assert (forall q, shares q <= 1)%nat as Hs1 by (by intros [| | | | | |[]|[]|[]|]; simpl; lia).
    pose proof (Hs1 pc); pose proof (Hs1 pc').
    destruct (decide (readers (<[i:=pc']> ts) = readers ts)) as [->|]; [by left|right].
    destruct (decide (readers (<[i:=pc']> ts) = S (readers ts))) as [->|]; [constructor|].
    assert (readers ts = S (readers (<[i:=pc']> ts))) as -> by lia; constructor.
  - destruct Hl as [-> Hn], Hl' as (j & q & Hj & Hq); right.
    assert (j = i) as ->.
    { destruct (decide (j = i)) as [|Hne]; [done|]; rewrite list_lookup_insert_ne in Hj by done.
      eapply Forall_lookup_1 in Hn; [|done]; simpl in Hn; congruence. }
    assert (q = pc') as -> by congruence.
    destruct (writer_alone _ _ _ _ _ H' Hi' Hq) as (Hw & Hr & _).
    assert (marker_ok m') as Hok.
    { destruct H' as [_ Hk _]; eapply Forall_lookup_1 in Hk; [|exact Hi']; apply Hk; by destruct pc'. }
    assert (excludes pc = None) as Hpc by (by eapply Forall_lookup_1 in Hn).
    assert (shares pc = 0%nat) as Hs by (destruct Hm; congruence).
    assert (readers ts = 0%nat) as -> by lia; by constructor.
  - destruct Hl as (j & q & Hj & Hq), Hl' as [-> Hn]; right.
    destruct (writer_alone _ _ _ _ _ H Hj Hq) as (_ & Hr & Hw).
    assert (j = i) as ->.
    { destruct (decide (j = i)) as [|Hne]; [done|]; exfalso.
      assert (<[i:=pc']> ts !! j = Some q) as Hj' by (by rewrite list_lookup_insert_ne).
      eapply Forall_lookup_1 in Hn; [|exact Hj']; simpl in Hn; congruence. }
    assert (q = pc) as -> by congruence.
    assert (excludes pc' = None) as He' by (by eapply Forall_lookup_1 in Hn).
    apply excludes_shares in Hq as Hs; assert (shares pc' = 0%nat) as Hs' by (destruct Hm; congruence).
    assert (readers (<[i:=pc']> ts) = 0%nat) as -> by lia; constructor.
  - destruct Hl as (j & q & Hj & Hq), Hl' as (j' & q' & Hj' & Hq').
    destruct (writer_alone _ _ _ _ _ H Hj Hq) as (Hm1 & _ & Hw).
    destruct (decide (j' = i)) as [->|Hne].
    + assert (q' = pc') as -> by congruence.
      destruct (decide (j = i)) as [->|Hne]; [|].
      * assert (q = pc) as -> by congruence; left; destruct Hm; congruence.
      * assert (<[i:=pc']> ts !! j = Some q) as Hj2 by (by rewrite list_lookup_insert_ne).
        destruct (writer_alone _ _ _ _ _ H' Hj2 Hq) as (_ & _ & Hw'); destruct (Hw' _ _ Hi') as [_ Hx].
        rewrite Hx in Hq' by done; done.
    + rewrite list_lookup_insert_ne in Hj' by done; destruct (Hw _ _ Hj') as [_ Hx].
      destruct (decide (j' = j)) as [->|Hjj]; [left; congruence|]; rewrite Hx in Hq' by done; done.
Qed.

Lemma access_move (pc pc' : lease_pc) (word active word' : Z) :
  lease_access pc word active = (pc', word') -> lease_move pc pc'.
Proof.
  destruct pc as [|[cur|]|m|m|m|m|e|e k|e k|e]; simpl; intros Ha; repeat case_decide; simplify_eq;
    try (by apply move_none); [by apply move_take|by eapply move_lock|by eapply move_unlock].
Qed.

(** Every step of the program is a step of the lock or none. *)
Lemma step_sim (s s' : world) (l : lock_state) :
  world_inv s -> lease_step s s' -> represents (w_threads s) l ->
  exists l', represents (w_threads s') l' /\ (l' = l \/ lock_step l l').
Proof.
  intros H Hs Hl; pose proof (step_inv _ _ H Hs) as H'.
  apply wi_lock in H; apply wi_lock in H'.
  destruct Hs as [s i c Hi|s i Hi|s i pc pc' word Hi Ha|s i e Hi|s i e Hi He|s i e k g Hi Hk Hlk|s i pc e Hi Hpc
    |s k g g' w p Hk Hlk Hres|s k g w p Hk Hlk Hres|s k g fresh Hk Hlk|s k g w r c Hk Hlk|s k g w r Hk Hlk
    |s k g Hk Hlk|s k g Hk]; try (by exists l; split; [|left]); simpl in *.
  - eapply lease_move_sim; try done; destruct c; by apply move_none.
  - eapply lease_move_sim; try done; by apply move_none.
  - eapply lease_move_sim; try done; by eapply access_move.
  - eapply lease_move_sim; try done; by apply move_none.
  - eapply lease_move_sim; try done; by apply move_none.
  - eapply lease_move_sim; try done; by apply move_none.
  - eapply lease_move_sim; try done.
    destruct e as [m|]; [eapply move_unlock|apply move_give]; destruct Hpc as [->|[? ->]]; done.
Qed.

(** ** Properties *)

(** C20. The lease protocol implements a readers-writer lock.  Whatever threads
    acquire, run, spawn workers and drop leases, in any order, the state word
    stands for a reachable state of the lock; every access moves the lock by one
    of its steps or not at all; and an exclusive acquisition whose exchange fails
    was refused because the lock was taken. *)
Theorem lease_refines_lock (n : nat) (s : world)
    (Hn : Z.of_nat n < BROKER_INSTALL_MARKER) (Hs : reachable lease_step (world_init n) s) :
  (exists l, reachable lock_step (Readers 0) l /\ represents (w_threads s) l /\ w_run_state s = encode l) /\
  (forall s' l, lease_step s s' -> represents (w_threads s) l ->
     exists l', represents (w_threads s') l' /\ (l' = l \/ lock_step l l')) /\
  (forall i m e, w_threads s !! i = Some (LSwap m) ->
     (lease_access (LSwap m) (w_run_state s) (w_active s)).1 = LRefused e ->
     ~ represents (w_threads s) (Readers 0)).
Proof.
  pose proof (reachable_inv n s Hn Hs) as H; split_and!.
  - induction Hs as [|s s' Hs IH Hstep].
    + exists (Readers 0); split; [apply reach_refl|]; destruct H as [[_ _ Hl] _ _ _ _ _ _].
      destruct Hl as [[Hw Hf]|(_ & i & pc & Hi & He & _)].
      * cbn [w_run_state w_threads world_init] in *; split; [|done]; split; [lia|done].
      * apply lookup_replicate in Hi as [-> _]; done.
    + pose proof (reachable_inv n s Hn Hs) as H0; destruct (IH H0) as (l & Hl & Hr & He).
      destruct (step_sim _ _ _ H0 Hstep Hr) as (l' & Hr' & Hor); exists l'.
      split; [by destruct Hor as [->|Hor]; [|eapply reach_step]|]; split; [done|].
      destruct (represents_total _ _ (wi_lock _ H)) as (l2 & H2 & <-).
      destruct l2 as [a|a], l' as [b|b]; simpl.
      * destruct H2 as [-> _], Hr' as [-> _]; done.
      * destruct Hr' as (i & pc & Hi & Hp); by rewrite (represents_readers 0 _ _ _ _ H2 Hi) in Hp.
      * destruct H2 as (i & pc & Hi & Hp); by rewrite (represents_readers 0 _ _ _ _ Hr' Hi) in Hp.
      * destruct H2 as (i & pc & Hi & Hp), Hr' as (j & q & Hj & Hq).
        destruct (writer_alone _ _ _ _ _ (wi_lock _ H) Hi Hp) as (<- & _ & _).
        by destruct (writer_alone _ _ _ _ _ (wi_lock _ H) Hj Hq) as (<- & _ & _).
  - intros s' l Hstep; by apply step_sim.
  - intros i m e Hi Ha [Hz Hf]; simpl in Ha; case_decide as Hw; [done|]; apply Hw.
    destruct (wi_lock _ H) as [_ _ [[-> _]|(_ & j & q & Hj & Hq & _)]]; [lia|].
    eapply Forall_lookup_1 in Hf; [|done]; simpl in Hf; congruence.
Qed.

(** Whoever holds an exclusive lease is alone: no other thread holds any
    lease, and every registered worker of the process belongs to the run that
    holds it.  In particular nothing else prints while output is captured, and
    a permission broker is installed with no worker alive. *)
Theorem exclusive_alone (n : nat) (s : world) (i : nat) (pc : lease_pc) (m : Z)
    (Hn : Z.of_nat n < BROKER_INSTALL_MARKER) (Hs : reachable lease_step (world_init n) s)
    (Hi : w_threads s !! i = Some pc) (Hm : exclusive_lease pc = Some m) :
  w_run_state s = m /\
  (forall j q, w_threads s !! j = Some q -> j <> i -> shares q = 0%nat /\ exclusive_lease q = None) /\
  (forall k g w r, w_registries s !! k = Some g -> g_workers g !! w = Some r ->
     owns pc k /\ m = CAPTURE_MARKER).
Proof.
  pose proof (reachable_inv n s Hn Hs) as H.
  assert (excludes pc = Some m) as He by (by destruct pc).
  destruct (writer_alone _ _ _ _ _ (wi_lock _ H) Hi He) as (Hw & _ & Hj); split_and!; [done| |].
  - intros j q Hq Hne; destruct (Hj _ _ Hq) as [Hsh Hx]; split; [done|]; specialize (Hx Hne); by destruct q.
  - intros k g w r Hk Hr.
    destruct (decide (owns pc k)) as [Ho|Ho].
    + split; [done|]; destruct (thread_wants s i pc m H Hi) as [|Hb]; [by destruct pc|done|].
      by destruct (wi_install _ H i pc k Hi Ho); rewrite Hm, Hb.
    + destruct (wi_alone _ H i pc m Hi Hm k g Hk Ho) as (_ & Hem & _); by rewrite Hem in Hr.
Qed.

(** Workers are neither forgotten nor miscounted.  Once a run's registry
    closes it registers no further worker and every attached worker has been
    stopped or is about to be; outside its critical sections the published count
    is zero exactly when no worker is left, so the wait of [close_and_wait] ends
    exactly then; and the process-wide counter is the number of registered
    workers when no critical section is open. *)
Theorem workers_accounted (n : nat) (s : world) (k : nat) (g : registry)
    (Hn : Z.of_nat n < BROKER_INSTALL_MARKER) (Hs : reachable lease_step (world_init n) s)
    (Hk : w_registries s !! k = Some g) :
  (g_closing g = true -> forall w p i, reserve g w p i = None) /\
  (g_closing g = true -> forall w r c, g_workers g !! w = Some r -> wr_control r = Some c ->
     c ∈ g_pending g \/ c ∈ g_stopped g) /\
  (g_lock g = None -> (drained g = true <-> g_workers g = ∅)) /\
  (Forall (fun g => g_lock g = None) (w_registries s) ->
     w_active s = foldr Z.add 0 (map (fun g => Z.of_nat (size (g_workers g))) (w_registries s))).
Proof.
  pose proof (reachable_inv n s Hn Hs) as H.
  assert (registry_inv g) as [Hgi Hgc Hgs] by (destruct H as [_ Hr _ _ _ _ _]; by eapply Forall_lookup_1 in Hr).
  split_and!.
  - intros Hc w p i; unfold reserve; by rewrite Hc.
  - intros Hc w r c; by apply Hgs.
  - intros Hl; unfold drained; rewrite (Hgc Hl), Nat.eqb_eq; apply map_size_empty_iff.
  - intros Hf; rewrite (wi_active _ H); clear -Hf; induction Hf as [|g l Hg Hf IH]; simpl; [done|].
    rewrite IH; f_equal; unfold weight; rewrite Hg; lia.
Qed.

(** Two threads; the first starts a captured run with one worker. *)
Definition sample_world : world :=
  World CAPTURE_MARKER 1 2 [LRunning (Some CAPTURE_MARKER) 0; LIdle]
    [Registry false {[7 := WorkerRecord 1 0 None]} None 1 [] []].

Lemma sample_world_reachable : reachable lease_step (world_init 2) sample_world.
Proof.
  eapply reachable_head; [by apply (step_acquire _ 0%nat true)|].
  do 3 (eapply reachable_head; [by eapply (step_access _ 0%nat); [reflexivity|vm_compute; reflexivity]|]).
  eapply reachable_head; [by apply (step_start_run _ 0%nat (Some CAPTURE_MARKER))|].
  eapply reachable_head; [by eapply (step_reserve _ 0%nat _ _ 7 0); [reflexivity|reflexivity|vm_compute; reflexivity]|].
  eapply reachable_head; [by eapply (step_finish_reserve _ 0%nat _ true)|].
  match goal with |- reachable _ ?a ?b => replace a with b by (vm_compute; reflexivity) end; apply reach_refl.
Defined.

Lemma lease_refines_lock_witness :
  exists l, reachable lock_step (Readers 0) l /\ represents (w_threads sample_world) l /\
    w_run_state sample_world = encode l.
Proof.
  apply (lease_refines_lock 2 sample_world); [by vm_compute|apply sample_world_reachable].
Defined.

Lemma exclusive_alone_witness :
  (forall j q, w_threads sample_world !! j = Some q -> j <> 0%nat -> shares q = 0%nat /\ exclusive_lease q = None) /\
  g_workers <$> w_registries sample_world !! 0%nat = Some {[7 := WorkerRecord 1 0 None]}.
Proof.
  split; [|reflexivity].
  apply (exclusive_alone 2 sample_world 0 (LRunning (Some CAPTURE_MARKER) 0) CAPTURE_MARKER);
    [by vm_compute|apply sample_world_reachable|reflexivity|reflexivity].
Defined.

Lemma workers_accounted_witness : w_active sample_world = 1.
Proof.
  rewrite (proj2 (proj2 (proj2 (workers_accounted 2 sample_world 0 _ ltac:(by vm_compute)
    sample_world_reachable eq_refl)))); [reflexivity|by repeat constructor].
Defined.
