(* ===== verification/Capture.v ===== *)
(** * Capture: redirecting the process's own standard output (src/output.rs).

    The descriptor table is a finite map from descriptors to open files and
    their close-on-exec flag; system calls return the lowest free descriptor, as
    POSIX prescribes, or the failure a script gives them.  [StreamCapture::new]
    is followed call by call on its Unix path, its error paths included, down to
    the restoration; then come the reader thread, the bounded collection and the
    combination with the run's result. *)
From stdpp Require Import gmap.
From S2P Require Import Prelude Errors Options Execution Pipes.
Local Open Scope Z_scope.

(** ** Descriptors *)
Record fd_entry := FdEntry { fe_file : nat; fe_cloexec : bool }.
Abbreviation fd_table := (gmap Z fd_entry) (only parsing).

Definition lowest (from : Z) (t : fd_table) : Z :=
  default 0 (head (filter (fun n => t !! n = None) (seqZ from (Z.of_nat (size t) + 1)))).

(** [fcntl(fd, F_DUPFD_CLOEXEC, 3)] *)
Definition dup_cloexec (fail : option io_error) (fd : Z) (t : fd_table) : result (Z * fd_table) io_error :=
  match fail, t !! fd with
  | Some e, _ => Err e
  | None, None => Err (IoError OtherKind "Bad file descriptor")
  | None, Some entry =>
      let n := lowest 3 t in Ok (n, <[n := FdEntry (fe_file entry) true]> t)
  end.
(** [pipe]: the read and the write end of two fresh files. *)
Definition make_pipe (fail : option io_error) (rd wr : nat) (t : fd_table) : result (Z * Z * fd_table) io_error :=
  match fail with
  | Some e => Err e
  | None =>
      let r := lowest 0 t in
      let t := <[r := FdEntry rd false]> t in
      let w := lowest 0 t in
      Ok (r, w, <[w := FdEntry wr false]> t)
  end.
Definition close_fd (fd : Z) (t : fd_table) : fd_table := delete fd t.
Definition dup2 (old new : Z) (t : fd_table) : fd_table :=
  match t !! old with Some entry => <[new := FdEntry (fe_file entry) false]> t | None => t end.
Definition set_fd (fd : Z) (cloexec : bool) (t : fd_table) : fd_table :=
  match t !! fd with Some entry => <[fd := FdEntry (fe_file entry) cloexec]> t | None => t end.

(** A call retried on [EINTR]: the failures it meets before it succeeds. *)
Definition retried (failures : list io_error) : option io_error :=
  head (filter (fun e => io_kind e <> Interrupted) failures).

(** [restore_target]: [dup2] back, then the descriptor's own flags. *)
Definition restore_target (dup_failures set_failures : list io_error) (target saved : Z) (flags : bool)
    (t : fd_table) : result fd_table io_error :=
  match retried dup_failures with
  | Some e => Err e
  | None =>
      match retried set_failures with
      | Some e => Err e
      | None => Ok (set_fd target flags (dup2 saved target t))
      end
  end.

(** The failures one [StreamCapture::new] meets, call by call. *)
Record setup_script := SetupScript {
  ss_getfd : option io_error;
  ss_budget : option io_error;
  ss_pipe : option io_error;
  ss_relocate : option io_error * option io_error;
  ss_cloexec_pipe : option io_error;
  ss_dup2 : option io_error;
  ss_cloexec_target : option io_error;
  ss_thread : option io_error;
  ss_restore : list io_error * list io_error
}.

(** A redirected stream: the guard's descriptor numbers and saved flags, and
    the read end its reader thread owns. *)
Record stream_capture := StreamCapture {
  sc_target : Z; sc_saved : Z; sc_flags : bool; sc_read : Z
}.

Inductive setup (A : Type) :=
| SetupOk (v : A) (t : fd_table)
| SetupErr (e : io_error) (readers : list Z) (t : fd_table)
| SetupAbort.
Arguments SetupOk {A}. Arguments SetupErr {A}. Arguments SetupAbort {A}.

(** The loop that keeps the pipe's ends above the standard descriptors. *)
Definition relocate (fail : option io_error) (fd : Z) (t : fd_table) : result (Z * fd_table) io_error :=
  if decide (fd < 3) then
    let? (n, t) := dup_cloexec fail fd t in Ok (n, close_fd fd t)
  else Ok (fd, t).

(** [StreamCapture::new]; [dup_fd] is the saved copy of [fd]. *)
Definition stream_capture_new (sc : setup_script) (rd wr : nat) (fd dup_fd : Z) (t : fd_table)
  : setup stream_capture :=
  match ss_getfd sc, t !! fd with
  | Some e, _ => SetupErr e [] (close_fd dup_fd t)
  | None, None => SetupErr (IoError OtherKind "Bad file descriptor") [] (close_fd dup_fd t)
  | None, Some target =>
      let target_flags := fe_cloexec target in
      match ss_budget sc with
      | Some e => SetupErr e [] (close_fd dup_fd t)
      | None =>
          match make_pipe (ss_pipe sc) rd wr t with
          | Err e => SetupErr e [] (close_fd dup_fd t)
          | Ok (r, w, t) =>
              match relocate (ss_relocate sc).1 r t with
              | Err e => SetupErr e [] (close_fd dup_fd (close_fd w (close_fd r t)))
              | Ok (r, t) =>
                  match relocate (ss_relocate sc).2 w t with
                  | Err e => SetupErr e [] (close_fd dup_fd (close_fd w (close_fd r t)))
                  | Ok (w, t) =>
                      match ss_cloexec_pipe sc with
                      | Some e => SetupErr e [] (close_fd dup_fd (close_fd w (close_fd r t)))
                      | None =>
                          let t := set_fd w true (set_fd r true t) in
                          match ss_dup2 sc with
                          | Some e => SetupErr e [] (close_fd w (close_fd r (close_fd dup_fd t)))
                          | None =>
                              let t := dup2 w fd t in
                              match ss_cloexec_target sc with
                              | Some e =>
                                  match restore_target (ss_restore sc).1 (ss_restore sc).2 fd dup_fd target_flags t with
                                  | Err _ => SetupAbort
                                  | Ok t => SetupErr e [] (close_fd w (close_fd r (close_fd dup_fd t)))
                                  end
                              | None =>
                                  let t := close_fd w (set_fd fd true t) in
                                  match ss_thread sc with
                                  | Some e =>
                                      match restore_target (ss_restore sc).1 (ss_restore sc).2 fd dup_fd target_flags t with
                                      | Err _ => SetupAbort
                                      | Ok t => SetupErr e [] (close_fd r (close_fd dup_fd t))
                                      end
                                  | None => SetupOk (StreamCapture fd dup_fd target_flags r) t
                                  end
                              end
                          end
                      end
                  end
              end
          end
      end
  end.

(** [StreamCapture::restore], from the guard's end or its drop; [None] is an
    abort.  The reader closes its read end when it sees the end of the pipe. *)
Definition stream_restore (failures : list io_error * list io_error) (c : stream_capture) (t : fd_table)
  : option fd_table :=
  match restore_target failures.1 failures.2 (sc_target c) (sc_saved c) (sc_flags c) t with
  | Ok t => Some (close_fd (sc_saved c) t)
  | Err _ => None
  end.

Record output_capture_guard := OutputCapture_ {
  oc_out : option stream_capture; oc_err : option stream_capture
}.

(** The failures [OutputCapture::new] meets: the two flushes, the two saved
    duplicates, the two streams, and the restoration if it must undo the first. *)
Record capture_script := CaptureScript {
  cs_flush : option io_error * option io_error;
  cs_duplicate : option io_error * option io_error;
  cs_streams : setup_script * setup_script;
  cs_undo : list io_error * list io_error
}.

Definition when_flag {A} (b : bool) (o : option A) : option A := if b then o else None.

(** [OutputCapture::new]; the pipes are files 2k and 2k+1 from [files]. *)
Definition capture_new (sc : capture_script) (files : nat) (capture_stdout capture_stderr : bool) (t : fd_table)
  : setup output_capture_guard :=
  match when_flag capture_stdout (cs_flush sc).1 with
  | Some e => SetupErr e [] t
  | None =>
  match when_flag capture_stderr (cs_flush sc).2 with
  | Some e => SetupErr e [] t
  | None =>
  match (if capture_stdout then let? (n, t) := dup_cloexec (cs_duplicate sc).1 1 t in Ok (Some n, t)
         else Ok (None, t)) with
  | Err e => SetupErr e [] t
  | Ok (saved_stdout, t) =>
  match (if capture_stderr then let? (n, t) := dup_cloexec (cs_duplicate sc).2 2 t in Ok (Some n, t)
         else Ok (None, t)) with
  | Err e => SetupErr e [] (match saved_stdout with Some n => close_fd n t | None => t end)
  | Ok (saved_stderr, t) =>
  let drop_stderr t := match saved_stderr with Some n => close_fd n t | None => t end in
  match (match saved_stdout with
         | None => SetupOk None t
         | Some n =>
             match stream_capture_new (cs_streams sc).1 files (S files) 1 n t with
             | SetupOk c t => SetupOk (Some c) t
             | SetupErr e l t => SetupErr e l t
             | SetupAbort => SetupAbort
             end
         end) with
  | SetupAbort => SetupAbort
  | SetupErr e l t => SetupErr e l (drop_stderr t)
  | SetupOk out t =>
  match saved_stderr with
  | None => SetupOk (OutputCapture_ out None) t
  | Some n =>
      match stream_capture_new (cs_streams sc).2 (S (S files)) (S (S (S files))) 2 n t with
      | SetupOk c t => SetupOk (OutputCapture_ out (Some c)) t
      | SetupAbort => SetupAbort
      | SetupErr e l t =>
          match out with
          | None => SetupErr e l t
          | Some c =>
              match stream_restore (cs_undo sc) c t with
              | None => SetupAbort
              | Some t => SetupErr e (sc_read c :: l) t
              end
          end
      end
  end end end end end end.

(** [OutputCapture::restore] *)
Definition capture_restore (out_failures err_failures : list io_error * list io_error) (c : output_capture_guard)
    (t : fd_table) : option fd_table :=
  match (match oc_out c with Some s => stream_restore out_failures s t | None => Some t end) with
  | None => None
  | Some t => match oc_err c with Some s => stream_restore err_failures s t | None => Some t end
  end.

(** The read ends the reader threads of a guard hold, and their end. *)
Definition reader_fds (c : output_capture_guard) : list Z :=
  match oc_out c with Some s => [sc_read s] | None => [] end ++
  match oc_err c with Some s => [sc_read s] | None => [] end.
Definition readers_end (fds : list Z) (t : fd_table) : fd_table := foldr close_fd t fds.

(** ** Lemmas on the descriptor table *)
Lemma lowest_spec (from : Z) (t : fd_table) : t !! lowest from t = None /\ from <= lowest from t.
Proof.
  unfold lowest; set (l := seqZ from (Z.of_nat (size t) + 1)).
  destruct (filter (fun n => t !! n = None) l) as [|n l'] eqn:E; simpl.
  - exfalso.
    assert ((list_to_set l : gset Z) ⊆ dom t) as Hs.
    { intros n Hn; apply elem_of_list_to_set in Hn.
      destruct (t !! n) eqn:Ht; [by apply elem_of_dom_2 in Ht|].
      assert (n ∈ filter (fun n => t !! n = None) l) as Hf by (by apply list_elem_of_filter).
      rewrite E in Hf; by apply not_elem_of_nil in Hf. }
    apply subseteq_size in Hs; rewrite size_dom, size_list_to_set in Hs by apply NoDup_seqZ.
    unfold l in Hs; rewrite length_seqZ in Hs; lia.
  - assert (n ∈ filter (fun n => t !! n = None) l) as Hf by (rewrite E; by left).
    apply list_elem_of_filter in Hf as [Hn Hl]; apply elem_of_seqZ in Hl; split; [done|lia].
Qed.

(** Equality of descriptor tables, descriptor by descriptor. *)
Ltac fd_eq :=
  unfold close_fd; apply map_eq; intros ?k; rewrite ?lookup_delete, ?lookup_insert;
  repeat (case_decide; [subst; try congruence; try lia|]); try congruence; try done; try lia;
  rewrite ?lookup_delete, ?lookup_insert; repeat (case_decide; [subst; try congruence; try lia|]);
  congruence || done || lia.

(** A new pipe out of the way of the standard descriptors. *)
Definition placed (rd wr : nat) (r w : Z) (t t' : fd_table) : Prop :=
  t !! r = None /\ t !! w = None /\ r <> w /\ 3 <= r /\ 3 <= w /\
  exists a b, t' = <[w := FdEntry wr a]> (<[r := FdEntry rd b]> t).

Lemma relocate_spec (fail : option io_error) (file : nat) (b : bool) (fd : Z) (t : fd_table) :
  t !! fd = None ->
  match relocate fail fd (<[fd := FdEntry file b]> t) with
  | Ok (n, t') => t !! n = None /\ 3 <= n /\ (n = fd \/ fd < 3) /\ exists b', t' = <[n := FdEntry file b']> t
  | Err _ => fd < 3
  end.
Proof.
  intros Ht; unfold relocate, dup_cloexec; case_decide as Hfd; [|split_and!; [done|lia|by left|by eexists]].
  rewrite lookup_insert_eq; destruct fail; [done|].
  destruct (lowest_spec 3 (<[fd:=FdEntry file b]> t)) as [Hn H3]; remember (lowest 3 (<[fd:=FdEntry file b]> t)) as n eqn:En; clear En.
  rewrite lookup_insert in Hn; case_decide; [done|]; split_and!; [done|done|by right|].
  exists true; simpl fe_file; fd_eq.
Qed.

Lemma insert_swap (fd n : Z) (a b : fd_entry) (t : fd_table) :
  fd <> n -> <[fd := a]> (<[n := b]> t) = <[n := b]> (<[fd := a]> t).
Proof. intros; by apply insert_insert_ne. Qed.

(** Both ends after the relocations; a failure leaves at most these two to
    close. *)
Lemma pipe_spec (sc : setup_script) (rd wr : nat) (n : Z) (t : fd_table) :
  3 <= n ->
  match make_pipe (ss_pipe sc) rd wr t with
  | Err _ => True
  | Ok (r, w, t1) =>
      match relocate (ss_relocate sc).1 r t1 with
      | Err _ => close_fd n (close_fd w (close_fd r t1)) = close_fd n t
      | Ok (r', t2) =>
          match relocate (ss_relocate sc).2 w t2 with
          | Err _ => close_fd n (close_fd w (close_fd r' t2)) = close_fd n t
          | Ok (w', t3) => placed rd wr r' w' t t3
          end
      end
  end.
Proof.
  intros Hn; unfold make_pipe; destruct (ss_pipe sc); [done|].
  destruct (lowest_spec 0 t) as [Hr _]; remember (lowest 0 t) as r eqn:Er; clear Er; cbv zeta.
  destruct (lowest_spec 0 (<[r:=FdEntry rd false]> t)) as [Hw _]; remember (lowest 0 (<[r:=FdEntry rd false]> t)) as w eqn:Ew; clear Ew.
  rewrite lookup_insert in Hw; case_decide as Hrw; [done|].
  rewrite insert_swap by congruence.
  pose proof (relocate_spec (ss_relocate sc).1 rd false r (<[w:=FdEntry wr false]> t)) as H1.
  rewrite lookup_insert_ne in H1 by congruence; specialize (H1 Hr).
  destruct (relocate _ r _) as [[r' t2]|e]; [|fd_eq].
  destruct H1 as (Hr' & H3 & Hor & b & ->); rewrite lookup_insert in Hr'; case_decide as Hwr; [done|].
  rewrite insert_swap by congruence.
  pose proof (relocate_spec (ss_relocate sc).2 wr false w (<[r':=FdEntry rd b]> t)) as H2.
  rewrite lookup_insert_ne in H2 by congruence; specialize (H2 Hw).
  destruct (relocate _ w _) as [[w' t3]|e]; [|fd_eq].
  destruct H2 as (Hw' & H3' & Hor' & b' & ->); rewrite lookup_insert in Hw'; case_decide; [done|].
  split_and!; [done|done|done|done|done|by exists b', b].
Qed.

(** The saved copy of a target, as [SavedFd::duplicate] makes it. *)
Definition saved_copy (fd n : Z) (t : fd_table) : Prop :=
  fd < 3 /\ 3 <= n /\ exists e0, t !! fd = Some e0 /\ t !! n = Some (FdEntry (fe_file e0) true).

(** The failures of a restoration that give up. *)
Definition hard (failures : list io_error * list io_error) : Prop :=
  retried failures.1 <> None \/ retried failures.2 <> None.

Lemma restore_spec (failures : list io_error * list io_error) (fd n : Z) (en : fd_entry) (flags : bool) (t : fd_table) :
  t !! n = Some en ->
  match restore_target failures.1 failures.2 fd n flags t with
  | Ok t' => t' = <[fd := FdEntry (fe_file en) flags]> t
  | Err _ => hard failures
  end.
Proof.
  intros Hn; unfold restore_target, dup2, set_fd, hard.
  destruct (retried failures.1) as [|]; [by left|]; destruct (retried failures.2) as [|]; [by right|].
  rewrite Hn, lookup_insert_eq; simpl; by rewrite insert_insert_eq.
Qed.

Lemma set_cloexec_pipe (rd wr : nat) (r w : Z) (a b : bool) (t : fd_table) :
  r <> w ->
  set_fd w true (set_fd r true (<[w := FdEntry wr a]> (<[r := FdEntry rd b]> t))) =
  <[w := FdEntry wr true]> (<[r := FdEntry rd true]> t).
Proof.
  intros Hne; unfold set_fd.
  rewrite lookup_insert_ne, lookup_insert_eq by congruence; simpl.
  rewrite lookup_insert_ne, lookup_insert_eq by congruence; simpl; fd_eq.
Qed.

(** A captured stream: the target is the pipe's write end and nothing else has
    changed but the reader's end; or everything is as before but the copy. *)
Definition stream_ok (rd wr : nat) (fd n : Z) (t : fd_table) (c : stream_capture) (t' : fd_table) : Prop :=
  sc_target c = fd /\ sc_saved c = n /\ (exists e0, t !! fd = Some e0 /\ sc_flags c = fe_cloexec e0) /\
  t !! sc_read c = None /\ 3 <= sc_read c /\
  t' = <[fd := FdEntry wr true]> (<[sc_read c := FdEntry rd true]> t).

Lemma stream_new_spec (sc : setup_script) (rd wr : nat) (fd n : Z) (t : fd_table) :
  saved_copy fd n t ->
  match stream_capture_new sc rd wr fd n t with
  | SetupErr _ readers t' => readers = [] /\ t' = close_fd n t
  | SetupOk c t' => stream_ok rd wr fd n t c t'
  | SetupAbort => hard (ss_restore sc)
  end.
Proof.
  intros (Hfd & Hn & e0 & He0 & Hen); unfold stream_capture_new; rewrite He0.
  destruct (ss_getfd sc); [done|]; destruct (ss_budget sc); [done|]; cbv zeta.
  pose proof (pipe_spec sc rd wr n t Hn) as Hp.
  destruct (make_pipe _ _ _ _) as [[[r0 w0] t1]|]; [|done].
  destruct (relocate _ r0 t1) as [[r t2]|]; [|done]; destruct (relocate _ w0 t2) as [[w t3]|]; [|done].
  destruct Hp as (Hr & Hw & Hrw & Hr3 & Hw3 & a & b & ->); simpl in *.
  destruct (ss_cloexec_pipe sc); [split; [done|fd_eq]|].
  rewrite set_cloexec_pipe by done; destruct (ss_dup2 sc); [split; [done|fd_eq]|].
  unfold dup2; rewrite lookup_insert_eq; simpl fe_file.
  set (t4 := <[fd := _]> _); assert (t4 !! n = Some (FdEntry (fe_file e0) true)) as H4.
  { unfold t4; rewrite !lookup_insert_ne by (lia || congruence); done. }
  destruct (ss_cloexec_target sc).
  { pose proof (restore_spec (ss_restore sc) fd n _ (fe_cloexec e0) t4 H4) as Hres.
    destruct (restore_target _ _ _ _ _ _) as [t5|]; [|done]; subst t5; split; [done|].
    destruct e0; unfold t4; simpl in *; fd_eq. }
  assert (set_fd fd true t4 = <[fd := FdEntry wr true]> t4) as ->
    by (unfold set_fd, t4; by rewrite lookup_insert_eq).
  assert (close_fd w (<[fd:=FdEntry wr true]> t4) = <[fd := FdEntry wr true]> (<[r := FdEntry rd true]> t)) as H5
    by (unfold t4; fd_eq).
  rewrite H5; destruct (ss_thread sc).
  - set (t6 := <[fd := _]> _); assert (t6 !! n = Some (FdEntry (fe_file e0) true)) as H6
      by (unfold t6; rewrite !lookup_insert_ne by (lia || congruence); done).
    pose proof (restore_spec (ss_restore sc) fd n _ (fe_cloexec e0) t6 H6) as Hres.
    destruct (restore_target _ _ _ _ _ _) as [t5|]; [|done]; subst t5; split; [done|].
    destruct e0; unfold t6; simpl in *; fd_eq.
  - by split_and!; try done; exists e0.
Qed.

Lemma dup_spec (fail : option io_error) (fd : Z) (t : fd_table) :
  match dup_cloexec fail fd t with
  | Ok (n, t') => t !! n = None /\ 3 <= n /\ exists e0, t !! fd = Some e0 /\ t' = <[n := FdEntry (fe_file e0) true]> t
  | Err _ => True
  end.
Proof.
  unfold dup_cloexec; destruct fail; [done|]; destruct (t !! fd) as [e0|] eqn:E; [|done].
  destruct (lowest_spec 3 t) as [Hn H3]; split_and!; [done|done|by exists e0].
Qed.

Lemma stream_restore_spec (failures : list io_error * list io_error) (c : stream_capture) (en : fd_entry) (t : fd_table) :
  t !! sc_saved c = Some en ->
  match stream_restore failures c t with
  | Some t' => t' = close_fd (sc_saved c) (<[sc_target c := FdEntry (fe_file en) (sc_flags c)]> t)
  | None => hard failures
  end.
Proof.
  intros Hn; unfold stream_restore; pose proof (restore_spec failures (sc_target c) _ _ (sc_flags c) t Hn) as H.
  destruct (restore_target _ _ _ _ _ _); [by subst|done].
Qed.

(** The table while a capture is in place: each captured descriptor is the
    write end of its pipe, everything else is as it was. *)
Definition redirected (files : nat) (out err : bool) (t t' : fd_table) : Prop :=
  forall k e, t !! k = Some e ->
  t' !! k = Some (if bool_decide (k = 1) && out then FdEntry (S files) true
                  else if bool_decide (k = 2) && err then FdEntry (S (S (S files))) true else e).

(** The pipes are files the table does not have yet. *)
Definition fresh_files (files : nat) (t : fd_table) : Prop :=
  forall k e, t !! k = Some e -> (fe_file e < files)%nat.

(** Restoring one stream of a table in which its guard was made. *)
Lemma stream_ok_restore (failures : list io_error * list io_error) (rd wr : nat) (fd n : Z) (e0 : fd_entry)
    (t0 t2 : fd_table) (c : stream_capture) :
  fd < 3 -> 3 <= n -> t0 !! fd = Some e0 -> t0 !! n = None ->
  stream_ok rd wr fd n (<[n := FdEntry (fe_file e0) true]> t0) c t2 ->
  t0 !! sc_read c = None /\ sc_read c <> n /\ 3 <= sc_read c /\
  match stream_restore failures c t2 with
  | Some t3 => t3 = <[sc_read c := FdEntry rd true]> t0
  | None => hard failures
  end.
Proof.
  intros Hfd Hn He Hnone (Ht & Hs & (e0' & He0 & Hf) & Hr & H3 & ->).
  rewrite lookup_insert in Hr; case_decide as Hrn; [done|].
  rewrite lookup_insert_ne in He0 by lia; rewrite He in He0; injection He0 as <-.
  split_and!; [done|congruence|done|].
  assert (<[fd:=FdEntry wr true]> (<[sc_read c:=FdEntry rd true]> (<[n:=FdEntry (fe_file e0) true]> t0)) !! sc_saved c
    = Some (FdEntry (fe_file e0) true)) as Hl.
  { rewrite Hs, !lookup_insert_ne by (lia || congruence); by rewrite lookup_insert_eq. }
  pose proof (stream_restore_spec failures c _ _ Hl) as H.
  destruct (stream_restore _ _ _); [|done]; rewrite H, Ht, Hs, Hf; destruct e0; simpl; fd_eq.
Qed.

(** What the setup of a stream leaves, in the table the guard was made in. *)
Lemma single_restores (sc : setup_script) (rd wr : nat) (fd n : Z) (e0 : fd_entry) (t0 : fd_table) :
  fd < 3 -> 3 <= n -> t0 !! fd = Some e0 -> t0 !! n = None ->
  match stream_capture_new sc rd wr fd n (<[n := FdEntry (fe_file e0) true]> t0) with
  | SetupErr _ readers t' => readers = [] /\ t' = t0
  | SetupAbort => hard (ss_restore sc)
  | SetupOk c t' => stream_ok rd wr fd n (<[n := FdEntry (fe_file e0) true]> t0) c t'
  end.
Proof.
  intros Hfd Hn He Hnone; pose proof (stream_new_spec sc rd wr fd n (<[n := FdEntry (fe_file e0) true]> t0)) as H.
  destruct (stream_capture_new _ _ _ _ _ _); [apply H|destruct H as [-> ->]|apply H].
  1,2,4: split_and!; [done|done|exists e0; rewrite lookup_insert_ne, lookup_insert_eq by lia; done].
  split; [done|fd_eq].
Qed.

Lemma no_writer (files : nat) (t : fd_table) (rd1 rd2 : nat) (r1 r2 : Z) (k : Z) (e : fd_entry) :
  fresh_files files t -> rd1 = files -> rd2 = S (S files) ->
  (<[r2 := FdEntry rd2 true]> (<[r1 := FdEntry rd1 true]> t) !! k = Some e \/
   <[r1 := FdEntry rd1 true]> t !! k = Some e \/ <[r2 := FdEntry rd2 true]> t !! k = Some e \/ t !! k = Some e) ->
  fe_file e <> S files /\ fe_file e <> S (S (S files)).
Proof.
  intros Hf -> -> H; rewrite !lookup_insert in H; repeat case_decide; destruct H as [H|[H|[H|H]]];
    simplify_eq; simpl; try lia; specialize (Hf _ _ H); lia.
Qed.

(** How a capture ends; see [capture_restores]. *)
Definition put_back (f1 f2 : list io_error * list io_error) (files : nat) (t : fd_table) (c : output_capture_guard)
    (t' : fd_table) : Prop :=
  match capture_restore f1 f2 c t' with
  | None => hard f1 \/ hard f2
  | Some t'' => readers_end (reader_fds c) t'' = t /\
      forall k e, t'' !! k = Some e -> fe_file e <> S files /\ fe_file e <> S (S (S files))
  end.
Definition capture_ends (sc : capture_script) (files : nat) (out err : bool) (t : fd_table) : Prop :=
  match capture_new sc files out err t with
  | SetupErr _ readers t' => readers_end readers t' = t
  | SetupAbort => hard (cs_undo sc) \/ hard (ss_restore (cs_streams sc).1) \/ hard (ss_restore (cs_streams sc).2)
  | SetupOk c t' => redirected files out err t t' /\ forall f1 f2, put_back f1 f2 files t c t'
  end.

(** The table once the first of two streams is captured: its saved copy, the read
    end [rd] and the write end of its pipe. *)
Definition first_captured (files : nat) (n rd : Z) (e : fd_entry) (t : fd_table) : fd_table :=
  <[1:=FdEntry (S files) true]> (<[rd:=FdEntry files true]> (<[n:=FdEntry (fe_file e) true]> t)).

Lemma redirected_both (files : nat) (n1 n2 : Z) (e1 e2 : fd_entry) (t t2 : fd_table) (c d : stream_capture) :
  let c2 := FdEntry (fe_file e2) true in
  let u := first_captured files n1 (sc_read c) e1 t in
  3 <= n1 -> 3 <= n2 -> 3 <= sc_read c -> t !! n1 = None -> t !! n2 = None -> t !! sc_read c = None ->
  stream_ok (S (S files)) (S (S (S files))) 2 n2 (<[n2:=c2]> u) d t2 -> redirected files true true t t2.
Proof.
  intros c2 u H1 H2 H3 Hn1 Hn2 Hr (_ & _ & _ & Hd & H3d & ->) k e Hk.
  unfold u, first_captured in Hd |- *; rewrite !lookup_insert in Hd |- *.
  repeat (case_decide; [simplify_eq; repeat case_bool_decide; (done || lia || congruence)|]).
  rewrite ?lookup_insert_ne by congruence; repeat case_bool_decide; congruence || done || lia.
Qed.

Lemma put_back_both (f1 f2 : list io_error * list io_error) (files : nat) (n1 n2 : Z) (e1 e2 : fd_entry)
    (t t2 : fd_table) (c d : stream_capture) :
  let c2 := FdEntry (fe_file e2) true in
  let u := first_captured files n1 (sc_read c) e1 t in
  fresh_files files t -> t !! 1 = Some e1 -> t !! 2 = Some e2 -> 3 <= n1 -> 3 <= n2 -> n1 <> n2 ->
  t !! n1 = None -> t !! n2 = None ->
  stream_ok files (S files) 1 n1 (<[n1:=FdEntry (fe_file e1) true]> (<[n2:=c2]> t)) c (<[n2:=c2]> u) ->
  stream_ok (S (S files)) (S (S (S files))) 2 n2 (<[n2:=c2]> u) d t2 ->
  put_back f1 f2 files t (OutputCapture_ (Some c) (Some d)) t2.
Proof.
  intros c2 u Hf He1 He2 H31 H32 Hn12 Hn1 Hn2 (Hc1 & Hc2 & (e1' & He1' & Hc3) & Hr1 & Hr13 & _)
    (Hd1 & Hd2 & (e2' & He2' & Hd3) & Hr2 & Hr23 & ->).
  rewrite !lookup_insert_ne in He1' by lia; rewrite He1 in He1'; injection He1' as <-.
  rewrite !lookup_insert in Hr1; repeat case_decide; try done.
  unfold u, first_captured in He2', Hr2; rewrite !lookup_insert_ne in He2' by lia; rewrite He2 in He2'; injection He2' as <-.
  rewrite !lookup_insert in Hr2; repeat case_decide; try done.
  unfold put_back, capture_restore; cbn [oc_out oc_err reader_fds].
  match goal with |- context [stream_restore f1 c ?x] =>
    pose proof (stream_restore_spec f1 c (FdEntry (fe_file e1) true) x) as Hs end.
  rewrite Hc2 in Hs; unfold u, first_captured in Hs; rewrite !lookup_insert_ne in Hs by (lia || congruence).
  rewrite lookup_insert_eq in Hs; specialize (Hs eq_refl); fold (first_captured files n1 (sc_read c) e1 t) in Hs; fold u in Hs.
  destruct (stream_restore f1 c _) as [t3|]; [|by left].
  assert (stream_ok (S (S files)) (S (S (S files))) 2 n2
    (<[n2:=c2]> (<[sc_read c := FdEntry files true]> t)) d t3) as Hok.
  { split_and!; [done|done| | |done|].
    - exists e2; rewrite !lookup_insert_ne by lia; done.
    - rewrite !lookup_insert_ne by congruence; done.
    - rewrite Hs, Hc1, Hc3; unfold u, first_captured; destruct e1; simpl; fd_eq. }
  apply (stream_ok_restore f2) in Hok as (_ & _ & _ & Hm);
    [|done|done|by rewrite lookup_insert_ne by lia|by rewrite lookup_insert_ne by congruence].
  destruct (stream_restore f2 d t3) as [t4|]; [|by right]; subst t4; unfold readers_end; simpl.
  split; [fd_eq|]; intros k e Hk; apply (no_writer files t files (S (S files)) (sc_read c) (sc_read d) k e); auto.
Qed.

(** One stream, standard output or standard error. *)
Lemma capture_one (sc : capture_script) (files : nat) (out : bool) (t : fd_table) :
  fresh_files files t -> capture_ends sc files out (negb out) t.
Proof.
  intros Hfresh; unfold capture_ends, capture_new, put_back.
  destruct (when_flag out (cs_flush sc).1); [done|]; destruct (when_flag (negb out) (cs_flush sc).2); [done|].
  destruct out; cbn [negb].
  - pose proof (dup_spec (cs_duplicate sc).1 1 t) as H1.
    destruct (dup_cloexec _ 1 t) as [[n1 ta]|]; [|done]; destruct H1 as (Hn1 & H31 & e1 & He1 & ->).
    pose proof (single_restores (cs_streams sc).1 files (S files) 1 n1 e1 t ltac:(done) H31 He1 Hn1) as H.
    destruct (stream_capture_new _ _ _ _ _ _) as [c t'|e readers t'|]; [|by destruct H as [-> ->]|by auto].
    split.
    + intros k e Hk; destruct H as (_ & _ & _ & Hr & H3 & ->).
      rewrite !lookup_insert in *; repeat case_decide; simplify_eq; repeat case_bool_decide; done || lia.
    + intros f1 f2; unfold capture_restore; simpl.
      pose proof H as Hok; apply (stream_ok_restore f1) in Hok as (Hr & Hne & H3 & Hm); [|done..].
      destruct (stream_restore f1 c t') as [t3|]; [|by left]; subst t3; unfold readers_end, reader_fds; simpl.
      split; [fd_eq|]; intros k e Hk; apply (no_writer files t files (S (S files)) (sc_read c) 0 k e); auto.
  - pose proof (dup_spec (cs_duplicate sc).2 2 t) as H2.
    destruct (dup_cloexec _ 2 t) as [[n2 tb]|]; [|done]; destruct H2 as (Hn2 & H32 & e2 & He2 & ->).
    pose proof (single_restores (cs_streams sc).2 (S (S files)) (S (S (S files))) 2 n2 e2 t ltac:(done) H32 He2 Hn2) as H.
    destruct (stream_capture_new _ _ _ _ _ _) as [c t'|e readers t'|]; [|by destruct H as [-> ->]|by auto].
    split.
    + intros k e Hk; destruct H as (_ & _ & _ & Hr & H3 & ->).
      rewrite !lookup_insert in *; repeat case_decide; simplify_eq; repeat case_bool_decide; done || lia.
    + intros f1 f2; unfold capture_restore; simpl.
      pose proof H as Hok; apply (stream_ok_restore f2) in Hok as (Hr & Hne & H3 & Hm); [|done..].
      destruct (stream_restore f2 c t') as [t3|]; [|by right]; subst t3; unfold readers_end, reader_fds; simpl.
      split; [fd_eq|]; intros k e Hk; apply (no_writer files t files (S (S files)) 0 (sc_read c) k e); auto.
Qed.

Lemma capture_both (sc : capture_script) (files : nat) (t : fd_table) :
  fresh_files files t -> capture_ends sc files true true t.
Proof.
  intros Hfresh; unfold capture_ends, capture_new.
  destruct (when_flag true (cs_flush sc).1); [done|]; destruct (when_flag true (cs_flush sc).2); [done|].
  pose proof (dup_spec (cs_duplicate sc).1 1 t) as H1.
  destruct (dup_cloexec _ 1 t) as [[n1 ta]|]; [|done]; destruct H1 as (Hn1 & H31 & e1 & He1 & ->).
  pose proof (dup_spec (cs_duplicate sc).2 2 (<[n1:=FdEntry (fe_file e1) true]> t)) as H2.
  destruct (dup_cloexec _ 2 _) as [[n2 tb]|]; [|simpl; fd_eq].
  destruct H2 as (Hn2 & H32 & e2 & He2 & ->).
  rewrite lookup_insert in Hn2; case_decide as Hn12; [done|]; rewrite lookup_insert_ne in He2 by lia.
  rewrite insert_swap by congruence; set (c2 := FdEntry (fe_file e2) true).
  pose proof (single_restores (cs_streams sc).1 files (S files) 1 n1 e1 (<[n2:=c2]> t) ltac:(done) H31) as H.
  rewrite !lookup_insert_ne in H by (lia || congruence); specialize (H He1 Hn1).
  destruct (stream_capture_new _ _ _ 1 _ _) as [c t1|e readers t1|];
    [|destruct H as [-> ->]; simpl; fd_eq|by auto].
  pose proof H as (_ & _ & _ & Hr1 & Hr13 & ->); rewrite !lookup_insert in Hr1; repeat case_decide; try done.
  set (u := first_captured files n1 (sc_read c) e1 t).
  match goal with |- context [stream_capture_new _ _ _ 2 _ ?x] =>
    assert (x = <[n2:=c2]> u) as E by (unfold u, first_captured; fd_eq); rewrite E in H |- * end.
  assert (u !! 2 = Some e2) as Hu2 by (unfold u, first_captured; rewrite !lookup_insert_ne by lia; done).
  assert (u !! n2 = None) as Hun by (unfold u, first_captured; rewrite !lookup_insert_ne by (lia || congruence); done).
  pose proof (single_restores (cs_streams sc).2 (S (S files)) (S (S (S files))) 2 n2 e2 u ltac:(done) H32 Hu2 Hun) as Hs2.
  destruct (stream_capture_new _ _ _ 2 _ _) as [d t2|e readers t2|]; [|destruct Hs2 as [-> ->]|by auto].
  - split; [by eapply (redirected_both files n1 n2 e1 e2)|intros f1 f2; by apply (put_back_both f1 f2 files n1 n2 e1 e2)].
  - assert (stream_ok files (S files) 1 n1 (<[n1:=FdEntry (fe_file e1) true]> t) c u) as Hok.
    { destruct H as (Hc1 & Hc2 & (e1' & He1' & Hc3) & _); rewrite !lookup_insert_ne in He1' by lia.
      split_and!; [done|done| | |done|done].
      - exists e1'; rewrite lookup_insert_ne by lia; done.
      - rewrite lookup_insert_ne by congruence; done. }
    apply (stream_ok_restore (cs_undo sc)) in Hok as (_ & _ & _ & Hm); [|done..].
    destruct (stream_restore _ c u) as [t3|]; [|by left]; subst t3; unfold readers_end; simpl; fd_eq.
Qed.

(** C23. Capturing standard output never leaks or corrupts descriptors.
    Whichever system call of the setup fails, and wherever, the descriptor table
    is afterwards exactly what it was, flags included, once the reader thread of
    an already redirected stream is done; a process is only aborted when a
    restoration fails for another reason than a signal.  When the setup succeeds
    the captured descriptors are the write ends of their pipes and every other
    descriptor is untouched, and restoring puts back the exact table, so that no
    descriptor refers to a write end any more and the readers see the end. *)
Theorem capture_restores (sc : capture_script) (files : nat) (out err : bool) (t : fd_table)
    (Hfresh : fresh_files files t) :
  match capture_new sc files out err t with
  | SetupErr _ readers t' => readers_end readers t' = t
  | SetupAbort => hard (cs_undo sc) \/ hard (ss_restore (cs_streams sc).1) \/ hard (ss_restore (cs_streams sc).2)
  | SetupOk c t' =>
      redirected files out err t t' /\
      forall f1 f2,
        match capture_restore f1 f2 c t' with
        | None => hard f1 \/ hard f2
        | Some t'' => readers_end (reader_fds c) t'' = t /\
            forall k e, t'' !! k = Some e -> fe_file e <> S files /\ fe_file e <> S (S (S files))
        end
  end.
Proof.
  destruct out, err; [by apply capture_both|by apply (capture_one sc files true)|by apply (capture_one sc files false)|].
  unfold capture_new; simpl; split; [intros k e Hk; by rewrite !andb_false_r|]; intros f1 f2; unfold capture_restore; simpl.
  split; [done|]; intros k e Hk; apply (no_writer files t files (S (S files)) 0 0 k e); auto.
Qed.

Definition no_faults : setup_script :=
  SetupScript None None None (None, None) None None None None ([], []).
Definition sample_table : fd_table :=
  {[0 := FdEntry 0 false; 1 := FdEntry 1 false; 2 := FdEntry 1 true]}.
(** The second stream's reader thread cannot be created. *)
Definition sample_faults : capture_script :=
  CaptureScript (None, None) (None, None)
    (no_faults, SetupScript None None None (None, None) None None None (Some (IoError WouldBlock "thread")) ([], []))
    ([IoError Interrupted "signal"], []).

Lemma sample_fresh : fresh_files 5 sample_table.
Proof.
  intros k e H; unfold sample_table in H; rewrite !lookup_insert, lookup_singleton in H.
  repeat case_decide; simplify_eq; simpl; lia.
Qed.

Lemma capture_restores_witness :
  match capture_new sample_faults 5 true true sample_table with
  | SetupErr e readers t' => io_message e = "thread" /\ readers = [5] /\ readers_end readers t' = sample_table
  | _ => False
  end.
Proof.
  pose proof (capture_restores sample_faults 5 true true sample_table sample_fresh) as H.
  destruct (capture_new sample_faults 5 true true sample_table) as [c t'|e readers t'|] eqn:E;
    vm_compute in E; try discriminate E.
  injection E as <- <- <-; split; [done|]; split; [done|exact H].
Defined.

(** ** The reader thread and its collection *)

(** The reader loop: like the subprocess readers', but it counts what it has
    read, may have no limit, and sends its read error last. *)
Fixpoint capture_reader (max : option nat) (turns : list drain_turn) (total : nat) (discarding : bool) : drained :=
  match turns with
  | [] => Drained [] false None
  | t :: turns =>
      match dt_wait t with
      | Err e => drain_end (Err e)
      | Ok false => drain_end (Ok ())
      | Ok true =>
          if dt_stop t then drain_end (Ok ())
          else
            match dt_read t with
            | Err e =>
                if kind_is e Interrupted then capture_reader max turns total discarding else drain_end (Err e)
            | Ok [] => drain_end (Ok ())
            | Ok data =>
                if discarding then capture_reader max turns total discarding
                else
                  let total := (total + length data)%nat in
                  match (match max with Some m => if (m <? total)%nat then Some m else None | None => None end) with
                  | Some m =>
                      let keep := (length data - (total - m))%nat in
                      let rest := drain_overflow (capture_reader max turns total true) in
                      if (0 <? keep)%nat then
                        if dt_listening t then drain_send (take keep data) rest else drain_end (Ok ())
                      else rest
                  | None =>
                      if dt_listening t then drain_send data (capture_reader max turns total discarding)
                      else drain_end (Ok ())
                  end
            end
      end
  end.

(** What the collector can receive: the blocks, then the error if there is one;
    afterwards the channel is disconnected, unless the reader still runs. *)
Definition capture_messages (d : drained) : list (result (list Z) io_error) * bool :=
  (map Ok (dr_blocks d) ++ match dr_result d with Some (Err e) => [Err e] | _ => [] end,
   match dr_result d with Some _ => true | None => false end).

(** The quotation marks inside the text are left out. *)
Definition capture_incomplete_error : io_error := IoError TimedOut
  "output capture incomplete: collection deadline expired before EOF; a detached child usually holds the captured stdout/stderr pipe open (give it stdout: null or a log file instead of inherit)".

(** One iteration: the clock at the check, and whether something (a message or
    the disconnection) arrives within the remaining time. *)
Fixpoint collect_blocks_until (deadline : Z) (turns : list (Z * bool)) (queue : list (result (list Z) io_error))
    (ended : bool) (overflow : bool) (out : list Z) : option (result (list Z * bool) io_error) :=
  match turns with
  | [] => None
  | (now, arrives) :: turns =>
      if decide (now >= deadline) then Some (Err capture_incomplete_error)
      else if negb arrives then Some (Err capture_incomplete_error)
      else match queue with
           | Ok block :: queue => collect_blocks_until deadline turns queue ended overflow (out ++ block)
           | Err e :: _ => Some (Err e)
           | [] => if ended then Some (Ok (out, overflow)) else Some (Err capture_incomplete_error)
           end
  end.

Definition collect_blocks (now : Z) (turns : list (Z * bool)) (d : drained)
  : option (result (list Z * bool) io_error) :=
  collect_blocks_until (now + from_millis 500) turns (capture_messages d).1 (capture_messages d).2 (dr_overflow d) [].

(** [StreamCapture::collect]: a flush that failed during the restoration is
    reported only over a successful collection. *)
Definition stream_collect (flush : option io_error) (r : result (list Z * bool) io_error)
  : result (list Z * bool) io_error :=
  let? collected := r in match flush with Some e => Err e | None => Ok collected end.

(** [PendingCapture::collect]; a stream that was not captured yields nothing. *)
Definition pending_collect (out err : option (result (list Z * bool) io_error))
  : result (list Z * list Z * bool) io_error :=
  match default (Ok ([], false)) out, default (Ok ([], false)) err with
  | Err e, _ => Err e
  | Ok _, Err e => Err e
  | Ok (o, t1), Ok (e, t2) => Ok (o, e, t1 || t2)
  end.


Definition combine_capture (r : result Z libdeno_error) (c : result (list Z * list Z * bool) io_error)
  : result run_output captured_run_error :=
  match r, c with
  | Ok exit_code, Ok (o, e, t) => Ok (RunOutput exit_code o e t)
  | Ok _, Err e => Err (CapturedRunError (Io e) None)
  | Err error, Ok (o, e, t) =>
      match o, e, t with
      | [], [], false => Err (CapturedRunError error None)
      | _, _, _ => Err (CapturedRunError error (Some (CapturedOutput o e t)))
      end
  | Err error, Err _ => Err (CapturedRunError error None)
  end.

(** ** Lemmas *)

(** While the guard lives nobody stops the reader or hangs up. *)
Definition attended (t : drain_turn) : Prop :=
  dt_stop t = false /\ dt_listening t = true /\ dt_wait t <> Ok false.

Lemma capture_reader_discards (max : option nat) (turns : list drain_turn) (total : nat) :
  dr_blocks (capture_reader max turns total true) = [].
Proof.
  induction turns as [|t turns IH]; simpl; [done|].
  destruct (dt_wait t) as [[]|]; [|done|done]; destruct (dt_stop t); [done|].
  destruct (dt_read t) as [[|b data]|e]; [done|done|]; by destruct (kind_is e Interrupted).
Qed.

Definition limit_of (max : option nat) (total : nat) (content : list Z) : list Z :=
  match max with Some m => take (m - total) content | None => content end.
Definition exceeds (max : option nat) (total : nat) (content : list Z) : bool :=
  match max with Some m => (m - total <? length content)%nat | None => false end.

Definition within (max : option nat) (total : nat) : Prop :=
  match max with Some m => (total <= m)%nat | None => True end.

Lemma capture_reader_exact (max : option nat) (turns : list drain_turn) (total : nat) :
  Forall attended turns -> within max total ->
  let d := capture_reader max turns total false in
  dr_result d = Some (Ok ()) ->
  reaches_eof turns /\ concat (dr_blocks d) = limit_of max total (pipe_content turns) /\
  dr_overflow d = exceeds max total (pipe_content turns).
Proof.
  intros Hf; revert total; induction Hf as [|t turns (Hs & Hl & Hw) Hf IH]; intros total Hm; [done|].
  cbn [capture_reader pipe_content]; destruct (dt_wait t) as [[]|]; [|done|done]; rewrite Hs.
  destruct (dt_read t) as [data|e] eqn:Hread.
  2: { destruct (kind_is e Interrupted); [|done]; intros H; destruct (IH total Hm H) as (He & Hc & Ho).
       split; [by right|done]. }
  destruct data as [|b data].
  { intros _; split; [by left|]; destruct max; simpl; by rewrite ?take_nil, ?Nat.ltb_irrefl. }
  set (block := b :: data); cbv zeta; rewrite Hl.
  destruct (match max with Some m => _ | None => None end) as [m|] eqn:Emax.
  - destruct max as [m'|]; [|done]; destruct (Nat.ltb_spec m' (total + length block)) as [Hlt|]; [|done].
    injection Emax as ->; simpl in Hm.
    replace (length block - (total + length block - m))%nat with (m - total)%nat by lia.
    assert (dr_result (capture_reader (Some m) turns (total + length block) true) = Some (Ok ()) -> reaches_eof turns) as Heof.
    { clear -Hf; generalize (total + length block)%nat as n; intros n; revert n.
      induction Hf as [|t turns (Hs & Hl & Hw) Hf IH]; intros n; [done|]; cbn [capture_reader].
      destruct (dt_wait t) as [[]|]; [|done|done]; rewrite Hs.
      destruct (dt_read t) as [[|x d]|e] eqn:Hread; [by left|intros H; right; by eapply IH|].
      destruct (kind_is e Interrupted); [intros H; right; by eapply IH|done]. }
    pose proof (capture_reader_discards (Some m) turns (total + length block)) as Hb.
    unfold limit_of, exceeds; rewrite take_app_le by lia.
    assert ((m - total <? length (block ++ pipe_content turns))%nat = true) as ->
      by (apply Nat.ltb_lt; rewrite length_app; lia).
    destruct (Nat.ltb_spec 0 (m - total)) as [|Hz]; cbn [drain_send drain_overflow dr_result dr_blocks dr_overflow concat];
      rewrite Hb; intros Hres; (split; [right; by apply Heof|]); [by rewrite app_nil_r|].
    replace (m - total)%nat with 0%nat by lia; done.
  - cbn [drain_send dr_result dr_blocks dr_overflow concat]; intros H.
    assert (within max (total + length block)) as Hm'.
    { destruct max as [m|]; [|done]; simpl; revert Emax; destruct (Nat.ltb_spec m (total + length block)); [done|by intros _]. }
    destruct (IH _ Hm' H) as (He & Hc & Ho); split; [by right|]; rewrite Hc, Ho.
    destruct max as [m|]; cbn [limit_of exceeds within] in *; [|done].
    rewrite take_app_ge, length_app by lia; split; [f_equal; f_equal; lia|].
    destruct (Nat.ltb_spec (m - (total + length block)) (length (pipe_content turns))),
      (Nat.ltb_spec (m - total) (length block + length (pipe_content turns))); (done || lia).
Qed.

Lemma collect_blocks_until_ok (deadline : Z) (turns : list (Z * bool)) (blocks : list (list Z))
    (tail : list (result (list Z) io_error)) (ended overflow : bool) (out : list Z) (v : list Z * bool) :
  Forall (fun m => is_ok m = false) tail ->
  collect_blocks_until deadline turns (map Ok blocks ++ tail) ended overflow out = Some (Ok v) ->
  tail = [] /\ ended = true /\ v = (out ++ concat blocks, overflow).
Proof.
  intros Ht; revert blocks out; induction turns as [|[now arrives] turns IH]; intros blocks out; simpl; [done|].
  case_decide; [done|]; destruct arrives; [|done]; destruct blocks as [|b blocks]; simpl.
  - destruct Ht as [|[x|e] tail]; [|done|done]; destruct ended; [|done]; intros [= <-]; by rewrite app_nil_r.
  - intros H'; apply IH in H' as (? & ? & ->); by rewrite <- app_assoc.
Qed.

(** Collection ends: by the last turn's clock at the latest. *)
Lemma collect_blocks_until_ends (deadline : Z) (turns : list (Z * bool)) (queue : list (result (list Z) io_error))
    (ended overflow : bool) (out : list Z) :
  Exists (fun t => t.1 >= deadline) turns -> is_Some (collect_blocks_until deadline turns queue ended overflow out).
Proof.
  intros H; revert queue out; induction H as [[now a] turns H|[now a] turns _ IH]; intros queue out; simpl in *;
    (case_decide; [done|]; try (exfalso; lia)); destruct a; [|done]; destruct queue as [|[]]; try done;
    first [by apply IH|by destruct ended].
Qed.

(** One stream of a guard, as its reader sent it. *)
Definition stream_result (now : Z) (max : option nat) (reader : list drain_turn) (turns : list (Z * bool))
    (flush : option io_error) : option (result (list Z * bool) io_error) :=
  option_map (stream_collect flush) (collect_blocks now turns (capture_reader max reader 0 false)).

Lemma stream_result_ok (now : Z) (max : option nat) (reader : list drain_turn) (turns : list (Z * bool))
    (flush : option io_error) (v : list Z * bool) :
  Forall attended reader -> stream_result now max reader turns flush = Some (Ok v) ->
  reaches_eof reader /\ flush = None /\ v = (limit_of max 0 (pipe_content reader), exceeds max 0 (pipe_content reader)).
Proof.
  intros Hf; unfold stream_result, collect_blocks.
  destruct (collect_blocks_until _ _ _ _ _ _) as [[c|e]|] eqn:E; simpl; try done.
  destruct flush; [done|]; intros [= ->]; unfold capture_messages in E; simpl in E.
  apply collect_blocks_until_ok in E as (Ht & He & ->);
    [|by destruct (dr_result _) as [[]|]; repeat constructor].
  destruct (dr_result (capture_reader max reader 0 false)) as [[[]|e]|] eqn:Er; try done.
  destruct (capture_reader_exact max reader 0 Hf ltac:(by destruct max; simpl; [lia|]) Er) as (H1 & H2 & H3).
  by rewrite H2, H3.
Qed.

(** What an in-process capture reports is what was written.  Collecting
    always ends once the clock passes the deadline.  A run that reports captured
    output reports, for each captured stream, exactly the first
    [max_capture_bytes] bytes that went into its pipe up to its end, nothing for
    a stream that was not captured, and the truncation flag exactly when one of
    them was longer; that holds for the output attached to a failed run too.
    The run's own error is never replaced by a capture error, and a failure of
    the capture is never reported as a success. *)
Theorem captured_run_truthful (now : Z) (max : option nat) (out err : option (list drain_turn))
    (turns_out turns_err : list (Z * bool)) (flush_out flush_err : option io_error)
    (r : result Z libdeno_error) (c_out c_err : option (result (list Z * bool) io_error))
    (Hout : match out with Some reader => Forall attended reader /\ Exists (fun t => t.1 >= now + from_millis 500) turns_out | None => True end)
    (Herr : match err with Some reader => Forall attended reader /\ Exists (fun t => t.1 >= now + from_millis 500) turns_err | None => True end)
    (Hco : c_out = match out with Some reader => stream_result now max reader turns_out flush_out | None => None end)
    (Hce : c_err = match err with Some reader => stream_result now max reader turns_err flush_err | None => None end) :
  (out <> None -> is_Some c_out) /\ (err <> None -> is_Some c_err) /\
  let written p := limit_of max 0 (match p with Some reader => pipe_content reader | None => [] end) in
  let longer p := match p with Some reader => exceeds max 0 (pipe_content reader) | None => false end in
  match combine_capture r (pending_collect c_out c_err) with
  | Ok o => r = Ok (ro_exit_code o) /\ ro_stdout o = written out /\ ro_stderr o = written err /\
      ro_capture_truncated o = longer out || longer err
  | Err f =>
      (forall e, r = Err e -> cre_error f = e) /\
      (is_ok r = true -> exists e, pending_collect c_out c_err = Err e /\ cre_error f = Io e) /\
      forall o, cre_output f = Some o ->
        co_stdout o = written out /\ co_stderr o = written err /\ co_truncated o = longer out || longer err
  end.
Proof.
  assert (forall p turns flush c,
    (match p with Some reader => Forall attended reader /\ Exists (fun t => t.1 >= now + from_millis 500) turns | None => True end) ->
    c = (match p with Some reader => stream_result now max reader turns flush | None => None end) ->
    (p <> None -> is_Some c) /\
    forall v, default (Ok ([], false)) c = Ok v ->
      v = (limit_of max 0 (match p with Some reader => pipe_content reader | None => [] end),
           match p with Some reader => exceeds max 0 (pipe_content reader) | None => false end)) as Hone.
  { intros [reader|] turns flush c H ->; [destruct H as [Ha Hend]|].
    - split; [intros _; unfold stream_result, collect_blocks; apply fmap_is_Some; by apply collect_blocks_until_ends|].
      intros v; destruct (stream_result _ _ _ _ _) as [[w|]|] eqn:E; simpl; intros Hv; simplify_eq.
      + by apply stream_result_ok in E as (_ & _ & ->).
      + exfalso; unfold stream_result, collect_blocks in E.
        destruct (collect_blocks_until_ends _ turns (capture_messages (capture_reader max reader 0 false)).1
          (capture_messages (capture_reader max reader 0 false)).2 (dr_overflow (capture_reader max reader 0 false)) [] Hend)
          as [x Hx]; by rewrite Hx in E.
    - split; [done|]; intros v [= <-]; destruct max; simpl; by rewrite ?take_nil. }
  destruct (Hone out turns_out flush_out c_out Hout Hco) as [So Vo], (Hone err turns_err flush_err c_err Herr Hce) as [Se Ve].
  split; [done|]; split; [done|]; cbv zeta; unfold pending_collect.
  destruct (default (Ok ([], false)) c_out) as [[o t1]|e1] eqn:Eo; [|by destruct r; simpl; split_and!; intros; simplify_eq; eauto].
  destruct (default (Ok ([], false)) c_err) as [[e t2]|e2] eqn:Ee; [|by destruct r; simpl; split_and!; intros; simplify_eq; eauto].
  specialize (Vo _ eq_refl); specialize (Ve _ eq_refl); injection Vo as Ho1 Ho2; injection Ve as He1 He2.
  rewrite <- Ho1, <- Ho2, <- He1, <- He2.
  destruct r as [code|error]; simpl; [done|].
  destruct o, e, (t1 || t2) eqn:Et; simpl; (split_and!; [by intros ? [= <-]|done|]); intros x Hx; by simplify_eq.
Qed.

Lemma captured_run_truthful_witness :
  combine_capture (Err (Permission "denied")) (pending_collect
    (stream_result 0 (Some 2%nat) [sample_turn [104; 105; 33]; sample_turn []] [(0, true); (1, true)] None) None) =
  Err (CapturedRunError (Permission "denied") (Some (CapturedOutput [104; 105] [] true))) /\
  is_Some (stream_result 0 (Some 2%nat) [sample_turn [104; 105; 33]; sample_turn []]
    [(0, true); (1, true); (from_millis 500, true)] None).
Proof.
  split; [by vm_compute|].
  apply (captured_run_truthful 0 (Some 2%nat) (Some [sample_turn [104; 105; 33]; sample_turn []]) None
    [(0, true); (1, true); (from_millis 500, true)] [] None None (Err (Permission "denied")) _ None);
    [split; [by repeat constructor|by do 2 apply Exists_cons_tl; apply Exists_cons_hd]|done|reflexivity|done|done].
Defined.
