(* ===== verification/Runtime.v ===== *)
(** * Runtime: the reusable resolver stack (src/runtime.rs).

    [LibdenoRuntime] keeps one published stack, the number of [refresh] calls
    and the generation the stack was built for.  [shared_for_run] is an
    interleaving of threads: it reads the state under its mutex, probes the
    manifest, and, when a rebuild is due, builds under a second lock after
    checking again.  A stack is an identity with the generation at which its
    construction began; whether a probe finds the inputs changed is the
    environment's choice, and so is the outcome of a build. *)
From S2P Require Import Prelude Errors Options Entry.
Local Open Scope Z_scope.

(** A stack and the value of [refresh_generation] its builder captured. *)
Record stack := Stack { sk_id : nat; sk_generation : Z }.

#[export] Instance stack_eq_dec : EqDecision stack.
Proof. solve_decision. Defined.

(** [RuntimeState]; the manifest goes with the stack. *)
Record runtime_state := RuntimeState {
  rs_shared : stack; rs_refresh_generation : Z; rs_built_generation : Z
}.

(** [LibdenoRuntime::new] *)
Definition runtime_new : runtime_state := RuntimeState (Stack 0 0) 0 0.

(** [refresh] *)
Definition refresh (s : runtime_state) : runtime_state :=
  RuntimeState (rs_shared s) (wrapping_add_u64 (rs_refresh_generation s) 1) (rs_built_generation s).

Definition needs_rebuild (manifest_changed : bool) (refresh_generation built_generation : Z) : bool :=
  manifest_changed || negb (bool_decide (built_generation = refresh_generation)).
Definition singleflight_build_generation (manifest_changed : bool) (refresh_generation built_generation : Z)
  : option Z :=
  if needs_rebuild manifest_changed refresh_generation built_generation then Some refresh_generation else None.
Definition can_publish (build_generation current_generation : Z) : bool :=
  bool_decide (build_generation = current_generation).

(** Where a call of [shared_for_run] stands. *)
Inductive shared_pc :=
| SStart
| SProbed (shared : stack) (refresh_generation built_generation : Z)
| SGate
| SLocked
| SProbedAgain (refresh_generation built_generation : Z)
| SReuse
| SBuild (generation : Z)
| SPublish (candidate : stack)
| SRelease (r : result stack libdeno_error)
| SDone (r : result stack libdeno_error).

(** The environment's part of a step: what a probe finds, what a build yields. *)
Inductive shared_event :=
| EvNone | EvProbe (changed : bool) | EvBuilt (id : nat) | EvBuildFailed (e : dyn_error).

(** One step of a call; [locked] is whether the rebuild lock is free or ours to
    keep.  The result says what happens to the state and to the lock. *)
Definition shared_step (ev : shared_event) (pc : shared_pc) (s : runtime_state) (lock_free : bool)
  : shared_pc * runtime_state * bool :=
  match pc, ev with
  | SStart, _ => (SProbed (rs_shared s) (rs_refresh_generation s) (rs_built_generation s), s, lock_free)
  | SProbed shared rg bg, EvProbe changed =>
      (match singleflight_build_generation changed rg bg with
       | None => SDone (Ok shared)
       | Some _ => SGate
       end, s, lock_free)
  | SGate, _ => if lock_free then (SLocked, s, false) else (SGate, s, false)
  | SLocked, _ => (SProbedAgain (rs_refresh_generation s) (rs_built_generation s), s, lock_free)
  | SProbedAgain rg bg, EvProbe changed =>
      (match singleflight_build_generation changed rg bg with
       | None => SReuse
       | Some generation => SBuild generation
       end, s, lock_free)
  | SReuse, _ => (SRelease (Ok (rs_shared s)), s, lock_free)
  | SBuild generation, EvBuilt id => (SPublish (Stack id generation), s, lock_free)
  | SBuild _, EvBuildFailed e => (SRelease (Err (Runtime e)), s, lock_free)
  | SPublish candidate, _ =>
      (SRelease (Ok candidate),
       (if can_publish (sk_generation candidate) (rs_refresh_generation s)
        then RuntimeState candidate (rs_refresh_generation s) (sk_generation candidate) else s),
       lock_free)
  | SRelease r, _ => (SDone r, s, true)
  | _, _ => (pc, s, lock_free)
  end.

(** Calls with the number of refreshes that had happened when they began. *)
Record runtime_world := RuntimeWorld {
  rw_state : runtime_state; rw_lock_free : bool; rw_refreshes : Z; rw_calls : list (Z * shared_pc)
}.

Inductive runtime_step : runtime_world -> runtime_world -> Prop :=
| rstep_call w :
    runtime_step w (RuntimeWorld (rw_state w) (rw_lock_free w) (rw_refreshes w)
      (rw_calls w ++ [(rw_refreshes w, SStart)]))
| rstep_refresh w :
    runtime_step w (RuntimeWorld (refresh (rw_state w)) (rw_lock_free w) (rw_refreshes w + 1) (rw_calls w))
| rstep_shared w i since pc ev pc' s' free' :
    rw_calls w !! i = Some (since, pc) ->
    shared_step ev pc (rw_state w) (rw_lock_free w) = (pc', s', free') ->
    runtime_step w (RuntimeWorld s' free' (rw_refreshes w) (<[i := (since, pc')]> (rw_calls w))).

Definition runtime_init : runtime_world := RuntimeWorld runtime_new true 0 [].

(** ** Preconditions of the entry points *)

Section Preconditions.
Context (h : host).

Definition reject_capture_flags (options : libdeno_options) : result unit libdeno_error :=
  if o_capture_stdout options || o_capture_stderr options then
    Err (Configuration "run_with does not support output capture (it returns only the exit code); use run_with_output for capture on the reusable stack")
  else Ok ().

Definition reject_unusable_cwd (runtime_cwd : path) (options : libdeno_options) : result unit libdeno_error :=
  match o_cwd options with
  | Some cwd =>
      let resolved p := match h_canonicalize h p with Ok p => Some p | Err _ => None end in
      if bool_decide (resolved cwd = resolved runtime_cwd) then Ok ()
      else Err (Configuration ("run_with ignores LibdenoOptions.cwd (the resolver stack is scoped to the runtime's directory "
             +:+ runtime_cwd +:+ "); build the runtime for that directory instead, or omit cwd"))
  | None => Ok ()
  end.

Definition check_source_preconditions (runtime_cwd : path) (options : libdeno_options) (capture_flags_allowed : bool)
  : result unit libdeno_error :=
  let? _ := (if capture_flags_allowed then Ok () else reject_capture_flags options) in
  reject_unusable_cwd runtime_cwd options.
End Preconditions.

(** ** Lemmas *)

(** The thread is between taking and releasing the rebuild lock. *)
Definition holds_lock (pc : shared_pc) : bool :=
  match pc with SLocked | SProbedAgain _ _ | SReuse | SBuild _ | SPublish _ | SRelease _ => true | _ => false end.

(** What a call that began after [since] refreshes knows. *)
Definition call_ok (s : runtime_state) (refreshes since : Z) (pc : shared_pc) : Prop :=
  since <= refreshes /\
  match pc with
  | SProbed shared rg bg => sk_generation shared = bg /\ since <= rg <= refreshes
  | SProbedAgain rg bg => bg = rs_built_generation s /\ since <= rg <= refreshes
  | SReuse => since <= rs_built_generation s
  | SBuild generation => since <= generation <= refreshes
  | SPublish candidate | SRelease (Ok candidate) | SDone (Ok candidate) =>
      since <= sk_generation candidate <= refreshes
  | _ => True
  end.

Record runtime_inv (w : runtime_world) : Prop := RuntimeInv {
  ri_refresh : rs_refresh_generation (rw_state w) = rw_refreshes w;
  ri_tag : sk_generation (rs_shared (rw_state w)) = rs_built_generation (rw_state w);
  ri_built : 0 <= rs_built_generation (rw_state w) <= rw_refreshes w;
  ri_lock : forall i c, rw_calls w !! i = Some c -> holds_lock c.2 = true ->
    rw_lock_free w = false /\ forall j d, rw_calls w !! j = Some d -> holds_lock d.2 = true -> j = i;
  ri_calls : forall i c, rw_calls w !! i = Some c -> call_ok (rw_state w) (rw_refreshes w) c.1 c.2
}.

Lemma singleflight_none (changed : bool) (rg bg : Z) :
  singleflight_build_generation changed rg bg = None -> bg = rg.
Proof.
  unfold singleflight_build_generation, needs_rebuild; destruct changed; [done|].
  by case_bool_decide.
Qed.
Lemma singleflight_some (changed : bool) (rg bg g : Z) :
  singleflight_build_generation changed rg bg = Some g -> g = rg.
Proof. unfold singleflight_build_generation; destruct (needs_rebuild _ _ _); by intros [= <-]. Qed.

(** A step of one call: its own knowledge, the state's, and the lock. *)
Lemma shared_step_ok (ev : shared_event) (pc pc' : shared_pc) (s s' : runtime_state) (free free' : bool)
    (refreshes since : Z) :
  shared_step ev pc s free = (pc', s', free') ->
  rs_refresh_generation s = refreshes -> sk_generation (rs_shared s) = rs_built_generation s ->
  0 <= rs_built_generation s <= refreshes -> (holds_lock pc = true -> free = false) ->
  call_ok s refreshes since pc ->
  call_ok s' refreshes since pc' /\
  rs_refresh_generation s' = refreshes /\ sk_generation (rs_shared s') = rs_built_generation s' /\
  0 <= rs_built_generation s' <= refreshes /\
  (holds_lock pc' = true -> free' = false) /\
  (holds_lock pc = false -> (s' = s /\ (holds_lock pc' = true -> free = true) /\ (free = false -> free' = false))) /\
  rs_built_generation s <= rs_built_generation s'.
Proof.
  intros Hst Hr Ht Hb Hl [Hs Hc]; unfold call_ok.
  destruct pc as [|sh rg bg| | |rg bg| |g|cand|r|r]; simpl in Hst.
  - destruct ev; simplify_eq; simpl; split_and!; done || lia.
  - destruct ev as [|changed| |]; try (by simplify_eq; simpl; split_and!; done || lia).
    destruct (singleflight_build_generation changed rg bg) eqn:E; simplify_eq; simpl; split_and!; try (done || lia).
    all: apply singleflight_none in E; lia.
  - destruct ev, free; simplify_eq; simpl; split_and!; done || lia.
  - specialize (Hl eq_refl); subst free; destruct ev; simplify_eq; simpl; split_and!; done || lia.
  - specialize (Hl eq_refl); subst free; destruct ev as [|changed| |]; try (by simplify_eq; simpl; split_and!; done || lia).
    destruct (singleflight_build_generation changed rg bg) eqn:E; simplify_eq; simpl; split_and!; try (done || lia).
    all: (apply singleflight_some in E || apply singleflight_none in E); lia.
  - specialize (Hl eq_refl); subst free; destruct ev; simplify_eq; simpl; split_and!; done || lia.
  - specialize (Hl eq_refl); subst free; destruct ev; simplify_eq; simpl in *; split_and!; done || lia.
  - specialize (Hl eq_refl); subst free; destruct ev; simplify_eq; unfold can_publish; case_bool_decide as Hp; simpl in *;
      split_and!; done || lia.
  - specialize (Hl eq_refl); subst free; destruct ev; simplify_eq; simpl in *; split_and!; done || lia.
  - destruct ev; simplify_eq; simpl in *; split_and!; done || lia.
Qed.

(** What a call knows survives the other calls and refreshes. *)
Lemma call_ok_stable (s s' : runtime_state) (refreshes refreshes' since : Z) (pc : shared_pc) :
  call_ok s refreshes since pc -> refreshes <= refreshes' -> rs_built_generation s <= rs_built_generation s' ->
  (holds_lock pc = true -> rs_built_generation s' = rs_built_generation s) ->
  call_ok s' refreshes' since pc.
Proof.
  intros [Hs Hc] Hr Hb Hh; split; [lia|]; destruct pc as [| | | | | | | |[]|[]]; simpl in *; try done; try lia;
    rewrite ?Hh by done; lia || (destruct Hc; split; done || lia).
Qed.

Lemma runtime_step_inv (w w' : runtime_world) :
  rw_refreshes w' <= u64_max -> runtime_inv w -> runtime_step w w' -> runtime_inv w'.
Proof.
  intros Hu [Hr Ht Hb Hl Hc] Hst; destruct Hst as [w|w|w i since pc ev pc' s' free' Hi Hst]; simpl in *.
  - split; simpl; try done.
    + intros i c Hi Hh; apply lookup_app_Some in Hi as [Hi|[_ Hi]]; [|apply list_lookup_singleton_Some in Hi as [_ <-]; done].
      destruct (Hl i c Hi Hh) as [Hf Hu1]; split; [done|]; intros j d Hj Hd.
      apply lookup_app_Some in Hj as [Hj|[_ Hj]]; [by eapply Hu1|apply list_lookup_singleton_Some in Hj as [_ <-]; done].
    + intros i c Hi; apply lookup_app_Some in Hi as [Hi|[_ Hi]]; [by eapply Hc|].
      apply list_lookup_singleton_Some in Hi as [_ <-]; split; simpl; [lia|done].
  - split; simpl; try done; try lia.
    + rewrite Hr; unfold wrapping_add_u64, u64_max in *; rewrite Z.mod_small; lia.
    + intros i c Hi; eapply call_ok_stable; [by eapply Hc|lia|done|done].
  - pose proof (Hc _ _ Hi) as Hci; simpl in Hci.
    assert (holds_lock pc = true -> rw_lock_free w = false) as Hlk by (intros Hh; by eapply (Hl i (since, pc))).
    destruct (shared_step_ok _ _ _ _ _ _ _ _ _ Hst Hr Ht Hb Hlk Hci) as (H1 & H2 & H3 & H4 & H5 & H6 & H7).
    assert (forall j d, rw_calls w !! j = Some d -> j <> i -> holds_lock d.2 = true -> holds_lock pc = false) as Hother.
    { intros j d Hj Hne Hd; destruct (holds_lock pc) eqn:Hp; [|done]; destruct (Hl j d Hj Hd) as [_ Hu1].
      specialize (Hu1 i (since, pc) Hi Hp); congruence. }
    split; simpl; try done.
    + intros j c Hj Hh; apply list_lookup_insert_Some in Hj as [(<- & <- & _)|[Hne Hj]]; simpl in Hh.
      * split; [by apply H5|]; intros j d Hj Hd; apply list_lookup_insert_Some in Hj as [(<- & <- & _)|[Hne Hj]]; [done|].
        exfalso; pose proof (Hother j d Hj ltac:(congruence) Hd) as Hp; destruct (H6 Hp) as (_ & Hfree & _).
        destruct (Hl j d Hj Hd) as [Hf _]; rewrite (Hfree Hh) in Hf; done.
      * pose proof (Hother j c Hj ltac:(congruence) Hh) as Hp; destruct (H6 Hp) as (_ & Hfree & Hkeep).
        destruct (Hl j c Hj Hh) as [Hf Hu1]; split; [by apply Hkeep|]; intros k d Hk Hd.
        apply list_lookup_insert_Some in Hk as [(<- & <- & _)|[Hne' Hk]]; [|by eapply Hu1].
        simpl in Hd; rewrite (Hfree Hd) in Hf; done.
    + intros j c Hj; apply list_lookup_insert_Some in Hj as [(<- & <- & _)|[Hne Hj]]; [done|].
      eapply call_ok_stable; [by eapply Hc|lia|done|].
      intros Hh; pose proof (Hother j c Hj ltac:(congruence) Hh) as Hp; destruct (H6 Hp) as (-> & _); done.
Qed.

Lemma runtime_refreshes_mono (w w' : runtime_world) : runtime_step w w' -> rw_refreshes w <= rw_refreshes w'.
Proof. intros []; simpl; lia. Qed.

Lemma runtime_reachable_inv (w : runtime_world) :
  rw_refreshes w <= u64_max -> reachable runtime_step runtime_init w -> runtime_inv w.
Proof.
  intros Hu H; induction H as [|w w' H IH Hst].
  - split; simpl; try done; lia.
  - pose proof (runtime_refreshes_mono _ _ Hst); apply (runtime_step_inv w w'); [done|apply IH; lia|done].
Qed.

(** ** Properties *)

(** C25. A refresh is never lost, and stacks are built one at a time.  In every
    interleaving of runs, refreshes, failing and succeeding builds, a run that
    is given a stack gets one whose construction began after every refresh that
    preceded the run; at most one call is past the gate; and the published stack
    is never replaced by an older one. *)
Theorem refresh_not_lost (w : runtime_world)
    (Hu : rw_refreshes w <= u64_max) (Hw : reachable runtime_step runtime_init w) :
  (forall i since shared, rw_calls w !! i = Some (since, SDone (Ok shared)) -> since <= sk_generation shared) /\
  (forall i j c d, rw_calls w !! i = Some c -> rw_calls w !! j = Some d ->
     holds_lock c.2 = true -> holds_lock d.2 = true -> i = j) /\
  (forall w', rw_refreshes w' <= u64_max -> runtime_step w w' ->
     sk_generation (rs_shared (rw_state w)) <= sk_generation (rs_shared (rw_state w'))).
Proof.
  destruct (runtime_reachable_inv w Hu Hw) as [Hr Ht Hb Hl Hc]; split_and!.
  - intros i since shared Hi; destruct (Hc _ _ Hi) as [_ H]; simpl in H; lia.
  - intros i j c d Hi Hj Hh Hd; symmetry; by eapply (Hl i c Hi Hh).
  - intros w' Hu' Hst; assert (runtime_inv w') as [_ Ht' _ _ _] by (eapply runtime_step_inv; [done|by split|done]).
    rewrite Ht, Ht'; destruct Hst as [w|w|w i since pc ev pc' s' free' Hi Hst]; simpl in *; [done|done|].
    assert (holds_lock pc = true -> rw_lock_free w = false) as Hlk by (intros Hh; by eapply (Hl i (since, pc))).
    by destruct (shared_step_ok _ _ _ _ _ _ _ _ _ Hst Hr Ht Hb Hlk (Hc _ _ Hi)) as (_ & _ & _ & _ & _ & _ & H7).
Qed.

(** Schedules that can be executed. *)
Inductive runtime_action := ACall | ARefresh | AShared (i : nat) (ev : shared_event).

Definition act (a : runtime_action) (w : runtime_world) : option runtime_world :=
  match a with
  | ACall => Some (RuntimeWorld (rw_state w) (rw_lock_free w) (rw_refreshes w) (rw_calls w ++ [(rw_refreshes w, SStart)]))
  | ARefresh => Some (RuntimeWorld (refresh (rw_state w)) (rw_lock_free w) (rw_refreshes w + 1) (rw_calls w))
  | AShared i ev =>
      match rw_calls w !! i with
      | Some (since, pc) =>
          let '(pc', s', free') := shared_step ev pc (rw_state w) (rw_lock_free w) in
          Some (RuntimeWorld s' free' (rw_refreshes w) (<[i := (since, pc')]> (rw_calls w)))
      | None => None
      end
  end.
Fixpoint play (actions : list runtime_action) (w : runtime_world) : option runtime_world :=
  match actions with
  | [] => Some w
  | a :: actions => match act a w with Some w => play actions w | None => None end
  end.

Lemma act_step (a : runtime_action) (w w' : runtime_world) : act a w = Some w' -> runtime_step w w'.
Proof.
  destruct a as [| |i ev]; simpl; [intros [= <-]; constructor..|].
  destruct (rw_calls w !! i) as [[since pc]|] eqn:Hi; [|done].
  destruct (shared_step ev pc _ _) as [[pc' s'] free'] eqn:E; intros [= <-]; by econstructor.
Qed.

Lemma play_reachable (actions : list runtime_action) (w w' : runtime_world) :
  play actions w = Some w' -> reachable runtime_step w w'.
Proof.
  revert w; induction actions as [|a actions IH]; intros w; simpl; [intros [= <-]; apply reach_refl|].
  destruct (act a w) as [w1|] eqn:E; [|done]; intros H; eapply reachable_head; [by apply act_step in E|by apply IH].
Qed.

(** A refresh, then a call whose first build is refused and one that succeeds. *)
Definition sample_runtime : runtime_world :=
  RuntimeWorld (RuntimeState (Stack 9 1) 1 1) true 1 [(1, SDone (Ok (Stack 9 1)))].

Lemma sample_runtime_reachable : reachable runtime_step runtime_init sample_runtime.
Proof.
  apply (play_reachable [ARefresh; ACall; AShared 0 EvNone; AShared 0 (EvProbe false); AShared 0 EvNone;
    AShared 0 EvNone; AShared 0 (EvProbe false); AShared 0 (EvBuilt 9); AShared 0 EvNone; AShared 0 EvNone]).
  vm_compute; reflexivity.
Qed.

Lemma refresh_not_lost_witness : 1 <= sk_generation (Stack 9 1).
Proof.
  apply (proj1 (refresh_not_lost sample_runtime ltac:(by vm_compute) sample_runtime_reachable) 0%nat 1 (Stack 9 1)).
  reflexivity.
Defined.
