(* ===== verification/Vectors.v ===== *)
(** * Vectors: [Vec::sort_by] (stable) and [Vec::dedup_by], as the resolver
    inputs and the module graph use them to bring lists into a normal form. *)
From S2P Require Import Prelude.

Section Vectors.
Context {A : Type} (greater : A -> A -> bool) (same : A -> A -> bool).

Fixpoint sort_insert (e : A) (l : list A) : list A :=
  match l with
  | [] => [e]
  | d :: l => if greater e d then d :: sort_insert e l else e :: d :: l
  end.
Definition sort_by (l : list A) : list A := foldr sort_insert [] l.

(** Of consecutive equal elements the first stays. *)
Fixpoint dedup_after (a : A) (l : list A) : list A :=
  match l with
  | [] => [a]
  | b :: l => if same b a then dedup_after a l else a :: dedup_after b l
  end.
Definition dedup_by (l : list A) : list A := match l with [] => [] | a :: l => dedup_after a l end.

Lemma sort_insert_perm (e : A) (l : list A) : sort_insert e l ≡ₚ e :: l.
Proof. induction l as [|d l IH]; simpl; [done|]; destruct (greater e d); [|done]; by rewrite IH, Permutation_swap. Qed.
Lemma sort_by_perm (l : list A) : sort_by l ≡ₚ l.
Proof. induction l as [|e l IH]; simpl; [done|]; by rewrite sort_insert_perm, IH. Qed.

Lemma dedup_after_sub (a : A) (l : list A) : Forall (fun x => x ∈ a :: l) (dedup_after a l).
Proof.
  revert a; induction l as [|b l IH]; intros a; simpl; [repeat constructor|].
  destruct (same b a); [eapply Forall_impl; [apply IH|]; set_solver|].
  constructor; [by left|]; eapply Forall_impl; [apply IH|]; set_solver.
Qed.
Lemma normal_sub (l : list A) (x : A) : x ∈ dedup_by (sort_by l) -> x ∈ l.
Proof.
  intros H; rewrite <- (sort_by_perm l); destruct (sort_by l) as [|a k]; [done|].
  simpl in H; pose proof (dedup_after_sub a k) as Hf; rewrite Forall_forall in Hf; by apply Hf.
Qed.

Context (Hrefl : forall a, same a a = true) (Htrans : forall a b c, same a b = true -> same b c = true -> same a c = true).

Lemma dedup_after_rep (a : A) (l : list A) (x : A) :
  x ∈ a :: l -> exists y, y ∈ dedup_after a l /\ same x y = true.
Proof.
  revert a x; induction l as [|b l IH]; intros a x Hx; simpl.
  - apply list_elem_of_singleton in Hx as ->; exists a; split; [by left|done].
  - destruct (same b a) eqn:E.
    + assert (exists z, z ∈ a :: l /\ same x z = true) as (z & Hz & Hs).
      { apply elem_of_cons in Hx as [->|[->|Hx]%elem_of_cons];
          [exists a; split; [by left|done]|exists a; split; [by left|done]|exists x; split; [by right|done]]. }
      destruct (IH a z Hz) as (y & Hy & Hs'); exists y; split; [done|]; by eapply Htrans.
    + apply elem_of_cons in Hx as [->|Hx]; [exists a; split; [by left|done]|].
      destruct (IH b x Hx) as (y & Hy & Hs'); exists y; split; [by right|done].
Qed.
(** Every element is represented after sorting and removing duplicates. *)
Lemma normal_rep (l : list A) (x : A) : x ∈ l -> exists y, y ∈ dedup_by (sort_by l) /\ same x y = true.
Proof.
  rewrite <- (sort_by_perm l); destruct (sort_by l) as [|a k]; [by intros ?%not_elem_of_nil|]; apply dedup_after_rep.
Qed.
End Vectors.

