(* ===== verification/NpmCache.v ===== *)
(** * NpmCache: resolver inputs and the snapshot cache (src/npm_cache.rs).

    Canonical JSON (the input of the semantic hashes), the environment names an
    .npmrc refers to and the bounded snapshot cache.  The rest of the file is in
    NpmManifest. *)
From Stdlib Require Import Sorted.
From S2P Require Import Prelude Options Paths.
Local Open Scope Z_scope.

(** ** JSON values, objects as ordered maps *)
Inductive json :=
| JNull | JBool (b : bool) | JNumber (n : string) | JString (s : string)
| JArray (l : list json) | JObject (l : list (string * json)).

Section JsonInd.
Context (P : json -> Prop).
Context (Hnull : P JNull) (Hbool : forall b, P (JBool b)) (Hnum : forall n, P (JNumber n)) (Hstr : forall s, P (JString s)).
Context (Harr : forall l, Forall P l -> P (JArray l)).
Context (Hobj : forall l, Forall (fun e => P e.2) l -> P (JObject l)).

(** Induction through the lists. *)
Fixpoint json_strong_ind (j : json) : P j :=
  match j with
  | JNull => Hnull | JBool b => Hbool b | JNumber n => Hnum n | JString s => Hstr s
  | JArray l =>
      Harr l ((fix go (l : list json) : Forall P l :=
                 match l with [] => List.Forall_nil _ | x :: l => @List.Forall_cons _ _ x l (json_strong_ind x) (go l) end) l)
  | JObject l =>
      Hobj l ((fix go (l : list (string * json)) : Forall (fun e => P e.2) l :=
                 match l with [] => List.Forall_nil _ | e :: l => @List.Forall_cons _ (fun e => P e.2) e l (json_strong_ind e.2) (go l) end) l)
  end.
End JsonInd.

(** [sort_by] on the keys, byte-wise. *)
Fixpoint insert_entry {A} (e : string * A) (l : list (string * A)) : list (string * A) :=
  match l with
  | [] => [e]
  | d :: l => match String.compare e.1 d.1 with Gt => d :: insert_entry e l | _ => e :: d :: l end
  end.
Definition sort_entries {A} (l : list (string * A)) : list (string * A) := foldr insert_entry [] l.

(** [Map::insert]: a known key keeps its place. *)
Fixpoint map_insert {A} (k : string) (v : A) (l : list (string * A)) : list (string * A) :=
  match l with
  | [] => [(k, v)]
  | (k', v') :: l => if decide (k = k') then (k, v) :: l else (k', v') :: map_insert k v l
  end.

Fixpoint canonical_json (j : json) : json :=
  match j with
  | JArray l => JArray (map canonical_json l)
  | JObject l =>
      JObject (foldl (fun m e => map_insert e.1 e.2 m) []
        (sort_entries (map (fun e => (e.1, canonical_json e.2)) l)))
  | j => j
  end.

(** Objects have one entry per key. *)
Fixpoint json_wf (j : json) : Prop :=
  match j with
  | JArray l => fold_right and True (map json_wf l)
  | JObject l => NoDup (map fst l) /\ fold_right and True (map (fun e => json_wf e.2) l)
  | _ => True
  end.

(** ** What a value says: the answer at every path *)
Inductive step := SKey (k : string) | SIndex (i : nat).
Inductive shape := ShNull | ShBool (b : bool) | ShNumber (n : string) | ShString (s : string) | ShArray | ShObject.

Definition shape_of (j : json) : shape :=
  match j with
  | JNull => ShNull | JBool b => ShBool b | JNumber n => ShNumber n | JString s => ShString s
  | JArray _ => ShArray | JObject _ => ShObject
  end.

Fixpoint assoc {A} (k : string) (l : list (string * A)) : option A :=
  match l with [] => None | (k', v) :: l => if decide (k = k') then Some v else assoc k l end.

Definition child (s : step) (j : json) : option json :=
  match s, j with
  | SKey k, JObject l => assoc k l
  | SIndex i, JArray l => l !! i
  | _, _ => None
  end.
Fixpoint query (p : list step) (j : json) : option shape :=
  match p with
  | [] => Some (shape_of j)
  | s :: p => match child s j with Some j => query p j | None => None end
  end.

(** The same value up to the order of object members. *)
Definition same_value (a b : json) : Prop := forall p, query p a = query p b.

(** ** Lemmas on the byte order *)
Definition key_lt (a b : string) : Prop := String.compare a b = Lt.

Lemma ascii_compare_eq (a b : Ascii.ascii) : Ascii.compare a b = Eq -> a = b.
Proof.
  unfold Ascii.compare; intros H%N.compare_eq.
  by rewrite <- (Ascii.ascii_N_embedding a), <- (Ascii.ascii_N_embedding b), H.
Qed.

Lemma key_lt_trans (a b c : string) : key_lt a b -> key_lt b c -> key_lt a c.
Proof.
  unfold key_lt; revert b c; induction a as [|x a IH]; intros [|y b] [|z c]; simpl; try done.
  destruct (Ascii.compare x y) eqn:E1, (Ascii.compare y z) eqn:E2; try done; intros H1 H2.
  - apply ascii_compare_eq in E1 as ->; apply ascii_compare_eq in E2 as ->.
    assert (Ascii.compare z z = Eq) as -> by apply N.compare_refl; by eapply IH.
  - apply ascii_compare_eq in E1 as ->; by rewrite E2.
  - apply ascii_compare_eq in E2 as ->; by rewrite E1.
  - assert (Ascii.compare x z = Lt) as ->; [|done]; unfold Ascii.compare in *.
    apply (proj1 (N.compare_lt_iff _ _)) in E1, E2; apply N.compare_lt_iff; by eapply N.lt_trans.
Qed.

Lemma compare_refl_string (a : string) : String.compare a a = Eq.
Proof. induction a as [|x a IH]; simpl; [done|]; assert (Ascii.compare x x = Eq) as -> by apply N.compare_refl; done. Qed.

Lemma key_lt_irrefl (a : string) : ~ key_lt a a.
Proof. unfold key_lt; by rewrite compare_refl_string. Qed.

Lemma compare_gt (a b : string) : String.compare a b = Gt -> key_lt b a.
Proof. unfold key_lt; intros H; rewrite String.compare_antisym, H; done. Qed.

(** ** Lemmas on ordered maps *)
Section Maps.
Context {A : Type}.
Implicit Types l m : list (string * A).

Definition keys l := map fst l.
Definition sorted l : Prop := StronglySorted key_lt (keys l).

Lemma assoc_none l k : k ∉ keys l -> assoc k l = None.
Proof.
  induction l as [|[k' v] l IH]; simpl; [done|]; intros [H1 H2]%not_elem_of_cons; rewrite decide_False by done; by apply IH.
Qed.
Lemma assoc_some l k v : assoc k l = Some v -> k ∈ keys l.
Proof.
  induction l as [|[k' v'] l IH]; simpl; [done|]; case_decide as Hk; [by subst; left|]; intros H; right; by apply IH.
Qed.
Lemma assoc_in l k : k ∈ keys l -> is_Some (assoc k l).
Proof.
  induction l as [|[k' v'] l IH]; simpl; [by intros ?%not_elem_of_nil|].
  intros [->|H]%elem_of_cons; [by rewrite decide_True|]; case_decide; [done|by apply IH].
Qed.

Lemma insert_entry_keys (e : string * A) l k : k ∈ keys (insert_entry e l) <-> k = e.1 \/ k ∈ keys l.
Proof.
  induction l as [|d l IH]; simpl; [by rewrite elem_of_cons|].
  destruct (String.compare e.1 d.1); simpl; rewrite ?elem_of_cons, ?IH; naive_solver.
Qed.

Lemma insert_entry_sorted (e : string * A) l : e.1 ∉ keys l -> sorted l -> sorted (insert_entry e l).
Proof.
  unfold sorted; induction l as [|d l IH]; simpl; intros Hn Hs; [by repeat constructor|].
  apply StronglySorted_inv in Hs as [Hs Hd]; apply not_elem_of_cons in Hn as [Hne Hn].
  destruct (String.compare e.1 d.1) eqn:E.
  - by apply String.compare_eq_iff in E.
  - repeat constructor; try done; apply List.Forall_forall; intros x Hx.
    eapply key_lt_trans; [exact E|]; by eapply List.Forall_forall in Hd.
  - simpl; constructor; [by apply IH|]; apply Forall_forall; intros x [->|Hx]%insert_entry_keys; [by apply compare_gt|].
    rewrite Forall_forall in Hd; by apply Hd.
Qed.

Lemma assoc_insert_entry (e : string * A) l k :
  e.1 ∉ keys l -> assoc k (insert_entry e l) = assoc k (e :: l).
Proof.
  induction l as [|d l IH]; [done|]; simpl; intros [Hne Hn]%not_elem_of_cons.
  destruct e as [ke ve], d as [kd vd]; simpl in *.
  destruct (String.compare ke kd); try done; simpl; rewrite (IH Hn); simpl; repeat case_decide; congruence.
Qed.

Lemma sort_entries_spec l :
  NoDup (keys l) -> sorted (sort_entries l) /\ (forall k, assoc k (sort_entries l) = assoc k l) /\
  forall k, k ∈ keys (sort_entries l) <-> k ∈ keys l.
Proof.
  induction l as [|e l IH]; simpl; [intros _; split_and!; [constructor|done|done]|].
  intros [Hn Hd]%NoDup_cons; destruct (IH Hd) as (Hs & Ha & Hk).
  assert (e.1 ∉ keys (sort_entries l)) as Hn' by (by rewrite Hk).
  split_and!; [by apply insert_entry_sorted| |].
  - intros k; rewrite assoc_insert_entry by done; destruct e; simpl; by rewrite Ha.
  - intros k; by rewrite insert_entry_keys, elem_of_cons, Hk.
Qed.

Lemma sorted_nodup l : sorted l -> NoDup (keys l).
Proof.
  unfold sorted; generalize (keys l) as ks; induction ks as [|k ks IH]; intros Hs; [constructor|].
  apply StronglySorted_inv in Hs as [Hs Hf]; constructor; [|by apply IH].
  intros Hin; rewrite Forall_forall in Hf; by apply (key_lt_irrefl k), Hf.
Qed.

(** Inserting distinct keys one after the other rebuilds the list. *)
Lemma map_insert_fresh k v m : k ∉ keys m -> map_insert k v m = m ++ [(k, v)].
Proof.
  induction m as [|[k' v'] m IH]; simpl; [done|]; intros [H1 H2]%not_elem_of_cons.
  by rewrite decide_False, IH.
Qed.
Lemma foldl_insert m l :
  NoDup (keys m ++ keys l) -> foldl (fun m e => map_insert e.1 e.2 m) m l = m ++ l.
Proof.
  revert m; induction l as [|[k v] l IH]; intros m Hd; simpl; [by rewrite app_nil_r|].
  apply NoDup_app in Hd as (Hm & Hml & Hl); apply NoDup_cons in Hl as [Hkl Hl].
  assert (k ∉ keys m) as Hk by (intros Hk; apply (Hml k Hk); by left).
  rewrite map_insert_fresh by done; rewrite IH; [by rewrite <- app_assoc|].
  unfold keys; rewrite map_app, <- app_assoc; simpl; apply NoDup_app; split_and!; [done| |by apply NoDup_cons].
  intros x Hx; apply Hml; done.
Qed.

(** Sorted maps with the same entries are equal. *)
Lemma sorted_unique l1 l2 : sorted l1 -> sorted l2 -> (forall k, assoc k l1 = assoc k l2) -> l1 = l2.
Proof.
  revert l2; induction l1 as [|[k v] l1 IH]; intros l2 H1 H2 He.
  - destruct l2 as [|[k' v'] l2]; [done|]; specialize (He k'); simpl in He; by rewrite decide_True in He.
  - destruct l2 as [|[k' v'] l2]; [specialize (He k); simpl in He; by rewrite decide_True in He|].
    apply StronglySorted_inv in H1 as [H1 F1]; apply StronglySorted_inv in H2 as [H2 F2]; simpl in *.
    rewrite Forall_forall in F1, F2.
    assert (k = k') as <-.
    { pose proof (He k) as Hk; pose proof (He k') as Hk'; simpl in Hk, Hk'.
      rewrite (decide_True (P := k = k)) in Hk by done; rewrite (decide_True (P := k' = k')) in Hk' by done.
      destruct (decide (k = k')) as [|E1]; [done|]; destruct (decide (k' = k)) as [|E2]; [done|].
      symmetry in Hk; apply assoc_some in Hk; apply assoc_some in Hk'.
      exfalso; apply (key_lt_irrefl k), (key_lt_trans _ k'); [by apply F1|by apply F2]. }
    pose proof (He k) as Hk; simpl in Hk; rewrite !decide_True in Hk by done; injection Hk as <-; f_equal.
    apply IH; [done|done|]; intros x; specialize (He x); simpl in He; case_decide as Hx; [subst x|done].
    rewrite !assoc_none; [done|intros Hin; by apply (key_lt_irrefl k), F2|intros Hin; by apply (key_lt_irrefl k), F1].
Qed.
End Maps.

Lemma keys_map {A B} (f : A -> B) (l : list (string * A)) : keys (map (fun e => (e.1, f e.2)) l) = keys l.
Proof. unfold keys; by rewrite map_map. Qed.
Lemma assoc_map {A B} (f : A -> B) (l : list (string * A)) (k : string) :
  assoc k (map (fun e => (e.1, f e.2)) l) = option_map f (assoc k l).
Proof. induction l as [|[k' v] l IH]; simpl; [done|]; by case_decide. Qed.

(** ** Canonical values *)
Lemma wf_array (l : list json) : json_wf (JArray l) <-> Forall json_wf l.
Proof. simpl; induction l as [|j l IH]; simpl; [by split|]; rewrite Forall_cons, IH; done. Qed.
Lemma wf_object (l : list (string * json)) :
  json_wf (JObject l) <-> NoDup (keys l) /\ Forall (fun e => json_wf e.2) l.
Proof.
  simpl; unfold keys; apply and_iff_compat_l; induction l as [|e l IH]; simpl; [by split|]; rewrite Forall_cons, IH; done.
Qed.

(** The canonical object: sorted, with canonical members. *)
Lemma canonical_object (l : list (string * json)) :
  NoDup (keys l) ->
  exists m, canonical_json (JObject l) = JObject m /\ sorted m /\
    forall k, assoc k m = option_map canonical_json (assoc k l).
Proof.
  intros Hd; set (c := map (fun e => (e.1, canonical_json e.2)) l).
  destruct (sort_entries_spec c) as (Hs & Ha & _); [by unfold c; rewrite keys_map|].
  exists (sort_entries c); split_and!; [|done|intros k; by rewrite Ha, <- assoc_map].
  change (canonical_json (JObject l)) with (JObject (foldl (fun m e => map_insert e.1 e.2 m) [] (sort_entries c))).
  f_equal; apply foldl_insert; by apply sorted_nodup.
Qed.

Lemma query_child (a b : json) (s : step) (p : list step) :
  same_value a b -> match child s a with Some j => query p j | None => None end =
                    match child s b with Some j => query p j | None => None end.
Proof. intros H; exact (H (s :: p)). Qed.

Lemma same_value_child (a b x y : json) (s : step) :
  same_value a b -> child s a = Some x -> child s b = Some y -> same_value x y.
Proof. intros H Ha Hb p; pose proof (query_child a b s p H) as Hq; by rewrite Ha, Hb in Hq. Qed.

Lemma same_value_exists (a b : json) (s : step) :
  same_value a b -> (is_Some (child s a) <-> is_Some (child s b)).
Proof.
  intros H; pose proof (query_child a b s [] H) as Hq; simpl in Hq.
  destruct (child s a), (child s b); done.
Qed.

(** Canonicalisation keeps the value. *)
Lemma canonical_same (j : json) : json_wf j -> same_value (canonical_json j) j.
Proof.
  induction j as [| | | |l IH|l IH] using json_strong_ind; intros Hw; try done.
  - apply wf_array in Hw; intros [|s p]; [done|]; simpl; destruct s as [k|i]; [done|]; simpl.
    rewrite list_lookup_fmap; destruct (l !! i) as [x|] eqn:E; [|done]; simpl.
    rewrite Forall_lookup in IH, Hw; by apply (IH i x E), (Hw i x E).
  - apply wf_object in Hw as [Hd Hw]; destruct (canonical_object l Hd) as (m & -> & _ & Ha).
    intros [|s p]; [done|]; simpl; destruct s as [k|i]; [|done]; simpl; rewrite Ha.
    destruct (assoc k l) as [x|] eqn:E; [|done]; simpl.
    assert (exists e, e ∈ l /\ e.2 = x) as (e & He & <-).
    { clear -E; induction l as [|[k' v] l IHl]; simpl in *; [done|]; case_decide; simplify_eq.
      - exists (k', x); split; [by left|done].
      - destruct (IHl E) as (e & He & Hx); exists e; split; [by right|done]. }
    rewrite Forall_forall in IH, Hw; by apply (IH e He), (Hw e He).
Qed.

Lemma assoc_forall {A} (P : A -> Prop) (l : list (string * A)) (k : string) (v : A) :
  Forall (fun e => P e.2) l -> assoc k l = Some v -> P v.
Proof. induction 1 as [|[k' v'] l Hv Hl IH]; simpl; [done|]; case_decide; [by intros [= <-]|done]. Qed.

(** Equal values have equal canonical forms. *)
Lemma same_canonical (a b : json) : json_wf a -> json_wf b -> same_value a b -> canonical_json a = canonical_json b.
Proof.
  revert b; induction a as [|x|x|x|l IH|l IH] using json_strong_ind; intros b Ha Hb H;
    pose proof (H []) as H0; destruct b as [|y|y|y|m|m]; simpl in H0; simplify_eq; try done.
  - apply wf_array in Ha; apply wf_array in Hb; simpl; f_equal; apply list_eq; intros i.
    pose proof (same_value_exists _ _ (SIndex i) H) as He; simpl in He; rewrite !list_lookup_fmap.
    destruct (l !! i) as [x|] eqn:El, (m !! i) as [y|] eqn:Em; simpl; try done.
    + f_equal; rewrite Forall_lookup in IH, Ha, Hb; apply (IH i x El); [by eapply Ha|by eapply Hb|].
      by apply (same_value_child _ _ x y (SIndex i) H).
    + by destruct (proj1 He ltac:(by eexists)).
    + by destruct (proj2 He ltac:(by eexists)).
  - apply wf_object in Ha as [Da Wa]; apply wf_object in Hb as [Db Wb].
    destruct (canonical_object l Da) as (l' & -> & Sl & Al), (canonical_object m Db) as (m' & -> & Sm & Am).
    f_equal; apply sorted_unique; [done|done|]; intros k; rewrite Al, Am.
    pose proof (same_value_exists _ _ (SKey k) H) as He; simpl in He.
    destruct (assoc k l) as [x|] eqn:El, (assoc k m) as [y|] eqn:Em; simpl; try done.
    + f_equal; assert (json_wf x) as Wx by exact (assoc_forall json_wf l k x Wa El).
      assert (json_wf y) as Wy by exact (assoc_forall json_wf m k y Wb Em).
      refine (assoc_forall (fun x => forall b, json_wf x -> json_wf b -> same_value x b -> canonical_json x = canonical_json b)
        l k x IH El y Wx Wy _).
      by apply (same_value_child _ _ x y (SKey k) H).
    + by destruct (proj1 He ltac:(by eexists)).
    + by destruct (proj2 He ltac:(by eexists)).
Qed.

(** C26. Semantic hashes see the value and nothing else.  Two JSON values have
    the same canonical form exactly when they give the same answer at every
    path, that is, when they are equal up to the order of object members; so
    reordering keys never invalidates a cached resolution, and any other edit
    changes what is hashed.  The canonical form itself says the same as the
    value. *)
Theorem canonical_json_spec (a b : json) (Ha : json_wf a) (Hb : json_wf b) :
  (canonical_json a = canonical_json b <-> same_value a b) /\ same_value (canonical_json a) a.
Proof.
  split; [|by apply canonical_same]; split; [|by apply same_canonical].
  intros H p; rewrite <- (canonical_same a Ha p), <- (canonical_same b Hb p); by rewrite H.
Qed.

Lemma canonical_json_spec_witness :
  same_value (JObject [("b", JArray [JNull; JNumber "1"]); ("a", JBool true)])
             (JObject [("a", JBool true); ("b", JArray [JNull; JNumber "1"])]) /\
  ~ same_value (JArray [JNull; JBool true]) (JArray [JBool true; JNull]).
Proof.
  split.
  - apply canonical_json_spec; [| |by vm_compute]; simpl; split_and!; try done; by apply (bool_decide_unpack _).
  - intros H; apply canonical_json_spec in H; [by vm_compute in H|by simpl|by simpl].
Defined.

(** ** Environment names in an .npmrc *)

Definition dollar : Ascii.ascii := Ascii.ascii_of_nat 36.
Definition open_brace : Ascii.ascii := Ascii.ascii_of_nat 123.
Definition close_brace : Ascii.ascii := Ascii.ascii_of_nat 125.
Definition backslash : Ascii.ascii := Ascii.ascii_of_nat 92.

(** The text after the first ["${"]. *)
Fixpoint after_open (s : string) : option string :=
  match s with
  | String c ((String d r) as s') =>
      if Ascii.eqb c dollar && Ascii.eqb d open_brace then Some r else after_open s'
  | _ => None
  end.
(** The text before and after the first closing brace. *)
Fixpoint split_close (s : string) : option (string * string) :=
  match s with
  | EmptyString => None
  | String c r =>
      if Ascii.eqb c close_brace then Some (EmptyString, r)
      else match split_close r with Some (a, b) => Some (String c a, b) | None => None end
  end.
Fixpoint contains_char (p : Ascii.ascii -> bool) (s : string) : bool :=
  match s with EmptyString => false | String c s => p c || contains_char p s end.

Definition name_ok (name : string) : bool :=
  negb (bool_decide (name = EmptyString)) &&
  negb (contains_char (fun c => Ascii.eqb c dollar || Ascii.eqb c open_brace || Ascii.eqb c backslash) name).

(** The scanning loop; each turn consumes at least three characters. *)
Fixpoint env_names (fuel : nat) (s : string) : list string :=
  match fuel with
  | O => []
  | S fuel =>
      match after_open s with
      | None => []
      | Some rest =>
          match split_close rest with
          | None => []
          | Some (name, rest) => (if name_ok name then [name] else []) ++ env_names fuel rest
          end
      end
  end.
Definition referenced_env_names (text : result string io_error) : list string :=
  match text with Err _ => [] | Ok s => env_names (String.length s) s end.

(** ** What the scan for environment names finds *)
#[local] Arguments Ascii.eqb : simpl never.
#[local] Arguments dollar : simpl never.
#[local] Arguments open_brace : simpl never.
#[local] Arguments close_brace : simpl never.
Definition is_dollar (c : Ascii.ascii) : bool := Ascii.eqb c dollar.
Definition is_brace (c : Ascii.ascii) : bool := Ascii.eqb c close_brace.

(** A text made of pieces of plain text, each followed by a reference. *)
Fixpoint with_references (l : list (string * string)) (tail : string) : string :=
  match l with
  | [] => tail
  | (lit, name) :: l =>
      lit +:+ String dollar (String open_brace (name +:+ String close_brace (with_references l tail)))
  end.

Lemma after_open_lit (lit r : string) :
  contains_char is_dollar lit = false -> after_open (lit +:+ String dollar (String open_brace r)) = Some r.
Proof.
  induction lit as [|c lit IH]; simpl.
  - intros _; done.
  - intros [H1 H2]%orb_false_iff; unfold is_dollar in H1.
    destruct (lit +:+ String dollar (String open_brace r)) as [|d s] eqn:E; [by destruct lit|].
    cbn [after_open]; rewrite H1; cbn [andb]; by apply IH.
Qed.
Lemma after_open_none (s : string) : contains_char is_dollar s = false -> after_open s = None.
Proof.
  induction s as [|c s IH]; simpl; [done|]; intros [H1 H2]%orb_false_iff; unfold is_dollar in H1.
  destruct s as [|d s]; [done|]; rewrite H1; cbn [andb]; by apply IH.
Qed.
Lemma split_close_name (name r : string) :
  contains_char is_brace name = false -> split_close (name +:+ String close_brace r) = Some (name, r).
Proof.
  induction name as [|c name IH]; simpl; [done|]; intros [H1 H2]%orb_false_iff.
  unfold is_brace in H1; by rewrite H1, IH.
Qed.

Lemma env_names_spec (l : list (string * string)) (tail : string) (fuel : nat) :
  (length l < fuel)%nat ->
  Forall (fun p => contains_char is_dollar p.1 = false /\ contains_char is_brace p.2 = false) l ->
  contains_char is_dollar tail = false ->
  env_names fuel (with_references l tail) = filter (fun n => name_ok n) (map snd l).
Proof.
  intros Hf Hl Ht; revert fuel Hf; induction Hl as [|[lit name] l [H1 H2] Hl IH]; intros [|fuel] Hf;
    [simpl in Hf; lia| |simpl in Hf; lia|].
  - cbn [with_references env_names]; by rewrite after_open_none.
  - cbn [with_references env_names length] in *; rewrite after_open_lit, split_close_name by done.
    rewrite IH by lia; cbn [map snd]; rewrite filter_cons.
    destruct (name_ok name); [by rewrite decide_True by done|by rewrite decide_False by (intros [])].
Qed.

Lemma with_references_length (l : list (string * string)) (tail : string) :
  (length l * 3 + String.length tail <= String.length (with_references l tail))%nat.
Proof.
  assert (forall a b, String.length (a +:+ b) = (String.length a + String.length b)%nat) as Ha.
  { induction a as [|c a IH]; intros b; simpl; [done|]; by rewrite IH. }
  induction l as [|[lit name] l IH]; cbn [with_references length]; [simpl; lia|]; rewrite Ha; cbn [String.length]; rewrite Ha; cbn [String.length]; lia.
Qed.

(** ** The snapshot cache *)
Section SnapshotCache.
Context {K V : Type} `{EqDecision K}.

Definition MAX_ENTRIES : nat := 8.

(** A vector of (key, snapshot), oldest first. *)
Local Notation snapshot_cache := (list (K * V)).

Definition get (key : K) (entries : snapshot_cache) : option V :=
  snd <$> head (filter (fun e => e.1 = key) entries).

(** [iter_mut().find(..)] with the assignment, if there is such an entry. *)
Fixpoint replace_entry (key : K) (snapshot : V) (entries : snapshot_cache) : option snapshot_cache :=
  match entries with
  | [] => None
  | (k, v) :: entries =>
      if decide (k = key) then Some ((k, snapshot) :: entries)
      else match replace_entry key snapshot entries with Some l => Some ((k, v) :: l) | None => None end
  end.

Definition insert_entry_bounded (key : K) (snapshot : V) (entries : snapshot_cache) : snapshot_cache :=
  match replace_entry key snapshot entries with
  | Some entries => entries
  | None =>
      let entries := entries ++ [(key, snapshot)] in
      if decide (MAX_ENTRIES < length entries)%nat then tail entries else entries
  end.

(** The cache after a history of insertions, oldest first. *)
Definition replay (history : list (K * V)) : snapshot_cache :=
  foldl (fun c e => insert_entry_bounded e.1 e.2 c) [] history.

(** The reference: the last snapshot inserted under a key. *)
Definition last_inserted (key : K) (history : list (K * V)) : option V :=
  snd <$> last (filter (fun e => e.1 = key) history).

Definition cache_ok (c : snapshot_cache) : Prop := NoDup (map fst c) /\ (length c <= MAX_ENTRIES)%nat.

Lemma get_cons (key : K) (e : K * V) (c : snapshot_cache) :
  get key (e :: c) = if decide (e.1 = key) then Some e.2 else get key c.
Proof. unfold get; rewrite filter_cons; by case_decide. Qed.
Lemma get_none (key : K) (c : snapshot_cache) : get key c = None <-> key ∉ map fst c.
Proof.
  induction c as [|[k v] c IH]; [by split; [intros _; apply not_elem_of_nil|]|]; rewrite get_cons; simpl.
  rewrite not_elem_of_cons; case_decide; [naive_solver|]; rewrite IH; naive_solver.
Qed.
Lemma get_app (key : K) (c d : snapshot_cache) :
  get key (c ++ d) = match get key c with Some v => Some v | None => get key d end.
Proof. induction c as [|e c IH]; [done|]; simpl; rewrite !get_cons; by case_decide. Qed.

Lemma replace_spec (key : K) (v : V) (c : snapshot_cache) :
  match replace_entry key v c with
  | Some d => map fst d = map fst c /\ key ∈ map fst c /\
              forall k, get k d = if decide (k = key) then Some v else get k c
  | None => key ∉ map fst c
  end.
Proof.
  induction c as [|[k0 v0] c IH]; simpl; [apply not_elem_of_nil|]; case_decide as H.
  - subst; split_and!; [done|by left|]; intros k; rewrite !get_cons; simpl; repeat case_decide; congruence.
  - destruct (replace_entry key v c) as [d|]; [destruct IH as (H1 & H2 & H3)|by apply not_elem_of_cons].
    split_and!; [simpl; by rewrite H1|by right|]; intros k; rewrite !get_cons; simpl; repeat case_decide; try congruence;
      rewrite H3; by repeat case_decide.
Qed.

(** An insertion: the bound, the keys, and what every lookup answers after. *)
Lemma insert_spec (key : K) (v : V) (c : snapshot_cache) :
  cache_ok c ->
  let d := insert_entry_bounded key v c in
  cache_ok d /\ get key d = Some v /\
  (forall k, k <> key -> get k d = get k c \/
     (get k d = None /\ length c = MAX_ENTRIES /\ get key c = None /\ head (map fst c) = Some k)).
Proof.
  intros [Hd Hl] d; unfold d, insert_entry_bounded; pose proof (replace_spec key v c) as Hr; destruct (replace_entry key v c) as [e|].
  - destruct Hr as (Hk & _ & Hg); split_and!.
    + split; [by rewrite Hk|]; by rewrite <- (length_map fst), Hk, length_map.
    + by rewrite Hg, decide_True.
    + intros k Hn; left; by rewrite Hg, decide_False.
  - assert (NoDup (map fst (c ++ [(key, v)]))) as Hnd.
    { rewrite map_app; apply NoDup_app; split_and!; [done| |apply NoDup_singleton].
      intros k Hk ->%list_elem_of_singleton; done. }
    assert (forall k, get k (c ++ [(key, v)]) = if decide (k = key) then Some v else get k c) as Hg.
    { intros k; rewrite get_app, get_cons; simpl; case_decide as E.
      - subst; by rewrite (proj2 (get_none _ _) Hr), decide_True.
      - rewrite decide_False by done; by destruct (get k c). }
    case_decide as Hlen; rewrite length_app in Hlen; simpl in Hlen.
    + destruct c as [|[k0 v0] c]; [unfold MAX_ENTRIES in *; simpl in *; lia|].
      assert (length ((k0, v0) :: c) = MAX_ENTRIES) as Hm by (unfold MAX_ENTRIES in *; simpl in *; lia).
      simpl in Hr; apply not_elem_of_cons in Hr as [Hr0 Hr].
      simpl in Hnd; apply NoDup_cons in Hnd as [Hn0 Hnd]; simpl tail; split_and!.
      * split; [done|]; simpl in Hm |- *; rewrite length_app; simpl; lia.
      * specialize (Hg key); simpl in Hg; rewrite get_cons, decide_False in Hg by done; rewrite Hg; by rewrite decide_True.
      * intros k Hk; destruct (decide (k = k0)) as [->|E].
        -- right; split_and!; [by apply get_none|done| |done]; apply get_none; by apply not_elem_of_cons.
        -- left; specialize (Hg k); simpl in Hg; rewrite get_cons, decide_False in Hg by (simpl; congruence).
           by rewrite Hg, decide_False.
    + split_and!; [split; [done|rewrite length_app; simpl; lia]|by rewrite Hg, decide_True|].
      intros k Hk; left; by rewrite Hg, decide_False.
Qed.

Lemma last_inserted_snoc (k : K) (h : list (K * V)) (e : K * V) :
  last_inserted k (h ++ [e]) = if decide (e.1 = k) then Some e.2 else last_inserted k h.
Proof.
  unfold last_inserted; rewrite filter_app, filter_cons, filter_nil; case_decide; [by rewrite last_snoc|].
  by rewrite app_nil_r.
Qed.
Lemma replay_snoc (h : list (K * V)) (e : K * V) : replay (h ++ [e]) = insert_entry_bounded e.1 e.2 (replay h).
Proof. unfold replay; by rewrite foldl_app. Qed.
Lemma replay_ok (h : list (K * V)) : cache_ok (replay h).
Proof.
  induction h as [|e h IH] using rev_ind; [split; [constructor|simpl; unfold MAX_ENTRIES; lia]|].
  rewrite replay_snoc; by apply insert_spec.
Qed.
Lemma replay_sound (h : list (K * V)) (k : K) (v : V) : get k (replay h) = Some v -> last_inserted k h = Some v.
Proof.
  induction h as [|e h IH] using rev_ind; [done|]; rewrite replay_snoc, last_inserted_snoc.
  destruct (insert_spec e.1 e.2 (replay h) (replay_ok h)) as (_ & Hk & Ho); case_decide as E.
  - subst; by rewrite Hk.
  - destruct (Ho k) as [->|(-> & _)]; [congruence|done|done].
Qed.
Lemma replay_keys (h : list (K * V)) (k : K) : k ∈ map fst (replay h) -> k ∈ map fst h.
Proof.
  induction h as [|e h IH] using rev_ind; [done|]; rewrite replay_snoc, map_app; simpl; intros H.
  destruct (decide (e.1 = k)) as [->|E]; [apply elem_of_app; right; by left|]; apply elem_of_app; left; apply IH.
  destruct (insert_spec e.1 e.2 (replay h) (replay_ok h)) as (_ & _ & Ho).
  destruct (get k (insert_entry_bounded e.1 e.2 (replay h))) as [v|] eqn:Eg; [|by apply get_none in Eg].
  destruct (decide (k ∈ map fst (replay h))) as [|Hn]; [done|]; apply get_none in Hn.
  destruct (Ho k) as [Hc|(Hc & _)]; congruence.
Qed.

(** Nothing is evicted while the history names at most [MAX_ENTRIES] keys. *)
Lemma replay_complete (h : list (K * V)) (keys : list K) (k : K) :
  map fst h ⊆ keys -> (length keys <= MAX_ENTRIES)%nat -> get k (replay h) = last_inserted k h.
Proof.
  intros Hs Hl; induction h as [|e h IH] using rev_ind; [done|]; rewrite replay_snoc, last_inserted_snoc.
  rewrite map_app in Hs; simpl in Hs; assert (map fst h ⊆ keys) as Hs' by set_solver; specialize (IH Hs').
  destruct (insert_spec e.1 e.2 (replay h) (replay_ok h)) as (_ & Hk & Ho); case_decide as E; [by subst|].
  destruct (Ho k) as [->|(_ & Hc & Hn & _)]; [congruence|done|]; exfalso; apply get_none in Hn.
  assert (NoDup (e.1 :: map fst (replay h))) as Hd by (apply NoDup_cons; split; [done|apply replay_ok]).
  assert (e.1 :: map fst (replay h) ⊆+ keys) as Hsub.
  { apply NoDup_submseteq; [done|]; intros x [->|Hx]%elem_of_cons; [set_solver|]; apply replay_keys in Hx; set_solver. }
  apply submseteq_length in Hsub; simpl in Hsub; rewrite length_map, Hc in Hsub; lia.
Qed.

(** The snapshot cache is a bounded part of the last-writer map.  After any
    history of insertions it holds at most eight snapshots under distinct keys;
    whatever a lookup returns is the snapshot inserted last under that key, so a
    stale one is never served; the newest insertion is always found; a single
    insertion drops at most one other key, the oldest one, and only when the
    cache is full and the key is new; and as long as at most eight keys are in
    use the cache answers exactly as an unbounded map would. *)
Theorem snapshot_cache_refines (h : list (K * V)) (key : K) (snapshot : V) :
  (length (replay h) <= MAX_ENTRIES)%nat /\ NoDup (map fst (replay h)) /\
  (forall k v, get k (replay h) = Some v -> last_inserted k h = Some v) /\
  get key (insert_entry_bounded key snapshot (replay h)) = Some snapshot /\
  (forall k, k <> key ->
     get k (insert_entry_bounded key snapshot (replay h)) = get k (replay h) \/
     (get k (insert_entry_bounded key snapshot (replay h)) = None /\ length (replay h) = MAX_ENTRIES /\
      get key (replay h) = None /\ head (map fst (replay h)) = Some k)) /\
  (forall keys k, map fst h ⊆ keys -> (length keys <= MAX_ENTRIES)%nat -> get k (replay h) = last_inserted k h).
Proof.
  destruct (replay_ok h) as [Hd Hl], (insert_spec key snapshot (replay h) (replay_ok h)) as (_ & Hk & Ho).
  split_and!; try done; [apply replay_sound|intros keys k; by apply replay_complete].
Qed.
End SnapshotCache.

Lemma snapshot_cache_refines_witness :
  get 0%Z (replay [(0, "a"); (1, "b"); (0, "c")]) = Some "c" /\
  length (replay (map (fun i => (Z.of_nat i, i)) (seq 0 20))) = 8%nat /\
  get 3%Z (replay (map (fun i => (Z.of_nat i, i)) (seq 0 11))) = Some 3%nat.
Proof.
  split_and!; [|by vm_compute|by vm_compute].
  rewrite (proj2 (proj2 (proj2 (proj2 (proj2
    (snapshot_cache_refines [(0, "a"); (1, "b"); (0, "c")] 0 "d"))))) [0; 1] 0); [done| |by vm_compute; lia].
  intros x; simpl; set_solver.
Defined.
