(* ===== verification/NpmManifest.v ===== *)
(** * NpmManifest: the inputs of a resolver stack (src/npm_cache.rs).

    The credential-free identity of the npm configuration, the probes of files,
    directories and the environment taken while a resolver stack is built, the
    check that decides whether a published stack may be reused, and the key of
    its snapshot.  The workspace discovery, the parsed npm configuration, URL
    handling, JSON text and the hash function belong to libraries and are
    parameters; the operating system is a record of its answers. *)
From Stdlib Require Import Sorted.
From stdpp Require Import sorting.
From S2P Require Import Prelude Errors Text Options Paths Vectors NpmCache.
Local Open Scope Z_scope.

(** ** The order of paths *)
Definition component_compare (a b : component) : comparison :=
  let rank c := match c with RootDir => 0 | CurDir => 1 | ParentDir => 2 | Normal _ => 3 end in
  match a, b with Normal x, Normal y => String.compare x y | _, _ => rank a ?= rank b end.
Fixpoint components_compare (a b : list component) : comparison :=
  match a, b with
  | [], [] => Eq
  | [], _ => Lt
  | _, [] => Gt
  | x :: a, y :: b => match component_compare x y with Eq => components_compare a b | c => c end
  end.
Definition path_greater (a b : path) : bool :=
  match components_compare (components a) (components b) with Gt => true | _ => false end.
(** Paths are equal when their components are. *)
Definition path_eq (a b : path) : bool := bool_decide (components a = components b).

Fixpoint ancestors_fuel (fuel : nat) (p : path) : list path :=
  p :: match fuel, parent p with S fuel, Some q => ancestors_fuel fuel q | _, _ => [] end.
(** [Path::ancestors]: as many parents as there are components. *)
Definition ancestors (p : path) : list path := ancestors_fuel (length (components p)) p.

(** ** Text: [rsplit_once] *)
(** The part after the last at sign, or all of it. *)
Fixpoint after_last_at (s : string) : option string :=
  match s with
  | EmptyString => None
  | String c s =>
      match after_last_at s with
      | Some r => Some r
      | None => if Ascii.eqb c (Ascii.ascii_of_nat 64) then Some s else None
      end
  end.

(** ** The npm configuration without its credentials *)

(** [Vec::dedup] on text *)
Definition dedup (l : list string) : list string := dedup_by (fun a b => bool_decide (a = b)) l.
Definition sort_strings (l : list string) : list string := merge_sort String.le l.

Section Npmrc.
Context (url registry_config : Type) `{EqDecision url} `{EqDecision registry_config}.
(** The url crate: parsing, the parts of a URL, and a URL without its user
    information. *)
Context (parse : string -> option url) (username : url -> string) (password : url -> option string)
  (without_userinfo : url -> url) (url_text : url -> string).
(** [host_str().is_some()] *)
Context (has_host : url -> bool).
(** A registry's settings: [has_auth()], [certfile] and [keyfile]. *)
Context (has_auth : registry_config -> bool) (certfile keyfile : registry_config -> option string).

Inductive replace_registry_host := ReplNpmJs | ReplNever | ReplAlways | ReplHostname (h : string) | ReplUrl (u : url).

(** [ResolvedNpmRc]; [scopes] and [registry_configs] are hash maps, listed in
    iteration order. *)
Record npmrc := Npmrc {
  n_default_url : url; n_default_config : registry_config;
  n_scopes : list (string * (url * registry_config));
  n_registry_configs : list (string * registry_config);
  n_replace_host : replace_registry_host;
  n_min_release_age_days : option Z; n_no_downgrade : bool; n_ignore_after_minutes : option Z;
  n_trust_exclude : list string
}.

Record npm_config_identity := NpmConfigIdentity {
  ni_default_registry : string; ni_scoped_registries : list (string * string); ni_registry_configs : list string;
  ni_replace_registry_host : string; ni_min_release_age_days : option Z; ni_no_downgrade : bool;
  ni_ignore_after_minutes : option Z; ni_trust_exclude : list string
}.

Definition is_some {A} (o : option A) : bool := match o with Some _ => true | None => false end.

Definition registry_config_has_sensitive (c : registry_config) : bool := has_auth c || is_some (certfile c) || is_some (keyfile c).
Definition url_has_userinfo (u : url) : bool :=
  negb (bool_decide (username u = EmptyString)) || is_some (password u).

Definition at_sign : Ascii.ascii := Ascii.ascii_of_nat 64.
Definition colon : Ascii.ascii := Ascii.ascii_of_nat 58.

(** [key] as a URL: a leading [//] gets a scheme. *)
Definition key_candidate (key : string) : string :=
  match key with
  | String a (String b _) => if Ascii.eqb a slash && Ascii.eqb b slash then "https:" +:+ key else key
  | _ => key
  end.
(** The text after the first ["://"]. *)
Fixpoint after_scheme (s : string) : option string :=
  match s with
  | String a ((String b (String c r)) as s') =>
      if Ascii.eqb a colon && Ascii.eqb b slash && Ascii.eqb c slash then Some r else after_scheme s'
  | _ => None
  end.

Definition registry_config_key_has_userinfo (key : string) : bool :=
  let candidate := key_candidate key in
  match parse candidate with
  | Some u => url_has_userinfo u
  | None =>
      match after_scheme candidate with
      | Some rest => is_some_and (head (segments rest)) (contains_char (Ascii.eqb at_sign))
      | None => false
      end
  end.

Definition public_registry_url (u : url) : string := url_text (without_userinfo u).

Definition public_registry_config_key (key : string) : string :=
  let candidate := key_candidate key in
  match parse candidate with
  | Some u => public_registry_url u
  | None => if contains_char (Ascii.eqb at_sign) candidate then "<redacted-registry>" else candidate
  end.

Definition replace_registry_host_identity (r : replace_registry_host) : string :=
  match r with
  | ReplNpmJs => "npmjs" | ReplNever => "never" | ReplAlways => "always"
  | ReplHostname h => "hostname:" +:+ h
  | ReplUrl u => "url:" +:+ public_registry_url u
  end.

Definition npm_auth_presence (rc : npmrc) : bool :=
  registry_config_has_sensitive (n_default_config rc) || url_has_userinfo (n_default_url rc) ||
  existsb (fun s => registry_config_has_sensitive s.2.2 || url_has_userinfo s.2.1) (n_scopes rc) ||
  existsb (fun c => registry_config_has_sensitive c.2 || registry_config_key_has_userinfo c.1) (n_registry_configs rc) ||
  match n_replace_host rc with ReplUrl u => url_has_userinfo u | _ => false end.

(** [npm_config_fingerprint]; scope names are distinct, so sorting the pairs is
    sorting by name. *)
Definition npm_config_fingerprint (rc : npmrc) : npm_config_identity * bool :=
  (NpmConfigIdentity (public_registry_url (n_default_url rc))
     (sort_entries (map (fun s => (s.1, public_registry_url s.2.1)) (n_scopes rc)))
     (sort_strings (map (fun c => public_registry_config_key c.1) (n_registry_configs rc)))
     (replace_registry_host_identity (n_replace_host rc)) (n_min_release_age_days rc) (n_no_downgrade rc)
     (n_ignore_after_minutes rc) (dedup (sort_strings (n_trust_exclude rc))),
   npm_auth_presence rc).


#[local] Instance replace_registry_host_eq_dec : EqDecision replace_registry_host.
Proof. solve_decision. Defined.

(** [npm_sensitive_state_equal]: the maps are compared as maps. *)
Definition npm_sensitive_state_equal (l r : npmrc) : bool :=
  bool_decide (npm_auth_presence l = npm_auth_presence r) &&
  bool_decide ((n_default_url l, n_default_config l) = (n_default_url r, n_default_config r)) &&
  bool_decide (n_scopes l ≡ₚ n_scopes r) &&
  bool_decide (n_registry_configs l ≡ₚ n_registry_configs r) &&
  bool_decide (n_replace_host l = n_replace_host r).

(** ** What the operating system answers *)
Record file_metadata := FileMetadata {
  md_is_symlink : bool; md_len : Z;
  md_modified : option Z (* nanoseconds since the epoch *)
}.
Record machine := Machine {
  m_var : string -> option string; (* [std::env::var], [None] unless Ok *)
  m_var_os : string -> option string;
  m_current_dir : option path;
  m_home_dir : option path;
  m_canonicalize : path -> option path;
  m_read : path -> option string;
  m_read_to_string : path -> result string io_error;
  m_metadata : path -> option file_metadata;
  m_symlink_metadata : path -> option file_metadata;
  m_read_link : path -> option path
}.

(** The hasher: of a byte string, and of the fields of a path probe. *)
Context (hash_bytes : string -> Z)
  (hash_probe : bool -> Z -> option Z -> option path -> option path -> option (Z * Z) -> Z).

Definition absolute_path (m : machine) (p : path) : path :=
  if is_absolute p then p else join (default "." (m_current_dir m)) p.

Definition canonical_path (m : machine) (p : path) : path :=
  match m_canonicalize m p with
  | Some p => p
  | None =>
      let absolute := absolute_path m p in
      match file_name absolute with
      | None => absolute
      | Some name =>
          match (parent absolute ≫= m_canonicalize m) with
          | Some dir => join dir name
          | None => absolute
          end
      end
  end.

Definition root_node_modules_path_equal (m : machine) (l r : option path) : bool :=
  match canonical_path m <$> l, canonical_path m <$> r with
  | Some a, Some b => path_eq a b
  | None, None => true
  | _, _ => false
  end.

Definition meta_fingerprint (md : file_metadata) : option Z :=
  match md_modified md with Some t => if 0 <=? t then Some (t mod 2 ^ 64) else None | None => None end.
Definition text_fingerprint (b : string) : Z * Z := (hash_bytes b, Z.of_nat (String.length b)).
Definition content_fingerprint (m : machine) (p : path) : option (Z * Z) := text_fingerprint <$> m_read m p.
Definition metadata_fingerprint (m : machine) (p : path) : option (Z * Z) :=
  match m_metadata m p with
  | Some md => match meta_fingerprint md with Some t => Some (t, md_len md) | None => None end
  | None => None
  end.
Definition path_probe_fingerprint (m : machine) (p : path) (target : option (Z * Z)) : option (Z * Z) :=
  match m_symlink_metadata m p with
  | Some link =>
      Some (hash_probe (md_is_symlink link) (md_len link) (meta_fingerprint link) (m_read_link m p)
              (m_canonicalize m p) target,
            match target with Some (_, length) => length | None => 0 end)
  | None => None
  end.

Inductive probe_kind := Content | Metadata.
#[local] Instance probe_kind_eq_dec : EqDecision probe_kind.
Proof. solve_decision. Defined.

Record file_probe := FileProbe { fp_path : path; fp_kind : probe_kind; fp_fingerprint : option (Z * Z) }.
Record directory_probe := DirectoryProbe { dp_path : path; dp_fingerprint : option (Z * Z) }.
Record root_path_probe := RootPathProbe { rp_path : path; rp_identity : path }.
Record semantic_fingerprint := SemanticFingerprint { sf_path : path; sf_hash : Z }.

Definition current_file_fingerprint (m : machine) (p : path) (k : probe_kind) : option (Z * Z) :=
  path_probe_fingerprint m p
    match k with Content => content_fingerprint m p | Metadata => metadata_fingerprint m p end.
Definition current_directory_fingerprint (m : machine) (p : path) : option (Z * Z) :=
  path_probe_fingerprint m p (metadata_fingerprint m p).
Definition file_probe_new (m : machine) (p : path) (k : probe_kind) : file_probe :=
  let p := absolute_path m p in FileProbe p k (current_file_fingerprint m p k).

Definition normalize_paths (l : list path) : list path := dedup_by path_eq (sort_by path_greater l).
Definition normalize_semantic_fingerprints (l : list semantic_fingerprint) : list semantic_fingerprint :=
  dedup_by (fun a b => path_eq (sf_path a) (sf_path b)) (sort_by (fun a b => path_greater (sf_path a) (sf_path b)) l).

Definition kind_greater (a b : probe_kind) : bool := match a, b with Metadata, Content => true | _, _ => false end.
Definition probe_greater (a b : file_probe) : bool :=
  match components_compare (components (fp_path a)) (components (fp_path b)) with
  | Gt => true | Lt => false | Eq => kind_greater (fp_kind a) (fp_kind b)
  end.
Definition probe_eq (a b : file_probe) : bool :=
  path_eq (fp_path a) (fp_path b) && bool_decide (fp_kind a = fp_kind b).
Definition normalize_file_probes (l : list file_probe) : list file_probe := dedup_by probe_eq (sort_by probe_greater l).

(** ** The environment *)
Record environment_value_probe := EnvironmentValueProbe { ev_name : string; ev_fingerprint : option (Z * Z) }.
Record environment_probe := EnvironmentProbe {
  ep_deno_dir : option string;
  ep_no_package_json : bool;
  ep_jsr_url : option string;
  ep_jsr_url_has_auth : bool;
  ep_registry : option string;
  ep_registry_has_auth : bool;
  ep_replace_registry_host : option string;
  ep_replace_registry_host_has_auth : bool;
  ep_min_release_age : option string;
  ep_global_npmrc : option path;
  ep_referenced_npmrc_vars : list environment_value_probe
}.
#[local] Instance environment_probe_eq_dec : EqDecision environment_probe.
Proof. assert (EqDecision environment_value_probe) by solve_decision. solve_decision. Defined.

(** The first of the names that is set. *)
Definition env_scalar_identity (m : machine) (names : list string) : option string := head (omap (m_var m) names).

Definition env_url_identity (m : machine) (names : list string) : option string :=
  match env_scalar_identity m names with
  | Some value => Some match parse value with Some u => public_registry_url u | None => "<invalid>" end
  | None => None
  end.
Definition env_url_has_userinfo (m : machine) (names : list string) : bool :=
  match env_scalar_identity m names with
  | Some value => is_some_and (parse value) url_has_userinfo
  | None => false
  end.

(** [Url::parse(..).ok().filter(|url| url.host_str().is_some())] *)
Definition parse_with_host (value : string) : option url :=
  match parse value with Some u => if has_host u then Some u else None | None => None end.

Definition env_replace_registry_hostname_identity (value : string) : string :=
  match parse_with_host ("https://" +:+ value) with
  | Some u => public_registry_url u
  | None => default value (after_last_at value)
  end.

Definition REPLACE_REGISTRY_HOST : list string :=
  ["NPM_CONFIG_REPLACE_REGISTRY_HOST"; "npm_config_replace_registry_host"].

Definition env_replace_registry_host_identity (m : machine) : option string :=
  match env_scalar_identity m REPLACE_REGISTRY_HOST with
  | None => None
  | Some value =>
      let value := trim value in
      Some (if decide (value = EmptyString \/ value = "npmjs" \/ value = "never" \/ value = "always") then value
            else match parse_with_host value with
                 | Some u => "url:" +:+ public_registry_url u
                 | None => "hostname:" +:+ env_replace_registry_hostname_identity value
                 end)
  end.
Definition env_replace_registry_host_has_auth (m : machine) : bool :=
  match env_scalar_identity m REPLACE_REGISTRY_HOST with
  | None => false
  | Some value => is_some_and (parse_with_host (trim value)) url_has_userinfo
  end.

Definition env_value_fingerprint (m : machine) (name : string) : option (Z * Z) := text_fingerprint <$> m_var m name.
Definition global_npmrc_path (m : machine) : option path :=
  (fun home => absolute_path m (join home ".npmrc")) <$> m_home_dir m.

(** The fields both probes of the environment read the same way. *)
Definition environment_with (m : machine) (global_npmrc : option path) (vars : list environment_value_probe)
  : environment_probe :=
  EnvironmentProbe (m_var_os m "DENO_DIR") (bool_decide (m_var_os m "DENO_NO_PACKAGE_JSON" = Some "1"))
    (env_url_identity m ["JSR_URL"]) (env_url_has_userinfo m ["JSR_URL"])
    (env_url_identity m ["NPM_CONFIG_REGISTRY"; "npm_config_registry"])
    (env_url_has_userinfo m ["NPM_CONFIG_REGISTRY"; "npm_config_registry"])
    (env_replace_registry_host_identity m) (env_replace_registry_host_has_auth m)
    (env_scalar_identity m ["NPM_CONFIG_MIN_RELEASE_AGE"; "npm_config_min_release_age"])
    global_npmrc vars.

Definition environment_probe_new (m : machine) (files : list file_probe) (npmrc_has_auth : bool)
    (global_npmrc : option path) : environment_probe :=
  environment_with m global_npmrc
    (if npmrc_has_auth then []
     else
       let names := concat (map (fun p => referenced_env_names (m_read_to_string m (fp_path p)))
         (filter (fun p => fp_kind p = Content /\ file_name (fp_path p) = Some ".npmrc") files)) in
       sort_by (fun a b => match String.compare (ev_name a) (ev_name b) with Gt => true | _ => false end)
         (map (fun name => EnvironmentValueProbe name (env_value_fingerprint m name)) (dedup (sort_strings names)))).

Definition current_environment_probe (m : machine) (baseline : environment_probe) : environment_probe :=
  environment_with m (global_npmrc_path m)
    (map (fun p => EnvironmentValueProbe (ev_name p) (env_value_fingerprint m (ev_name p)))
       (ep_referenced_npmrc_vars baseline)).

(** Options of paths are compared by components. *)
Definition path_option_eq (a b : option path) : bool := bool_decide (components <$> a = components <$> b).
Definition without_global_npmrc (e : environment_probe) : environment_probe :=
  EnvironmentProbe (ep_deno_dir e) (ep_no_package_json e) (ep_jsr_url e) (ep_jsr_url_has_auth e) (ep_registry e)
    (ep_registry_has_auth e) (ep_replace_registry_host e) (ep_replace_registry_host_has_auth e)
    (ep_min_release_age e) None (ep_referenced_npmrc_vars e).
Definition environment_eq (a b : environment_probe) : bool :=
  bool_decide (without_global_npmrc a = without_global_npmrc b) &&
  path_option_eq (ep_global_npmrc a) (ep_global_npmrc b).

(** ** The manifest *)
Record resolver_input_identity := ResolverInputIdentity {
  ri_initial_cwd : path; ri_workspace_root : path; ri_discovery_dir : path;
  ri_members : list path; ri_links : list path;
  ri_configs : list semantic_fingerprint; ri_external_configs : list semantic_fingerprint;
  ri_packages : list semantic_fingerprint;
  ri_npmrc : npm_config_identity;
  ri_lockfile : option path; ri_lockfile_present : bool; ri_byonm : bool
}.
Record resolver_input_probe := ResolverInputProbe {
  rb_files : list file_probe; rb_byonm_node_modules : list directory_probe;
  rb_managed_root_node_modules : option root_path_probe;
  rb_npmrc_has_auth : bool; rb_environment : environment_probe
}.
Record resolver_input_manifest := ResolverInputManifest { mf_identity : resolver_input_identity; mf_probe : resolver_input_probe }.

#[local] Instance npm_config_identity_eq_dec : EqDecision npm_config_identity.
Proof. solve_decision. Defined.

(** Equality of identities, paths by components. *)
Definition fingerprints_view (l : list semantic_fingerprint) : list (list component * Z) :=
  map (fun f => (components (sf_path f), sf_hash f)) l.
Definition identity_eq (a b : resolver_input_identity) : bool :=
  path_eq (ri_initial_cwd a) (ri_initial_cwd b) && path_eq (ri_workspace_root a) (ri_workspace_root b) &&
  path_eq (ri_discovery_dir a) (ri_discovery_dir b) &&
  bool_decide (map components (ri_members a) = map components (ri_members b)) &&
  bool_decide (map components (ri_links a) = map components (ri_links b)) &&
  bool_decide (fingerprints_view (ri_configs a) = fingerprints_view (ri_configs b)) &&
  bool_decide (fingerprints_view (ri_external_configs a) = fingerprints_view (ri_external_configs b)) &&
  bool_decide (fingerprints_view (ri_packages a) = fingerprints_view (ri_packages b)) &&
  bool_decide (ri_npmrc a = ri_npmrc b) && path_option_eq (ri_lockfile a) (ri_lockfile b) &&
  eqb (ri_lockfile_present a) (ri_lockfile_present b) && eqb (ri_byonm a) (ri_byonm b).

(** What workspace discovery answers; a configuration's JSON may fail to
    serialize.  [wk_packages] chains the members' and the links' packages. *)
Record deno_json := DenoJson {
  dj_path : option path; dj_json : result json dyn_error;
  dj_import_map_path : result (option path) dyn_error;
  dj_import_map_value : result (option json) dyn_error
}.
Record workspace := Workspace {
  wk_resolver_deno_jsons : list deno_json;
  wk_packages : list (path * result json dyn_error);
  wk_config_folders : list (option path); wk_link_folders : list (option path);
  wk_lockfile_path : result (option path) dyn_error;
  wk_dir_path : path; wk_root_dir_path : path
}.
Record workspace_resolver_inputs := WorkspaceResolverInputs {
  wi_npmrc_path : option path; wi_byonm : bool; wi_node_modules_path : option path; wi_managed_root_path : option path
}.

(** JSON text. *)
Context (to_vec : json -> result string dyn_error).

Definition semantic_hash (value : result json dyn_error) : result Z dyn_error :=
  let? value := value in
  let? bytes := to_vec (canonical_json value) in
  Ok (hash_bytes bytes).

Fixpoint config_fingerprints (m : machine) (l : list deno_json) : result (list semantic_fingerprint) dyn_error :=
  match l with
  | [] => Ok []
  | c :: l =>
      match dj_path c with
      | None => config_fingerprints m l
      | Some p =>
          let? h := semantic_hash (dj_json c) in
          let? rest := config_fingerprints m l in
          Ok (SemanticFingerprint (canonical_path m p) h :: rest)
      end
  end.

(** The paths to probe and the fingerprints of the import maps. *)
Fixpoint external_fingerprints (m : machine) (l : list deno_json)
  : result (list path * list semantic_fingerprint) dyn_error :=
  match l with
  | [] => Ok ([], [])
  | c :: l =>
      let? p := dj_import_map_path c in
      match p with
      | None => external_fingerprints m l
      | Some p =>
          let? value := dj_import_map_value c in
          match value with
          | None =>
              let? rest := external_fingerprints m l in
              Ok (absolute_path m p :: rest.1, rest.2)
          | Some value =>
              let? h := semantic_hash (Ok value) in
              let? rest := external_fingerprints m l in
              Ok (absolute_path m p :: rest.1, SemanticFingerprint (canonical_path m p) h :: rest.2)
          end
      end
  end.

Fixpoint package_fingerprints (m : machine) (l : list (path * result json dyn_error))
  : result (list semantic_fingerprint) dyn_error :=
  match l with
  | [] => Ok []
  | (p, value) :: l =>
      let? h := semantic_hash value in
      let? rest := package_fingerprints m l in
      Ok (SemanticFingerprint (canonical_path m p) h :: rest)
  end.

Definition discovery_candidate_dirs (m : machine) (initial_cwd : path) (start_paths : list path) : list path :=
  ancestors (canonical_path m initial_cwd) ++ concat (map (fun p => ancestors (canonical_path m p)) start_paths).
Definition collect_byonm_node_modules_paths (m : machine) (scope_dirs : list path) : list path :=
  concat (map (fun dir => map (fun a => absolute_path m (join a "node_modules")) (ancestors dir)) scope_dirs).

Definition MANIFEST_CANDIDATE_FILE_NAMES : list string := ["deno.json"; "deno.jsonc"; "package.json"].
(** What is probed in one directory. *)
Definition candidates (npmrc_kind : probe_kind) (dir : path) : list (path * probe_kind) :=
  map (fun name => (join dir name, Content)) MANIFEST_CANDIDATE_FILE_NAMES ++
  [(join dir "package.json", Content); (join dir ".npmrc", npmrc_kind)].

(** [path.exists()] *)
Definition exists_ (m : machine) (p : path) : bool := is_some (m_metadata m p).
Definition folder_paths (m : machine) (l : list (option path)) : list path :=
  normalize_paths (map (canonical_path m) (omap (fun p => p) l)).

(** The directories in which configuration may appear. *)
Definition scope_candidates (m : machine) (initial_cwd : path) (start_paths : list path) (wk : workspace)
    (members links : list path) (entries : list semantic_fingerprint) : list path :=
  [wk_dir_path wk; wk_root_dir_path wk] ++ discovery_candidate_dirs m initial_cwd start_paths ++ members ++ links ++
  omap (fun f => parent (sf_path f)) entries.
Definition scope_dirs_of (m : machine) (initial_cwd : path) (start_paths : list path) (wk : workspace)
    (members links : list path) (entries : list semantic_fingerprint) : list path :=
  normalize_paths (scope_candidates m initial_cwd start_paths wk members links entries).

(** Every file probed, before sorting and removing duplicates. *)
Definition probed_files (m : machine) (entries : list semantic_fingerprint) (external : list path)
    (scope_dirs : list path) (npmrc_kind : probe_kind) (npmrc_path global_npmrc lockfile : option path)
  : list (path * probe_kind) :=
  map (fun f => (sf_path f, Content)) entries ++ map (fun p => (p, Content)) external ++
  concat (map (candidates npmrc_kind) scope_dirs) ++
  map (fun p => (p, npmrc_kind)) (option_list npmrc_path) ++ map (fun p => (p, npmrc_kind)) (option_list global_npmrc) ++
  map (fun p => (p, Content)) (option_list lockfile).

Definition manifest_from_workspace (m : machine) (initial_cwd : path) (config_start_paths : list path) (wk : workspace)
    (rc : npmrc) (inputs : workspace_resolver_inputs) : result resolver_input_manifest dyn_error :=
  let '(npmrc_identity, npmrc_has_auth) := npm_config_fingerprint rc in
  let? configs := config_fingerprints m (wk_resolver_deno_jsons wk) in
  let configs := normalize_semantic_fingerprints configs in
  let? externals := external_fingerprints m (wk_resolver_deno_jsons wk) in
  let external_configs := normalize_semantic_fingerprints externals.2 in
  let? packages := package_fingerprints m (wk_packages wk) in
  let packages := normalize_semantic_fingerprints packages in
  let members := folder_paths m (wk_config_folders wk) in
  let links := folder_paths m (wk_link_folders wk) in
  let? lockfile_probe_path := wk_lockfile_path wk in
  let scope_dirs := scope_dirs_of m initial_cwd config_start_paths wk members links (configs ++ external_configs ++ packages) in
  let npmrc_probe_kind := if npmrc_has_auth then Metadata else Content in
  let global_npmrc := global_npmrc_path m in
  let files := normalize_file_probes (map (fun p => file_probe_new m p.1 p.2)
    (probed_files m (configs ++ packages) externals.1 scope_dirs npmrc_probe_kind (wi_npmrc_path inputs) global_npmrc
       lockfile_probe_path)) in
  let environment := environment_probe_new m files npmrc_has_auth global_npmrc in
  let managed_root := (fun p => let p := absolute_path m p in RootPathProbe p (canonical_path m p)) <$>
    wi_managed_root_path inputs in
  let byonm_paths := normalize_paths
    ((if wi_byonm inputs then collect_byonm_node_modules_paths m scope_dirs else []) ++
     (if wi_byonm inputs then map (absolute_path m) (option_list (wi_node_modules_path inputs)) else [])) in
  Ok (ResolverInputManifest
    (ResolverInputIdentity (canonical_path m initial_cwd) (canonical_path m (wk_root_dir_path wk))
       (canonical_path m (wk_dir_path wk)) members links configs external_configs packages npmrc_identity
       (canonical_path m <$> lockfile_probe_path) (is_some_and lockfile_probe_path (exists_ m)) (wi_byonm inputs))
    (ResolverInputProbe files (map (fun p => DirectoryProbe p (current_directory_fingerprint m p)) byonm_paths)
       managed_root npmrc_has_auth environment)).

Definition is_current (m : machine) (mf : resolver_input_manifest) : bool :=
  let probe := mf_probe mf in
  if existsb (fun p => negb (bool_decide (current_file_fingerprint m (fp_path p) (fp_kind p) = fp_fingerprint p)))
       (rb_files probe) then false
  else if is_some_and (rb_managed_root_node_modules probe)
            (fun p => negb (path_eq (canonical_path m (rp_path p)) (rp_identity p))) then false
  else if existsb (fun p => negb (bool_decide (current_directory_fingerprint m (dp_path p) = dp_fingerprint p)))
            (rb_byonm_node_modules probe) then false
  else environment_eq (current_environment_probe m (rb_environment probe)) (rb_environment probe).

Definition is_reusable (m : machine) (mf : resolver_input_manifest) : bool :=
  if rb_npmrc_has_auth (mf_probe mf) || ep_jsr_url_has_auth (rb_environment (mf_probe mf)) then false
  else is_current m mf.

Definition managed_snapshot_key (mf : resolver_input_manifest) : option resolver_input_identity :=
  if ri_byonm (mf_identity mf) || ri_lockfile_present (mf_identity mf) || rb_npmrc_has_auth (mf_probe mf) then None
  else Some (mf_identity mf).

Definition RESOLVER_INPUTS_CHANGED : string := "resolver inputs changed during construction".

(** What one discovery found; the second, authoritative one is a fresh
    discovery on the machine as it is by then. *)
Record discovery := Discovery {
  ds_machine : machine; ds_workspace : workspace; ds_npmrc : npmrc; ds_inputs : workspace_resolver_inputs
}.
Definition discovered_manifest (initial_cwd : path) (start_paths : list path) (d : discovery)
  : result resolver_input_manifest dyn_error :=
  manifest_from_workspace (ds_machine d) initial_cwd start_paths (ds_workspace d) (ds_npmrc d) (ds_inputs d).

(** [resolver_input_manifest] *)
Definition accept_manifest (initial_cwd : path) (start_paths : list path) (memoized authoritative : discovery)
  : result resolver_input_manifest dyn_error :=
  let? mf := discovered_manifest initial_cwd start_paths memoized in
  let? mf' := discovered_manifest initial_cwd start_paths authoritative in
  if negb (identity_eq (mf_identity mf) (mf_identity mf')) ||
     negb (npm_sensitive_state_equal (ds_npmrc memoized) (ds_npmrc authoritative)) ||
     negb (root_node_modules_path_equal (ds_machine authoritative) (wi_node_modules_path (ds_inputs memoized))
             (wi_node_modules_path (ds_inputs authoritative))) ||
     negb (path_option_eq (wi_managed_root_path (ds_inputs memoized)) (wi_managed_root_path (ds_inputs authoritative)))
  then Err (anyhow RESOLVER_INPUTS_CHANGED)
  else Ok mf.
(** ** Lemmas *)
Definition public_scopes (rc : npmrc) : list (string * string) :=
  map (fun s => (s.1, public_registry_url s.2.1)) (n_scopes rc).
Definition public_configs (rc : npmrc) : list string :=
  map (fun c => public_registry_config_key c.1) (n_registry_configs rc).

(** The same configuration but for its credentials and the iteration order of
    its maps. *)
Definition same_public (a b : npmrc) : Prop :=
  public_registry_url (n_default_url a) = public_registry_url (n_default_url b) /\
  public_scopes a ≡ₚ public_scopes b /\ NoDup (keys (n_scopes a)) /\
  public_configs a ≡ₚ public_configs b /\
  replace_registry_host_identity (n_replace_host a) = replace_registry_host_identity (n_replace_host b) /\
  n_min_release_age_days a = n_min_release_age_days b /\ n_no_downgrade a = n_no_downgrade b /\
  n_ignore_after_minutes a = n_ignore_after_minutes b /\ n_trust_exclude a ≡ₚ n_trust_exclude b.

(** No credential anywhere in the configuration. *)
Definition credential_free (rc : npmrc) : Prop :=
  let plain_url u := username u = EmptyString /\ password u = None in
  let plain_config c := has_auth c = false /\ certfile c = None /\ keyfile c = None in
  plain_url (n_default_url rc) /\ plain_config (n_default_config rc) /\
  Forall (fun s => plain_url s.2.1 /\ plain_config s.2.2) (n_scopes rc) /\
  Forall (fun c => plain_config c.2 /\ registry_config_key_has_userinfo c.1 = false) (n_registry_configs rc) /\
  match n_replace_host rc with ReplUrl u => plain_url u | _ => True end.

Lemma sort_strings_perm (a b : list string) : a ≡ₚ b -> sort_strings a = sort_strings b.
Proof.
  intros H; refine (sorting.StronglySorted_unique String.le _ _ _ _ _).
  - apply (StronglySorted_merge_sort String.le).
  - apply (StronglySorted_merge_sort String.le).
  - unfold sort_strings; by rewrite !merge_sort_Permutation.
Qed.

Lemma assoc_perm {A} (a b : list (string * A)) (k : string) : a ≡ₚ b -> NoDup (keys a) -> assoc k a = assoc k b.
Proof.
  induction 1 as [|[k' v] a b H IH|[k1 v1] [k2 v2] a|a b c H1 IH1 H2 IH2]; simpl; intros Hd; [done| | |].
  - apply NoDup_cons in Hd as [_ Hd]; case_decide; [done|by apply IH].
  - apply NoDup_cons in Hd as [Hn _]; repeat case_decide; subst; try done; destruct Hn; by left.
  - rewrite IH1 by done; apply IH2; unfold keys in *; by rewrite <- H1.
Qed.

Lemma sort_entries_perm {A} (a b : list (string * A)) : a ≡ₚ b -> NoDup (keys a) -> sort_entries a = sort_entries b.
Proof.
  intros H Ha; assert (NoDup (keys b)) as Hb by (unfold keys in *; by rewrite <- H).
  destruct (sort_entries_spec a Ha) as (Sa & Aa & _), (sort_entries_spec b Hb) as (Sb & Ab & _).
  apply sorted_unique; [done|done|]; intros k; rewrite Aa, Ab; by apply assoc_perm.
Qed.

Lemma is_some_false {A} (o : option A) : is_some o = false <-> o = None.
Proof. by destruct o. Qed.
Lemma url_plain (u : url) : url_has_userinfo u = false <-> username u = EmptyString /\ password u = None.
Proof.
  unfold url_has_userinfo; by rewrite orb_false_iff, negb_false_iff, bool_decide_eq_true, is_some_false.
Qed.
Lemma config_plain (c : registry_config) :
  registry_config_has_sensitive c = false <-> has_auth c = false /\ certfile c = None /\ keyfile c = None.
Proof. unfold registry_config_has_sensitive; rewrite !orb_false_iff, !is_some_false; tauto. Qed.

Lemma existsb_false {A} (f : A -> bool) (l : list A) : existsb f l = false <-> Forall (fun x => f x = false) l.
Proof. induction l as [|a l IH]; simpl; [by split|]; by rewrite orb_false_iff, Forall_cons, IH. Qed.

Lemma existsb_changed {A} (f : A -> Prop) `{!forall x, Decision (f x)} (l : list A) :
  existsb (fun p => negb (bool_decide (f p))) l = false <-> Forall f l.
Proof. rewrite existsb_false; apply Forall_iff; intros x; rewrite negb_false_iff; apply bool_decide_eq_true. Qed.

Lemma if_false_andb (b c : bool) : (if b then false else c) = negb b && c.
Proof. by destruct b. Qed.

Lemma auth_absent (rc : npmrc) : npm_auth_presence rc = false <-> credential_free rc.
Proof.
  unfold npm_auth_presence, credential_free; rewrite !orb_false_iff, !existsb_false, config_plain, url_plain.
  setoid_rewrite orb_false_iff; setoid_rewrite config_plain; setoid_rewrite url_plain.
  destruct (n_replace_host rc) as [| | | |u]; rewrite ?url_plain; split; intros H; decompose [and] H; split_and!; try done;
    (eapply Forall_impl; [done|]; naive_solver).
Qed.


(** ** What the manifest watches *)
Definition manifest_scope (m : machine) (cwd : path) (starts : list path) (wk : workspace) (id : resolver_input_identity)
  : list path :=
  scope_dirs_of m cwd starts wk (ri_members id) (ri_links id) (ri_configs id ++ ri_external_configs id ++ ri_packages id).
Definition npmrc_kind (rc : npmrc) : probe_kind := if npm_auth_presence rc then Metadata else Content.

Lemma manifest_ok (m : machine) (cwd : path) (starts : list path) (wk : workspace) (rc : npmrc)
    (inputs : workspace_resolver_inputs) (mf : resolver_input_manifest) :
  manifest_from_workspace m cwd starts wk rc inputs = Ok mf ->
  exists ext lock,
    (exists fps, external_fingerprints m (wk_resolver_deno_jsons wk) = Ok (ext, fps)) /\ wk_lockfile_path wk = Ok lock /\
    let id := mf_identity mf in let scope := manifest_scope m cwd starts wk id in
    let files := normalize_file_probes (map (fun p => file_probe_new m p.1 p.2)
      (probed_files m (ri_configs id ++ ri_packages id) ext scope (npmrc_kind rc) (wi_npmrc_path inputs)
         (global_npmrc_path m) lock)) in
    ri_npmrc id = (npm_config_fingerprint rc).1 /\ ri_byonm id = wi_byonm inputs /\
    ri_lockfile_present id = is_some_and lock (exists_ m) /\
    mf_probe mf = ResolverInputProbe files
      (map (fun p => DirectoryProbe p (current_directory_fingerprint m p)) (normalize_paths
        ((if wi_byonm inputs then collect_byonm_node_modules_paths m scope else []) ++
         (if wi_byonm inputs then map (absolute_path m) (option_list (wi_node_modules_path inputs)) else []))))
      ((fun p => let p := absolute_path m p in RootPathProbe p (canonical_path m p)) <$> wi_managed_root_path inputs)
      (npm_auth_presence rc) (environment_probe_new m files (npm_auth_presence rc) (global_npmrc_path m)).
Proof.
  unfold manifest_from_workspace; destruct (npm_config_fingerprint rc) as [id auth] eqn:Ef.
  assert (auth = npm_auth_presence rc) as -> by (unfold npm_config_fingerprint in Ef; by injection Ef).
  intros (c & Hc & H)%bind_ok; apply bind_ok in H as ([ext fps] & He & H); apply bind_ok in H as (p & Hp & H).
  apply bind_ok in H as (lock & Hl & H); injection H as <-; exists ext, lock.
  split_and!; try done; by exists fps.
Qed.

Definition watched_directory (m m' : machine) (p : path) : Prop :=
  exists q, path_eq (absolute_path m p) q = true /\ current_directory_fingerprint m' q = current_directory_fingerprint m q.
Definition watched (m m' : machine) (p : path) (k : probe_kind) : Prop :=
  exists q, path_eq (absolute_path m p) q = true /\ current_file_fingerprint m' q k = current_file_fingerprint m q k.

Lemma path_eq_spec (a b : path) : path_eq a b = true <-> components a = components b.
Proof. unfold path_eq; apply bool_decide_eq_true. Qed.
Lemma path_eq_refl (a : path) : path_eq a a = true.
Proof. by apply path_eq_spec. Qed.
Lemma path_eq_trans (a b c : path) : path_eq a b = true -> path_eq b c = true -> path_eq a c = true.
Proof. rewrite !path_eq_spec; congruence. Qed.
Lemma probe_eq_spec (a b : file_probe) : probe_eq a b = true <-> path_eq (fp_path a) (fp_path b) = true /\ fp_kind a = fp_kind b.
Proof. unfold probe_eq; by rewrite andb_true_iff, bool_decide_eq_true. Qed.

Lemma probed (m : machine) (l : list (path * probe_kind)) (p : path) (k : probe_kind) :
  (p, k) ∈ l ->
  exists f, f ∈ normalize_file_probes (map (fun p => file_probe_new m p.1 p.2) l) /\
    path_eq (absolute_path m p) (fp_path f) = true /\ fp_kind f = k.
Proof.
  intros H; destruct (normal_rep probe_greater probe_eq) with (l := map (fun p => file_probe_new m p.1 p.2) l)
    (x := file_probe_new m p k) as (f & Hf & Hs).
  - intros a; by apply probe_eq_spec; split; [apply path_eq_refl|].
  - intros a b c; rewrite !probe_eq_spec; intros [H1 ->] [H2 ->]; split; [by eapply path_eq_trans|done].
  - apply list_elem_of_fmap; by exists (p, k).
  - exists f; split; [done|]; apply probe_eq_spec in Hs as [H1 H2]; by split.
Qed.

Lemma probe_fingerprint (m : machine) (l : list (path * probe_kind)) (f : file_probe) :
  f ∈ normalize_file_probes (map (fun p => file_probe_new m p.1 p.2) l) ->
  fp_fingerprint f = current_file_fingerprint m (fp_path f) (fp_kind f).
Proof. intros H; apply normal_sub in H; apply list_elem_of_fmap in H as ([p k] & -> & _); done. Qed.

Lemma normal_path (l : list path) (p : path) : p ∈ l -> exists q, q ∈ normalize_paths l /\ path_eq p q = true.
Proof. apply normal_rep; [apply path_eq_refl|apply path_eq_trans]. Qed.

Lemma map_fix {A} (f : A -> A) (l : list A) : (forall x, x ∈ l -> f x = x) -> map f l = l.
Proof. induction l as [|x l IH]; simpl; intros H; [done|]; rewrite H, IH; [done| |by left]; intros y Hy; apply H; by right. Qed.

Lemma environment_eq_refl (e : environment_probe) : environment_eq e e = true.
Proof. unfold environment_eq, path_option_eq; by rewrite !bool_decide_eq_true_2. Qed.

Lemma environment_vars (m : machine) (files : list file_probe) (auth : bool) (g : option path) (v : environment_value_probe) :
  v ∈ ep_referenced_npmrc_vars (environment_probe_new m files auth g) ->
  ev_fingerprint v = env_value_fingerprint m (ev_name v).
Proof.
  simpl; destruct auth; [by intros ?%not_elem_of_nil|]; rewrite sort_by_perm.
  by intros (n & -> & _)%list_elem_of_fmap.
Qed.

Lemma environment_fresh (m : machine) (files : list file_probe) (auth : bool) :
  current_environment_probe m (environment_probe_new m files auth (global_npmrc_path m)) =
  environment_probe_new m files auth (global_npmrc_path m).
Proof.
  unfold current_environment_probe at 1; rewrite map_fix; [done|]; intros [n f] Hv; apply environment_vars in Hv as Hf.
  simpl in Hf; by rewrite Hf.
Qed.

Lemma is_current_iff (m : machine) (mf : resolver_input_manifest) :
  is_current m mf = true <->
  let probe := mf_probe mf in
  Forall (fun p => current_file_fingerprint m (fp_path p) (fp_kind p) = fp_fingerprint p) (rb_files probe) /\
  (forall p, rb_managed_root_node_modules probe = Some p -> path_eq (canonical_path m (rp_path p)) (rp_identity p) = true) /\
  Forall (fun p => current_directory_fingerprint m (dp_path p) = dp_fingerprint p) (rb_byonm_node_modules probe) /\
  environment_eq (current_environment_probe m (rb_environment probe)) (rb_environment probe) = true.
Proof.
  unfold is_current; simpl; rewrite !if_false_andb, !andb_true_iff, !negb_true_iff, !existsb_changed, is_some_and_false.
  setoid_rewrite negb_false_iff; tauto.
Qed.

Lemma fresh_current (m : machine) (cwd : path) (starts : list path) (wk : workspace) (rc : npmrc)
    (inputs : workspace_resolver_inputs) (mf : resolver_input_manifest) :
  manifest_from_workspace m cwd starts wk rc inputs = Ok mf -> is_current m mf = true.
Proof.
  intros (ext & lock & _ & _ & _ & _ & _ & Hp)%manifest_ok; apply is_current_iff; rewrite Hp; simpl; split_and!.
  - apply Forall_forall; intros f Hf; by rewrite (probe_fingerprint _ _ _ Hf).
  - intros p Hq; destruct (wi_managed_root_path inputs) as [q|]; simpl in Hq; [|done]; injection Hq as <-; apply path_eq_refl.
  - apply Forall_forall; intros d (p & -> & _)%list_elem_of_fmap; done.
  - rewrite environment_fresh; apply environment_eq_refl.
Qed.

(** Two machines agree on the environment a resolver reads. *)
Definition same_environment (m m' : machine) : Prop :=
  environment_eq (environment_with m' (global_npmrc_path m') []) (environment_with m (global_npmrc_path m) []) = true.

Lemma same_environment_jsr (m m' : machine) :
  same_environment m m' -> env_url_has_userinfo m' ["JSR_URL"] = env_url_has_userinfo m ["JSR_URL"].
Proof.
  unfold same_environment, environment_eq; rewrite andb_true_iff, bool_decide_eq_true; intros [H _].
  by apply (f_equal ep_jsr_url_has_auth) in H.
Qed.

Lemma environment_unchanged (m m' : machine) (files : list file_probe) (auth : bool) :
  environment_eq (current_environment_probe m' (environment_probe_new m files auth (global_npmrc_path m)))
    (environment_probe_new m files auth (global_npmrc_path m)) = true ->
  same_environment m m' /\
  (auth = false -> forall f name, f ∈ files -> fp_kind f = Content -> file_name (fp_path f) = Some ".npmrc" ->
     name ∈ referenced_env_names (m_read_to_string m (fp_path f)) ->
     env_value_fingerprint m' name = env_value_fingerprint m name).
Proof.
  unfold same_environment, environment_eq; rewrite !andb_true_iff, !bool_decide_eq_true; intros [He Hg]; split.
  - split; [|done]; unfold environment_probe_new, current_environment_probe, environment_with, without_global_npmrc in *.
    simpl in *; by injection He as -> -> -> -> -> -> -> -> -> _.
  - intros -> f name Hf Hk Hn Hin; apply (f_equal ep_referenced_npmrc_vars) in He; simpl in He.
    set (names := concat _) in He; assert (name ∈ names) as Hnames.
    { apply list_elem_of_In, in_concat; eexists; split; [|by apply list_elem_of_In].
      apply list_elem_of_In, list_elem_of_fmap; exists f; split; [done|]; by apply list_elem_of_filter. }
    assert (name ∈ dedup (sort_strings names)) as Hd.
    { rewrite <- (merge_sort_Permutation String.le names) in Hnames; unfold dedup, sort_strings.
      destruct (merge_sort String.le names) as [|a l]; [done|].
      destruct (dedup_after_rep (fun a b : string => bool_decide (a = b))) with (a := a) (l := l) (x := name) as (y & Hy & Hs); [..|done|].
      - intros b; by apply bool_decide_eq_true_2.
      - intros b c d; rewrite !bool_decide_eq_true; congruence.
      - apply bool_decide_eq_true in Hs as ->; done. }
    set (vars := sort_by _ _) in He.
    assert (EnvironmentValueProbe name (env_value_fingerprint m name) ∈ vars) as Hv.
    { unfold vars; rewrite sort_by_perm; apply list_elem_of_fmap; by exists name. }
    apply list_elem_of_lookup in Hv as (i & Hi); apply (f_equal (fun l => l !! i)) in He.
    rewrite list_lookup_fmap in He; rewrite Hi in He; simpl in He; by injection He.
Qed.

(** C28. A published resolver stack is reused only over unchanged inputs.  A
    manifest just built is current on the machine it was built on.  Later, when
    it is found reusable, no credential is involved, neither in its configuration
    nor in the JSR registry's URL, then or now, and nothing it was built from has
    changed: every configuration and package file, every
    import map, every deno.json, deno.jsonc, package.json and .npmrc that exists
    or could appear in any directory discovery looks at, the user's own .npmrc
    and the lockfile have the fingerprint they had, the managed node_modules
    root has the same identity, where node_modules are brought along every
    directory of that name in or above any directory discovery looks at, and the
    one discovery found, is as it was, present or absent, the resolver's environment variables give the same answers, and so do the
    variables the .npmrc files refer to. *)
Theorem reuse_means_unchanged (m m' : machine) (cwd : path) (starts : list path) (wk : workspace) (rc : npmrc)
    (inputs : workspace_resolver_inputs) (mf : resolver_input_manifest)
    (Hm : manifest_from_workspace m cwd starts wk rc inputs = Ok mf) :
  let id := mf_identity mf in
  is_current m mf = true /\
  (is_reusable m' mf = true ->
     (credential_free rc /\ env_url_has_userinfo m ["JSR_URL"] = false /\ env_url_has_userinfo m' ["JSR_URL"] = false) /\
     (forall f, f ∈ ri_configs id ++ ri_packages id -> watched m m' (sf_path f) Content) /\
     (forall ext fps p, external_fingerprints m (wk_resolver_deno_jsons wk) = Ok (ext, fps) -> p ∈ ext ->
        watched m m' p Content) /\
     (forall dir, dir ∈ scope_candidates m cwd starts wk (ri_members id) (ri_links id)
                          (ri_configs id ++ ri_external_configs id ++ ri_packages id) ->
        exists dir', path_eq dir dir' = true /\ forall name, name ∈ [".npmrc"; "deno.json"; "deno.jsonc"; "package.json"] ->
          watched m m' (join dir' name) Content) /\
     (forall p, wi_npmrc_path inputs = Some p \/ global_npmrc_path m = Some p \/ wk_lockfile_path wk = Ok (Some p) ->
        watched m m' p Content) /\
     (forall p, wi_managed_root_path inputs = Some p ->
        path_eq (canonical_path m' (absolute_path m p)) (canonical_path m (absolute_path m p)) = true) /\
     (forall p, wi_byonm inputs = true -> wi_node_modules_path inputs = Some p -> watched_directory m m' p) /\
     (forall dir, wi_byonm inputs = true ->
        dir ∈ scope_candidates m cwd starts wk (ri_members id) (ri_links id)
                (ri_configs id ++ ri_external_configs id ++ ri_packages id) ->
        exists dir', path_eq dir dir' = true /\
          forall above, above ∈ ancestors dir' -> watched_directory m m' (join above "node_modules")) /\
     same_environment m m' /\
     (forall f name, f ∈ rb_files (mf_probe mf) -> fp_kind f = Content -> file_name (fp_path f) = Some ".npmrc" ->
        name ∈ referenced_env_names (m_read_to_string m (fp_path f)) ->
        env_value_fingerprint m' name = env_value_fingerprint m name)).
Proof.
  intros id; split; [by eapply fresh_current|]; unfold is_reusable; rewrite if_false_andb, andb_true_iff, negb_true_iff, orb_false_iff.
  intros [[Hauth Hjsr] Hc]; apply is_current_iff in Hc; apply manifest_ok in Hm as (ext & lock & [fps Hext] & Hlock & _ & _ & _ & Hp).
  fold id in Hp; rewrite Hp in Hauth, Hjsr, Hc |- *; simpl in Hauth; destruct Hc as (Hf & Hr & Hb & He).
  cbn [rb_files rb_managed_root_node_modules rb_byonm_node_modules rb_environment] in *.
  unfold npmrc_kind in *; rewrite Hauth in Hf, He |- *; rewrite Forall_forall in Hf. rewrite Forall_forall in Hb.
  set (l := probed_files _ _ _ _ _ _ _ _) in Hf.
  assert (forall p k, (p, k) ∈ l -> watched m m' p k) as Hw.
  { intros p k Hl; destruct (probed m l p k Hl) as (f & Hin & Hpe & <-); exists (fp_path f); split; [done|].
    rewrite (Hf f Hin); by eapply probe_fingerprint. }
  set (paths := (if wi_byonm inputs then collect_byonm_node_modules_paths _ _ else []) ++ _) in Hb.
  assert (forall p, absolute_path m p ∈ paths -> watched_directory m m' p) as Hd.
  { intros p Hin; destruct (normal_path paths (absolute_path m p) Hin) as (q & Hq & Hpe).
    exists q; split; [done|]; refine (Hb (DirectoryProbe q _) _); apply list_elem_of_fmap; by exists q. }
  unfold paths in Hd; clear Hb paths; pose proof (same_environment_jsr m m' (proj1 (environment_unchanged _ _ _ _ He))) as Hj.
  split; [split; [by apply auth_absent|split; [exact Hjsr|by rewrite Hj]]|]; split_and!.
  - intros f Hin; apply Hw; unfold l, probed_files; apply elem_of_app; left; apply list_elem_of_fmap; by exists f.
  - intros ext' fps' p Hx Hin; rewrite Hext in Hx; injection Hx as <- <-; apply Hw; unfold l, probed_files.
    apply elem_of_app; right; apply elem_of_app; left; apply list_elem_of_fmap; by exists p.
  - intros dir Hdir; apply normal_path in Hdir as (dir' & Hin & Hpe); exists dir'; split; [done|]; intros name Hn.
    apply Hw; unfold l, probed_files; do 2 (apply elem_of_app; right); apply elem_of_app; left.
    apply list_elem_of_In, in_concat; exists (candidates Content dir'); split.
    + apply in_map; by apply list_elem_of_In.
    + apply list_elem_of_In; unfold candidates, MANIFEST_CANDIDATE_FILE_NAMES; simpl; set_solver.
  - intros p Hor; apply Hw; unfold l, probed_files; do 3 (apply elem_of_app; right); rewrite !elem_of_app.
    destruct Hor as [->|[->|Hl]]; [left|right; left|right; right; rewrite Hlock in Hl; injection Hl as ->]; simpl; by left.
  - intros p Hin; rewrite Hin in Hr; by apply (Hr _ eq_refl).
  - intros p Hbm Hin; apply Hd; rewrite Hbm, Hin; apply elem_of_app; right; simpl; by left.
  - intros dir Hbm Hin; apply normal_path in Hin as (dir' & Hin & Hpe); exists dir'; split; [done|]; intros above Ha.
    apply Hd; rewrite Hbm; apply elem_of_app; left; apply list_elem_of_In, in_concat; eexists; split.
    + apply in_map; by apply list_elem_of_In.
    + by apply list_elem_of_In, list_elem_of_fmap_2 with (f := fun a => absolute_path m (join a "node_modules")).
  - by eapply environment_unchanged.
  - intros f name; by eapply environment_unchanged.
Qed.

Lemma same_public_fingerprint (a b : npmrc) : same_public a b -> (npm_config_fingerprint a).1 = (npm_config_fingerprint b).1.
Proof.
  intros (H1 & H2 & Hd & H3 & H4 & H5 & H6 & H7 & H8); simpl.
  unfold public_scopes, public_configs in *; f_equal; try done.
  - apply sort_entries_perm; [done|]; by rewrite (keys_map (fun s => public_registry_url s.1)).
  - by apply sort_strings_perm.
  - f_equal; by apply sort_strings_perm.
Qed.

(** Credentials neither reach nor influence the identity a cached resolution
    is found under.  Two npm configurations that differ only in credentials (user
    information in URLs and registry keys, tokens, client certificates) and in
    the order their maps are iterated have the same fingerprint.  When a manifest
    is accepted, the authoritative discovery saw the same identity; a snapshot
    key is issued only if neither discovery saw any credential, outside
    bring-your-own-node_modules mode and without a lockfile. *)
Theorem snapshot_key_credential_free (cwd : path) (starts : list path) (d d' : discovery) (mf : resolver_input_manifest)
    (Hm : accept_manifest cwd starts d d' = Ok mf) :
  (forall rc', same_public (ds_npmrc d) rc' -> ri_npmrc (mf_identity mf) = (npm_config_fingerprint rc').1) /\
  (exists mf', discovered_manifest cwd starts d' = Ok mf' /\ identity_eq (mf_identity mf) (mf_identity mf') = true) /\
  (forall k, managed_snapshot_key mf = Some k ->
     k = mf_identity mf /\ credential_free (ds_npmrc d) /\ credential_free (ds_npmrc d') /\
     wi_byonm (ds_inputs d) = false /\
     forall p, wk_lockfile_path (ds_workspace d) = Ok (Some p) -> m_metadata (ds_machine d) p = None).
Proof.
  unfold accept_manifest in Hm; apply bind_ok in Hm as (x & Hx & Hm); apply bind_ok in Hm as (mf' & Hmf' & Hm).
  apply guard_ok in Hm as [Hb [= ->]]; rewrite !orb_false_iff, !negb_false_iff in Hb; destruct Hb as [[[Hid Hs] _] _].
  pose proof Hx as Hok; unfold discovered_manifest in Hok; apply manifest_ok in Hok as (ext & lock & _ & Hlock & Hn & Hby & Hpres & Hp).
  split_and!; [intros rc' H; by rewrite Hn, (same_public_fingerprint _ _ H)|by exists mf'|].
  intros k; unfold managed_snapshot_key; rewrite Hby, Hpres, Hp; cbn [rb_npmrc_has_auth].
  destruct (wi_byonm (ds_inputs d)) eqn:E1; [done|].
  destruct (is_some_and lock (exists_ (ds_machine d))) eqn:E2; [done|].
  destruct (npm_auth_presence (ds_npmrc d)) eqn:E3; [done|]; simpl; intros [= <-].
  unfold npm_sensitive_state_equal in Hs; rewrite !andb_true_iff, !bool_decide_eq_true in Hs.
  destruct Hs as [[[[Ha _] _] _] _]; rewrite E3 in Ha; split_and!; [done|by apply auth_absent|by apply auth_absent|done|].
  intros p Hl; rewrite Hlock in Hl; injection Hl as ->; simpl in E2; unfold exists_ in E2; by apply is_some_false.
Qed.
End Npmrc.

(** ** A small machine and toy libraries *)
Definition toy_url : Type := (string * string)%type.
Definition toy_parse (s : string) : option toy_url := Some (EmptyString, s).
Definition toy_text (b : string) : Z := Z.of_nat (String.length b).
Definition toy_probe (a : bool) (n : Z) (t : option Z) (l c : option path) (target : option (Z * Z)) : Z :=
  match target with Some (h, _) => h | None => n end.
Definition toy_machine (config : string) : machine :=
  Machine (fun v => if decide (v = "TOKEN_HOST") then Some "h" else None) (fun _ => None) (Some "/w") (Some "/home") Some
    (fun p => if decide (p = "/w/deno.json") then Some config else None)
    (fun p => Err (IoError NotFound p))
    (fun p => if decide (p = "/w/deno.json") then Some (FileMetadata false (toy_text config) (Some 5)) else None)
    (fun p => if decide (p = "/w/deno.json") then Some (FileMetadata false (toy_text config) (Some 5)) else None)
    (fun _ => None).
Definition toy_rc : npmrc toy_url (option string) :=
  Npmrc _ _ (EmptyString, "https://r/") None [("@a", ((EmptyString, "https://a/"), None))] [] (ReplNever _) None false None [].
Definition toy_rc_secret : npmrc toy_url (option string) :=
  Npmrc _ _ (EmptyString, "https://r/") (Some "token") [("@a", (("me", "https://a/"), None))] [] (ReplNever _) None false None [].
Definition toy_workspace : workspace :=
  Workspace [DenoJson (Some "/w/deno.json") (Ok (JObject [])) (Ok None) (Ok None)] [] [Some "/w"] [] (Ok None) "/w" "/w".
Definition toy_inputs : workspace_resolver_inputs := WorkspaceResolverInputs None false None None.
Definition toy_manifest (m : machine) : result resolver_input_manifest dyn_error :=
  manifest_from_workspace toy_url (option string) toy_parse fst (fun _ => None) (fun u => (EmptyString, u.2)) snd (fun _ => true)
    is_some (fun _ => None) (fun _ => None) toy_text toy_probe (fun _ => Ok "json") m "/w" ["/w/main.ts"] toy_workspace toy_rc
    toy_inputs.

Lemma reuse_means_unchanged_witness :
  exists mf, toy_manifest (toy_machine "{}") = Ok mf /\
    watched toy_text toy_probe (toy_machine "{}") (toy_machine "[]") "/w/deno.json" Content /\
    is_current toy_url toy_parse fst (fun _ => None) (fun u => (EmptyString, u.2)) snd (fun _ => true) toy_text toy_probe
      (toy_machine "{ }") mf = false.
Proof.
  eexists; split; [vm_compute; reflexivity|]; split; [|vm_compute; reflexivity].
  refine ((proj1 (proj2 (proj2 (reuse_means_unchanged toy_url (option string) toy_parse fst (fun _ => None)
    (fun u => (EmptyString, u.2)) snd (fun _ => true) is_some (fun _ => None) (fun _ => None) toy_text toy_probe
    (fun _ => Ok "json") (toy_machine "{}") (toy_machine "[]") "/w" ["/w/main.ts"] toy_workspace toy_rc toy_inputs _ eq_refl)
    ltac:(vm_compute; reflexivity)))) (SemanticFingerprint "/w/deno.json" 4) _).
  apply list_elem_of_In; vm_compute; left; reflexivity.
Defined.

Definition toy_accept (rc rc' : npmrc toy_url (option string)) (m m' : machine) : result resolver_input_manifest dyn_error :=
  accept_manifest toy_url (option string) toy_parse fst (fun _ => None) (fun u => (EmptyString, u.2)) snd (fun _ => true)
    is_some (fun _ => None) (fun _ => None) toy_text toy_probe (fun _ => Ok "json") "/w" ["/w/main.ts"]
    (Discovery _ _ m toy_workspace rc toy_inputs) (Discovery _ _ m' toy_workspace rc' toy_inputs).

Lemma snapshot_key_credential_free_witness :
  (exists mf k, toy_accept toy_rc toy_rc (toy_machine "{}") (toy_machine "{ }") = Ok mf /\
     managed_snapshot_key mf = Some k /\
     ri_npmrc k = (npm_config_fingerprint toy_url (option string) toy_parse fst (fun _ => None) (fun u => (EmptyString, u.2))
                     snd is_some (fun _ => None) (fun _ => None) toy_rc_secret).1) /\
  toy_accept toy_rc toy_rc_secret (toy_machine "{}") (toy_machine "{}") = Err (anyhow RESOLVER_INPUTS_CHANGED).
Proof.
  split; [|vm_compute; reflexivity]; eexists _, _; split; [vm_compute; reflexivity|split; [vm_compute; reflexivity|]].
  refine (proj1 (snapshot_key_credential_free toy_url (option string) toy_parse fst (fun _ => None)
    (fun u => (EmptyString, u.2)) snd (fun _ => true) is_some (fun _ => None) (fun _ => None) toy_text toy_probe
    (fun _ => Ok "json") "/w" ["/w/main.ts"]
    (Discovery _ _ (toy_machine "{}") toy_workspace toy_rc toy_inputs)
    (Discovery _ _ (toy_machine "{ }") toy_workspace toy_rc toy_inputs) _ eq_refl) toy_rc_secret _).
  split_and!; try done; by apply (bool_decide_unpack _).
Defined.
