(* ===== verification/Modules.v ===== *)
(** * Modules: the module loader of a run (src/module_loader.rs).

    Resolution of specifiers and the canonical identity of node builtins, the
    read checks made before a module's file is read, and the construction of the
    module graph under an ordinary and under a frozen lockfile.  URL handling,
    the resolver stack, the module graph, the lockfile and the permission
    container are libraries: their answers are parameters. *)
From S2P Require Import Prelude Errors Options Paths Vectors.

(** [JsErrorBox]: a message, or an error boxed as it is. *)
Inductive js_error := Generic (m : string) | FromErr (e : dyn_error).

Section Modules.
Context (url : Type) `{EqDecision url}.
(** The url crate. *)
Context (parse : string -> result url string) (scheme url_path : url -> string) (url_text : url -> string)
  (without_query without_fragment : url -> url) (to_file_path : url -> option path)
  (from_file_path from_directory_path : path -> option url).

(** ** Node builtins have one identity *)
Context (is_builtin_node_module : string -> bool).

Definition normalize_node_builtin (u : url) : result url js_error :=
  if negb (is_builtin_node_module (url_path u)) then Err (Generic ("Unknown node builtin: " +:+ url_text u))
  else Ok (without_fragment (without_query u)).

Definition validate_node_builtin_identity (u : url) : result unit js_error :=
  let? canonical := normalize_node_builtin u in
  if negb (bool_decide (canonical = u))
  then Err (Generic ("Non-canonical node builtin identity: " +:+ url_text u))
  else Ok ().

(** ** Resolution *)
Definition resolve_referrer (referrer : string) (cwd : path) : result url js_error :=
  if bool_decide (referrer = EmptyString \/ referrer = ".") then
    match from_directory_path cwd with Some u => Ok u | None => Err (Generic "Invalid cwd for module resolution") end
  else map_err (fun e => Generic ("Invalid referrer: " +:+ e)) (parse referrer).

(** The resolver stack: [npm_resolver()?.is_managed()], [in_npm_package], the
    shared resolver. *)
Context (npm_is_managed : result bool string) (in_npm_package_checker : result (url -> bool) string)
  (graph_resolve : string -> url -> result url string).

Definition quote : string := String (Ascii.ascii_of_nat 34) EmptyString.
Definition resolution_error (specifier e : string) : js_error :=
  Generic ("Cannot resolve " +:+ quote +:+ specifier +:+ quote +:+ ": " +:+ e).

Definition starts_with_text (pre s : string) : bool := String.prefix pre s.

(** [resolve_specifier]; [main] is [ResolutionKind::MainModule]. *)
Definition resolve_specifier (specifier referrer : string) (main : bool) (cwd : path) : result url js_error :=
  if main then
    let? u := map_err (fun e => Generic ("Invalid main module URL: " +:+ e)) (parse specifier) in
    if bool_decide (scheme u = "node") then normalize_node_builtin u else Ok u
  else
    let resolved :=
      let? referrer_url := resolve_referrer referrer cwd in
      let? is_managed_npm_package :=
        if starts_with_text "npm:" specifier || starts_with_text "jsr:" specifier then
          let? managed := map_err Generic npm_is_managed in
          if managed then
            let? checker := map_err Generic in_npm_package_checker in
            Ok (checker referrer_url)
          else Ok false
        else Ok false in
      if (is_managed_npm_package : bool) then
        map_err (fun e => Generic ("Invalid module specifier: " +:+ e)) (parse specifier)
      else
        let? resolved := map_err (resolution_error specifier) (graph_resolve specifier referrer_url) in
        if bool_decide (scheme resolved = "node") then normalize_node_builtin resolved else Ok resolved in
    match parse specifier with
    | Ok u => if bool_decide (scheme u = "node") then normalize_node_builtin u else resolved
    | Err _ => resolved
    end.

(** ** The read checks *)

(** The run's permissions as they are now: whether a broker is installed,
    [query_read_all], and [check_open] for reading through an import, which
    answers the path to open. *)
Record access := Access {
  ac_broker_installed : bool;
  ac_query_read_all : bool;
  ac_check_open : path -> result path dyn_error;
  ac_canonicalize : path -> option path
}.

Inductive load_event := Checked (p : path) | Loaded (u : url) | Fetched (u : url).

(** Both checks answer with the paths they asked the permissions for. *)
Definition check_dynamic_import_read (a : access) (specifier : url) (in_npm_package : url -> bool)
  : result unit js_error * list load_event :=
  if negb (bool_decide (scheme specifier = "file")) || in_npm_package specifier then (Ok (), [])
  else if negb (ac_broker_installed a) && ac_query_read_all a then (Ok (), [])
  else match to_file_path specifier with
       | None => (Ok (), [])
       | Some p => (let? _ := map_err FromErr (ac_check_open a p) in Ok (), [Checked p])
       end.

Definition check_npm_source_read (a : access) (specifier : url) (in_npm_package : url -> bool)
  : result url js_error * list load_event :=
  if negb (ac_broker_installed a) || negb (in_npm_package specifier) then (Ok specifier, [])
  else match to_file_path specifier with
       | None => (Ok specifier, [])
       | Some p =>
           let canonical := default p (ac_canonicalize a p) in
           (let? checked := map_err FromErr (ac_check_open a canonical) in
            match from_file_path checked with
            | Some u => Ok u
            | None => Err (Generic ("Invalid npm module path: " +:+ url_text specifier))
            end, [Checked canonical])
       end.

(** ** Loading *)
Inductive media_type := Wasm | OtherMedia (n : nat).
Inductive requested_module_type := RtNone | RtJson | RtText | RtBytes | RtOther (ty : string).
Inductive module_type := MtJavaScript | MtWasm | MtJson | MtText | MtBytes | MtOther (ty : string).

Definition module_type_from_media_and_requested_type (m : media_type) (requested : requested_module_type) : module_type :=
  match requested with
  | RtNone => match m with Wasm => MtWasm | _ => MtJavaScript end
  | RtJson => MtJson | RtText => MtText | RtBytes => MtBytes | RtOther ty => MtOther ty
  end.

Record module_source := ModuleSource {
  ms_type : module_type; ms_code : list Z; ms_requested : url; ms_found : url
}.

(** What deno_resolver's loader yields. *)
Inductive loaded_module_or_asset :=
| LoadedModule (source : list Z) (media : media_type) (specifier : url)
| ExternalAsset (specifier : url).

(** [NpmPackageReqReference::from_specifier], the resolution of such a reference
    to a file, the loader (with the caller's access for CommonJS analysis), and
    the permission-checked fetch of an asset. *)
Context (is_npm_reference : url -> bool) (resolve_npm_reference : url -> url -> result url string)
  (module_loader : result unit string)
  (loader_load : access -> url -> option url -> requested_module_type -> result loaded_module_or_asset dyn_error)
  (fetch : access -> url -> result (list Z * media_type) string).

Definition load (a : access) (requested : url) (maybe_referrer : option url) (ty : requested_module_type)
    (is_dynamic_import : bool) : result module_source js_error * list load_event :=
  if bool_decide (scheme requested = "node") then
    (let? _ := validate_node_builtin_identity requested in Ok (ModuleSource MtJavaScript [] requested requested), [])
  else
    let specifier :=
      if is_npm_reference requested then
        map_err (resolution_error (url_text requested)) (resolve_npm_reference requested (default requested maybe_referrer))
      else Ok requested in
    match specifier with
    | Err e => (Err e, [])
    | Ok specifier =>
        match map_err Generic in_npm_package_checker with
        | Err e => (Err e, [])
        | Ok checker =>
            let '(dynamic, t1) :=
              if is_dynamic_import then check_dynamic_import_read a specifier checker else (Ok (), []) in
            match dynamic with
            | Err e => (Err e, t1)
            | Ok _ =>
                let '(gated, t2) := check_npm_source_read a specifier checker in
                match gated with
                | Err e => (Err e, t1 ++ t2)
                | Ok specifier =>
                    match map_err Generic module_loader with
                    | Err e => (Err e, t1 ++ t2)
                    | Ok _ =>
                        let t := t1 ++ t2 ++ [Loaded specifier] in
                        match map_err FromErr (loader_load a specifier maybe_referrer ty) with
                        | Err e => (Err e, t)
                        | Ok (LoadedModule source media found) =>
                            (Ok (ModuleSource (module_type_from_media_and_requested_type media ty) source requested found), t)
                        | Ok (ExternalAsset asset) =>
                            (let? file := map_err Generic (fetch a asset) in
                             Ok (ModuleSource (module_type_from_media_and_requested_type file.2 ty) file.1 asset asset),
                             t ++ [Fetched asset])
                        end
                    end
                end
            end
        end
    end.

(** ** The frozen lockfile's locker *)
Context (checksum package_nv : Type) `{EqDecision checksum} `{EqDecision package_nv}.

(** The checksums a locker answers with, and what it is told. *)
Record locker_view := LockerView { lv_remote : url -> option checksum; lv_pkg : package_nv -> option checksum }.
Inductive locker_write := SetRemote (u : url) (c : checksum) | SetPkg (nv : package_nv) (c : checksum).

(** The changes, newest first, over the lockfile's own answers. *)
Record frozen_graph_locker := FrozenGraphLocker {
  fl_lockfile : locker_view;
  fl_remote : list (url * checksum); fl_pkg : list (package_nv * checksum);
  fl_changed : bool
}.
Definition frozen_new (lockfile : locker_view) : frozen_graph_locker := FrozenGraphLocker lockfile [] [] false.

Definition get_remote_checksum (l : frozen_graph_locker) (u : url) : option checksum :=
  match snd <$> head (filter (fun e => e.1 = u) (fl_remote l)) with
  | Some c => Some c
  | None => lv_remote (fl_lockfile l) u
  end.
Definition get_pkg_manifest_checksum (l : frozen_graph_locker) (nv : package_nv) : option checksum :=
  match snd <$> head (filter (fun e => e.1 = nv) (fl_pkg l)) with
  | Some c => Some c
  | None => lv_pkg (fl_lockfile l) nv
  end.
Definition has_remote_checksum (l : frozen_graph_locker) (u : url) : bool := bool_decide (is_Some (get_remote_checksum l u)).

Definition set_remote_checksum (l : frozen_graph_locker) (u : url) (c : checksum) : frozen_graph_locker :=
  FrozenGraphLocker (fl_lockfile l) ((u, c) :: fl_remote l) (fl_pkg l)
    (if bool_decide (get_remote_checksum l u = Some c) then fl_changed l else true).
Definition set_pkg_manifest_checksum (l : frozen_graph_locker) (nv : package_nv) (c : checksum) : frozen_graph_locker :=
  FrozenGraphLocker (fl_lockfile l) (fl_remote l) ((nv, c) :: fl_pkg l)
    (if bool_decide (get_pkg_manifest_checksum l nv = Some c) then fl_changed l else true).

Definition frozen_write (l : frozen_graph_locker) (w : locker_write) : frozen_graph_locker :=
  match w with SetRemote u c => set_remote_checksum l u c | SetPkg nv c => set_pkg_manifest_checksum l nv c end.
Definition frozen_view (l : frozen_graph_locker) : locker_view :=
  LockerView (get_remote_checksum l) (get_pkg_manifest_checksum l).

(** ** The module graph *)
Inductive graph_error := ModuleError (u : url) | ResolutionError (range : url) | TypesResolutionError.

(** deno_graph's graph and the lockfile.  A walk with the loader's options
    yields the errors below a root; [validate] is the first of them; [reload]
    and [build] answer with the new graph and what they did on the way, in order:
    what they told the locker, and what the npm resolver they were given noted in
    the lockfile, which it shares in memory with the locker. *)
Context (graph lockfile npm_change : Type).
Inductive build_effect := ToLocker (w : locker_write) | ByNpmResolver (c : npm_change).
Context (graph_has : graph -> url -> bool) (graph_redirect : graph -> url -> url) (module_errors : graph -> list url)
  (walk_errors : graph -> url -> list graph_error) (validate_error : graph_error -> dyn_error)
  (reload build : option locker_view -> list url -> graph -> graph * list build_effect)
  (url_greater : url -> url -> bool).
Context (fill_graph : lockfile -> graph -> graph) (lockfile_view : lockfile -> locker_view)
  (lockfile_write : lockfile -> locker_write -> lockfile) (lockfile_npm : lockfile -> npm_change -> lockfile)
  (error_if_changed : lockfile -> result unit string).
Context (jsr_version_resolver : result unit string).

Definition validate_root (g : graph) (specifier : url) : result unit js_error :=
  match walk_errors g specifier with [] => Ok () | e :: _ => Err (FromErr (validate_error e)) end.

Definition failed_specifier (e : graph_error) : option url :=
  match e with ModuleError u => Some u | ResolutionError u => Some u | TypesResolutionError => None end.

(** The roots to load again: the requested one and those that failed below it. *)
Definition retry_roots (g : graph) (specifier : url) : list url :=
  dedup_by (fun a b => bool_decide (a = b))
    (sort_by url_greater (map (graph_redirect g) (specifier :: omap failed_specifier (walk_errors g specifier)))).

Definition lockfile_unchanged (l : option lockfile) : result unit js_error :=
  match l with Some l => map_err Generic (error_if_changed l) | None => Ok () end.

(** An ordinary locker writes to the lockfile itself. *)
Definition ordinary_effect (l : lockfile) (e : build_effect) : lockfile :=
  match e with ToLocker w => lockfile_write l w | ByNpmResolver c => lockfile_npm l c end.
(** A frozen one keeps what it is told apart, over the lockfile as it is by then. *)
Definition frozen_effect (s : frozen_graph_locker * lockfile) (e : build_effect) : frozen_graph_locker * lockfile :=
  let '(locker, l) := s in
  match e with
  | ToLocker w => (frozen_write locker w, l)
  | ByNpmResolver c =>
      let l := lockfile_npm l c in
      (FrozenGraphLocker (lockfile_view l) (fl_remote locker) (fl_pkg locker) (fl_changed locker), l)
  end.

(** [build_graph_attempt]: its result, the graph and the lockfile after. *)
Definition build_graph_attempt (frozen : bool) (l : option lockfile) (g : graph) (specifier : url)
  : result unit js_error * graph * option lockfile :=
  match map_err Generic jsr_version_resolver with
  | Err e => (Err e, g, l)
  | Ok _ =>
      let g := match l with Some l => fill_graph l g | None => g end in
      match lockfile_unchanged l with
      | Err e => (Err e, g, l)
      | Ok _ =>
          if graph_has g specifier && negb (bool_decide (specifier ∈ module_errors g)) && is_ok (validate_root g specifier)
          then (lockfile_unchanged l, g, l)
          else
            let view := match l with
                        | Some l => Some (if frozen then frozen_view (frozen_new (lockfile_view l)) else lockfile_view l)
                        | None => None
                        end in
            let retry := retry_roots g specifier in
            let '(g, effects) :=
              if existsb (fun u => graph_has g u || bool_decide (u ∈ module_errors g)) retry
              then reload view retry g else build view [specifier] g in
            let under_frozen := (fun l => foldl frozen_effect (frozen_new (lockfile_view l), l) effects) <$> l in
            let frozen_locker := if frozen then fst <$> under_frozen else None in
            let l := if frozen then snd <$> under_frozen else (fun l => foldl ordinary_effect l effects) <$> l in
            match validate_root g specifier with
            | Err e => (Err e, g, l)
            | Ok _ =>
                if is_some_and frozen_locker fl_changed then (Err (Generic "frozen lockfile would change"), g, l)
                else (lockfile_unchanged l, g, l)
            end
      end
  end.

(** [build_graph_with_npm_resolver], with the graph locked: under a frozen
    lockfile a candidate is built and kept only on success. *)
Definition build_graph (frozen : bool) (l : option lockfile) (g : graph) (specifier : url)
  : result unit js_error * graph * option lockfile :=
  let '(r, g', l') := build_graph_attempt frozen l g specifier in
  if frozen then match r with Ok _ => (r, g', l') | Err _ => (r, g, l') end else (r, g', l').

(** [prepare_load]; [closing] is whether the run's lifecycle is closing when it
    is polled. *)
Definition prepare_load (closing frozen : bool) (l : option lockfile) (g : graph) (specifier : url)
  : result unit js_error * graph * option lockfile :=
  if bool_decide (scheme specifier = "node") then (validate_node_builtin_identity specifier, g, l)
  else if closing then (Err (Generic "module graph load cancelled during runtime shutdown"), g, l)
  else build_graph frozen l g specifier.

(** ** Lemmas *)
Lemma frozen_get_remote (l : frozen_graph_locker) (u v : url) (c : checksum) :
  get_remote_checksum (set_remote_checksum l u c) v = if decide (u = v) then Some c else get_remote_checksum l v.
Proof. unfold get_remote_checksum, set_remote_checksum; simpl; rewrite filter_cons; simpl; by case_decide. Qed.
Lemma frozen_get_pkg (l : frozen_graph_locker) (u v : package_nv) (c : checksum) :
  get_pkg_manifest_checksum (set_pkg_manifest_checksum l u c) v =
  if decide (u = v) then Some c else get_pkg_manifest_checksum l v.
Proof. unfold get_pkg_manifest_checksum, set_pkg_manifest_checksum; simpl; rewrite filter_cons; simpl; by case_decide. Qed.

(** What a write says is what the lockfile already says. *)
Definition agrees (v : locker_view) (w : locker_write) : Prop :=
  match w with SetRemote u c => lv_remote v u = Some c | SetPkg nv c => lv_pkg v nv = Some c end.

(** While no change was noted the overlay answers as the lockfile does. *)
Definition overlay_ok (l : frozen_graph_locker) : Prop :=
  fl_changed l = false ->
  (forall u, get_remote_checksum l u = lv_remote (fl_lockfile l) u) /\
  (forall nv, get_pkg_manifest_checksum l nv = lv_pkg (fl_lockfile l) nv).

Lemma frozen_write_ok (l : frozen_graph_locker) (w : locker_write) :
  overlay_ok l ->
  overlay_ok (frozen_write l w) /\ fl_lockfile (frozen_write l w) = fl_lockfile l /\
  (fl_changed (frozen_write l w) = false <-> fl_changed l = false /\ agrees (fl_lockfile l) w).
Proof.
  unfold overlay_ok; intros H; destruct w as [u c|u c]; simpl; case_bool_decide as E.
  - split_and!; [|done|split; [intros Hc; destruct (H Hc) as [H1 _]; by rewrite <- H1|by intros [? _]]].
    intros Hc; destruct (H Hc) as [H1 H2]; split; [|done]; intros v.
    rewrite frozen_get_remote; case_decide; [by subst; rewrite <- H1, E|apply H1].
  - split_and!; [done|done|split; [done|]]; intros [Hc Ha]; destruct E; by rewrite (proj1 (H Hc)).
  - split_and!; [|done|split; [intros Hc; destruct (H Hc) as [_ H2]; by rewrite <- H2|by intros [? _]]].
    intros Hc; destruct (H Hc) as [H1 H2]; split; [done|]; intros v.
    rewrite frozen_get_pkg; case_decide; [by subst; rewrite <- H2, E|apply H2].
  - split_and!; [done|done|split; [done|]]; intros [Hc Ha]; destruct E; by rewrite (proj2 (H Hc)).
Qed.

(** What a build told the locker, and what its npm resolver noted. *)
Definition locker_writes (effects : list build_effect) : list locker_write :=
  omap (fun e => match e with ToLocker w => Some w | ByNpmResolver _ => None end) effects.
Definition npm_changes (effects : list build_effect) : list npm_change :=
  omap (fun e => match e with ToLocker _ => None | ByNpmResolver c => Some c end) effects.

(** Under a frozen lockfile only the npm resolver reaches the lockfile. *)
Lemma frozen_effects_lockfile (effects : list build_effect) (s : frozen_graph_locker * lockfile) :
  (foldl frozen_effect s effects).2 = foldl lockfile_npm s.2 (npm_changes effects).
Proof.
  revert s; induction effects as [|e effects IH]; intros [locker l]; [done|]; cbn [foldl]; rewrite IH; by destruct e.
Qed.

(** The npm resolver notes packages, never the checksums a locker answers with. *)
Definition npm_keeps_checksums : Prop := forall l c, lockfile_view (lockfile_npm l c) = lockfile_view l.

Lemma frozen_effects_ok (effects : list build_effect) (locker : frozen_graph_locker) (l : lockfile) :
  npm_keeps_checksums -> overlay_ok locker -> fl_lockfile locker = lockfile_view l ->
  fl_changed (foldl frozen_effect (locker, l) effects).1 = false ->
  fl_changed locker = false /\ Forall (agrees (lockfile_view l)) (locker_writes effects).
Proof.
  intros Hk; revert locker l; induction effects as [|e effects IH]; intros locker l Ho El; [by split|].
  cbn [foldl]; destruct e as [w|c]; cbn [frozen_effect]; intros H.
  - destruct (frozen_write_ok locker w Ho) as (H1 & H2 & H3); apply IH in H as [Hc Hf]; [|done|by rewrite H2].
    apply H3 in Hc as [Hc Ha]; rewrite El in Ha; split; [done|]; by constructor.
  - apply IH in H; [|by rewrite Hk, <- El; destruct locker|done]; by rewrite Hk in H.
Qed.

(** ** Properties *)

(** The file a request stands for, before any check. *)
Definition requested_file (requested : url) (maybe_referrer : option url) : result url js_error :=
  if is_npm_reference requested then
    map_err (resolution_error (url_text requested)) (resolve_npm_reference requested (default requested maybe_referrer))
  else Ok requested.

Lemma load_trace (a : access) (requested : url) (ref : option url) (ty : requested_module_type) (dyn : bool)
    (r : result module_source js_error) (t : list load_event) (u : url) :
  load a requested ref ty dyn = (r, t) -> Loaded u ∈ t ->
  exists s checker t1 t2 post,
    requested_file requested ref = Ok s /\ in_npm_package_checker = Ok checker /\
    (if dyn then check_dynamic_import_read a s checker else (Ok (), [])) = (Ok (), t1) /\
    check_npm_source_read a s checker = (Ok u, t2) /\ t = (t1 ++ t2) ++ Loaded u :: post /\
    (forall v, v ∈ post -> exists f, v = Fetched f /\ loader_load a u ref ty = Ok (ExternalAsset f)).
Proof.
  unfold load; intros H Hu; case_bool_decide; [by injection H as <- <-; apply not_elem_of_nil in Hu|].
  fold (requested_file requested ref) in H; destruct (requested_file requested ref) as [s|e] eqn:Es;
    [|by injection H as <- <-; apply not_elem_of_nil in Hu].
  destruct in_npm_package_checker as [checker|e] eqn:Ec; simpl in H; [|by injection H as <- <-; apply not_elem_of_nil in Hu].
  assert (forall t1 r, (if dyn then check_dynamic_import_read a s checker else (Ok (), [])) = (r, t1) -> Loaded u ∉ t1) as N1.
  { intros t1 r0; destruct dyn; [|by intros [= <- <-]; apply not_elem_of_nil]; unfold check_dynamic_import_read.
    destruct (_ || _); [by intros [= <- <-]; apply not_elem_of_nil|].
    destruct (_ && _); [by intros [= <- <-]; apply not_elem_of_nil|].
    destruct (to_file_path s); intros [= <- <-]; [by intros [?|?%not_elem_of_nil]%elem_of_cons|apply not_elem_of_nil]. }
  assert (forall t1 r, check_npm_source_read a s checker = (r, t1) -> Loaded u ∉ t1) as N2.
  { intros t1 r0; unfold check_npm_source_read.
    destruct (_ || _); [by intros [= <- <-]; apply not_elem_of_nil|].
    destruct (to_file_path s); intros [= <- <-]; [by intros [?|?%not_elem_of_nil]%elem_of_cons|apply not_elem_of_nil]. }
  destruct (if dyn then _ else _) as [[[]|e] t1] eqn:E1; [|injection H as <- <-; by eapply N1 in Hu].
  destruct (check_npm_source_read a s checker) as [[v|e] t2] eqn:E2;
    [|injection H as <- <-; apply elem_of_app in Hu as [Hu|Hu]; [by eapply N1 in Hu|by eapply N2 in Hu]].
  destruct module_loader; simpl in H;
    [|injection H as <- <-; apply elem_of_app in Hu as [Hu|Hu]; [by eapply N1 in Hu|by eapply N2 in Hu]].
  assert (forall post, Loaded u ∈ t1 ++ t2 ++ Loaded v :: post -> Loaded u ∉ post -> u = v) as Hv.
  { intros post; rewrite !elem_of_app, elem_of_cons; intros [Ht|[Ht|[Ht|Ht]]] Hn;
      [by eapply N1 in Ht|by eapply N2 in Ht|by injection Ht|done]. }
  exists s, checker, t1, t2; destruct (loader_load a v ref ty) as [[source media found|asset]|e] eqn:El; simpl in H; injection H as <- <-.
  - apply Hv in Hu as ->; [|apply not_elem_of_nil]; exists []; split_and!; try done; [by rewrite <- app_assoc|by intros w ?%not_elem_of_nil].
  - rewrite <- !app_assoc in Hu; apply (Hv [Fetched asset]) in Hu as ->;
      [|by intros [?|?%not_elem_of_nil]%elem_of_cons]; exists [Fetched asset]; split_and!; try done; [by rewrite <- !app_assoc|].
    intros w ->%list_elem_of_singleton; by exists asset.
  - apply Hv in Hu as ->; [|apply not_elem_of_nil]; exists []; split_and!; try done; [by rewrite <- app_assoc|by intros w ?%not_elem_of_nil].
Qed.

(** C31. No module file is read past the permissions as they are when it is
    loaded.  If a load reaches the reader at all, then for a dynamic import of a
    file outside npm packages (unless all reads are granted and no broker is
    installed) the permissions allowed that file just before; and for a file of
    an npm package under a broker they allowed its resolved path, and the file
    read is the one they answered with.  Otherwise the file is the one requested.
    Only an asset the reader named is fetched, after it, and a node builtin
    touches nothing. *)
Theorem load_gated (a : access) (requested : url) (ref : option url) (ty : requested_module_type) (dyn : bool)
    (r : result module_source js_error) (t : list load_event)
    (Hl : load a requested ref ty dyn = (r, t)) :
  (scheme requested = "node" -> t = []) /\
  (forall u, Loaded u ∈ t -> exists s checker pre post,
     t = pre ++ Loaded u :: post /\ requested_file requested ref = Ok s /\ in_npm_package_checker = Ok checker /\
     (forall p, dyn = true -> scheme s = "file" -> checker s = false ->
        ac_broker_installed a = true \/ ac_query_read_all a = false -> to_file_path s = Some p ->
        Checked p ∈ pre /\ is_ok (ac_check_open a p) = true) /\
     (forall p, ac_broker_installed a = true -> checker s = true -> to_file_path s = Some p ->
        Checked (default p (ac_canonicalize a p)) ∈ pre /\
        exists q, ac_check_open a (default p (ac_canonicalize a p)) = Ok q /\ from_file_path q = Some u) /\
     (ac_broker_installed a && checker s = false -> u = s) /\
     (forall v, v ∈ post -> exists f, v = Fetched f /\ loader_load a u ref ty = Ok (ExternalAsset f))).
Proof.
  split; [intros Hn; unfold load in Hl; rewrite bool_decide_eq_true_2 in Hl by done; by injection Hl|].
  intros u Hu; destruct (load_trace _ _ _ _ _ _ _ _ Hl Hu) as (s & checker & t1 & t2 & post & H1 & H2 & H3 & H4 & -> & H5).
  exists s, checker, (t1 ++ t2), post; split_and!; try done.
  - intros p -> Hs Hc Hb Hp; unfold check_dynamic_import_read in H3; rewrite Hc, bool_decide_eq_true_2, Hp in H3 by done; simpl in H3.
    destruct (negb (ac_broker_installed a) && ac_query_read_all a) eqn:E; [apply andb_true_iff in E as [E%negb_true_iff E']; destruct Hb; congruence|].
    injection H3 as H3 <-; split; [apply elem_of_app; left; by left|]; by destruct (ac_check_open a p).
  - intros p Hb Hc Hp; unfold check_npm_source_read in H4; rewrite Hb, Hc, Hp in H4; simpl in H4; injection H4 as H4 <-.
    split; [apply elem_of_app; right; by left|]; destruct (ac_check_open a _) as [q|]; [|done]; exists q; split; [done|].
    simpl in H4; destruct (from_file_path q); congruence.
  - intros Hn; unfold check_npm_source_read in H4; destruct (ac_broker_installed a), (checker s); simpl in *; congruence.
Qed.

Lemma retry_roots_spec (g : graph) (specifier u : url) :
  u = specifier \/ (exists e, e ∈ walk_errors g specifier /\ failed_specifier e = Some u) ->
  graph_redirect g u ∈ retry_roots g specifier.
Proof.
  intros H; destruct (normal_rep url_greater (fun a b => bool_decide (a = b))) with
    (l := map (graph_redirect g) (specifier :: omap failed_specifier (walk_errors g specifier))) (x := graph_redirect g u)
    as (v & Hv & Hs).
  - intros b; by apply bool_decide_eq_true_2.
  - intros b c d; rewrite !bool_decide_eq_true; congruence.
  - apply list_elem_of_fmap; exists u; split; [done|]; destruct H as [->|(e & He & Hf)]; [by left|right].
    apply list_elem_of_omap; by exists e.
  - apply bool_decide_eq_true in Hs as ->; done.
Qed.

(** The graph with the lockfile's redirects and packages. *)
Definition filled (l : option lockfile) (g : graph) : graph := match l with Some l => fill_graph l g | None => g end.

(** The lockfile after a build with those effects. *)
Definition lockfile_after (frozen : bool) (l : lockfile) (effects : list build_effect) : lockfile :=
  if frozen then foldl lockfile_npm l (npm_changes effects) else foldl ordinary_effect l effects.

Lemma build_attempt_spec (frozen : bool) (l : option lockfile) (g g' : graph) (l' : option lockfile) (specifier : url)
    (r : result unit js_error) :
  build_graph_attempt frozen l g specifier = (r, g', l') ->
  (is_ok (lockfile_unchanged l) = false -> is_ok r = false /\ l' = l) /\
  (is_ok r = true -> walk_errors g' specifier = [] /\ lockfile_unchanged l' = Ok ()) /\
  (l' = l \/ exists effects, l' = (fun lk => lockfile_after frozen lk effects) <$> l) /\
  (is_ok r = true -> (g' = filled l g /\ l' = l) \/ exists view roots effects,
     (((g', effects) = reload view roots (filled l g) /\
        (forall u, u = specifier \/ (exists e, e ∈ walk_errors (filled l g) specifier /\ failed_specifier e = Some u) ->
           graph_redirect (filled l g) u ∈ roots)) \/
       (g', effects) = build view [specifier] (filled l g)) /\
     l' = (fun lk => lockfile_after frozen lk effects) <$> l /\
     (npm_keeps_checksums -> forall lk, frozen = true -> l = Some lk -> Forall (agrees (lockfile_view lk)) (locker_writes effects))).
Proof.
  unfold build_graph_attempt; fold (filled l g).
  destruct (map_err Generic jsr_version_resolver); [|intros [= <- <- <-]; split_and!; [done|done|by left|done]].
  destruct (lockfile_unchanged l) as [[]|] eqn:El; [|intros [= <- <- <-]; split_and!; [done|done|by left|done]].
  destruct (_ && _) eqn:Es.
  { intros [= <- <- <-]; rewrite !andb_true_iff in Es; destruct Es as [_ Hv]; split_and!; [done| |by left|by left].
    intros _; split; [unfold validate_root in Hv; by destruct (walk_errors _ specifier)|by rewrite El]. }
  destruct (if existsb _ _ then _ else _) as [g1 effects] eqn:Eb; intros H.
  set (l1 := (fun lk => lockfile_after frozen lk effects) <$> l).
  assert ((if frozen then snd <$> ((fun l => foldl frozen_effect (frozen_new (lockfile_view l), l) effects) <$> l)
           else (fun l => foldl ordinary_effect l effects) <$> l) = l1) as El1.
  { unfold l1, lockfile_after; destruct frozen, l; cbn; [by rewrite frozen_effects_lockfile|done..]. }
  rewrite El1 in H; destruct (validate_root g1 specifier) as [[]|] eqn:Ev;
    [|injection H as <- <- <-; split_and!; [done|done|right; by exists effects|done]].
  destruct (is_some_and _ fl_changed) eqn:Ef; injection H as <- <- <-;
    [split_and!; [done|done|right; by exists effects|done]|].
  split_and!; [done| |right; by exists effects|].
  - intros Hr; split; [unfold validate_root in Ev; by destruct (walk_errors g1 specifier)|by destruct (lockfile_unchanged l1) as [[]|]].
  - intros _; right.
    assert (npm_keeps_checksums -> forall lk, frozen = true -> l = Some lk ->
      Forall (agrees (lockfile_view lk)) (locker_writes effects)) as Hag.
    { intros Hk lk -> ->; apply (frozen_effects_ok effects (frozen_new (lockfile_view lk)) lk Hk); done. }
    destruct (existsb _ _); [eexists _, _, effects|eexists _, [], effects]; (split; [|by split]).
    + left; split; [by rewrite Eb|]; intros u Hu; by apply retry_roots_spec.
    + right; by rewrite Eb.
Qed.

(** C32. A frozen lockfile is never deviated from.  Under a frozen lockfile a
    failed build leaves the graph as it was; no build writes a checksum to the
    lockfile, only the npm resolver it uses notes what it resolved; and a build
    succeeds only if the lockfile, with those notes, still reports no change, the
    whole tree below the root loaded, and every checksum met on the way was one
    the lockfile already had.  Once a lockfile reports a change, every later build
    fails and leaves it alone, frozen or not.  Without a frozen lockfile success
    still means that the tree loaded and that the lockfile reports no unwanted
    change.  A tree that is not whole is loaded again with every module that
    failed below the root. *)
Theorem build_graph_spec (frozen : bool) (l : option lockfile) (g g' : graph) (l' : option lockfile) (specifier : url)
    (r : result unit js_error) (Hb : build_graph frozen l g specifier = (r, g', l')) :
  (frozen = true -> (is_ok r = false -> g' = g) /\
     exists effects, l' = (fun lk => foldl lockfile_npm lk (npm_changes effects)) <$> l) /\
  (is_ok (lockfile_unchanged l) = false -> is_ok r = false /\ l' = l) /\
  (is_ok r = true ->
     walk_errors g' specifier = [] /\ lockfile_unchanged l' = Ok () /\
     ((g' = filled l g /\ l' = l) \/
      exists view roots effects,
        (((g', effects) = reload view roots (filled l g) /\
          (forall u, u = specifier \/ (exists e, e ∈ walk_errors (filled l g) specifier /\ failed_specifier e = Some u) ->
             graph_redirect (filled l g) u ∈ roots)) \/
         (g', effects) = build view [specifier] (filled l g)) /\
        l' = (fun lk => lockfile_after frozen lk effects) <$> l /\
        (npm_keeps_checksums -> forall lk, frozen = true -> l = Some lk ->
           Forall (agrees (lockfile_view lk)) (locker_writes effects)))).
Proof.
  unfold build_graph in Hb; destruct (build_graph_attempt frozen l g specifier) as [[r0 g0] l0] eqn:Ea.
  apply build_attempt_spec in Ea as (H1 & H2 & H3 & H4).
  assert (r0 = r /\ l0 = l') as [-> ->] by (destruct frozen; [destruct r0|]; by injection Hb).
  assert (is_ok r = true -> g0 = g') as Hg by (intros Hr; destruct frozen; [destruct r; [by injection Hb|done]|by injection Hb]).
  split_and!.
  - intros ->; split; [intros Hr; destruct r; [done|by injection Hb]|].
    destruct H3 as [->|(effects & ->)]; [exists []; by destruct l|by exists effects].
  - done.
  - intros Hr; rewrite <- (Hg Hr); destruct (H2 Hr) as [Hw Hu]; split_and!; [done|done|by apply H4].
Qed.

(** Node builtins have one identity from resolution to loading.  Whatever
    the resolution of a specifier yields, if it is a [node:] URL then it is the
    canonical one of an existing builtin, so that preparing and loading it
    succeed without touching the graph, the lockfile or any file; and any other
    spelling of it is refused by both. *)
Theorem node_builtin_identity (specifier referrer : string) (main : bool) (cwd : path) (u : url)
    (Hpath : forall v, url_path (without_fragment (without_query v)) = url_path v)
    (Hidem : forall v, without_fragment (without_query (without_fragment (without_query v))) = without_fragment (without_query v))
    (Hnpm : forall s v, starts_with_text "npm:" s || starts_with_text "jsr:" s = true -> parse s = Ok v -> scheme v <> "node")
    (Hr : resolve_specifier specifier referrer main cwd = Ok u) (Hn : scheme u = "node") :
  is_builtin_node_module (url_path u) = true /\
  (forall closing frozen l g, prepare_load closing frozen l g u = (Ok (), g, l)) /\
  (forall a ref ty dyn, load a u ref ty dyn = (Ok (ModuleSource MtJavaScript [] u u), [])) /\
  (forall v, v <> u -> scheme v = "node" -> without_fragment (without_query v) = u ->
     is_ok (validate_node_builtin_identity v) = false).
Proof.
  assert (forall v, normalize_node_builtin v = Ok u ->
    is_builtin_node_module (url_path u) = true /\ without_fragment (without_query u) = u) as Hnorm.
  { intros v; unfold normalize_node_builtin; destruct (is_builtin_node_module (url_path v)) eqn:E; [|done]; intros [= <-].
    by rewrite Hpath, Hidem. }
  assert (is_builtin_node_module (url_path u) = true /\ without_fragment (without_query u) = u) as [Hb Hc].
  { unfold resolve_specifier in Hr; destruct main.
    - apply bind_ok in Hr as (v & Hv & Hr); case_bool_decide; [by apply (Hnorm v)|naive_solver].
    - set (rest := match resolve_referrer referrer cwd with Ok _ => _ | Err _ => _ end) in Hr.
      assert (rest = Ok u -> is_builtin_node_module (url_path u) = true /\ without_fragment (without_query u) = u) as Hrest.
      { intros Hx; unfold rest in Hx; apply bind_ok in Hx as (ref & _ & Hx); apply bind_ok in Hx as (m & Hm & Hx).
        destruct m.
        - destruct (starts_with_text "npm:" specifier || starts_with_text "jsr:" specifier) eqn:E; [|done].
          destruct (parse specifier) as [v|] eqn:Ep; [|done]; injection Hx as <-; by destruct (Hnpm specifier v E Ep).
        - apply bind_ok in Hx as (v & _ & Hx); case_bool_decide; [by apply (Hnorm v)|naive_solver]. }
      destruct (parse specifier) as [v|] eqn:Ep; [|by apply Hrest].
      case_bool_decide; [by apply (Hnorm v)|by apply Hrest]. }
  assert (validate_node_builtin_identity u = Ok ()) as Hv.
  { unfold validate_node_builtin_identity, normalize_node_builtin; rewrite Hb, Hc; simpl; by rewrite bool_decide_eq_true_2. }
  split_and!; [done| | |].
  - intros closing frozen l g; unfold prepare_load; by rewrite bool_decide_eq_true_2, Hv.
  - intros a ref ty dyn; unfold load; by rewrite bool_decide_eq_true_2, Hv.
  - intros v Hne Hnv Hcv; unfold validate_node_builtin_identity, normalize_node_builtin; destruct (is_builtin_node_module (url_path v)); [|done].
    simpl; rewrite Hcv, bool_decide_eq_false_2; [done|congruence].
Qed.
End Modules.

(** ** Toy libraries: a URL is its scheme, its path and whether it has a query *)
Definition toy_url : Type := (string * string * bool)%type.
Definition toy_parse (s : string) : result toy_url string :=
  if String.prefix "npm:" s || String.prefix "jsr:" s then Ok ("npm", s, false)
  else if decide (s = "node:fs?q") then Ok ("node", "fs", true)
  else if decide (s = "node:fs") then Ok ("node", "fs", false)
  else if String.prefix "/" s then Ok ("file", s, false) else Err "relative URL without a base".
Definition toy_plain (u : toy_url) : toy_url := (u.1, false).
Definition toy_file_path (u : toy_url) : option path := if decide (u.1.1 = "file") then Some u.1.2 else None.
Definition toy_from_path (p : path) : option toy_url := Some (("file", p), false).
Definition toy_in_npm (u : toy_url) : bool := String.prefix "/node_modules" u.1.2.
Definition toy_read (a : access) (u : toy_url) (r : option toy_url) (t : requested_module_type)
  : result (loaded_module_or_asset toy_url) dyn_error := Ok (LoadedModule _ [1%Z] (OtherMedia 0) u).
(** The graph is the list of the modules it holds; a checksum is a number; a
    lockfile has checksums and the packages noted since it was read. *)
Definition toy_lock : Type := (list (toy_url * Z) * list string)%type.
Definition toy_view (l : toy_lock) : locker_view toy_url Z unit :=
  LockerView _ _ _ (fun u => snd <$> head (filter (fun e => e.1 = u) l.1)) (fun _ => None).
Definition toy_write (l : toy_lock) (w : locker_write toy_url Z unit) : toy_lock :=
  match w with SetRemote _ _ _ u c => ((u, c) :: l.1, l.2) | SetPkg _ _ _ _ _ => l end.
Definition toy_npm (l : toy_lock) (package : string) : toy_lock := (l.1, package :: l.2).
Definition toy_changed (l : toy_lock) : result unit string := match l.2 with [] => Ok tt | _ => Err "the lockfile is out of date" end.
(** A module named [/w/npm.js] needs a package. *)
Definition toy_build (v : option (locker_view toy_url Z unit)) (roots : list toy_url) (g : list toy_url)
  : list toy_url * list (build_effect toy_url Z unit string) :=
  (roots ++ g, concat (map (fun u => ToLocker _ _ _ _ (SetRemote _ _ _ u 7%Z) ::
     if decide (u.1.2 = "/w/npm.js") then [ByNpmResolver _ _ _ _ "chalk"] else []) roots)).
Definition toy_walk (g : list toy_url) (u : toy_url) : list (graph_error toy_url) :=
  if decide (u ∈ g) then [] else [ModuleError _ u].

Lemma node_builtin_identity_witness :
  resolve_specifier toy_url toy_parse (fun u => u.1.1) (fun u => u.1.2) (fun u => u.1.2) toy_plain (fun u => u) toy_from_path
    (fun n => bool_decide (n = "fs")) (Ok true) (Ok toy_in_npm) (fun _ _ => Err "unused") "node:fs?q" "." false "/w"
  = Ok ("node", "fs", false) /\
  is_ok (validate_node_builtin_identity toy_url (fun u => u.1.1 +:+ u.1.2) (fun u => u.1.2) toy_plain (fun u => u)
    (fun _ => false) ("node", "fs", false)) = false /\
  is_ok (validate_node_builtin_identity toy_url (fun u => u.1.2) (fun u => u.1.2) toy_plain (fun u => u)
    (fun n => bool_decide (n = "fs")) ("node", "fs", true)) = false.
Proof.
  split_and!; [reflexivity|reflexivity|].
  refine (proj2 (proj2 (proj2 (node_builtin_identity toy_url toy_parse (fun u => u.1.1) (fun u => u.1.2) (fun u => u.1.2)
    toy_plain (fun u => u) toy_file_path toy_from_path toy_from_path (fun n => bool_decide (n = "fs")) (Ok true) (Ok toy_in_npm)
    (fun _ _ => Err "unused") (fun _ => false) (fun _ _ => Err "unused") (Ok ()) toy_read (fun _ _ => Err "unused")
    Z unit (list toy_url) toy_lock string (fun g u => bool_decide (u ∈ g)) (fun _ u => u) (fun _ => []) toy_walk
    (fun _ => anyhow "missing") toy_build toy_build (fun _ _ => false) (fun _ g => g) toy_view toy_write toy_npm toy_changed (Ok ())
    "node:fs?q" "." false "/w" ("node", "fs", false) (fun _ => eq_refl) (fun _ => eq_refl) _ eq_refl eq_refl)))
    ("node", "fs", true) _ eq_refl eq_refl); [|done].
  intros s v; unfold starts_with_text, toy_parse; intros ->; by intros [= <-].
Defined.

Definition toy_access (readable : path) : access :=
  Access true false (fun p => if decide (p = readable) then Ok p else Err (anyhow "denied")) Some.
Definition toy_load (a : access) (p : path) : result (module_source toy_url) js_error * list (load_event toy_url) :=
  load toy_url (fun u => u.1.1) (fun u => u.1.2) (fun u => u.1.2) toy_plain (fun u => u) toy_file_path toy_from_path
    (fun _ => false) (Ok toy_in_npm) (fun _ => false) (fun _ _ => Err "unused") (Ok ()) toy_read (fun _ _ => Err "unused")
    a (("file", p), false) None RtNone true.

Lemma load_gated_witness :
  is_ok (toy_load (toy_access "/w/a.js") "/w/a.js").1 = true /\
  toy_load (toy_access "/w/a.js") "/w/b.js" = (Err (FromErr (anyhow "denied")), [Checked _ "/w/b.js"]) /\
  is_ok (ac_check_open (toy_access "/w/a.js") "/w/a.js") = true.
Proof.
  split_and!; [reflexivity|reflexivity|].
  destruct (load_gated toy_url (fun u => u.1.1) (fun u => u.1.2) (fun u => u.1.2) toy_plain (fun u => u) toy_file_path toy_from_path
    (fun _ => false) (Ok toy_in_npm) (fun _ => false) (fun _ _ => Err "unused") (Ok ()) toy_read (fun _ _ => Err "unused")
    (toy_access "/w/a.js") (("file", "/w/a.js"), false) None RtNone true _ _ eq_refl) as [_ H].
  destruct (H (("file", "/w/a.js"), false)) as (s & checker & pre & post & _ & Hs & Hc & Hg & _); [by right; left|].
  injection Hs as <-; injection Hc as <-; by apply (Hg "/w/a.js" eq_refl eq_refl eq_refl (or_introl eq_refl) eq_refl).
Defined.

Definition toy_graph (frozen : bool) (l : toy_lock) (u : toy_url)
  : result unit js_error * list toy_url * option toy_lock :=
  build_graph toy_url Z unit (list toy_url) toy_lock string (fun g u => bool_decide (u ∈ g)) (fun _ u => u) (fun _ => []) toy_walk
    (fun _ => anyhow "missing") toy_build toy_build (fun _ _ => false) (fun _ g => g) toy_view toy_write toy_npm toy_changed (Ok ())
    frozen (Some l) [] u.

Lemma build_graph_spec_witness :
  let u := (("file", "/w/a.js"), false) in
  let n := (("file", "/w/npm.js"), false) in
  toy_graph true ([(u, 7%Z)], []) u = (Ok (), [u], Some ([(u, 7%Z)], [])) /\
  toy_graph false ([], []) u = (Ok (), [u], Some ([(u, 7%Z)], [])) /\
  toy_graph true ([(u, 8%Z)], []) u = (Err (Generic "frozen lockfile would change"), [], Some ([(u, 8%Z)], [])) /\
  exists l, toy_graph true ([(n, 7%Z)], []) n = (Err (Generic "the lockfile is out of date"), [], l).
Proof.
  split_and!; [reflexivity..|].
  destruct (toy_graph true ([((("file", "/w/npm.js"), false), 7%Z)], []) (("file", "/w/npm.js"), false)) as [[r g] l] eqn:E.
  exists l; pose proof E as E'; unfold toy_graph in E'; apply build_graph_spec in E' as (H & _ & _); destruct (H eq_refl) as [Hg _].
  assert (r = Err (Generic "the lockfile is out of date")) as -> by (by vm_compute in E; injection E).
  by rewrite (Hg eq_refl).
Defined.
