(* ===== verification/Graph.v ===== *)
(** * Graph: the resolver a module graph is built with (src/graph.rs).

    [GraphResolver]: its construction, the resolution requests of the module loader
    and of the graph builder, the JSX import sources, and the npm batches: with npm
    support a batch goes to the library's resolver and its overall failure is given
    to the requests; without it every request fails.  The graph library reads only
    the per-request results. *)
From S2P Require Import Prelude.

Section Graph.
Context {pkg_req nv error : Type}.

(** [NpmResolvePkgReqsResult] *)
Record resolve_result := ResolveResult {
  rr_results : list (result nv error);
  rr_dep_graph_result : result unit error
}.

Definition propagate_dep_graph_error (r : resolve_result) : resolve_result :=
  match rr_dep_graph_result r with
  | Ok _ => r
  | Err e =>
      ResolveResult (map (fun x => match x with Ok _ => Err e | Err own => Err own end) (rr_results r))
        (rr_dep_graph_result r)
  end.

(** [npm_resolver] is absent when npm support is not compiled in; [disabled] is
    the error that says so. *)
Definition resolve_pkg_reqs (npm_resolver : option (list pkg_req -> resolve_result)) (disabled : error)
    (package_reqs : list pkg_req) : resolve_result :=
  match npm_resolver with
  | Some resolve => propagate_dep_graph_error (resolve package_reqs)
  | None =>
      ResolveResult (map (fun _ => Err disabled) package_reqs)
        (match package_reqs with [] => Ok () | _ => Err disabled end)
  end.

(** Every request of a failed batch fails: with its own error if it had one, and
    otherwise with the batch's.  A batch that succeeds is untouched, and without
    npm support only the empty batch does. *)
Theorem failed_batch_reaches_requests (npm_resolver : option (list pkg_req -> resolve_result))
    (disabled : error) (reqs : list pkg_req) :
  let r := resolve_pkg_reqs npm_resolver disabled reqs in
  (forall e, rr_dep_graph_result r = Err e -> Forall (fun x => is_ok x = false) (rr_results r)) /\
  match npm_resolver with
  | Some resolve =>
      rr_dep_graph_result r = rr_dep_graph_result (resolve reqs) /\
      length (rr_results r) = length (rr_results (resolve reqs)) /\
      forall i x, rr_results (resolve reqs) !! i = Some x ->
        rr_results r !! i = Some
          (match x, rr_dep_graph_result (resolve reqs) with Ok _, Err e => Err e | _, _ => x end)
  | None =>
      length (rr_results r) = length reqs /\ Forall (fun x => x = Err disabled) (rr_results r) /\
      (is_ok (rr_dep_graph_result r) = true <-> reqs = [])
  end.
Proof.
  unfold resolve_pkg_reqs; destruct npm_resolver as [resolve|]; cbv zeta.
  - unfold propagate_dep_graph_error; destruct (resolve reqs) as [results [[]|e]]; simpl.
    + split; [done|]; split_and!; [done..|]; intros i x Hx; rewrite Hx; by destruct x.
    + split; [intros e' _; apply Forall_fmap, Forall_true; by intros [|]|].
      split_and!; [done|apply length_map|]; intros i x Hx; rewrite list_lookup_fmap, Hx; by destruct x.
  - simpl; split_and!.
    + intros e _; apply Forall_fmap, Forall_true; done.
    + apply length_map.
    + apply Forall_fmap, Forall_true; done.
    + by destruct reqs.
Qed.
End Graph.

(** ** Resolution *)
Section Resolver.
Context (url position resolve_error npm_ref url_or_path npm_package : Type) (error_text : resolve_error -> string)
        (ref_text : npm_ref -> string).

Inductive resolution_mode := Import | Require.
Inductive resolution_kind := Execution | Types.  (** deno_graph's, and node_resolver's of the same names *)

Record import_source := ImportSource { is_specifier : string }.
Record jsx_config := JsxConfig {
  jc_import_source : option import_source; jc_import_source_types : option import_source; jc_module : string
}.

Record graph_resolver := GraphResolver {
  gr_resolve : string -> url -> position -> resolution_mode -> resolution_kind -> result url resolve_error;
  gr_npm_req_ref : npm_ref -> url -> resolution_mode -> resolution_kind -> result url_or_path resolve_error;
  gr_jsx_for : url -> option jsx_config;
  gr_npm_resolver : option npm_package
}.

(** The fallible accessors of the factories, in the order they are asked. *)
Definition graph_resolver_new {E} (npm_installer_factory : option (result npm_package E))
    (deno_resolver : result ((string -> url -> position -> resolution_mode -> resolution_kind -> result url resolve_error) *
                             (npm_ref -> url -> resolution_mode -> resolution_kind -> result url_or_path resolve_error)) E)
    (jsx : result (url -> option jsx_config) E) : result graph_resolver E :=
  let? npm := match npm_installer_factory with
              | Some npm_deno_graph_resolver => let? r := npm_deno_graph_resolver in Ok (Some r)
              | None => Ok None
              end in
  let? resolver := deno_resolver in
  let? jsx_for := jsx in
  Ok (GraphResolver resolver.1 resolver.2 jsx_for npm).

Definition cannot_resolve (what : string) (e : resolve_error) : string :=
  "Cannot resolve " +:+ String (Ascii.ascii_of_nat 34) (what +:+ String (Ascii.ascii_of_nat 34) (": " +:+ error_text e)).

(** For the module loader, outside of graph building. *)
Definition resolve_for_loader (g : graph_resolver) (zero : position) (raw_specifier : string) (referrer : url)
    (mode : resolution_mode) (kind : resolution_kind) : result url string :=
  map_err (cannot_resolve raw_specifier) (gr_resolve g raw_specifier referrer zero mode kind).
Definition resolve_non_workspace_npm_req_ref_to_file (g : graph_resolver) (r : npm_ref) (referrer : url)
    (mode : resolution_mode) (kind : resolution_kind) : result url_or_path string :=
  map_err (cannot_resolve (ref_text r)) (gr_npm_req_ref g r referrer mode kind).

(** [Resolver for GraphResolver]: what the graph builder asks. *)
Definition default_jsx_import_source (g : graph_resolver) (referrer : url) : option string :=
  config ← gr_jsx_for g referrer; is_specifier <$> jc_import_source config.
Definition default_jsx_import_source_types (g : graph_resolver) (referrer : url) : option string :=
  config ← gr_jsx_for g referrer; is_specifier <$> jc_import_source_types config.
(** The default is the library's constant. *)
Definition jsx_import_source_module (DEFAULT_JSX_IMPORT_SOURCE_MODULE : string) (g : graph_resolver) (referrer : url) : string :=
  default DEFAULT_JSX_IMPORT_SOURCE_MODULE (jc_module <$> gr_jsx_for g referrer).
Definition resolve_for_graph {E} (into_deno_graph_error : resolve_error -> E) (g : graph_resolver) (specifier_text : string)
    (referrer : url) (start : position) (kind : resolution_kind) : result url E :=
  map_err into_deno_graph_error (gr_resolve g specifier_text referrer start Import
    (match kind with Execution => Execution | Types => Types end)).
(** Whose package information is fetched ahead, if anything fetches it. *)
Definition load_and_cache_npm_package_info (g : graph_resolver) (package_name : string) : list (npm_package * string) :=
  match gr_npm_resolver g with Some n => [(n, package_name)] | None => [] end.

(** The graph and the running program see one resolution: what the builder resolves
    for execution is what the loader resolves for an import from the same place,
    and where one fails the other does, with a message that names the specifier. *)
Theorem loader_agrees_with_graph {E} (into_deno_graph_error : resolve_error -> E) (g : graph_resolver) (specifier : string)
    (referrer : url) (zero : position) :
  match resolve_for_loader g zero specifier referrer Import Execution with
  | Ok u => resolve_for_graph into_deno_graph_error g specifier referrer zero Execution = Ok u
  | Err m => exists e, resolve_for_graph into_deno_graph_error g specifier referrer zero Execution = Err (into_deno_graph_error e) /\
      m = cannot_resolve specifier e
  end.
Proof.
  unfold resolve_for_loader, resolve_for_graph; destruct (gr_resolve g _ _ _ _ _) as [u|e]; simpl; [done|by exists e].
Qed.
End Resolver.
