(* ===== verification/Permissions.v ===== *)
(** * Permissions: from capability flags to a permission container
    (src/permissions.rs).

    [build_permissions] with its argument loop.  The options handed to the
    permission library and its construction of a container from them are kept
    apart: [from_options] is the library's. *)
From S2P Require Import Prelude Errors Text Options Paths.

Definition CONTROL_ENV_VARS : list string :=
  ["LIBDENO_HOST_EXE"; "LIBDENO_CHILD_MODE"; "LIBDENO_CHILD_TOKEN"; "LIBDENO_SUPERVISOR_MODE";
   "LIBDENO_SUPERVISOR_ENDPOINT"; "LIBDENO_SUPERVISOR_TOKEN"; "LIBDENO_ANALYSIS_CACHE_ENTRIES";
   "LIBDENO_MAX_TARBALL_DECOMPRESSED_BYTES"; "DENO_DIR"; "DENO_NO_PACKAGE_JSON"; "JSR_URL";
   "NPM_CONFIG_REGISTRY"; "npm_config_registry"; "NPM_CONFIG_REPLACE_REGISTRY_HOST";
   "npm_config_replace_registry_host"].

Inductive capability := CapRead | CapWrite | CapEnv | CapNet | CapRun | CapFfi | CapSys | CapImport.
#[export] Instance capability_eq_dec : EqDecision capability.
Proof. solve_decision. Defined.

(** [PermissionsOptions]: the [allow_*] lists ([None] is nothing, the empty list
    everything), [deny_env] and [prompt]; every other field is [None]. *)
Record permissions_options := PermissionsOptions {
  po_allow : capability -> option (list string);
  po_deny_env : list string;
  po_prompt : bool
}.

(** ** Text *)
Fixpoint contains_slash (s : string) : bool :=
  match s with EmptyString => false | String c s => Ascii.eqb c slash || contains_slash s end.

(** ** The argument loop *)
Section Build.
(** Whether a path is valid UTF-8. *)
Context (utf8 : path -> bool) (cwd : path).

Definition resolve_path (message : string) (s : string) : result string libdeno_error :=
  let p := join cwd s in if utf8 p then Ok p else Err (Permission message).

Fixpoint collect_values (f : string -> result string libdeno_error) (l : list string) : result (list string) libdeno_error :=
  match l with
  | [] => Ok []
  | s :: l => let? x := f s in let? rest := collect_values f l in Ok (x :: rest)
  end.

Definition paths (specs : list string) : result (list string) libdeno_error :=
  collect_values (fun s => if is_absolute s then Ok s
                    else resolve_path "filesystem permission path is not valid UTF-8" s) specs.

Definition is_run_path (spec : string) : bool :=
  is_absolute spec || bool_decide (spec = ".") || bool_decide (spec = "..") || contains_slash spec.
Definition run_paths (specs : list string) : result (list string) libdeno_error :=
  collect_values (fun s => if negb (is_run_path s) then Ok s
                    else resolve_path "run permission path is not valid UTF-8" s) specs.

(** Repeated flags accumulate; a flag without a value grants everything. *)
Definition extend (slot : option (list string)) (specs : list string) : option (list string) :=
  match specs with
  | [] => Some []
  | _ => match slot with
         | Some [] => Some []
         | Some existing => Some (existing ++ specs)
         | None => Some specs
         end
  end.

Definition extend_allow (cap : capability) (specs : list string) (opts : permissions_options) : permissions_options :=
  PermissionsOptions (fun c => if decide (c = cap) then extend (po_allow opts c) specs else po_allow opts c)
    (po_deny_env opts) (po_prompt opts).

(** The capability of a flag and the resolution of its values. *)
Definition flag_capability (flag : string) : option capability :=
  if decide (flag = "--allow-read") then Some CapRead
  else if decide (flag = "--allow-write") then Some CapWrite
  else if decide (flag = "--allow-env") then Some CapEnv
  else if decide (flag = "--allow-net") then Some CapNet
  else if decide (flag = "--allow-run") then Some CapRun
  else if decide (flag = "--allow-ffi") then Some CapFfi
  else if decide (flag = "--allow-sys") then Some CapSys
  else if decide (flag = "--allow-import") then Some CapImport
  else None.
Definition resolve_specs (cap : capability) (specs : list string) : result (list string) libdeno_error :=
  match cap with
  | CapRead | CapWrite | CapFfi => paths specs
  | CapRun => run_paths specs
  | _ => Ok specs
  end.

(** One argument: everything, or values for a capability. *)
Inductive grant := GrantAll | Grant (cap : capability) (specs : list string).

Definition backtick : string := "`".
Definition parse_arg (arg : string) : result grant libdeno_error :=
  let '(flag, value) := match split_once equals arg with Some (f, v) => (f, Some v) | None => (arg, None) end in
  if bool_decide (flag = "-A" \/ flag = "--allow-all") then
    match value with
    | Some _ => Err (Permission ("flag " +:+ backtick +:+ flag +:+ backtick +:+ " does not take a value"))
    | None => Ok GrantAll
    end
  else
    let? specs :=
      match value with
      | Some v =>
          let specs := List.filter (fun s => negb (bool_decide (s = EmptyString))) (split comma v) in
          if bool_decide (specs = []) then
            Err (Permission ("flag " +:+ backtick +:+ flag +:+ "=" +:+ backtick +:+ " requires at least one value"))
          else Ok specs
      | None => Ok []
      end in
    match flag_capability flag with
    | Some cap => let? specs := resolve_specs cap specs in Ok (Grant cap specs)
    | None => Err (Permission ("unknown permission flag: " +:+ flag))
    end.

(** [None] when the arguments grant everything. *)
Fixpoint parse_args (args : list string) (opts : permissions_options) (has_allow : bool)
  : result (option (permissions_options * bool)) libdeno_error :=
  match args with
  | [] => Ok (Some (opts, has_allow))
  | arg :: args =>
      let? g := parse_arg arg in
      match g with
      | GrantAll => Ok None
      | Grant cap specs => parse_args args (extend_allow cap specs opts) true
      end
  end.

(** The library's container. *)
Context (permissions : Type) (from_options : permissions_options -> result permissions string).
Inductive container := AllowAll | Restricted (p : permissions).

Definition no_flags_error : libdeno_error := Configuration
  "no permission flags provided; since v0.2.0 an empty list grants nothing (it was allow-all before v0.2.0). Pass --allow-* capability flags, set LibdenoOptions.prompt = true for interactive prompting, or set LibdenoOptions.allow_all_permissions = true to grant all capabilities".

Definition initial_options (prompt : bool) : permissions_options :=
  PermissionsOptions (fun _ => None) CONTROL_ENV_VARS prompt.

Definition build_permissions (permission_args : list string) (allow_all prompt : bool) : result container libdeno_error :=
  if allow_all then Ok AllowAll
  else
    let? parsed := parse_args permission_args (initial_options prompt) false in
    match parsed with
    | None => Ok AllowAll
    | Some (opts, has_allow) =>
        if negb has_allow && negb prompt then Err no_flags_error
        else let? perms := map_err Permission (from_options opts) in Ok (Restricted perms)
    end.

Definition validate_permission_args (permission_args : list string) (allow_all prompt : bool) : result unit libdeno_error :=
  let? _ := build_permissions permission_args allow_all prompt in Ok ().

(** ** The reference: what a list of arguments grants *)

(** The values of all flags of a capability, in order; [None] if there is none,
    and everything if one has no value. *)
Definition specs_of (cap : capability) (gs : list grant) : list (list string) :=
  omap (fun g => match g with Grant c s => if decide (c = cap) then Some s else None | GrantAll => None end) gs.
Definition slot_of (l : list (list string)) : option (list string) :=
  match l with [] => None | _ => if decide ([] ∈ l) then Some [] else Some (concat l) end.
Definition granted (cap : capability) (gs : list grant) : option (list string) := slot_of (specs_of cap gs).

(** ** Lemmas *)
Lemma collect_forall (f : string -> result string libdeno_error) (P : string -> Prop) (l xs : list string) :
  (forall s x, s ∈ l -> f s = Ok x -> P x) -> collect_values f l = Ok xs -> Forall P xs /\ length xs = length l.
Proof.
  revert xs; induction l as [|s l IH]; intros xs Hf; simpl; [by intros [= <-]|].
  intros (x & Hx & H)%bind_ok; apply bind_ok in H as (rest & Hr & [= <-]).
  destruct (IH rest) as [H1 H2]; [intros s' x' Hs; apply Hf; by right|done|].
  split; [|simpl; by rewrite H2]; constructor; [|done]; apply (Hf s); [by left|done].
Qed.

(** [extend] accumulates as the reference says. *)
Lemma concat_nonempty (l : list (list string)) : l <> [] -> [] ∉ l -> concat l <> [].
Proof.
  destruct l as [|x l]; [done|]; intros _ H; simpl; destruct x; [|done]; destruct H; by left.
Qed.

Lemma extend_slot (l : list (list string)) (specs : list string) : extend (slot_of l) specs = slot_of (l ++ [specs]).
Proof.
  destruct l as [|x l].
  - simpl; destruct specs as [|s specs].
    + by rewrite decide_True by by left.
    + rewrite decide_False; [by rewrite app_nil_r|]; by intros [?|?%not_elem_of_nil]%elem_of_cons.
  - unfold slot_of; change ((x :: l) ++ [specs]) with (x :: l ++ [specs]); cbv iota.
    rewrite (app_comm_cons l [specs] x); case_decide as H1.
    + rewrite decide_True by (apply elem_of_app; by left); by destruct specs.
    + destruct specs as [|s specs].
      * by rewrite decide_True by (apply elem_of_app; right; by left).
      * rewrite decide_False.
        2: { intros [H|[H|H%not_elem_of_nil]%elem_of_cons]%elem_of_app; done. }
        rewrite concat_app; simpl; rewrite app_nil_r; pose proof (concat_nonempty (x :: l)) as Hne; simpl in Hne |- *.
        destruct (x ++ concat l) as [|y ys]; [by destruct Hne|done].
Qed.

Lemma parse_args_spec (args : list string) (gs0 : list grant) (opts : permissions_options) (has : bool)
    (r : option (permissions_options * bool)) :
  (forall c, po_allow opts c = granted c gs0) -> has = negb (bool_decide (gs0 = [])) -> GrantAll ∉ gs0 ->
  parse_args args opts has = Ok r ->
  exists gs, Forall2 (fun a g => parse_arg a = Ok g) (take (length gs) args) gs /\
    match r with
    | Some (opts', has') =>
        GrantAll ∉ gs0 ++ gs /\ length gs = length args /\
        (forall c, po_allow opts' c = granted c (gs0 ++ gs)) /\ has' = negb (bool_decide (gs0 ++ gs = [])) /\
        po_deny_env opts' = po_deny_env opts /\ po_prompt opts' = po_prompt opts
    | None => last gs = Some GrantAll
    end.
Proof.
  revert gs0 opts has r; induction args as [|a args IH]; intros gs0 opts has r Ho Hh Hn H; simpl in H.
  - injection H as <-; exists []; rewrite !app_nil_r; split_and!; try done; constructor.
  - apply bind_ok in H as (g & Hg & H); destruct g as [|cap specs].
    + injection H as <-; exists [GrantAll]; split; [by repeat constructor|done].
    + destruct (IH (gs0 ++ [Grant cap specs]) (extend_allow cap specs opts) true r) as (gs & Hf & Hr).
      * intros c; simpl; unfold granted, specs_of in *; rewrite omap_app; simpl; case_decide as Hc.
        -- subst; rewrite decide_True by done; rewrite Ho; apply extend_slot.
        -- rewrite decide_False by congruence; rewrite app_nil_r; apply Ho.
      * rewrite bool_decide_eq_false_2; [done|]; by destruct gs0.
      * intros [?|[?|?%not_elem_of_nil]%elem_of_cons]%elem_of_app; done.
      * done.
      * exists (Grant cap specs :: gs); split; [by constructor|]; destruct r as [[opts' has']|].
        -- rewrite <- !app_assoc in Hr; destruct Hr as (H1 & H3 & H4 & H5 & H6 & H7); split_and!; try done; simpl; by rewrite H3.
        -- by destruct gs.
Qed.

Lemma parse_args_error (pre : list string) (gs : list grant) (a : string) (post : list string) (e : libdeno_error)
    (opts : permissions_options) (has : bool) :
  Forall2 (fun a g => parse_arg a = Ok g) pre gs -> GrantAll ∉ gs -> parse_arg a = Err e ->
  parse_args (pre ++ a :: post) opts has = Err e.
Proof.
  intros Hf; revert opts has; induction Hf as [|b g pre gs Hb Hf IH]; intros opts has Hn He; simpl; [by rewrite He|].
  rewrite Hb; apply not_elem_of_cons in Hn as [Hg Hn]; destruct g; [done|]; by apply IH.
Qed.

(** Values of read, write and ffi flags are absolute, those of run flags are
    absolute or names looked up on the path. *)
Definition anchored (cap : capability) (s : string) : Prop :=
  match cap with
  | CapRead | CapWrite | CapFfi => is_absolute s = true
  | CapRun => is_absolute s = true \/ is_run_path s = false
  | _ => True
  end.

Lemma join_absolute (p : path) : is_absolute cwd = true -> is_absolute (join cwd p) = true.
Proof.
  unfold join; intros H; destruct (is_absolute p) eqn:E; [done|]; destruct cwd as [|c base]; [done|].
  rewrite decide_False by done; by destruct (ends_with_slash _).
Qed.

Lemma parse_arg_anchored (a : string) (cap : capability) (specs : list string) :
  is_absolute cwd = true -> parse_arg a = Ok (Grant cap specs) -> Forall (anchored cap) specs.
Proof.
  intros Hc; unfold parse_arg; destruct (match split_once _ a with Some _ => _ | None => _ end) as [flag value].
  case_bool_decide as Hall; [by destruct value|]; intros (l & _ & H)%bind_ok; destruct (flag_capability flag) as [c|]; [|done].
  apply bind_ok in H as (xs & Hx & [= <- <-]); unfold resolve_specs, paths, run_paths in Hx.
  assert (forall m s x, resolve_path m s = Ok x -> is_absolute x = true) as Hp.
  { intros m s x; unfold resolve_path; destruct (utf8 _); [|done]; intros [= <-]; by apply join_absolute. }
  assert (forall s x, (if is_absolute s then Ok s
    else resolve_path "filesystem permission path is not valid UTF-8" s) = Ok x -> is_absolute x = true) as Hfs.
  { intros s x; destruct (is_absolute s) eqn:E; [by intros [= <-]|by apply Hp]. }
  destruct c; try (by apply Forall_true); 
    match goal with |- Forall (anchored ?c) _ => apply (collect_forall _ (anchored c)) in Hx; [apply Hx|intros s x _; try apply Hfs] end.
  destruct (is_run_path s) eqn:E; simpl; [intros Hr; left; by eapply Hp|intros [= <-]; by right].
Qed.

Lemma granted_forall (P : string -> Prop) (cap : capability) (gs : list grant) (l : list string) :
  (forall s, Grant cap s ∈ gs -> Forall P s) -> granted cap gs = Some l -> Forall P l.
Proof.
  intros Hg; unfold granted, slot_of; assert (Forall (Forall P) (specs_of cap gs)) as Hf.
  { apply Forall_forall; intros s (g & Hin & Hs)%list_elem_of_omap; destruct g as [|c s']; [done|].
    case_decide; [|done]; injection Hs as ->; subst; by apply Hg. }
  destruct (specs_of cap gs) as [|x xs]; [done|]; case_decide; intros [= <-]; [by apply Forall_nil|]; exact (proj2 (Forall_concat P (x :: xs)) Hf).
Qed.

End Build.

(** The flags of the documentation. *)
Example permissions_example :
  build_permissions (fun _ => true) "/work" permissions_options Ok
    ["--allow-read=./a,/b"; "--allow-run=git,./x"; "--allow-read=c"; "--allow-net"; "--allow-net=h"] false false <> Err no_flags_error /\
  (exists o, build_permissions (fun _ => true) "/work" permissions_options Ok
     ["--allow-read=./a,/b"; "--allow-run=git,./x"; "--allow-read=c"; "--allow-net"; "--allow-net=h"] false false = Ok (Restricted _ o) /\
   po_allow o CapRead = Some ["/work/./a"; "/b"; "/work/c"] /\ po_allow o CapRun = Some ["git"; "/work/./x"] /\
   po_allow o CapNet = Some [] /\ po_allow o CapEnv = None).
Proof. split; [by vm_compute|]; eexists; split; [vm_compute; reflexivity|]; by vm_compute. Qed.
