(* ===== verification/Broker.v ===== *)
(** * Broker: permission decisions over a socket (src/permission_broker.rs).

    The bounded reader of request lines, the recovery of a request's id from a
    line that does not parse, the serving loop around the host's hook, and the
    installation of a hook.  JSON, the upstream broker and the operating system
    are parameters. *)
From S2P Require Import Prelude Errors.
Local Open Scope Z_scope.

Definition MAX_BROKER_LINE_BYTES : nat := Z.to_nat (64 * 1024).
Definition newline : Z := 10.

(** ** Reading a line *)

(** What the stream's reads yield: bytes, an interruption or a failure; after
    the last one the stream is at its end. *)
Inductive feed := Data (bytes : list Z) | Interrupted_ | Failed (e : io_error).

Inductive broker_line := Request (line : list Z) | Oversized (id : option Z).

(** The bytes up to and including the first newline, and the rest. *)
Fixpoint cut_line (bytes : list Z) : list Z * option (list Z) :=
  match bytes with
  | [] => ([], None)
  | b :: bytes =>
      if decide (b = newline) then ([b], Some bytes)
      else let '(l, rest) := cut_line bytes in (b :: l, rest)
  end.

Section Broker.
(** serde_json over a prefix of a line: the keys of the object with the value's
    type check ([Some n] is a u32 under any key), how the map ends, and whether
    nothing follows it. *)
Inductive json_end := JEnd | JEof | JBad.
Context (json_entries : list Z -> list (string * result Z json_end) * json_end) (json_complete : list Z -> bool).

(** The visitor: the value of the only key [id]; other values are skipped and
    only have to be there. *)
Fixpoint visit_map (entries : list (string * result Z json_end)) (last : json_end) (id : option Z)
  : option Z * json_end :=
  match entries with
  | [] => (id, last)
  | (key, value) :: entries =>
      if decide (key = "id") then
        match id, value with
        | Some _, _ => (None, JBad)
        | None, Ok n => visit_map entries last (Some n)
        | None, Err e => (None, e)
        end
      else visit_map entries last id
  end.

Definition broker_request_id (prefix : list Z) (allow_truncated_eof : bool) : option Z :=
  let '(entries, last) := json_entries prefix in
  match visit_map entries last None with
  | (id, JEnd) => if json_complete prefix then id else None
  | (id, JEof) => if allow_truncated_eof then id else None
  | (_, JBad) => None
  end.

(** One line: its result and the stream after it. *)
Fixpoint read_broker_line (feeds : list feed) (prefix : list Z) (oversized : bool)
  : result (option broker_line) io_error * list feed :=
  match feeds with
  | [] | Data [] :: _ =>
      (if bool_decide (prefix = []) then Ok None else Err (IoError InvalidData "unterminated broker request"), feeds)
  | Interrupted_ :: feeds => read_broker_line feeds prefix oversized
  | Failed e :: feeds => (Err e, feeds)
  | Data available :: feeds =>
      let '(line, rest) := cut_line available in
      let '(prefix, oversized) :=
        if oversized then (prefix, true)
        else
          let room := (MAX_BROKER_LINE_BYTES + 1 - length prefix)%nat in
          let prefix := prefix ++ take room line in
          (prefix, bool_decide (MAX_BROKER_LINE_BYTES < length prefix)%nat) in
      match rest with
      | Some rest =>
          (Ok (Some (if oversized then Oversized (broker_request_id prefix true) else Request prefix)),
           match rest with [] => feeds | _ => Data rest :: feeds end)
      | None => read_broker_line feeds prefix oversized
      end
  end.

(** ** Serving *)
Record permission_request := PermissionRequest { pr_name : string; pr_value : option string }.
Record broker_response_line := BrokerResponseLine { br_id : Z; br_result : string; br_reason : option string }.

(** A line parsed as a request, and the host's hook; [None] is a panic. *)
Context (parse_request : list Z -> option (Z * permission_request)) (hook : permission_request -> option bool).

(** The id to answer and the request to decide, or the end of the service. *)
Definition interpret (line : broker_line) : option (Z * option permission_request) :=
  match line with
  | Oversized (Some id) => Some (id, None)
  | Oversized None => None
  | Request line =>
      match parse_request line with
      | Some (id, r) => Some (id, Some r)
      | None => match broker_request_id line false with Some id => Some (id, None) | None => None end
      end
  end.

Definition decision (r : option permission_request) : bool :=
  match r with Some r => default false (hook r) | None => false end.
Definition response (id : Z) (r : option permission_request) : broker_response_line :=
  BrokerResponseLine id (if decision r then "allow" else "deny") None.

(** The loop; [writes] tells which answers could be written, and each turn takes
    at least one byte off the stream. *)
Fixpoint serve_broker_connection (fuel : nat) (feeds : list feed) (writes : list bool) : list broker_response_line :=
  match fuel with
  | O => []
  | S fuel =>
      match read_broker_line feeds [] false with
      | (Ok (Some line), feeds) =>
          match interpret line with
          | Some (id, r) =>
              response id r ::
              match writes with
              | true :: writes => serve_broker_connection fuel feeds writes
              | _ => []
              end
          | None => []
          end
      | _ => []
      end
  end.

(** ** The reference: the lines of a byte string *)
Fixpoint lines_fuel (fuel : nat) (bytes : list Z) : list (list Z) :=
  match fuel with
  | O => []
  | S fuel => match cut_line bytes with (l, Some rest) => l :: lines_fuel fuel rest | (_, None) => [] end
  end.
Definition lines (bytes : list Z) : list (list Z) := lines_fuel (length bytes) bytes.

Definition bounded (line : list Z) : broker_line :=
  if decide (MAX_BROKER_LINE_BYTES < length line)%nat
  then Oversized (broker_request_id (take (MAX_BROKER_LINE_BYTES + 1) line) true) else Request line.

(** The answers to a list of lines. *)
Fixpoint answers (ls : list (list Z)) (writes : list bool) : list broker_response_line :=
  match ls with
  | [] => []
  | l :: ls =>
      match interpret (bounded l) with
      | Some (id, r) => response id r :: match writes with true :: writes => answers ls writes | _ => [] end
      | None => []
      end
  end.

Fixpoint feed_bytes (feeds : list feed) : list Z :=
  match feeds with [] => [] | Data b :: feeds => b ++ feed_bytes feeds | _ :: feeds => feed_bytes feeds end.
Definition clean (f : feed) : Prop := match f with Data b => b <> [] | Interrupted_ => True | Failed _ => False end.

(** ** Lemmas *)
#[local] Opaque MAX_BROKER_LINE_BYTES.

Lemma cut_line_app (a b : list Z) :
  cut_line (a ++ b) =
  match cut_line a with
  | (l, Some rest) => (l, Some (rest ++ b))
  | (l, None) => let '(l', rest) := cut_line b in (l ++ l', rest)
  end.
Proof.
  induction a as [|x a IH]; simpl; [by destruct (cut_line b)|]; case_decide; [done|].
  rewrite IH; destruct (cut_line a) as [l [rest|]]; [done|]; by destruct (cut_line b).
Qed.
Lemma cut_line_spec (a : list Z) :
  match cut_line a with
  | (l, Some rest) => a = l ++ rest /\ l <> [] /\ (length rest < length a)%nat
  | (l, None) => l = a
  end.
Proof.
  induction a as [|x a IH]; simpl; [done|]; case_decide; [split_and!; [done|done|simpl; lia]|].
  destruct (cut_line a) as [l [rest|]]; [destruct IH as (-> & H1 & H2)|by subst].
  split_and!; [done|done|]; rewrite !length_app in *; simpl; lia.
Qed.

(** The reader's state after the bytes [seen] of the current line. *)
Definition reading (seen : list Z) (prefix : list Z) (oversized : bool) : Prop :=
  prefix = take (MAX_BROKER_LINE_BYTES + 1) seen /\ oversized = bool_decide (MAX_BROKER_LINE_BYTES < length seen)%nat.

Lemma reading_step (seen prefix line : list Z) (oversized : bool) :
  reading seen prefix oversized ->
  let '(prefix', oversized') :=
    if oversized then (prefix, true)
    else
      let room := (MAX_BROKER_LINE_BYTES + 1 - length prefix)%nat in
      let prefix := prefix ++ take room line in
      (prefix, bool_decide (MAX_BROKER_LINE_BYTES < length prefix)%nat) in
  reading (seen ++ line) prefix' oversized'.
Proof.
  intros [-> ->]; case_bool_decide as H; unfold reading.
  - rewrite take_app_le by lia; split; [done|]; symmetry; apply bool_decide_eq_true_2; rewrite length_app; lia.
  - rewrite (take_ge seen) by lia; rewrite take_app, (take_ge seen) by lia; split; [done|].
    apply bool_decide_ext; rewrite !length_app, length_take; lia.
Qed.

Lemma reading_result (line prefix : list Z) (oversized : bool) :
  reading line prefix oversized ->
  (if oversized then Oversized (broker_request_id prefix true) else Request prefix) = bounded line.
Proof.
  intros [-> ->]; unfold bounded; case_bool_decide as H; [by rewrite decide_True|rewrite decide_False by done].
  by rewrite take_ge by lia.
Qed.

(** Reading a line depends on the bytes alone. *)
Lemma read_line_spec (feeds : list feed) (seen prefix : list Z) (oversized : bool) :
  Forall clean feeds -> reading seen prefix oversized ->
  exists feeds', Forall clean feeds' /\
    match cut_line (feed_bytes feeds) with
    | (l, Some rest) =>
        read_broker_line feeds prefix oversized = (Ok (Some (bounded (seen ++ l))), feeds') /\ feed_bytes feeds' = rest
    | (l, None) =>
        read_broker_line feeds prefix oversized =
        (if bool_decide (seen = [] /\ l = []) then Ok None else Err (IoError InvalidData "unterminated broker request"), feeds')
    end.
Proof.
  intros Hc; revert seen prefix oversized; induction Hc as [|f feeds Hf Hc IH]; intros seen prefix oversized Hr; simpl.
  - exists []; split; [constructor|]; destruct Hr as [-> _]; f_equal.
    rewrite Nat.add_1_r; destruct seen as [|y seen]; [done|].
    rewrite (bool_decide_eq_false_2 (_ /\ _)) by (by intros [? _]); by rewrite bool_decide_eq_false_2.
  - destruct f as [b| |]; [|by apply IH|done]; simpl in Hf; destruct b as [|x b]; [done|].
    set (b' := x :: b) in *; rewrite cut_line_app.
    pose proof (reading_step seen prefix (cut_line b').1 oversized Hr) as Hs.
    pose proof (cut_line_spec b') as Hcut; destruct (cut_line b') as [l [rest|]]; simpl in Hs.
    + destruct (if oversized then _ else _) as [prefix' oversized']; rewrite (reading_result _ _ _ Hs).
      exists (match rest with [] => feeds | _ => Data rest :: feeds end); split; [destruct rest; [done|by constructor]|].
      by destruct rest.
    + destruct (if oversized then _ else _) as [prefix' oversized']; subst l.
      destruct (IH (seen ++ b') prefix' oversized' Hs) as (feeds' & Hc' & H); exists feeds'; split; [done|].
      destruct (cut_line (feed_bytes feeds)) as [l' [rest'|]]; [by rewrite app_assoc|].
      rewrite H; f_equal; rewrite !bool_decide_eq_false_2; [done|naive_solver|].
      intros [Hn _]; by apply app_eq_nil in Hn as [_ Hn].
Qed.

Lemma lines_fuel_enough (n m : nat) (bytes : list Z) :
  (length bytes <= n)%nat -> (length bytes <= m)%nat -> lines_fuel n bytes = lines_fuel m bytes.
Proof.
  revert m bytes; induction n as [|n IH]; intros [|m] bytes Hn Hm; try done.
  - by destruct bytes; [|simpl in Hn; lia].
  - by destruct bytes; [|simpl in Hm; lia].
  - simpl; pose proof (cut_line_spec bytes) as Hs; destruct (cut_line bytes) as [l [rest|]]; [|done].
    destruct Hs as (_ & _ & Hlt); f_equal; apply IH; lia.
Qed.
Lemma lines_cons (bytes l rest : list Z) : cut_line bytes = (l, Some rest) -> lines bytes = l :: lines rest.
Proof.
  intros H; pose proof (cut_line_spec bytes) as Hs; rewrite H in Hs; destruct Hs as (_ & _ & Hlt).
  unfold lines; destruct (length bytes) as [|n] eqn:E; [lia|]; simpl; rewrite H; f_equal; apply lines_fuel_enough; lia.
Qed.
Lemma lines_nil (bytes l : list Z) : cut_line bytes = (l, None) -> lines bytes = [].
Proof. intros H; unfold lines; destruct (length bytes); simpl; [done|]; by rewrite H. Qed.

Lemma serve_answers (fuel : nat) (feeds : list feed) (writes : list bool) :
  Forall clean feeds -> (length (feed_bytes feeds) < fuel)%nat ->
  serve_broker_connection fuel feeds writes = answers (lines (feed_bytes feeds)) writes.
Proof.
  revert feeds writes; induction fuel as [|fuel IH]; intros feeds writes Hc Hf; [lia|].
  destruct (read_line_spec feeds [] [] false Hc) as (feeds' & Hc' & H).
  { split; [by rewrite take_nil|]; symmetry; apply bool_decide_eq_false_2; simpl; lia. }
  cbn [serve_broker_connection]; pose proof (cut_line_spec (feed_bytes feeds)) as Hs.
  destruct (cut_line (feed_bytes feeds)) as [l [rest|]] eqn:E.
  - destruct H as [-> Hb], Hs as (_ & _ & Hlt); rewrite (lines_cons _ _ _ E); cbn [answers app].
    destruct (interpret (bounded l)) as [[id r]|]; [|done]; f_equal; destruct writes as [|[] writes]; try done.
    rewrite IH, Hb; [done|done|]; rewrite Hb; lia.
  - rewrite H, (lines_nil _ _ E); by destruct (bool_decide _).
Qed.

(** Every request line read is within the bound, whatever the stream does. *)
Lemma read_line_bounded (feeds feeds' : list feed) (prefix line : list Z) (oversized : bool) :
  (oversized = false -> length prefix <= MAX_BROKER_LINE_BYTES)%nat ->
  read_broker_line feeds prefix oversized = (Ok (Some (Request line)), feeds') ->
  (length line <= MAX_BROKER_LINE_BYTES)%nat.
Proof.
  revert prefix oversized; induction feeds as [|f feeds IH]; intros prefix oversized Hp; cbn [read_broker_line].
  - by case_bool_decide.
  - destruct f as [[|x b]| |]; [by case_bool_decide| |by apply IH|done].
    destruct (cut_line (x :: b)) as [l rest].
    set (p' := prefix ++ take (MAX_BROKER_LINE_BYTES + 1 - length prefix) l).
    destruct oversized; [destruct rest; [done|by apply IH]|].
    destruct rest; case_bool_decide as H; [done|intros [= <- _]; lia| |]; apply IH; [done|lia].
Qed.

(** C34. The bridge to the hook fails closed and does not depend on how its
    stream is split.  Whatever arrives, an answer that allows names a request
    that parsed, from a line within the bound, which the hook allowed; lines
    that are too long, do not parse or make the hook panic are denied under their
    own id or end the service.  Over a stream without failures the answers are
    those of its complete lines, in order, however the bytes are split into
    reads and interrupted, up to the first line without an id or an answer that
    cannot be written. *)
Theorem broker_fails_closed (fuel : nat) (feeds : list feed) (writes : list bool) :
  (forall a, a ∈ serve_broker_connection fuel feeds writes -> br_result a <> "deny" ->
     exists line r, parse_request line = Some (br_id a, r) /\ hook r = Some true /\ (length line <= MAX_BROKER_LINE_BYTES)%nat) /\
  (Forall clean feeds -> (length (feed_bytes feeds) < fuel)%nat ->
     serve_broker_connection fuel feeds writes = answers (lines (feed_bytes feeds)) writes) /\
  (forall feeds', Forall clean feeds -> Forall clean feeds' -> feed_bytes feeds = feed_bytes feeds' ->
     (length (feed_bytes feeds) < fuel)%nat ->
     serve_broker_connection fuel feeds writes = serve_broker_connection fuel feeds' writes).
Proof.
  split_and!.
  - revert feeds writes; induction fuel as [|fuel IH]; intros feeds writes a; [by intros ?%not_elem_of_nil|].
    cbn [serve_broker_connection]; destruct (read_broker_line feeds [] false) as [[[line|]|] feeds'] eqn:E;
      try by intros ?%not_elem_of_nil.
    destruct (interpret line) as [[id r]|] eqn:Ei; [|by intros ?%not_elem_of_nil].
    intros [->|Ha]%elem_of_cons Hd.
    + unfold response, decision in *; simpl in *; destruct r as [r|]; [|done].
      destruct (hook r) as [[]|] eqn:Eh; [|done|done]; destruct line as [line|[id'|]]; simpl in Ei; [|done|done].
      exists line, r; destruct (parse_request line) as [[id' r']|] eqn:Ep; [|by destruct (broker_request_id line false)].
      injection Ei as -> ->; split_and!; [done|done|]; eapply read_line_bounded; [|exact E]; simpl; lia.
    + destruct writes as [|[] writes]; [by apply not_elem_of_nil in Ha| |by apply not_elem_of_nil in Ha]; by apply (IH feeds' writes).
  - apply serve_answers.
  - intros feeds' Hc Hc' Hb Hf; rewrite serve_answers, Hb by done; symmetry; apply serve_answers; [done|by rewrite <- Hb].
Qed.
End Broker.

(** A stream with an interruption in the middle of a line; the hook allows reads
    and panics on anything it does not know. *)
Example broker_example :
  let parse l := match l with [114; 10] => Some (7, PermissionRequest "read" None) | [120; 10] => Some (8, PermissionRequest "x" None) | _ => None end in
  let hook r := if decide (pr_name r = "read") then Some true else None in
  serve_broker_connection (fun _ => ([], JBad)) (fun _ => false) parse hook 99
    [Data [114]; Interrupted_; Data [10; 120; 10]; Data [63; 10]; Data [114; 10]] [true; true; true]
  = [BrokerResponseLine 7 "allow" None; BrokerResponseLine 8 "deny" None].
Proof. reflexivity. Qed.

(** ** Installing a broker or a hook *)

(** What the installation does to the process, in order. *)
Inductive install_event :=
| LeaseAcquired | DirCreated | SocketBound | BrokerConnected | ThreadSpawned | BrokerSet | ThreadStarted
| ThreadJoined | SocketRemoved | DirRemoved | LeaseReleased.
#[export] Instance install_event_eq_dec : EqDecision install_event.
Proof. solve_decision. Defined.

(** Upstream may end the process when it cannot connect, and panics when another
    broker was set meanwhile. *)
Inductive installed := Returned (r : result unit libdeno_error) | ProcessExited | Panicked.

Record install_env := InstallEnv {
  ie_has_broker : bool;
  ie_lease : result unit libdeno_error;
  ie_suffix : result string dyn_error;
  ie_create_dir : result unit string; ie_bind : result unit string;
  ie_connects : bool;
  ie_accept : result unit string; ie_spawn : result unit io_error;
  ie_other_broker : bool
}.

Definition install_permission_broker (e : install_env) : installed * list install_event :=
  if ie_has_broker e then
    (Returned (Err (Permission
       "a permission broker is already installed; it can only be installed once per process")), [])
  else match ie_lease e with
  | Err l => (Returned (Err l), [])
  | Ok _ =>
      if negb (ie_connects e) then (ProcessExited, [LeaseAcquired])
      else if ie_other_broker e then (Panicked, [LeaseAcquired; BrokerConnected; LeaseReleased])
      else (Returned (Ok ()), [LeaseAcquired; BrokerConnected; BrokerSet; LeaseReleased])
  end.

(** The drop of [HookSocketDir] and of the lease. *)
Definition cleanup : list install_event := [SocketRemoved; DirRemoved; LeaseReleased].

(** [install_permission_hook_unix]; [dir] and [socket] are the paths shown. *)
Definition install_permission_hook (dir socket : string) (e : install_env) : installed * list install_event :=
  if ie_has_broker e then
    (Returned (Err (Permission
       "a permission broker is already installed; install_permission_broker and install_permission_hook are mutually exclusive and both install-once")), [])
  else match ie_lease e with
  | Err l => (Returned (Err l), [])
  | Ok _ =>
      match ie_suffix e with
      | Err s => (Returned (Err (Runtime s)), [LeaseAcquired; LeaseReleased])
      | Ok _ =>
          match ie_create_dir e with
          | Err m => (Returned (Err (Permission ("failed to create hook socket dir " +:+ dir +:+ ": " +:+ m))),
                      [LeaseAcquired; LeaseReleased])
          | Ok _ =>
              let t := [LeaseAcquired; DirCreated] in
              match ie_bind e with
              | Err m => (Returned (Err (Permission ("failed to bind hook socket " +:+ socket +:+ ": " +:+ m))), t ++ cleanup)
              | Ok _ =>
                  let t := t ++ [SocketBound] in
                  if negb (ie_connects e) then (ProcessExited, t)
                  else
                    let t := t ++ [BrokerConnected] in
                    match ie_accept e with
                    | Err m => (Returned (Err (Permission ("failed to accept hook broker connection: " +:+ m))), t ++ cleanup)
                    | Ok _ =>
                        match ie_spawn e with
                        | Err s => (Returned (Err (Io s)), t ++ cleanup)
                        | Ok _ =>
                            let t := t ++ [ThreadSpawned] in
                            if ie_other_broker e then (Panicked, t ++ [ThreadJoined] ++ cleanup)
                            else (Returned (Ok ()), t ++ [BrokerSet; ThreadStarted] ++ cleanup)
                        end
                    end
              end
          end
      end
  end.

(** Installing a hook takes effect as a whole or not at all.  It succeeds
    exactly when the broker was set and the serving thread was released to
    serve; on every other return, and when another broker wins, no broker was
    set, the thread never served and was joined if it existed, and the socket,
    its directory and the run lease are given back.  Nothing at all happens when
    a broker is already installed or a run is active. *)
Theorem hook_install_atomic (dir socket : string) (e : install_env) :
  let '(r, t) := install_permission_hook dir socket e in
  (r = Returned (Ok ()) <-> BrokerSet ∈ t) /\ (BrokerSet ∈ t <-> ThreadStarted ∈ t) /\
  (ThreadSpawned ∈ t -> (r = Returned (Ok ()) /\ ThreadJoined ∉ t) \/ (ThreadJoined ∈ t /\ ThreadStarted ∉ t)) /\
  (r <> ProcessExited -> (DirCreated ∈ t -> SocketRemoved ∈ t /\ DirRemoved ∈ t) /\
     (LeaseAcquired ∈ t -> last t = Some LeaseReleased)) /\
  (ie_has_broker e = true \/ is_ok (ie_lease e) = false -> t = [] /\ r <> Returned (Ok ())).
Proof.
  unfold install_permission_hook; cbn -[String.append].
  destruct (ie_has_broker e) eqn:E1; [|destruct (ie_lease e) as [[]|l] eqn:E2; [|]];
    [|destruct (ie_suffix e); [destruct (ie_create_dir e) as [[]|]; [destruct (ie_bind e) as [[]|];
       [destruct (ie_connects e); [destruct (ie_accept e) as [[]|]; [destruct (ie_spawn e) as [[]|];
          [destruct (ie_other_broker e)| ]| ]| ]| ]| ]| ]| ];
    cbn -[String.append]; split_and!; try split; intros; try split; try done;
    repeat match goal with
    | H : _ ∈ _ |- _ => apply (bool_decide_eq_true_2 _) in H; vm_compute in H; discriminate H
    | H : _ \/ _ |- _ => destruct H; try done
    end; try (apply (bool_decide_eq_true_1 _); vm_compute; reflexivity).
  all: try (left; split; [done|apply (bool_decide_eq_true_1 _); vm_compute; reflexivity]).
  all: right; split; apply (bool_decide_eq_true_1 _); vm_compute; reflexivity.
Qed.
