(* ===== verification/Services.v ===== *)
(** * Services: the resolver stack and what runs share through it
    (src/services.rs).

    The stable construction of a stack, the supervision of npm lifecycle
    scripts, and the process-wide snapshot cache as runs look it up and save
    to it. *)
From S2P Require Import Prelude Errors NpmCache.
Local Open Scope Z_scope.

Definition RESOLVER_INPUTS_CHANGED_MESSAGE : string := "resolver inputs changed during construction".

(** ** The stable construction *)
Section Build.
(** [error.to_string()]; a stack with whether its manifest is current. *)
Context (display : dyn_error -> string) (stack : Type).

(** What the n-th construction yields, and whether its inputs are unchanged when
    it is done ([is_current().unwrap_or(false)]). *)
Context (build_once : nat -> result stack dyn_error) (is_current : nat -> bool).

Definition MAX_STABLE_BUILD_ATTEMPTS : nat := 2.

Definition stable_build_decision (attempt : nat) (stable : bool) : result bool dyn_error :=
  if stable then Ok true
  else if decide (attempt + 1 < MAX_STABLE_BUILD_ATTEMPTS)%nat then Ok false
  else Err (anyhow RESOLVER_INPUTS_CHANGED_MESSAGE).

(** The loop over [attempt..MAX_STABLE_BUILD_ATTEMPTS]; the number counts the
    constructions started. *)
Fixpoint build_attempts (remaining attempt : nat) : result stack dyn_error * nat :=
  match remaining with
  | O => (Err (anyhow RESOLVER_INPUTS_CHANGED_MESSAGE), attempt)
  | S remaining =>
      match build_once attempt with
      | Err error =>
          if bool_decide (display error = RESOLVER_INPUTS_CHANGED_MESSAGE) then
            if decide (attempt + 1 < MAX_STABLE_BUILD_ATTEMPTS)%nat then build_attempts remaining (S attempt)
            else (Err error, S attempt)
          else (Err error, S attempt)
      | Ok candidate =>
          match stable_build_decision attempt (is_current attempt) with
          | Err e => (Err e, S attempt)
          | Ok true => (Ok candidate, S attempt)
          | Ok false => build_attempts remaining (S attempt)
          end
      end
  end.
Definition new_with_timing : result stack dyn_error * nat := build_attempts MAX_STABLE_BUILD_ATTEMPTS 0.

(** The inputs changed while the n-th stack was built. *)
Definition unstable (n : nat) : Prop :=
  match build_once n with
  | Ok _ => is_current n = false
  | Err e => display e = RESOLVER_INPUTS_CHANGED_MESSAGE
  end.

(** Only a stack whose inputs did not change while it was built is handed
    out.  At most two constructions are started; the one returned was current
    when it was done, and it is the second only if the inputs changed under the
    first; an error of a construction that is not about changed inputs is
    returned at once, and giving up means that the inputs changed both times. *)
Theorem stable_stack (Hd : display (anyhow RESOLVER_INPUTS_CHANGED_MESSAGE) = RESOLVER_INPUTS_CHANGED_MESSAGE) :
  let '(r, n) := new_with_timing in
  (n = 1 \/ n = 2 /\ unstable 0)%nat /\
  match r with
  | Ok s => build_once (n - 1) = Ok s /\ is_current (n - 1) = true
  | Err e => if decide (display e = RESOLVER_INPUTS_CHANGED_MESSAGE) then n = 2%nat /\ unstable 0 /\ unstable 1
             else build_once (n - 1) = Err e
  end.
Proof.
  unfold new_with_timing, MAX_STABLE_BUILD_ATTEMPTS, unstable; cbn [build_attempts].
  unfold stable_build_decision, MAX_STABLE_BUILD_ATTEMPTS.
  destruct (build_once 0) as [s0|e0] eqn:E0; [destruct (is_current 0) eqn:C0|case_bool_decide as D0]; simpl.
  - split; [by left|]; by rewrite E0.
  - destruct (build_once 1) as [s1|e1] eqn:E1; [destruct (is_current 1) eqn:C1|case_bool_decide as D1]; simpl;
      (split; [by right|]); try (by rewrite E1); [by rewrite decide_True|by rewrite decide_True|by rewrite decide_False].
  - destruct (build_once 1) as [s1|e1] eqn:E1; [destruct (is_current 1) eqn:C1|case_bool_decide as D1]; simpl;
      (split; [by right|]); try (by rewrite E1); [by rewrite decide_True|by rewrite decide_True|by rewrite decide_False].
  - split; [by left|]; by rewrite decide_False.
Qed.
End Build.

(** ** Lifecycle scripts *)
Definition LIFECYCLE_SCRIPT_TIMEOUT : Z := from_secs 60.
Definition LIFECYCLE_KILL_WAIT_TIMEOUT : Z := from_secs 5.

Section Lifecycle.
(** The texts of an exit status and of a duration. *)
Context (show_status show_duration : Z -> string).

(** What a started script does: when it ends by itself and how, whether killing
    it fails, and when it ends after that. *)
Record child_course := ChildCourse {
  cc_wait : option (Z * result Z string); cc_kill : option string; cc_wait_killed : option (Z * result Z string)
}.

(** A wait bounded by a timeout, and the time it took. *)
Definition timeout {A} (limit : Z) (o : option (Z * A)) : option A * Z :=
  match o with Some (d, a) => if decide (d < limit) then (Some a, d) else (None, limit) | None => (None, limit) end.

Definition direct_child_note : string := "process-tree descendants are not supervised".
Definition lifecycle (event package : string) : string :=
  "lifecycle script `" +:+ event +:+ "` for package `" +:+ package +:+ "` ".

(** [supervise_lifecycle_script]: the exit status, and the time taken. *)
Definition supervise_lifecycle_script (c : child_course) (package event : string) (limit : Z) : result Z string * Z :=
  match timeout limit (cc_wait c) with
  | (Some (Ok status), d) => (Ok status, d)
  | (Some (Err error), d) => (Err (lifecycle event package +:+ "wait failed: " +:+ error), d)
  | (None, d) =>
      let '(wait_result, d') := timeout LIFECYCLE_KILL_WAIT_TIMEOUT (cc_wait_killed c) in
      let timed_out := lifecycle event package +:+ "timed out after " +:+ show_duration limit +:+ "; " in
      let result := "kill result: " +:+ default "sent" (cc_kill c) in
      (Err (timed_out +:+
         match cc_kill c, wait_result with
         | None, Some (Ok status) => "direct child killed with " +:+ show_status status
         | Some kill_error, Some (Ok status) =>
             "direct-child kill failed: " +:+ kill_error +:+ "; wait returned " +:+ show_status status
         | _, Some (Err wait_error) => result +:+ "; wait failed: " +:+ wait_error
         | _, None => result +:+ "; direct child did not exit within " +:+ show_duration LIFECYCLE_KILL_WAIT_TIMEOUT
         end +:+ "; " +:+ direct_child_note), d + d')
  end.

(** A package: its scripts by event, what starting and running them does, and
    what recording that they ran answers. *)
Record scripted_package := ScriptedPackage {
  sp_name : string;
  sp_scripts : string -> option string;
  sp_spawn : string -> result child_course string;
  sp_on_ran : result unit string
}.
Definition LIFECYCLE_EVENTS : list string := ["preinstall"; "install"; "postinstall"].

(** What happened: a script started, a package was recorded as done. *)
Inductive script_event := Started (package event : string) | Ran (package : string).

Fixpoint run_events (p : scripted_package) (events : list string) : result unit string * list script_event * Z :=
  match events with
  | [] => (Ok (), [], 0)
  | event :: events =>
      match sp_scripts p event with
      | None => run_events p events
      | Some _ =>
          match sp_spawn p event with
          | Err e => (Err (lifecycle event (sp_name p) +:+ "could not start: " +:+ e), [], 0)
          | Ok child =>
              match supervise_lifecycle_script child (sp_name p) event LIFECYCLE_SCRIPT_TIMEOUT with
              | (Err e, d) => (Err e, [Started (sp_name p) event], d)
              | (Ok status, d) =>
                  if negb (bool_decide (status = 0)) then
                    (Err (lifecycle event (sp_name p) +:+ "failed with " +:+ show_status status), [Started (sp_name p) event], d)
                  else
                    let '(r, t, d') := run_events p events in (r, Started (sp_name p) event :: t, d + d')
              end
          end
      end
  end.

Fixpoint execute (packages : list scripted_package) : result unit string * list script_event * Z :=
  match packages with
  | [] => (Ok (), [], 0)
  | p :: packages =>
      match run_events p LIFECYCLE_EVENTS with
      | (Err e, t, d) => (Err e, t, d)
      | (Ok _, t, d) =>
          match sp_on_ran p with
          | Err e => (Err e, t ++ [Ran (sp_name p)], d)
          | Ok _ => let '(r, t', d') := execute packages in (r, t ++ Ran (sp_name p) :: t', d + d')
          end
      end
  end.

(** The scripts a package has, in the order of the events. *)
Definition scripts_of (p : scripted_package) : list script_event :=
  map (Started (sp_name p)) (List.filter (fun e => match sp_scripts p e with Some _ => true | None => false end) LIFECYCLE_EVENTS).
Definition full_course (packages : list scripted_package) : list script_event :=
  concat (map (fun p => scripts_of p ++ [Ran (sp_name p)]) packages).
Definition script_limit : Z := LIFECYCLE_SCRIPT_TIMEOUT + LIFECYCLE_KILL_WAIT_TIMEOUT.

Lemma timeout_bounds {A} (limit : Z) (o : option (Z * A)) :
  0 <= limit -> (forall d a, o = Some (d, a) -> 0 <= d) -> 0 <= (timeout limit o).2 <= limit.
Proof.
  intros H Ho; destruct o as [[d a]|]; simpl; [|lia]; specialize (Ho d a eq_refl); case_decide; simpl; lia.
Qed.

(** Time does not run backwards. *)
Definition course_ok (c : child_course) : Prop :=
  (forall d a, cc_wait c = Some (d, a) -> 0 <= d) /\ (forall d a, cc_wait_killed c = Some (d, a) -> 0 <= d).
Definition package_ok (p : scripted_package) : Prop := forall event c, sp_spawn p event = Ok c -> course_ok c.

Lemma supervise_bounds (c : child_course) (package event : string) :
  course_ok c -> 0 <= (supervise_lifecycle_script c package event LIFECYCLE_SCRIPT_TIMEOUT).2 <= script_limit.
Proof.
  intros [H1 H2]; unfold supervise_lifecycle_script, script_limit.
  pose proof (timeout_bounds LIFECYCLE_SCRIPT_TIMEOUT (cc_wait c) ltac:(done) H1) as B1.
  pose proof (timeout_bounds LIFECYCLE_KILL_WAIT_TIMEOUT (cc_wait_killed c) ltac:(done) H2) as B2.
  assert (0 <= LIFECYCLE_KILL_WAIT_TIMEOUT) by done.
  destruct (timeout _ (cc_wait c)) as [[[]|] d]; simpl in *; [lia|lia|]; destruct (timeout _ (cc_wait_killed c)); simpl in *; lia.
Qed.

(** A script that ran its course with success. *)
Definition succeeded (p : scripted_package) (event : string) : Prop :=
  exists c d, sp_spawn p event = Ok c /\ cc_wait c = Some (d, Ok 0) /\ d < LIFECYCLE_SCRIPT_TIMEOUT.

Lemma supervise_ok (c : child_course) (package event : string) (limit status d : Z) :
  supervise_lifecycle_script c package event limit = (Ok status, d) -> cc_wait c = Some (d, Ok status) /\ d < limit.
Proof.
  unfold supervise_lifecycle_script, timeout; destruct (cc_wait c) as [[d0 a]|]; [|by case_match].
  case_decide; [|by case_match]; destruct a; [|done]; by intros [= <- <-].
Qed.

Definition has_script (p : scripted_package) (e : string) : bool :=
  match sp_scripts p e with Some _ => true | None => false end.

Lemma run_events_spec (p : scripted_package) (events : list string) (r : result unit string) (t : list script_event) (d : Z) :
  run_events p events = (r, t, d) ->
  (package_ok p -> 0 <= d <= Z.of_nat (length t) * script_limit) /\
  t `prefix_of` map (Started (sp_name p)) (List.filter (has_script p) events) /\
  (is_ok r = true -> t = map (Started (sp_name p)) (List.filter (has_script p) events) /\
     Forall (fun e => has_script p e = true -> succeeded p e) events).
Proof.
  revert r t d; induction events as [|e events IH]; intros r t d; cbn [run_events List.filter].
  - intros [= <- <- <-]; split_and!; [simpl; lia|done|by split; [|constructor]].
  - destruct (has_script p e) eqn:Eh; pose proof Eh as Es; unfold has_script in Es;
      destruct (sp_scripts p e) as [script|]; try done; cbn [map].
    2: { intros H; destruct (IH _ _ _ H) as (H1 & H2 & H3); split_and!; try done; intros Hr; destruct (H3 Hr) as [-> Hf].
         split; [done|]; constructor; [by rewrite Eh|done]. }
    destruct (sp_spawn p e) as [c|x] eqn:Ec; [|intros [= <- <- <-]; split_and!; [simpl; lia|apply prefix_nil|done]].
    destruct (supervise_lifecycle_script c (sp_name p) e LIFECYCLE_SCRIPT_TIMEOUT) as [[status|x] ds] eqn:Ev.
    2: { intros [= <- <- <-]; split_and!; [|apply prefix_cons, prefix_nil|done]; intros Hp.
         pose proof (supervise_bounds c (sp_name p) e (Hp e c Ec)) as Hb; rewrite Ev in Hb; simpl in *; lia. }
    pose proof (supervise_ok _ _ _ _ _ _ Ev) as [Hw Hlt]; case_bool_decide as Hz; cbn [negb].
    + destruct (run_events p events) as [[r' t'] d'] eqn:Er; intros [= <- <- <-]; destruct (IH _ _ _ eq_refl) as (H1 & H2 & H3).
      split_and!.
      * intros Hp; pose proof (supervise_bounds c (sp_name p) e (Hp e c Ec)) as Hb; rewrite Ev in Hb; simpl in Hb.
        specialize (H1 Hp); rewrite length_cons; lia.
      * by apply prefix_cons.
      * intros Hr; destruct (H3 Hr) as [-> Hf]; split; [done|]; constructor; [|done]; intros _; subst; by exists c, ds.
    + intros [= <- <- <-]; split_and!; [|apply prefix_cons, prefix_nil|done]; intros Hp.
      pose proof (supervise_bounds c (sp_name p) e (Hp e c Ec)) as Hb; rewrite Ev in Hb; simpl in *; lia.
Qed.

(** Lifecycle scripts run in order, stop at the first failure and cannot hold
    an installation up for ever.  What happens is a prefix of the full course:
    for each package its preinstall, install and postinstall scripts and then
    the record that they ran; the installation succeeds only if the course was
    run to its end with every script exiting with status zero in time; and
    every script started takes at most the timeout plus the wait for a killed
    child. *)
Theorem lifecycle_scripts_ordered (packages : list scripted_package) :
  let '(r, t, d) := execute packages in
  t `prefix_of` full_course packages /\
  (is_ok r = true -> t = full_course packages /\
     forall p e, p ∈ packages -> e ∈ LIFECYCLE_EVENTS -> has_script p e = true -> succeeded p e) /\
  (Forall package_ok packages -> 0 <= d <= Z.of_nat (length t) * script_limit).
Proof.
  induction packages as [|p packages IH]; cbn [execute full_course map concat].
  - split_and!; [done|by split; [|intros p e ?%not_elem_of_nil]|simpl; lia].
  - destruct (run_events p LIFECYCLE_EVENTS) as [[r0 t0] d0] eqn:E; destruct (run_events_spec _ _ _ _ _ E) as (H1 & H2 & H3).
    change (map (Started (sp_name p)) (List.filter (has_script p) LIFECYCLE_EVENTS)) with (scripts_of p) in *.
    assert (0 <= script_limit) as Hs by done.
    destruct r0 as [[]|e]; [destruct (H3 eq_refl) as [-> Hf]|].
    2: { split_and!; [do 2 apply prefix_app_r; done|done|intros [Hp _]%Forall_cons; by apply H1]. }
    destruct (sp_on_ran p) as [[]|e].
    + destruct (execute packages) as [[r t] d]; destruct IH as (I1 & I2 & I3); rewrite <- app_assoc; split_and!.
      * by apply prefix_app, prefix_cons.
      * intros Hr; destruct (I2 Hr) as [-> Hall]; split; [done|].
        intros q e [->|Hq]%elem_of_cons He Hh; [by eapply (proj1 (Forall_forall _ _) Hf)|by eapply Hall].
      * intros [Hp Hps]%Forall_cons; specialize (H1 Hp); specialize (I3 Hps); rewrite length_app, length_cons; lia.
    + split_and!; [apply prefix_app_r; done|done|]; intros [Hp _]%Forall_cons; specialize (H1 Hp); rewrite length_app; simpl; lia.
Qed.
End Lifecycle.

(** ** The snapshot cache between runs *)
Section Sharing.
Context {K V : Type} `{EqDecision K}.

(** A finished run: whether its stack's inputs are still current, the managed
    resolution it ended with, and its stack's snapshot key. *)
Record finished_run := FinishedRun { fr_current : bool; fr_managed : option V; fr_snapshot_key : option K }.

Definition save_npm_snapshot_cache (r : finished_run) (cache : list (K * V)) : list (K * V) :=
  if negb (fr_current r) then cache
  else match fr_managed r with
       | None => cache
       | Some snapshot =>
           match fr_snapshot_key r with Some key => insert_entry_bounded key snapshot cache | None => cache end
       end.

(** [resolve_npm_resolution_snapshot]: what a new stack starts from. *)
Definition resolve_npm_resolution_snapshot (key : option K) (cache : list (K * V)) : option V :=
  match key with Some k => NpmCache.get k cache | None => None end.

Definition saved (r : finished_run) : option (K * V) :=
  match fr_current r, fr_managed r, fr_snapshot_key r with true, Some s, Some k => Some (k, s) | _, _, _ => None end.

Definition cache_after (runs : list finished_run) : list (K * V) := foldl (fun c r => save_npm_snapshot_cache r c) [] runs.

Lemma cache_after_replay (runs : list finished_run) : cache_after runs = replay (omap saved runs).
Proof.
  induction runs as [|r runs IH] using rev_ind; [done|]; unfold cache_after in *.
  rewrite foldl_app, omap_app; simpl; rewrite IH; unfold save_npm_snapshot_cache, saved.
  destruct (fr_current r), (fr_managed r) as [s|], (fr_snapshot_key r) as [k|]; simpl; rewrite ?app_nil_r; try done.
  by rewrite replay_snoc.
Qed.

Lemma last_saved (runs : list finished_run) (k : K) (s : V) :
  last_inserted k (omap saved runs) = Some s ->
  exists pre r post, runs = pre ++ r :: post /\ saved r = Some (k, s) /\ forall r' v, r' ∈ post -> saved r' <> Some (k, v).
Proof.
  induction runs as [|r runs IH] using rev_ind; [done|]; rewrite omap_app; simpl; destruct (saved r) as [[k' s']|] eqn:E.
  - rewrite last_inserted_snoc; simpl; case_decide as Hk.
    + intros [= ->]; subst; exists runs, r, []; split_and!; [done|done|by intros r' v ?%not_elem_of_nil].
    + intros H; destruct (IH H) as (pre & r0 & post & -> & H1 & H2); exists pre, r0, (post ++ [r]).
      split_and!; [by rewrite <- app_assoc|done|]; intros r' v [Hin| ->%list_elem_of_singleton]%elem_of_app; [by apply H2|congruence].
  - rewrite app_nil_r; intros H; destruct (IH H) as (pre & r0 & post & -> & H1 & H2); exists pre, r0, (post ++ [r]).
    split_and!; [by rewrite <- app_assoc|done|]; intros r' v [Hin| ->%list_elem_of_singleton]%elem_of_app; [by apply H2|congruence].
Qed.

(** What a new stack starts from was resolved from the same inputs.  After
    any sequence of finished runs, a snapshot served under a key is the one saved
    by the last run whose stack had that key, whose resolution was managed and
    whose inputs had not changed by its end; a stack without a key is served
    nothing and runs without one leave the cache alone; and the cache never
    holds more than its bound. *)
Theorem served_snapshot_is_current (runs : list finished_run) (key : option K) (s : V)
    (Hs : resolve_npm_resolution_snapshot key (cache_after runs) = Some s) :
  (exists k pre r post, key = Some k /\ runs = pre ++ r :: post /\
     fr_current r = true /\ fr_managed r = Some s /\ fr_snapshot_key r = Some k /\
     forall r', r' ∈ post -> fr_snapshot_key r' = Some k -> fr_current r' = false \/ fr_managed r' = None) /\
  (length (cache_after runs) <= MAX_ENTRIES)%nat.
Proof.
  rewrite cache_after_replay in *; split; [|apply replay_ok]; destruct key as [k|]; [|done].
  apply replay_sound, last_saved in Hs as (pre & r & post & -> & Hr & Hp); exists k, pre, r, post.
  unfold saved in Hr; destruct (fr_current r) eqn:E1, (fr_managed r) eqn:E2, (fr_snapshot_key r) eqn:E3; try done.
  injection Hr as -> ->; split_and!; try done; intros r' Hin Hk.
  destruct (fr_current r') eqn:F1; [right|by left]; destruct (fr_managed r') as [v|] eqn:F2; [|done].
  destruct (Hp r' v Hin); unfold saved; by rewrite F1, F2, Hk.
Qed.
End Sharing.

Lemma served_snapshot_is_current_witness :
  let runs := [FinishedRun true (Some "a") (Some 1); FinishedRun false (Some "b") (Some 1); FinishedRun true None (Some 1)] in
  resolve_npm_resolution_snapshot (Some 1) (cache_after runs) = Some "a" /\
  exists r, r ∈ runs /\ fr_current r = true /\ fr_managed r = Some "a".
Proof.
  intros runs; assert (resolve_npm_resolution_snapshot (Some 1) (cache_after runs) = Some "a") as E by reflexivity; split; [done|].
  destruct (served_snapshot_is_current _ _ _ E) as [(k & pre & r & post & _ & Hr & Hc & Hm & _) _].
  exists r; split_and!; [rewrite Hr; apply elem_of_app; right; by left|done|done].
Defined.

Definition toy_display (e : dyn_error) : string := match e with DynError (POther m) _ => m | _ => "other" end.
Definition toy_attempts (n : nat) : result nat dyn_error := Ok n.

Lemma stable_stack_witness :
  new_with_timing toy_display nat toy_attempts (fun n => Nat.eqb n 1) = (Ok 1%nat, 2%nat) /\
  new_with_timing toy_display nat toy_attempts (fun _ => false) = (Err (anyhow RESOLVER_INPUTS_CHANGED_MESSAGE), 2%nat) /\
  unstable toy_display nat toy_attempts (fun n => Nat.eqb n 1) 0.
Proof.
  split_and!; [reflexivity|reflexivity|].
  pose proof (stable_stack toy_display nat toy_attempts (fun n => Nat.eqb n 1) eq_refl) as H.
  destruct H as [[H|[_ H]] _]; [done|exact H].
Defined.

(** A package with two scripts, the second of which hangs and is killed. *)
Example lifecycle_example :
  let p := ScriptedPackage "p" (fun e => if decide (e = "install") then None else Some "s")
             (fun e => Ok (if decide (e = "preinstall") then ChildCourse (Some (5, Ok 0)) None None
                           else ChildCourse None None (Some (7, Ok 9)))) (Ok ()) in
  let '(r, t, d) := execute (fun _ => "signal: 9") (fun _ => "60s") [p] in
  r = Err "lifecycle script `postinstall` for package `p` timed out after 60s; direct child killed with signal: 9; process-tree descendants are not supervised" /\
  t = [Started "p" "preinstall"; Started "p" "postinstall"] /\ d = 5 + LIFECYCLE_SCRIPT_TIMEOUT + 7.
Proof. by vm_compute. Qed.
