(* ===== verification/Construction.v ===== *)
(** * Construction: one resolver stack (src/deno_resolver_adapter.rs and
    [SharedServices::build_once] of src/services.rs).

    The workspace and resolver factories, the options they are given, what the
    adapter reads back from them, and the order in which a stack is put together.
    Discovery, the resolver objects, the caches, the lockfile and the installer
    are the libraries' and enter as functions and types. *)
From S2P Require Import Prelude Errors Options Paths.
Open Scope Z_scope.

Inductive node_modules_dir_mode := ModeAuto | ModeManual | ModeNone.

(** What is read of the root folder's configuration. *)
Record json_config := JsonConfig {
  jc_dir_path : path;
  jc_lock_config : result (option bool) dyn_error  (** [to_lock_config], as its [frozen] *)
}.
Record folder_configs := FolderConfigs { fc_deno_json : option json_config; fc_pkg_json : option path }.

(** The resolver of npm packages, with its root [node_modules]. *)
Inductive npm_resolver := Managed (root : option path) | Byonm (root : option path).
Definition root_node_modules_path (r : npm_resolver) : option path :=
  match r with Managed root | Byonm root => root end.

Section Construction.
Context (workspace analysis_cache client cache lockfile graph_resolver resolution_cell manifest snapshot_key snapshot : Type).

(** ** Factories *)
Record workspace_factory := WorkspaceFactory {
  wf_initial_cwd : path; wf_start_paths : list path; wf_node_modules_dir : option node_modules_dir_mode;
  wf_lockfile_skip_write : bool; wf_workspace_directory : option workspace
}.

(** Workspace discovery. *)
Context (discover : path -> list path -> result workspace dyn_error)
        (node_modules_dir : workspace -> result (option node_modules_dir_mode) dyn_error)
        (root_folder_configs : workspace -> folder_configs).

(** A factory finds its workspace once, unless it was given one. *)
Definition workspace_directory (f : workspace_factory) : result workspace dyn_error :=
  match wf_workspace_directory f with
  | Some w => Ok w
  | None => discover (wf_initial_cwd f) (wf_start_paths f)
  end.

Definition new_workspace_factory (initial_cwd : path) (config_start_paths : list path)
  : result workspace_factory dyn_error :=
  let discovery := WorkspaceFactory initial_cwd config_start_paths None true None in
  let? workspace := workspace_directory discovery in
  let? mode := node_modules_dir workspace in
  Ok (WorkspaceFactory initial_cwd config_start_paths (Some (default ModeAuto mode)) true (Some workspace)).

Definition new_authoritative_workspace_factory (initial_cwd : path) (config_start_paths : list path)
    (_ : workspace_factory) : result workspace_factory dyn_error :=
  new_workspace_factory initial_cwd config_start_paths.

Inductive cjs_resolution_mode := CjsDisabled.
Inductive translator_mode := ModuleLoaderMode.
Inductive json_imports := WithAttribute.
Record resolver_options := ResolverOptions {
  ro_no_transpile : bool; ro_force_check_js : bool; ro_preserve_jsx : bool;
  ro_force_disable_verbatim_module_syntax : bool; ro_is_cjs_resolution_mode : cjs_resolution_mode;
  ro_node_code_translator_mode : translator_mode; ro_allow_json_imports : json_imports;
  ro_require_modules : list string; ro_node_analysis_cache : option analysis_cache; ro_unstable_sloppy_imports : bool
}.
Record resolver_factory := ResolverFactory { rf_workspace_factory : workspace_factory; rf_options : resolver_options }.

Definition new_resolver_factory (f : workspace_factory) (c : analysis_cache) : resolver_factory :=
  ResolverFactory f (ResolverOptions false false false true CjsDisabled ModuleLoaderMode WithAttribute [] (Some c) false).

(** ** What the adapter reads back *)
Context (use_byonm : resolver_factory -> result bool dyn_error)
        (npm_resolver_of : resolver_factory -> result npm_resolver dyn_error)
        (npm_resolution : resolver_factory -> resolution_cell) (to_string_lossy : path -> string).

Definition resolver_byonm_and_root_node_modules_path (f : resolver_factory) : result (bool * option path) dyn_error :=
  let? byonm := use_byonm f in
  let? npm := npm_resolver_of f in
  Ok (byonm, root_node_modules_path npm).

Definition option_or_else {A} (a b : option A) : option A := match a with Some x => Some x | None => b end.

(** The folder whose [node_modules] the managed resolver uses. *)
Definition project_root (configs : folder_configs) (initial_cwd : path) : path :=
  default initial_cwd
    (option_or_else (jc_dir_path <$> fc_deno_json configs) (fc_pkg_json configs ≫= parent)).

Definition managed_root_node_modules_path (wf : workspace_factory) (f : resolver_factory) (initial_cwd : path)
  : result (option path) dyn_error :=
  let? (byonm, configured_root) := resolver_byonm_and_root_node_modules_path f in
  match byonm, configured_root with
  | true, _ | _, None => Ok None
  | false, Some _ =>
      let? workspace := workspace_directory wf in
      Ok (Some (join (project_root (root_folder_configs workspace) initial_cwd) "node_modules"))
  end.

Definition npm_process_state_inputs (f : resolver_factory) : result (option resolution_cell * option string) dyn_error :=
  let? npm := npm_resolver_of f in
  match npm with
  | Managed root => Ok (Some (npm_resolution f), to_string_lossy <$> root)
  | Byonm root => Ok (None, to_string_lossy <$> root)
  end.

(** ** The npm state handed to forked processes *)
Inductive provider_kind := ManagedKind (cell : resolution_cell) | ByonmKind.
Record npm_process_state_provider := NpmProcessStateProvider {
  np_kind : provider_kind; np_local_node_modules_path : option string
}.

Definition create_npm_process_state_provider (f : resolver_factory) : result npm_process_state_provider dyn_error :=
  let? (managed_resolution, local_node_modules_path) := npm_process_state_inputs f in
  Ok (NpmProcessStateProvider (match managed_resolution with Some cell => ManagedKind cell | None => ByonmKind end)
        local_node_modules_path).

Inductive state_kind := SnapshotState (s : snapshot) | ByonmState.
Context (serialized_valid_snapshot : resolution_cell -> snapshot)
        (to_json : state_kind -> option string -> result string string).

(** The snapshot is taken when the process is forked. *)
Definition get_npm_process_state (p : npm_process_state_provider) : string :=
  let kind := match np_kind p with
              | ManagedKind cell => SnapshotState (serialized_valid_snapshot cell)
              | ByonmKind => ByonmState
              end in
  match to_json kind (np_local_node_modules_path p) with Ok s => s | Err _ => "{}" end.

(** ** [build_once] *)
Inductive allowed_scripts := ScriptsNone.
Record installer_options := InstallerOptions {
  io_caching_lazy : bool; io_clean_on_install : bool; io_allowed_scripts : allowed_scripts; io_production : bool;
  io_skip_types : bool;
  io_snapshot_key : option snapshot_key  (** what [resolve_npm_resolution_snapshot] looks up when it is called *)
}.

Context (npmrc_with_path : workspace_factory -> result unit dyn_error) (node_analysis_cache : analysis_cache)
        (resolver_input_manifest : path -> list path -> workspace_factory -> resolver_factory -> result manifest dyn_error)
        (managed_snapshot_key : manifest -> option snapshot_key)
        (http_client_new : result client dyn_error)
        (http_cache global_http_cache : workspace_factory -> result cache dyn_error)
        (maybe_lockfile : workspace_factory -> installer_options -> result (option lockfile) dyn_error)
        (initialize_npm_resolution : installer_options -> result unit dyn_error)
        (graph_resolver_new : resolver_factory -> installer_options -> result graph_resolver dyn_error).

Record stack := Stack {
  st_resolver_factory : resolver_factory; st_http_client : client; st_http_cache : cache; st_global_http_cache : cache;
  st_lockfile : option lockfile; st_frozen_lockfile : bool; st_graph_resolver : graph_resolver;
  st_npm_process_state_provider : npm_process_state_provider; st_input_manifest : manifest;
  st_npm_snapshot_key : option snapshot_key; st_installer : installer_options
}.

Definition installer_options_new (key : option snapshot_key) : installer_options :=
  InstallerOptions true false ScriptsNone false true key.

(** [config.to_lock_config().ok().flatten()...frozen()] of the root's configuration. *)
Definition config_frozen (w : workspace) : bool :=
  match fc_deno_json (root_folder_configs w) with
  | Some config => match jc_lock_config config with Ok (Some frozen) => frozen | _ => false end
  | None => false
  end.

Definition build_once (initial_cwd : path) (config_start_paths : list path) : result stack dyn_error :=
  let? wf := new_workspace_factory initial_cwd config_start_paths in
  let? _ := workspace_directory wf in
  let? _ := npmrc_with_path wf in
  let rf := new_resolver_factory wf node_analysis_cache in
  let? manifest := resolver_input_manifest initial_cwd config_start_paths wf rf in
  let key := managed_snapshot_key manifest in
  let? client := http_client_new in
  let options := installer_options_new key in
  let? cache := http_cache wf in
  let? global_cache := global_http_cache wf in
  let? lock := maybe_lockfile wf options in
  let? frozen := match lock with
                 | Some _ => let? w := workspace_directory wf in Ok (config_frozen w)
                 | None => Ok false
                 end in
  let? _ := initialize_npm_resolution options in
  let? graph := graph_resolver_new rf options in
  let? provider := create_npm_process_state_provider rf in
  Ok (Stack rf client cache global_cache lock frozen graph provider manifest key options).

(** ** A stack is of one piece *)
Lemma new_workspace_factory_ok (cwd : path) (starts : list path) (wf : workspace_factory) :
  new_workspace_factory cwd starts = Ok wf ->
  exists w mode, discover cwd starts = Ok w /\ node_modules_dir w = Ok mode /\
    wf = WorkspaceFactory cwd starts (Some (default ModeAuto mode)) true (Some w).
Proof.
  unfold new_workspace_factory, workspace_directory; simpl.
  destruct (discover cwd starts) as [w|]; [|done]; destruct (node_modules_dir w) as [mode|] eqn:E; [|done].
  intros [= <-]; eauto.
Qed.

(** Every part of a stack comes from one discovery: the factories keep the
    workspace it found and its npm mode, automatic when nothing is declared; the
    manifest, the snapshot key and the installer's lookup belong together; the
    lockfile is never written, and frozen only if there is one and the root
    configuration says so; install scripts are off; and forked processes get the
    npm state of the resolver in use. *)
Theorem stack_of_one_piece (cwd : path) (starts : list path) (st : stack) :
  build_once cwd starts = Ok st ->
  exists w mode, discover cwd starts = Ok w /\ node_modules_dir w = Ok mode /\
    let wf := WorkspaceFactory cwd starts (Some (default ModeAuto mode)) true (Some w) in
    rf_workspace_factory (st_resolver_factory st) = wf /\
    resolver_input_manifest cwd starts wf (st_resolver_factory st) = Ok (st_input_manifest st) /\
    st_npm_snapshot_key st = managed_snapshot_key (st_input_manifest st) /\
    io_snapshot_key (st_installer st) = st_npm_snapshot_key st /\ io_allowed_scripts (st_installer st) = ScriptsNone /\
    maybe_lockfile wf (st_installer st) = Ok (st_lockfile st) /\
    (st_frozen_lockfile st = true <-> st_lockfile st <> None /\ config_frozen w = true) /\
    (exists npm, npm_resolver_of (st_resolver_factory st) = Ok npm /\
       np_local_node_modules_path (st_npm_process_state_provider st) = to_string_lossy <$> root_node_modules_path npm /\
       np_kind (st_npm_process_state_provider st) =
         match npm with Managed _ => ManagedKind (npm_resolution (st_resolver_factory st)) | Byonm _ => ByonmKind end).
Proof.
  unfold build_once; destruct (new_workspace_factory cwd starts) as [wf|] eqn:Ewf; [|done].
  apply new_workspace_factory_ok in Ewf as (w & mode & Hd & Hm & ->).
  set (wf := WorkspaceFactory cwd starts (Some (default ModeAuto mode)) true (Some w)); simpl.
  destruct (npmrc_with_path wf); [|done].
  set (rf := new_resolver_factory wf node_analysis_cache).
  destruct (resolver_input_manifest cwd starts wf rf) as [mf|] eqn:Emf; [|done].
  destruct http_client_new as [client'|]; [|done].
  destruct (http_cache wf) as [c1|]; [|done]; destruct (global_http_cache wf) as [c2|]; [|done].
  destruct (maybe_lockfile wf _) as [lock|] eqn:El; [|done].
  assert (exists frozen, (match lock with Some _ => Ok (config_frozen w) | None => Ok false end : result bool dyn_error) = Ok frozen /\
    (frozen = true <-> lock <> None /\ config_frozen w = true)) as (frozen & -> & Hfz).
  { destruct lock; eexists; (split; [done|]); split; naive_solver. }
  destruct (initialize_npm_resolution _); [|done]; destruct (graph_resolver_new rf _) as [graph|]; [|done].
  destruct (create_npm_process_state_provider rf) as [provider|] eqn:Ep; [|done]; intros [= <-]; simpl.
  exists w, mode; split_and!; try done.
  unfold create_npm_process_state_provider, npm_process_state_inputs in Ep; fold rf.
  destruct (npm_resolver_of rf) as [[root|root]|]; simplify_eq/=; eexists; by split_and!.
Qed.

(** The managed root is looked for only when the resolver manages packages into
    one; it is [node_modules] beside the root's deno.json, else beside its
    package.json, else in the directory the run started from. *)
Theorem managed_root_spec (wf : workspace_factory) (f : resolver_factory) (cwd : path) (r : option path) :
  managed_root_node_modules_path wf f cwd = Ok r <->
  exists byonm npm, use_byonm f = Ok byonm /\ npm_resolver_of f = Ok npm /\
    (if byonm || bool_decide (root_node_modules_path npm = None) then r = None
     else exists w, workspace_directory wf = Ok w /\
       r = Some (join (match fc_deno_json (root_folder_configs w), fc_pkg_json (root_folder_configs w) ≫= parent with
                       | Some config, _ => jc_dir_path config
                       | None, Some dir => dir
                       | None, None => cwd
                       end) "node_modules")).
Proof.
  unfold managed_root_node_modules_path, resolver_byonm_and_root_node_modules_path, project_root.
  destruct (use_byonm f) as [byonm|]; [|naive_solver]; destruct (npm_resolver_of f) as [npm|]; [|naive_solver].
  transitivity (if byonm || bool_decide (root_node_modules_path npm = None) then r = None
     else exists w, workspace_directory wf = Ok w /\
       r = Some (join (match fc_deno_json (root_folder_configs w), fc_pkg_json (root_folder_configs w) ≫= parent with
                       | Some config, _ => jc_dir_path config
                       | None, Some dir => dir
                       | None, None => cwd
                       end) "node_modules")); [|split; [eauto|naive_solver]].
  destruct byonm; simpl; [split; congruence|]; case_bool_decide as Er; [rewrite Er; split; congruence|].
  destruct (root_node_modules_path npm); [|done].
  destruct (workspace_directory wf) as [w|]; [|split; [done|intros (? & ? & ?); done]].
  split; [intros [= <-]; exists w; split; [done|]|intros (w' & [= <-] & ->)];
    by destruct (fc_deno_json (root_folder_configs w)), (fc_pkg_json (root_folder_configs w) ≫= parent).
Qed.
End Construction.
