(* ===== verification/ChildMode.v ===== *)
(** * ChildMode: running a script in a plain child process (src/subprocess.rs).

    The parent's side ([spawn_child_request], [write_child_request],
    [run_in_subprocess_inner], [run_in_subprocess_with_output_inner]) and the
    child's side ([maybe_handle_child_mode]) of the unsupervised protocol: one
    JSON request over stdin, authenticated by a token handed over in the
    environment.  The operating system enters as its answers, what the parent
    does to the child is an event log, and serde_json, the permission library,
    Deno's feature registry and the run itself are parameters. *)
From S2P Require Import Prelude Text Errors Options Features Paths Cancel Execution Token Entry Supervised Pipes Permissions.
Open Scope Z_scope.

Definition LIBDENO_CHILD_MODE : string := "LIBDENO_CHILD_MODE".
Definition LIBDENO_CHILD_TOKEN : string := "LIBDENO_CHILD_TOKEN".
Definition LIBDENO_HOST_EXE : string := "LIBDENO_HOST_EXE".

Definition MAX_CHILD_REQUEST_BYTES : Z := 1024 * 1024.
Definition HANDSHAKE_WRITER_CLEANUP_TIMEOUT : Z := from_millis 500.

Abbreviation environment := (gmap string string) (only parsing).

Record child_run_request := ChildRunRequest {
  cr_entry : path;
  cr_permissions : list string;
  cr_allow_all_permissions : bool;
  cr_prompt : bool;
  cr_args : list string;
  cr_cwd : path;
  cr_token : string;
  cr_features : option (list string);
  cr_max_heap_bytes : option Z;
  cr_execution_deadline : option Z
}.

(** What [Command::spawn] is given. *)
Inductive stdio := Piped | Inherit.
Record command := Command {
  cmd_exe : path; cmd_env : environment; cmd_cwd : path;
  cmd_stdin : stdio; cmd_stdout : stdio; cmd_stderr : stdio
}.

Definition stdio_for (capture : bool) : stdio := if capture then Piped else Inherit.

Definition validate_child_request_size (payload : list Z) : result unit libdeno_error :=
  if decide (Z.of_nat (length payload) > MAX_CHILD_REQUEST_BYTES) then
    Err (Runtime (anyhow ("child-mode request exceeds the " +:+ pretty MAX_CHILD_REQUEST_BYTES +:+ "-byte limit")))
  else Ok ().

Definition token_matches (a b : string) : bool := constant_time_eq (str_bytes a) (str_bytes b).

Definition recursion_error : libdeno_error := Configuration
  "run_in_subprocess was called from a process spawned as a libdeno child that never serviced child mode; call maybe_handle_child_mode() at the start of main()".

(** The environment [Command] hands to the child: the parent's, the two markers
    set, the IPC variables of Node removed. *)
Definition child_environment (env : environment) (token : string) : environment :=
  <[LIBDENO_CHILD_TOKEN := token]>
    (delete "LIBDENO_SPAWNED_IPC" (delete "NODE_CHANNEL_SERIALIZATION_MODE"
      (delete "NODE_CHANNEL_FD" (<[LIBDENO_CHILD_MODE := "1"]> env)))).

Section ChildMode.
(** serde_json, and the operating system's randomness. *)
Context (to_vec : child_run_request -> result (list Z) string)
        (from_slice : list Z -> result child_run_request string).
Context (fill : nat -> result (list Z) string).
(** Deno's permission library and feature registry, and which paths are UTF-8. *)
Context (utf8 : path -> bool) (permissions : Type)
        (from_options : permissions_options -> result permissions string)
        (UNSTABLE_FEATURES : list (string * Z)).

Definition validate_args (args : list string) (allow_all prompt : bool) (cwd : path) : result unit libdeno_error :=
  validate_permission_args utf8 cwd permissions from_options args allow_all prompt.

Definition validate (now : Z) (options : libdeno_options) (cwd : path) (capture_stderr : bool)
  : result unit libdeno_error :=
  validate_child_options validate_args (static_feature_names UNSTABLE_FEATURES) now options cwd capture_stderr.

Definition child_token : result string libdeno_error :=
  map_err (fun e => Runtime (anyhow e)) (random_hex fill 16).

(** The parent process when it spawns: its clock, its file system, its
    environment, its own executable, and what [spawn] answers. *)
Record parent := Parent {
  pa_now : Z;
  pa_host : host;
  pa_env : environment;
  pa_current_exe : result path io_error;
  pa_spawn : command -> result unit io_error
}.

Definition child_request (entry : path) (options : libdeno_options) (cwd : path) (token : string)
  : child_run_request :=
  ChildRunRequest entry (o_permissions options) (o_allow_all_permissions options) (o_prompt options)
    (o_args options) cwd token (o_features options) (o_max_heap_bytes options)
    (o_execution_deadline options).

(** [unwrap_or(std::env::current_exe()?)] evaluates its argument first. *)
Definition host_executable (p : parent) (explicit_host : option path) : result path libdeno_error :=
  match explicit_host with
  | Some host_executable => Ok host_executable
  | None =>
      let? current := map_err Io (pa_current_exe p) in
      Ok (default current (pa_env p !! LIBDENO_HOST_EXE))
  end.

Definition spawn_child_request (p : parent) (entry : path) (options : libdeno_options)
    (explicit_host : option path) (capture_stdout capture_stderr : bool)
  : result (list Z * command) libdeno_error :=
  match o_extensions options with
  | Some _ =>
      Err (Configuration "native extension factories are not supported by subprocess execution")
  | None =>
      let stdout := stdio_for capture_stdout in
      let stderr := stdio_for capture_stderr in
      let? token := child_token in
      let? cwd := effective_cwd (pa_host p) options in
      let? _ := validate (pa_now p) options cwd capture_stderr in
      let request := child_request entry options cwd token in
      let? payload := map_err (fun e => Runtime (anyhow e)) (to_vec request) in
      let? _ := validate_child_request_size payload in
      if bool_decide (is_Some (pa_env p !! LIBDENO_CHILD_MODE)) &&
         bool_decide (is_Some (pa_env p !! LIBDENO_CHILD_TOKEN))
      then Err recursion_error
      else
        let? exe := host_executable p explicit_host in
        let cmd := Command exe (child_environment (pa_env p) token) cwd Piped stdout stderr in
        let? _ := map_err Io (pa_spawn p cmd) in
        Ok (payload, cmd)
  end.

(** ** Writing the request *)

(** An exit status: its code (none after a signal) and its text. *)
Record exit_status := ExitStatus { es_code : option Z; es_display : string }.

(** What the parent does to its child. *)
Inductive child_event :=
| Kill
| Wait                    (** a blocking wait for the exit *)
| SawExit                 (** [try_wait] found it exited, which reaps it *)
| AwaitWriter (limit : Z). (** a bounded wait for the detached writer *)

#[export] Instance child_event_eq_dec : EqDecision child_event.
Proof. solve_decision. Defined.

(** What the detached writer reports within ten seconds. *)
Inductive writer_report :=
| Wrote (r : result unit io_error)
| WriterTimeout
| WriterDisconnected.

Record handshake := Handshake {
  hs_stdin : bool;
  hs_budget : result unit io_error;
  hs_thread : result unit io_error;
  hs_report : writer_report;
  hs_try_wait : result (option exit_status) io_error
}.

(** [{e}] of an error, from its [#[error]] attributes; the text of the errors of
    other libraries is theirs. *)
Context (dyn_display : dyn_error -> string).
Definition display (e : libdeno_error) : string :=
  match e with
  | Entry e => "failed to resolve entry module: " +:+ dyn_display e
  | Permission m => "invalid permission flags: " +:+ m
  | Configuration m | Timeout m => m
  | Runtime e | Core e => dyn_display e
  | Io e => io_message e
  end.

(** The result of [rx.recv_timeout] as an error of the run. *)
Definition write_result (r : writer_report) : result unit libdeno_error :=
  match r with
  | Wrote (Ok _) => Ok ()
  | Wrote (Err e) => Err (Io e)
  | WriterTimeout => Err (Timeout
      "subprocess handshake timed out after 10s: host did not service child mode (stdin not read)")
  | WriterDisconnected => Err (Runtime (anyhow "child stdin writer terminated unexpectedly"))
  end.

Definition write_child_request (hs : handshake) : result unit libdeno_error * list child_event :=
  (* the error path, [writer] telling whether a writer was started *)
  let failed e (writer : bool) :=
    let '(error, events) :=
      match hs_try_wait hs with
      | Ok (Some status) =>
          (Runtime (anyhow ("child exited with " +:+ es_display status +:+
             " before accepting the run request (request write failed: " +:+ display e +:+ ")")),
           [SawExit])
      | _ => (e, [Kill; Wait])
      end in
    (Err error, events ++ (if writer then [AwaitWriter HANDSHAKE_WRITER_CLEANUP_TIMEOUT] else [])) in
  if hs_stdin hs then
    match hs_budget hs with
    | Err error => (Err (Io error), [Kill; Wait])
    | Ok _ =>
        match hs_thread hs with
        | Ok _ =>
            match write_result (hs_report hs) with
            | Ok _ => (Ok (), [])
            | Err e => failed e true
            end
        | Err error => failed (Io error) false
        end
    end
  else failed (Runtime (anyhow "child has no stdin")) false.

(** ** The two runs *)

(** [child.wait()] and the exit code a run reports for it. *)
Definition exit_code_of (status : exit_status) : Z := default 1 (es_code status).

Definition run_in_subprocess_inner (p : parent) (hs : handshake) (wait : result exit_status io_error)
    (entry : path) (options : libdeno_options) (explicit_host : option path)
  : result Z libdeno_error * list child_event :=
  match spawn_child_request p entry options explicit_host false false with
  | Err e => (Err e, [])
  | Ok _ =>
      match write_child_request hs with
      | (Err e, events) => (Err e, events)
      | (Ok _, events) =>
          (let? status := map_err Io wait in Ok (exit_code_of status), events ++ [Wait])
      end
  end.

(** The readers of the child's pipes: what [SubprocessOutputReaders::take]
    answers, and what [collect] returns at the end (see Pipes). *)
Definition quoted (s : string) : string :=
  let quote := String (Ascii.ascii_of_nat 34) EmptyString in quote +:+ s +:+ quote.
Definition incomplete_error : libdeno_error := Io (IoError TimedOut
  ("subprocess output capture incomplete: collection deadline expired before EOF; a detached child usually holds the captured stdout/stderr pipe open (give it stdout: " +:+
   quoted "null" +:+ " or a log file instead of " +:+ quoted "inherit" +:+ ")")).

Definition run_in_subprocess_with_output_inner (p : parent) (readers : result unit io_error)
    (hs : handshake) (wait : result exit_status io_error) (capture : output_capture)
    (entry : path) (options : libdeno_options) (explicit_host : option path)
    (capture_stdout capture_stderr : bool) : result run_output libdeno_error * list child_event :=
  match spawn_child_request p entry options explicit_host capture_stdout capture_stderr with
  | Err e => (Err e, [])
  | Ok _ =>
      match readers with
      | Err error => (Err (Io error), [Kill; Wait])
      | Ok _ =>
          match write_child_request hs with
          | (Err e, events) => (Err e, events)
          | (Ok _, events) =>
              (let? status := map_err Io wait in
               match oc_error capture with
               | Some error => Err (Io error)
               | None =>
                   if oc_incomplete capture then Err incomplete_error
                   else Ok (RunOutput (exit_code_of status) (oc_stdout capture) (oc_stderr capture)
                              (oc_truncated capture))
               end, events ++ [Wait])
          end
      end
  end.

(** ** The child *)

(** What arrives on stdin within ten seconds. *)
Inductive stdin_reply :=
| StdinClosed (bytes : list Z)      (** everything written before the end *)
| StdinFailed (e : io_error)
| StdinTimeout
| StdinDisconnected.

(** [to_string_lossy], and the run of the script in a process environment. *)
Context (to_string_lossy : string -> string).
Context (run : environment -> path -> libdeno_options -> result Z libdeno_error).

(** [take(MAX + 1).read_to_end], then the size check, then the parser. *)
Definition read_child_request (bytes : list Z) : result child_run_request libdeno_error :=
  let payload := take (Z.to_nat (MAX_CHILD_REQUEST_BYTES + 1)) bytes in
  let? _ := validate_child_request_size payload in
  map_err (fun e => Runtime (anyhow e)) (from_slice payload).

Definition child_options (request : child_run_request) : libdeno_options :=
  LibdenoOptions (cr_permissions request) (cr_allow_all_permissions request) (cr_prompt request)
    (cr_args request) (Some (cr_cwd request)) (cr_max_heap_bytes request)
    (cr_execution_deadline request) false false None (cr_features request) None.

Inductive child_outcome :=
| NotAChild                                   (** returns [false] *)
| Exits (code : Z) (ran : option (environment * path * libdeno_options)).

Definition maybe_handle_child_mode (env : environment) (stdin : stdin_reply) : child_outcome :=
  if bool_decide (env !! LIBDENO_CHILD_MODE = Some "1") then
    match env !! LIBDENO_CHILD_TOKEN with
    | None => Exits 1 None
    | Some env_token =>
        let request :=
          match stdin with
          | StdinClosed bytes => Some (read_child_request bytes)
          | StdinFailed e => Some (Err (Io e))
          | StdinTimeout => None
          | StdinDisconnected =>
              Some (Err (Runtime (anyhow "child-mode stdin reader terminated unexpectedly")))
          end in
        match request with
        | None | Some (Err _) => Exits 1 None
        | Some (Ok request) =>
            if negb (token_matches (cr_token request) (to_string_lossy env_token)) then Exits 1 None
            else
              let options := child_options request in
              let env := delete LIBDENO_CHILD_TOKEN (delete LIBDENO_CHILD_MODE env) in
              match run env (cr_entry request) options with
              | Ok code => Exits code (Some (env, cr_entry request, options))
              | Err _ => Exits 1 (Some (env, cr_entry request, options))
              end
        end
    end
  else NotAChild.

(** ** Lemmas *)

Definition mode_env : list string := [LIBDENO_CHILD_MODE; LIBDENO_CHILD_TOKEN].
Definition node_ipc_env : list string :=
  ["NODE_CHANNEL_FD"; "NODE_CHANNEL_SERIALIZATION_MODE"; "LIBDENO_SPAWNED_IPC"].

Lemma child_environment_markers (env : environment) (token : string) :
  child_environment env token !! LIBDENO_CHILD_MODE = Some "1" /\
  child_environment env token !! LIBDENO_CHILD_TOKEN = Some token.
Proof.
  unfold child_environment, LIBDENO_CHILD_MODE, LIBDENO_CHILD_TOKEN; split;
    [rewrite lookup_insert_ne, !lookup_delete_ne by done|]; apply lookup_insert_eq.
Qed.

Ltac lookup_child_env :=
  repeat first [rewrite lookup_delete_eq | rewrite lookup_delete_ne by done | rewrite lookup_insert_ne by done].

(** What the script sees once the child has removed the markers. *)
Lemma child_environment_clean (env : environment) (token k : string) :
  delete LIBDENO_CHILD_TOKEN (delete LIBDENO_CHILD_MODE (child_environment env token)) !! k =
  if bool_decide (k ∈ mode_env ++ node_ipc_env) then None else env !! k.
Proof.
  unfold child_environment, LIBDENO_CHILD_MODE, LIBDENO_CHILD_TOKEN; case_bool_decide as H.
  - unfold mode_env, node_ipc_env, LIBDENO_CHILD_MODE, LIBDENO_CHILD_TOKEN in H; simpl in H.
    repeat (apply elem_of_cons in H as [->|H]; [by lookup_child_env|]). by apply elem_of_nil in H.
  - assert (forall x, x ∈ mode_env ++ node_ipc_env -> x <> k) as Hne by (intros x Hx ->; done).
    rewrite !lookup_delete_ne, lookup_insert_ne, !lookup_delete_ne, lookup_insert_ne; try done;
      apply Hne; unfold mode_env, node_ipc_env, LIBDENO_CHILD_MODE, LIBDENO_CHILD_TOKEN; set_solver.
Qed.

Lemma str_bytes_inj (a b : string) : str_bytes a = str_bytes b -> a = b.
Proof.
  unfold str_bytes; intros H.
  rewrite <- (String.string_of_list_ascii_of_string a), <- (String.string_of_list_ascii_of_string b); f_equal.
  revert H; generalize (String.list_ascii_of_string a), (String.list_ascii_of_string b).
  induction l as [|x l IH]; intros [|y l0] H; simplify_eq/=; [done|].
  f_equal; [|by apply IH].
  rewrite <- (Ascii.ascii_nat_embedding x), <- (Ascii.ascii_nat_embedding y); f_equal; lia.
Qed.

Lemma token_matches_spec (a b : string) : token_matches a b = true <-> a = b /\ a <> EmptyString.
Proof.
  unfold token_matches; rewrite constant_time_eq_spec; split.
  - intros [Hn H%str_bytes_inj]; split; [done|]; intros ->; by apply Hn.
  - intros [-> Hn]; split; [|done]; by destruct b.
Qed.

Lemma validate_child_request_size_ok (payload : list Z) :
  validate_child_request_size payload = Ok () <-> Z.of_nat (length payload) <= MAX_CHILD_REQUEST_BYTES.
Proof. unfold validate_child_request_size; case_decide; split; intros; try done; lia. Qed.

#[local] Opaque MAX_CHILD_REQUEST_BYTES.

Lemma read_child_request_ok (bytes : list Z) (request : child_run_request) :
  read_child_request bytes = Ok request <->
  Z.of_nat (length bytes) <= MAX_CHILD_REQUEST_BYTES /\ from_slice bytes = Ok request.
Proof.
  unfold read_child_request; rewrite bind_ok; split.
  - intros ([] & Hs%validate_child_request_size_ok & Hp).
    rewrite length_take in Hs.
    rewrite take_ge in Hp by lia.
    split; [lia|]; by destruct (from_slice bytes); simplify_eq/=.
  - intros [Hl Hp]; exists (); rewrite take_ge by lia; split; [by apply validate_child_request_size_ok|].
    by rewrite Hp.
Qed.

(** A spawn that succeeded, taken apart. *)
Lemma spawn_child_request_ok (p : parent) entry options explicit_host cs ce payload cmd :
  spawn_child_request p entry options explicit_host cs ce = Ok (payload, cmd) ->
  exists token cwd, random_hex fill 16 = Ok token /\ effective_cwd (pa_host p) options = Ok cwd /\
    validate (pa_now p) options cwd ce = Ok () /\
    to_vec (child_request entry options cwd token) = Ok payload /\
    Z.of_nat (length payload) <= MAX_CHILD_REQUEST_BYTES /\
    cmd_env cmd = child_environment (pa_env p) token /\ cmd_cwd cmd = cwd /\
    o_extensions options = None /\
    ~ (is_Some (pa_env p !! LIBDENO_CHILD_MODE) /\ is_Some (pa_env p !! LIBDENO_CHILD_TOKEN)).
Proof.
  unfold spawn_child_request; destruct (o_extensions options); [done|].
  rewrite bind_ok; intros (token & Ht & H).
  apply bind_ok in H as (cwd & Hc & H); apply bind_ok in H as ([] & Hv & H).
  apply bind_ok in H as (bytes & Hj & H); apply bind_ok in H as ([] & Hs%validate_child_request_size_ok & H).
  destruct (_ && _) eqn:Hm in H; [done|].
  apply bind_ok in H as (exe & _ & H); apply bind_ok in H as ([] & _ & H); simplify_eq/=.
  exists token, (cwd : path); unfold child_token in Ht.
  destruct (random_hex fill 16) as [t|]; simplify_eq/=.
  destruct (to_vec _) as [b|] eqn:Hb in Hj; simplify_eq/=.
  split_and!; try done.
  intros [H1 H2]; by rewrite !bool_decide_eq_true_2 in Hm.
Qed.

Section Honest.
(** serde_json parses what it printed; the system returns the bytes it was asked
    for; an ASCII text is its own lossy form. *)
Context (Hjson : forall r b, to_vec r = Ok b -> from_slice b = Ok r).
Context (Hfill : forall n b, fill n = Ok b -> length b = n /\ Forall is_u8 b).
Context (Hlossy : forall s, Forall (fun b => b < 128) (str_bytes s) -> to_string_lossy s = s).

Lemma hex_string_bytes (l : list Z) : str_bytes (hex_string l) =
  map (fun c => Z.of_nat (Ascii.nat_of_ascii c)) (l ≫= hex_byte).
Proof. unfold str_bytes, hex_string; by rewrite String.list_ascii_of_string_of_list_ascii. Qed.

Lemma hex_char_ascii (n : Z) : 0 <= n < 16 -> Z.of_nat (Ascii.nat_of_ascii (hex_char n)) < 128.
Proof.
  intros H; unfold hex_char; rewrite Ascii.nat_ascii_embedding; case_decide; lia.
Qed.

Lemma random_hex_honest (token : string) : random_hex fill 16 = Ok token ->
  token <> EmptyString /\ to_string_lossy token = token.
Proof.
  unfold random_hex; rewrite bind_ok; intros (l & [Hl Hb]%Hfill & H); simplify_eq; split.
  - by destruct l.
  - apply Hlossy; rewrite hex_string_bytes; apply Forall_fmap, Forall_bind; unfold compose.
    eapply Forall_impl; [exact Hb|]; intros b Hu; unfold is_u8 in Hu.
    repeat constructor; apply hex_char_ascii; [|apply Z.mod_pos_bound; lia].
    split; [apply Z.div_pos; lia|apply Z.div_lt_upper_bound; lia].
Qed.

(** The child of a successful spawn, given the payload on its stdin. *)
Lemma child_runs_request (p : parent) entry options explicit_host cs ce payload cmd :
  spawn_child_request p entry options explicit_host cs ce = Ok (payload, cmd) ->
  let o := child_options (child_request entry options (cmd_cwd cmd) EmptyString) in
  let env := delete LIBDENO_CHILD_TOKEN (delete LIBDENO_CHILD_MODE (cmd_env cmd)) in
  maybe_handle_child_mode (cmd_env cmd) (StdinClosed payload) =
  Exits (match run env entry o with Ok code => code | Err _ => 1 end) (Some (env, entry, o)).
Proof.
  intros (token & cwd & Ht & _ & _ & Hv & Hl & He & Hw & _ & _)%spawn_child_request_ok o env.
  subst o env; rewrite Hw, He; destruct (child_environment_markers (pa_env p) token) as [H1 H2].
  unfold maybe_handle_child_mode; rewrite bool_decide_eq_true_2, H2 by done.
  rewrite (proj2 (read_child_request_ok payload (child_request entry options cwd token))) by auto.
  apply random_hex_honest in Ht as [Hne ->].
  cbn [cr_token child_request]; rewrite (proj2 (token_matches_spec token token)) by done; simpl negb; cbn match.
  unfold child_options; simpl; by destruct (run _ _ _).
Qed.

(** C36. A child process runs exactly what its parent was asked to run.  When a
    child was spawned and accepted its request, the host that services child
    mode runs the requested entry with the caller's permissions, prompting,
    arguments, features, heap cap and deadline, in the directory the parent
    resolved, without capture; the process environment it runs in is the
    parent's without the two child-mode markers and without Node's IPC
    variables; and the parent returns the exit code the script ended with, as
    the system reports it, or 1 when the run failed. *)
Theorem child_mode_round_trip (p : parent) (hs : handshake) (text : string) (entry : path)
    (options : libdeno_options) (explicit_host : option path) (payload : list Z) (cmd : command)
    (Hspawn : spawn_child_request p entry options explicit_host false false = Ok (payload, cmd))
    (Hwrite : write_child_request hs = (Ok (), [])) :
  exists env code,
    let o := LibdenoOptions (o_permissions options) (o_allow_all_permissions options)
               (o_prompt options) (o_args options) (Some (cmd_cwd cmd)) (o_max_heap_bytes options)
               (o_execution_deadline options) false false None (o_features options) None in
    effective_cwd (pa_host p) options = Ok (cmd_cwd cmd) /\
    (forall k, env !! k = if bool_decide (k ∈ mode_env ++ node_ipc_env) then None else pa_env p !! k) /\
    code = match run env entry o with Ok code => code | Err _ => 1 end /\
    maybe_handle_child_mode (cmd_env cmd) (StdinClosed payload) = Exits code (Some (env, entry, o)) /\
    run_in_subprocess_inner p hs
      (Ok (ExitStatus (Some (supervisor_exit_code_for_status code)) text)) entry options explicit_host =
    (Ok (supervisor_exit_code_for_status code), [Wait]).
Proof.
  pose proof (child_runs_request _ _ _ _ _ _ _ _ Hspawn) as Hrun; cbv zeta in Hrun.
  pose proof (spawn_child_request_ok _ _ _ _ _ _ _ _ Hspawn) as (token & cwd & _ & Hc & _ & _ & _ & He & Hw & _).
  exists (delete LIBDENO_CHILD_TOKEN (delete LIBDENO_CHILD_MODE (cmd_env cmd))); eexists; cbv zeta; split_and!; [by rewrite Hw|intros k; rewrite He; apply child_environment_clean|done|exact Hrun|].
  unfold run_in_subprocess_inner; by rewrite Hspawn, Hwrite.
Qed.
End Honest.

(** C37. Child mode runs nothing it was not handed by its parent.  A host enters
    child mode exactly when the marker is the text [1]; there it runs a script
    only if a token is set, the request is at most 1 MiB long and parses, and
    the request carries that very token, which is not empty; it runs the
    request's entry with the request's options and with both markers removed.
    In every other case it exits with code 1 and runs nothing. *)
Theorem child_mode_authenticated (env : environment) (stdin : stdin_reply) :
  match maybe_handle_child_mode env stdin with
  | NotAChild => env !! LIBDENO_CHILD_MODE <> Some "1"
  | Exits code None => env !! LIBDENO_CHILD_MODE = Some "1" /\ code = 1
  | Exits code (Some (env', entry, options)) =>
      env !! LIBDENO_CHILD_MODE = Some "1" /\
      env' !! LIBDENO_CHILD_MODE = None /\ env' !! LIBDENO_CHILD_TOKEN = None /\
      exists token bytes request,
        env !! LIBDENO_CHILD_TOKEN = Some token /\ stdin = StdinClosed bytes /\
        Z.of_nat (length bytes) <= MAX_CHILD_REQUEST_BYTES /\ from_slice bytes = Ok request /\
        cr_token request = to_string_lossy token /\ cr_token request <> EmptyString /\
        entry = cr_entry request /\ options = child_options request
  end.
Proof.
  unfold maybe_handle_child_mode; case_bool_decide as Hm; [|done].
  destruct (env !! LIBDENO_CHILD_TOKEN) as [token|] eqn:Ht; [|done].
  destruct stdin as [bytes|e| |]; try done.
  destruct (read_child_request bytes) as [request|] eqn:Hr; [|done].
  apply read_child_request_ok in Hr as [Hl Hp].
  destruct (token_matches _ _) eqn:Hk; simpl; [|done].
  apply token_matches_spec in Hk as [Hk Hn].
  assert (delete LIBDENO_CHILD_TOKEN (delete LIBDENO_CHILD_MODE env) !! LIBDENO_CHILD_MODE = None /\
          delete LIBDENO_CHILD_TOKEN (delete LIBDENO_CHILD_MODE env) !! LIBDENO_CHILD_TOKEN = None) as [Hc1 Hc2].
  { split; [rewrite lookup_delete_ne by done|]; apply lookup_delete_eq. }
  destruct (run _ _ _); split_and!; try done; exists token, bytes, request; split_and!; done.
Qed.

(** ** The life of the child *)

Definition reaps (ev : child_event) : bool := match ev with Wait | SawExit => true | _ => false end.

(** A child is reaped exactly once, and killed only just before that. *)
Definition cleaned_up (events : list child_event) : Prop :=
  exists pre last post, events = pre ++ last :: post /\ reaps last = true /\
    (pre = [] \/ pre = [Kill] /\ last = Wait) /\
    (post = [] \/ post = [AwaitWriter HANDSHAKE_WRITER_CLEANUP_TIMEOUT]).

(** The request reached the child's stdin and the writer is gone. *)
Definition accepted (hs : handshake) : Prop :=
  hs_stdin hs = true /\ is_ok (hs_budget hs) = true /\ is_ok (hs_thread hs) = true /\
  hs_report hs = Wrote (Ok ()).

Lemma write_child_request_spec (hs : handshake) :
  (accepted hs /\ write_child_request hs = (Ok (), [])) \/
  (~ accepted hs /\ exists e events, write_child_request hs = (Err e, events) /\ cleaned_up events /\
     (Kill ∈ events -> hs_budget hs = Ok () -> forall status, hs_try_wait hs <> Ok (Some status))).
Proof.
  unfold write_child_request, accepted, cleaned_up.
  assert (forall l, [Kill; Wait] ++ l = [Kill] ++ Wait :: l) as HK by done.
  destruct hs as [[|] [[]|b] [[]|t] [[[]|w]| |] [[status|]|tw]]; simpl; try (left; by split_and!);
    right; (split; [by intros (? & ? & ? & ?)|]); eexists _, _; (split; [done|]); split;
    first [exists [], SawExit; eexists; split_and!; by auto
          |exists [Kill], Wait; eexists; split_and!; by auto
          |done
          |intros HKill; exfalso; set_solver].
Qed.

(** No child process is leaked.  If spawning fails there is no child and the
    error is returned.  Otherwise, whatever fails afterwards, the run waits for
    the child exactly once; it kills it only right before that wait and only
    when the request was not accepted or the output readers could not be
    started, in which cases it returns an error; and a run that reports an
    output has had its request accepted, did nothing to the child but wait for
    it, and saw the capture complete and without reader errors. *)
Theorem no_child_leaked (p : parent) (readers : result unit io_error) (hs : handshake)
    (wait : result exit_status io_error) (capture : output_capture) (entry : path)
    (options : libdeno_options) (explicit_host : option path) (cs ce : bool) :
  let '(r, events) := run_in_subprocess_with_output_inner p readers hs wait capture entry options
                        explicit_host cs ce in
  match spawn_child_request p entry options explicit_host cs ce with
  | Err e => r = Err e /\ events = []
  | Ok _ =>
      cleaned_up events /\
      (Kill ∈ events -> (~ accepted hs \/ is_ok readers = false) /\ is_ok r = false) /\
      (forall out, r = Ok out ->
        accepted hs /\ events = [Wait] /\ oc_incomplete capture = false /\ oc_error capture = None /\
        exists status, wait = Ok status /\
          out = RunOutput (exit_code_of status) (oc_stdout capture) (oc_stderr capture) (oc_truncated capture))
  end.
Proof.
  unfold run_in_subprocess_with_output_inner.
  destruct (spawn_child_request _ _ _ _ _ _) as [[]|]; [|done].
  assert (cleaned_up [Kill; Wait]) as HKW by (exists [Kill], Wait, []; split_and!; by auto).
  destruct readers as [[]|e]; [|by split_and!; auto].
  destruct (write_child_request_spec hs) as [[Ha ->]|(Ha & e & events & -> & Hc & _)].
  - split_and!.
    + exists [], Wait, []; split_and!; by auto.
    + intros H; exfalso; set_solver.
    + intros out; destruct wait as [status|]; simpl; [|done].
      destruct (oc_error capture); [done|]; destruct (oc_incomplete capture); [done|].
      intros ?; simplify_eq; split_and!; eauto.
  - split_and!; [done|auto|done].
Qed.
End ChildMode.

(** An executable override does not help a host whose own executable cannot be
    determined. *)
Lemma override_needs_current_exe (p : parent) (exe : path) (e : io_error) :
  pa_env p !! LIBDENO_HOST_EXE = Some exe -> pa_current_exe p = Err e ->
  host_executable p None = Err (Io e).
Proof. intros _ H; unfold host_executable; by rewrite H. Qed.

(** ** A concrete parent *)

#[export] Instance child_run_request_eq_dec : EqDecision child_run_request.
Proof. solve_decision. Defined.

Definition sample_options : libdeno_options :=
  LibdenoOptions ["--allow-read=data"] false false ["x"] (Some "/pkg") None (Some (from_secs 5)) false false None
    (Some ["kv"]) None.
Definition sample_token : string := hex_string (replicate 16 171).
Definition sample_request : child_run_request := child_request "main.ts" sample_options "/pkg" sample_token.
Definition sample_to_vec (r : child_run_request) : result (list Z) string :=
  if decide (r = sample_request) then Ok [123; 125] else Err "unsupported".
Definition sample_from_slice (b : list Z) : result child_run_request string :=
  if decide (b = [123; 125]) then Ok sample_request else Err "syntax".
Definition sample_parent : parent :=
  Parent 0 sample_host ({["HOME" := "/root"]}) (Ok "/bin/host") (fun _ => Ok ()).
Definition sample_handshake : handshake := Handshake true (Ok ()) (Ok ()) (Wrote (Ok ())) (Ok None).

Lemma child_mode_round_trip_witness :
  exists payload cmd env code,
    spawn_child_request sample_to_vec (fun n => Ok (replicate n 171)) (fun _ => true) unit (fun _ => Ok ())
      [("kv", 1)] sample_parent "main.ts" sample_options None false false = Ok (payload, cmd) /\
    maybe_handle_child_mode sample_from_slice id (fun _ _ _ => Ok 300) (cmd_env cmd) (StdinClosed payload) =
      Exits code (Some (env, "main.ts", sample_options)) /\
    run_in_subprocess_inner sample_to_vec (fun n => Ok (replicate n 171)) (fun _ => true) unit (fun _ => Ok ())
      [("kv", 1)] (fun _ => EmptyString) sample_parent sample_handshake
      (Ok (ExitStatus (Some (supervisor_exit_code_for_status code)) "exit status")) "main.ts" sample_options None =
      (Ok (supervisor_exit_code_for_status code), [Wait]).
Proof.
  destruct (spawn_child_request sample_to_vec (fun n => Ok (replicate n 171)) (fun _ => true) unit
    (fun _ => Ok ()) [("kv", 1)] sample_parent "main.ts" sample_options None false false)
    as [[payload cmd]|e] eqn:Hs; [|vm_compute in Hs; discriminate Hs].
  destruct (child_mode_round_trip sample_to_vec sample_from_slice (fun n => Ok (replicate n 171)) (fun _ => true)
    unit (fun _ => Ok ()) [("kv", 1)] (fun _ => EmptyString) id (fun _ _ _ => Ok 300)
    ltac:(intros r b; unfold sample_to_vec; case_decide; intros; simplify_eq; reflexivity)
    ltac:(intros n b H; injection H as <-; split;
          [apply length_replicate|apply Forall_replicate; unfold is_u8; lia])
    ltac:(reflexivity) sample_parent sample_handshake "exit status" "main.ts" sample_options None payload cmd
    Hs eq_refl) as (env & code & Hc & _ & _ & Hm & Hr).
  exists payload, cmd, env, code; split_and!; [reflexivity| |exact Hr].
  assert (cmd_cwd cmd = "/pkg") as Hw by (vm_compute in Hc; injection Hc as Hc; symmetry; exact Hc).
  rewrite Hm, Hw; reflexivity.
Defined.
