(* ===== verification/Handshake.v ===== *)
(** * Handshake: how a supervised child and its parent find each other
    (src/subprocess.rs).

    The environment the parent spawns the child with, the mode the child enters
    ([maybe_handle_supervisor_mode]), and the parent's search for the one
    authenticated peer ([accept_supervisor_peer] and the first loop of
    [drive_supervisor_session]).  The listener, the clock and the frames of every
    candidate are scripts; socket addresses are the standard library's own. *)
From S2P Require Import Prelude Errors Cancel Execution Token Frame Session Supervised Entry Options ChildMode.
Open Scope Z_scope.

Definition SUPERVISOR_MODE_ENV : string := "LIBDENO_SUPERVISOR_MODE".
Definition SUPERVISOR_ENDPOINT_ENV : string := "LIBDENO_SUPERVISOR_ENDPOINT".
Definition SUPERVISOR_TOKEN_ENV : string := "LIBDENO_SUPERVISOR_TOKEN".
Definition SUPERVISOR_CONNECT_TIMEOUT : Z := from_secs 5.
Definition PEER_HELLO_TIMEOUT : Z := from_secs 1.

(** ** Spawning *)

(** Lazily, unlike a plain child run. *)
Definition supervisor_host_executable (env : gmap string string) (current_exe : result path io_error)
    (explicit : option path) : result path libdeno_error :=
  match explicit with
  | Some p => Ok p
  | None => match env !! LIBDENO_HOST_EXE with Some p => Ok p | None => map_err Io current_exe end
  end.

Definition supervisor_environment (env : gmap string string) (endpoint : string) (token : supervisor_token)
  : gmap string string :=
  delete "LIBDENO_SPAWNED_IPC" (delete "NODE_CHANNEL_SERIALIZATION_MODE" (delete "NODE_CHANNEL_FD"
    (<[SUPERVISOR_TOKEN_ENV := to_hex token]>
      (<[SUPERVISOR_ENDPOINT_ENV := endpoint]> (<[SUPERVISOR_MODE_ENV := "1"]> env))))).

Definition spawn_supervisor_child (spawn : command -> result unit io_error) (host_executable cwd : path)
    (env : gmap string string) (endpoint : string) (token : supervisor_token)
    (capture_stdout capture_stderr : bool) : result command libdeno_error :=
  let cmd := Command host_executable (supervisor_environment env endpoint token) cwd Inherit
               (stdio_for capture_stdout) (stdio_for capture_stderr) in
  let? _ := map_err Io (spawn cmd) in Ok cmd.

Ltac lookup_env :=
  repeat first [rewrite lookup_delete_eq | rewrite lookup_delete_ne by done | rewrite lookup_insert_ne by done];
  try apply lookup_insert_eq.

(** ** The child's mode *)
Section Mode.
Context (endpoint_t : Type) (parse_socket_addr : string -> option endpoint_t)
        (is_loopback : endpoint_t -> bool) (port : endpoint_t -> Z).
Context (utf8 : string -> bool).
(** [run_supervisor_child], in a process environment (see Protocol). *)
Context (run_supervisor_child : gmap string string -> endpoint_t -> supervisor_token -> result Z libdeno_error).

Definition parse_supervisor_endpoint (value : string) : result endpoint_t libdeno_error :=
  match parse_socket_addr value with
  | None => Err (supervisor_error "malformed supervisor endpoint")
  | Some endpoint =>
      if negb (is_loopback endpoint) || Z.eqb (port endpoint) 0
      then Err (supervisor_error "supervisor endpoint is not loopback")
      else Ok endpoint
  end.

(** [std::env::var(key).ok()] *)
Definition var_ok (env : gmap string string) (key : string) : option string :=
  match env !! key with Some v => if utf8 v then Some v else None | None => None end.

Definition without_supervisor (env : gmap string string) : gmap string string :=
  delete SUPERVISOR_TOKEN_ENV (delete SUPERVISOR_ENDPOINT_ENV (delete SUPERVISOR_MODE_ENV env)).

Inductive mode_outcome :=
| NotSupervised                       (** returns [false] *)
| ModeExits (code : Z) (env : gmap string string) (ran : option (endpoint_t * supervisor_token)).

Definition maybe_handle_supervisor_mode (env : gmap string string) : mode_outcome :=
  match env !! SUPERVISOR_MODE_ENV with
  | None => NotSupervised
  | Some marker =>
      let clean := without_supervisor env in
      let refuse := ModeExits 1 clean None in
      if negb (bool_decide (marker = "1")) then refuse
      else
        match var_ok env SUPERVISOR_ENDPOINT_ENV with
        | None => refuse
        | Some value =>
            match parse_supervisor_endpoint value with
            | Err _ => refuse
            | Ok endpoint =>
                match var_ok env SUPERVISOR_TOKEN_ENV with
                | None => refuse
                | Some value =>
                    match from_hex value with
                    | Err _ => refuse
                    | Ok token =>
                        ModeExits (match run_supervisor_child clean endpoint token with Ok code => code | Err _ => 1 end)
                          clean (Some (endpoint, token))
                    end
                end
            end
        end
  end.

Lemma supervisor_environment_lookups (env : gmap string string) (text : string) (token : supervisor_token) :
  supervisor_environment env text token !! SUPERVISOR_MODE_ENV = Some "1" /\
  supervisor_environment env text token !! SUPERVISOR_ENDPOINT_ENV = Some text /\
  supervisor_environment env text token !! SUPERVISOR_TOKEN_ENV = Some (to_hex token).
Proof.
  unfold supervisor_environment, SUPERVISOR_MODE_ENV, SUPERVISOR_ENDPOINT_ENV, SUPERVISOR_TOKEN_ENV.
  split_and!; lookup_env.
Qed.

(** The child of a spawn connects to the endpoint it was given with the token it
    was given; it runs without the supervisor's variables; and a process without
    a valid marker, loopback endpoint and token runs nothing. *)
Theorem supervisor_mode_handover (env : gmap string string) (endpoint : endpoint_t) (text : string)
    (token : supervisor_token) :
  (parse_socket_addr text = Some endpoint -> is_loopback endpoint = true -> port endpoint <> 0 ->
   utf8 text = true -> utf8 (to_hex token) = true -> Forall is_u8 token -> length token = SUPERVISOR_TOKEN_LEN ->
   exists code env', maybe_handle_supervisor_mode (supervisor_environment env text token) =
     ModeExits code env' (Some (endpoint, token))) /\
  match maybe_handle_supervisor_mode env with
  | NotSupervised => env !! SUPERVISOR_MODE_ENV = None
  | ModeExits code env' ran =>
      env' !! SUPERVISOR_MODE_ENV = None /\ env' !! SUPERVISOR_ENDPOINT_ENV = None /\ env' !! SUPERVISOR_TOKEN_ENV = None /\
      match ran with
      | Some (e, t) => env !! SUPERVISOR_MODE_ENV = Some "1" /\ is_loopback e = true /\ port e <> 0 /\
          length t = SUPERVISOR_TOKEN_LEN
      | None => code = 1
      end
  end.
Proof.
  split.
  - intros Hp Hl Hport Hu1 Hu2 Hb Hlen.
    destruct (supervisor_environment_lookups env text token) as (E1 & E2 & E3).
    unfold maybe_handle_supervisor_mode, var_ok, parse_supervisor_endpoint.
    rewrite E1, E2, E3; simpl; rewrite Hu1, Hp, Hl, (proj2 (Z.eqb_neq _ _) Hport), Hu2; simpl.
    assert (from_hex (to_hex token) = Ok token) as ->; [|eauto].
    unfold from_hex, to_hex; rewrite hex_string_length, Hlen; simpl; by apply hex_pairs_bytes.
  - unfold maybe_handle_supervisor_mode; destruct (env !! SUPERVISOR_MODE_ENV) as [marker|] eqn:Hm; [|done].
    assert (forall k, k ∈ [SUPERVISOR_MODE_ENV; SUPERVISOR_ENDPOINT_ENV; SUPERVISOR_TOKEN_ENV] ->
      without_supervisor env !! k = None) as Hclean.
    { unfold without_supervisor, SUPERVISOR_MODE_ENV, SUPERVISOR_ENDPOINT_ENV, SUPERVISOR_TOKEN_ENV; intros k Hk.
      repeat (apply elem_of_cons in Hk as [->|Hk]; [by lookup_env|]). by apply elem_of_nil in Hk. }
    assert (forall code, match ModeExits code (without_supervisor env) None with
      | NotSupervised => True
      | ModeExits _ env' _ => env' !! SUPERVISOR_MODE_ENV = None /\ env' !! SUPERVISOR_ENDPOINT_ENV = None /\
          env' !! SUPERVISOR_TOKEN_ENV = None end) as Hn by (intros; split_and!; apply Hclean; set_solver).
    specialize (Hn 1) as (H1 & H2 & H3).
    case_bool_decide as Hone; simpl; [|by split_and!].
    destruct (var_ok env SUPERVISOR_ENDPOINT_ENV) as [value|]; [|by split_and!].
    unfold parse_supervisor_endpoint; destruct (parse_socket_addr value) as [e|]; [|by split_and!].
    destruct (negb (is_loopback e) || Z.eqb (port e) 0) eqn:He; [by split_and!|].
    destruct (var_ok env SUPERVISOR_TOKEN_ENV) as [hex|]; [|by split_and!].
    destruct (from_hex hex) as [t|] eqn:Ht; [|by split_and!].
    apply orb_false_iff in He as [He1 He2]; apply negb_false_iff in He1; apply Z.eqb_neq in He2; subst marker.
    split_and!; try done; unfold from_hex in Ht.
    destruct (Nat.eqb_spec (String.length hex) (SUPERVISOR_TOKEN_LEN * 2)) as [E|E]; simpl in Ht; [|done].
    destruct (hex_pairs_spec 16 (str_bytes hex)) as [_ Hlen]; [by rewrite str_bytes_length, E|]; by apply Hlen.
Qed.
End Mode.

(** ** Accepting one peer *)
Definition reason_debug (r : cancel_reason) : string :=
  match r with User => "User" | Deadline => "Deadline" | Shutdown => "Shutdown" end.

(** [accept]: a peer with its address' kind, the set-up of its socket and its
    incoming half; or an error, with the clock [remaining] and the deadline check
    read when it says that nobody is there yet. *)
Inductive accept_reply :=
| AcceptedPeer (loopback : bool) (prepared : result unit io_error) (stream : incoming)
| AcceptError (e : io_error) (now later : Z).

(** [at_request] is a cancellation another thread requested before this
    iteration; the first recorded reason stays. *)
Record accept_turn := AcceptTurn { at_request : option cancel_reason; at_reply : accept_reply }.

Definition arrive (requested arrived : option cancel_reason) : option cancel_reason :=
  match arrived with Some r => get_or_insert requested r | None => requested end.

Definition connect_timed_out : io_error := IoError TimedOut "supervisor connect deadline exceeded".

Fixpoint accept_loop (deadline : Z) (effective_deadline : option Z) (requested : option cancel_reason)
    (turns : list accept_turn) : option (result incoming io_error * option cancel_reason) :=
  match turns with
  | [] => None
  | t :: turns =>
      let requested := arrive requested (at_request t) in
      match requested with
      | Some reason =>
          Some (Err (IoError Interrupted ("supervisor connection cancelled (" +:+ reason_debug reason +:+ ")")), requested)
      | None =>
          match at_reply t with
          | AcceptedPeer loopback prepared stream =>
              if negb loopback then accept_loop deadline effective_deadline requested turns
              else Some (let? _ := prepared in Ok stream, requested)
          | AcceptError e now later =>
              if kind_is e WouldBlock then
                if Z.eqb (duration_since deadline now) 0 then
                  Some (Err connect_timed_out,
                        if is_some_and effective_deadline (fun at_ => Z.leb at_ later)
                        then get_or_insert requested Deadline else requested)
                else accept_loop deadline effective_deadline requested turns
              else Some (Err e, requested)
          end
      end
  end.

Definition accept_supervisor_peer (set_nonblocking : result unit io_error) (deadline : Z)
    (effective_deadline requested : _) (turns : list accept_turn)
  : option (result incoming io_error * option cancel_reason) :=
  match set_nonblocking with
  | Err e => Some (Err e, requested)
  | Ok _ => accept_loop deadline effective_deadline requested turns
  end.

(** ** The search for the authenticated peer *)

(** One iteration: a cancellation that arrived, the clock of the deadline check,
    the listener's turns, and the clock when the candidate's budget starts. *)
Record search_turn := SearchTurn {
  se_request : option cancel_reason; se_now : Z; se_nonblocking : result unit io_error;
  se_accepts : list accept_turn; se_candidate : Z
}.

(** When the addition overflows the source reads the clock again. *)
Definition supervisor_deadline_after (now duration : Z) : Z := default now (checked_add now duration).

Definition handshake_deadline (now : Z) (deadline : option Z) : Z :=
  let connect_deadline := supervisor_deadline_after now SUPERVISOR_CONNECT_TIMEOUT in
  match deadline with Some value => Z.min value connect_deadline | None => connect_deadline end.

Definition read_hello (limit candidate : Z) : reader supervisor_frame :=
  read_frame_with_deadline ChildToParent
    (Limits (Some (Z.min limit (supervisor_deadline_after candidate PEER_HELLO_TIMEOUT))) false).

Definition is_hello (token : supervisor_token) (hello : supervisor_frame) : bool :=
  authenticate token (f_payload hello) && bool_decide (f_kind hello = KHello) && Z.eqb (f_request_id hello) 0.

Definition search_cancelled : libdeno_error := Io (IoError Interrupted "supervisor handshake cancelled").
Definition search_timed_out : libdeno_error :=
  supervisor_error "supervisor handshake deadline exceeded while waiting for an authenticated peer".

(** [None]: the turns end while the parent still waits. *)
Fixpoint find_peer (token : supervisor_token) (limit : Z) (deadline requested : _) (turns : list search_turn)
  : option (result (incoming * supervisor_frame) libdeno_error * option cancel_reason) :=
  match turns with
  | [] => None
  | t :: turns =>
      let requested := arrive requested (se_request t) in
      if bool_decide (requested <> None) then Some (Err search_cancelled, requested)
      else if Z.leb limit (se_now t) then Some (Err search_timed_out, requested)
      else
        match accept_supervisor_peer (se_nonblocking t) limit deadline requested (se_accepts t) with
        | None => None
        | Some (Err e, requested) => Some (Err (Io e), requested)
        | Some (Ok stream, requested) =>
            match read_hello limit (se_candidate t) stream with
            | None => None
            | Some (Err _, _) => find_peer token limit deadline requested turns
            | Some (Ok hello, stream) =>
                if is_hello token hello then Some (Ok (stream, hello), requested)
                else find_peer token limit deadline requested turns
            end
        end
  end.

(** The deadline of the run caps the connect timeout. *)
Definition search_peer (token : supervisor_token) (now : Z) (deadline : option Z) (turns : list search_turn)
  : option (result (incoming * supervisor_frame) libdeno_error * option cancel_reason) :=
  find_peer token (handshake_deadline now deadline) deadline None turns.

(** ** What strangers can and cannot do *)

(** The listener's own failures, and its deadline. *)
Inductive listener_failure (limit : Z) (t : search_turn) : io_error -> Prop :=
| lf_nonblocking e : se_nonblocking t = Err e -> listener_failure limit t e
| lf_socket r s e : AcceptTurn r (AcceptedPeer true (Err e) s) ∈ se_accepts t -> listener_failure limit t e
| lf_accept r e now later : AcceptTurn r (AcceptError e now later) ∈ se_accepts t ->
    kind_is e WouldBlock = false -> listener_failure limit t e
| lf_deadline r e now later : AcceptTurn r (AcceptError e now later) ∈ se_accepts t -> limit <= now ->
    listener_failure limit t connect_timed_out
| lf_cancelled r a : AcceptTurn (Some r) a ∈ se_accepts t -> listener_failure limit t
    (IoError Interrupted ("supervisor connection cancelled (" +:+ reason_debug r +:+ ")")).

Lemma accept_loop_spec (limit : Z) (deadline : option Z) (t : search_turn) (turns : list accept_turn)
    (r : result incoming io_error) (c : option cancel_reason) :
  turns ⊆ se_accepts t -> accept_loop limit deadline None turns = Some (r, c) ->
  match r with
  | Ok s => c = None /\ AcceptTurn None (AcceptedPeer true (Ok ()) s) ∈ se_accepts t
  | Err e => listener_failure limit t e
  end.
Proof.
  induction turns as [|[q a] turns IH]; simpl; intros Hs H; [done|].
  assert (AcceptTurn q a ∈ se_accepts t) as Ha by set_solver.
  assert (turns ⊆ se_accepts t) as Ht by set_solver.
  destruct q as [q|]; simpl in H; [simplify_eq; by eapply lf_cancelled|].
  destruct a as [loopback prepared s|e now later].
  { destruct loopback; simpl in H; [|by apply IH]. destruct prepared as [[]|e]; simplify_eq/=; [done|by eapply lf_socket]. }
  destruct (kind_is e WouldBlock) eqn:Ek; simplify_eq; [|eauto using listener_failure].
  destruct (Z.eqb_spec (duration_since limit now) 0) as [E|E]; simplify_eq; [|by apply IH].
  eapply lf_deadline; [exact Ha|unfold duration_since in E; lia].
Qed.

Lemma accept_supervisor_peer_spec (limit : Z) (deadline : option Z) (t : search_turn)
    (r : result incoming io_error) (c : option cancel_reason) :
  accept_supervisor_peer (se_nonblocking t) limit deadline None (se_accepts t) = Some (r, c) ->
  match r with
  | Ok s => c = None /\ AcceptTurn None (AcceptedPeer true (Ok ()) s) ∈ se_accepts t
  | Err e => listener_failure limit t e
  end.
Proof.
  unfold accept_supervisor_peer; destruct (se_nonblocking t) as [[]|e] eqn:E; intros H.
  - by eapply accept_loop_spec.
  - simplify_eq; by constructor.
Qed.

Lemma is_hello_spec (token : supervisor_token) (hello : supervisor_frame) :
  is_hello token hello = true <-> hello = SupervisorFrame KHello 0 token.
Proof.
  unfold is_hello, authenticate; rewrite !andb_true_iff, bool_decide_eq_true, !Z.eqb_eq, comparison_zero.
  destruct hello; simpl; naive_solver.
Qed.

(** What one peer sent is not the child's HELLO: bytes that are no frame (or
    none in time), or a frame without the token. *)
Definition stranger (token : supervisor_token) (limit : Z) (deadline : option Z) (t : search_turn) : Prop :=
  se_request t = None /\ se_now t < limit /\
  exists s r s', accept_supervisor_peer (se_nonblocking t) limit deadline None (se_accepts t) = Some (Ok s, None) /\
    read_hello limit (se_candidate t) s = Some (r, s') /\ r <> Ok (SupervisorFrame KHello 0 token).

Lemma strangers_passed_over (token : supervisor_token) (limit : Z) (deadline : option Z)
    (strangers rest : list search_turn) :
  Forall (stranger token limit deadline) strangers ->
  find_peer token limit deadline None (strangers ++ rest) = find_peer token limit deadline None rest.
Proof.
  induction 1 as [|t ts (Hq & Hn & s & r & s' & Ha & Hr & Hne) _ IH]; [done|]; simpl; rewrite Hq; simpl.
  rewrite (proj2 (Z.leb_gt _ _) Hn), Ha, Hr; destruct r as [hello|]; [|done].
  destruct (is_hello token hello) eqn:E; [|done]. apply is_hello_spec in E as ->; done.
Qed.

(** C35. The parent talks to the first loopback peer that presents the token in a
    HELLO and to nobody else: however many strangers connect before the child and
    whatever they send, the child is still served; and the search only fails
    because the run was cancelled, the handshake deadline passed, or the listener
    or a socket failed, never because of what a peer sent. *)
Theorem peer_search_spec (token : supervisor_token) (now : Z) (deadline : option Z)
    (strangers rest : list search_turn) (turns : list search_turn) (child : search_turn) (s s' : incoming) :
  let limit := handshake_deadline now deadline in
  (Forall (stranger token limit deadline) strangers -> se_request child = None -> se_now child < limit ->
   accept_supervisor_peer (se_nonblocking child) limit deadline None (se_accepts child) = Some (Ok s, None) ->
   read_hello limit (se_candidate child) s = Some (Ok (SupervisorFrame KHello 0 token), s') ->
   search_peer token now deadline (strangers ++ child :: rest) =
     Some (Ok (s', SupervisorFrame KHello 0 token), None)) /\
  match search_peer token now deadline turns with
  | None => True
  | Some (Ok (stream, hello), requested) =>
      hello = SupervisorFrame KHello 0 token /\ requested = None /\
      exists t peer, t ∈ turns /\ AcceptTurn None (AcceptedPeer true (Ok ()) peer) ∈ se_accepts t /\
        read_hello limit (se_candidate t) peer = Some (Ok hello, stream)
  | Some (Err e, requested) =>
      (e = search_cancelled /\ requested <> None) \/
      exists t, t ∈ turns /\
        ((e = search_timed_out /\ limit <= se_now t) \/ exists io, e = Io io /\ listener_failure limit t io)
  end.
Proof.
  intros limit; unfold search_peer; fold limit; split.
  - intros Hs Hq Hn Ha Hr; rewrite strangers_passed_over by done; simpl; rewrite Hq; simpl.
    rewrite (proj2 (Z.leb_gt _ _) Hn), Ha, Hr, (proj2 (is_hello_spec _ _) eq_refl); done.
  - clear strangers rest child s s'; induction turns as [|t turns IH]; simpl; [done|].
    destruct (se_request t) as [q|]; simpl; [by left|].
    destruct (Z.leb_spec limit (se_now t)); [right; exists t; set_solver|].
    destruct (accept_supervisor_peer _ _ _ _ _) as [[[stream|e] c]|] eqn:Ea; [| |done];
      apply accept_supervisor_peer_spec in Ea; [|right; exists t; split; [set_solver|eauto]].
    destruct Ea as [-> Ha].
    destruct (read_hello limit (se_candidate t) stream) as [[[hello|] stream']|] eqn:Er; [| |done].
    + destruct (is_hello token hello) eqn:Eh.
      * apply is_hello_spec in Eh as ->; split_and!; try done; exists t, stream; split_and!; set_solver.
      * destruct (find_peer _ _ _ _ _) as [[[[]|] ?]|]; set_solver.
    + destruct (find_peer _ _ _ _ _) as [[[[]|] ?]|]; set_solver.
Qed.

(** A peer that sends garbage, one with a wrong token and one that connects from
    elsewhere come before the child. *)
Lemma peer_search_spec_witness :
  let token := [1; 2; 3] in
  let o := IoProbe false 10 in
  let data := ReadTurn o (Ok ()) (RData 30) o in
  let peer bytes := SearchTurn None 10 (Ok ())
    [AcceptTurn None (AcceptError (IoError WouldBlock "") 10 10);
     AcceptTurn None (AcceptedPeer false (Ok ()) (Incoming [] []));
     AcceptTurn None (AcceptedPeer true (Ok ()) (Incoming bytes (replicate 8 data)))] 10 in
  search_peer token 0 (Some 100)
    [peer [71; 69; 84; 32]; peer (frame_bytes (SupervisorFrame KHello 0 [1; 2; 4]));
     peer (frame_bytes (SupervisorFrame KHello 0 token))] =
  Some (Ok (Incoming [] (replicate 2 data), SupervisorFrame KHello 0 token), None).
Proof.
  cbv zeta.
  apply (peer_search_spec [1; 2; 3] 0 (Some 100)
    [SearchTurn None 10 (Ok ()) [AcceptTurn None (AcceptError (IoError WouldBlock "") 10 10);
       AcceptTurn None (AcceptedPeer false (Ok ()) (Incoming [] []));
       AcceptTurn None (AcceptedPeer true (Ok ()) (Incoming [71; 69; 84; 32]
         (replicate 8 (ReadTurn (IoProbe false 10) (Ok ()) (RData 30) (IoProbe false 10)))))] 10;
     SearchTurn None 10 (Ok ()) [AcceptTurn None (AcceptError (IoError WouldBlock "") 10 10);
       AcceptTurn None (AcceptedPeer false (Ok ()) (Incoming [] []));
       AcceptTurn None (AcceptedPeer true (Ok ()) (Incoming (frame_bytes (SupervisorFrame KHello 0 [1; 2; 4]))
         (replicate 8 (ReadTurn (IoProbe false 10) (Ok ()) (RData 30) (IoProbe false 10)))))] 10] [] [] _
    (Incoming (frame_bytes (SupervisorFrame KHello 0 [1; 2; 3]))
      (replicate 8 (ReadTurn (IoProbe false 10) (Ok ()) (RData 30) (IoProbe false 10))))).
  - repeat constructor; eexists _, _, _; (split; [by vm_compute|]); (split; [by vm_compute|]); discriminate.
  - done.
  - by vm_compute.
  - by vm_compute.
  - by vm_compute.
Defined.
