(* ===== verification/Phases.v ===== *)
(** * Phases: the deadlines of a supervised session (src/subprocess.rs).

    Protocol interleaves the two sides of a session without time.  Here are the
    bounded reads and writes of the parent's main thread and the read of the
    terminal with its phases ([read_supervisor_terminal_with_duplicate_grace]),
    over scripts of clock readings and of what the other threads do in between.  The session is behind
    a lock: another thread acts on it only where the lock is free. *)
From S2P Require Import Prelude Errors Cancel Execution Token Frame Session Protocol Handshake.
Open Scope Z_scope.

Definition SUPERVISOR_CANCEL_GRACE : Z := from_secs 2.

Definition phase_frame_deadline (now : Z) (effective_deadline : option Z) : Z :=
  let frame_deadline := supervisor_deadline_after now SUPERVISOR_FRAME_TIMEOUT in
  match effective_deadline with Some deadline => Z.min deadline frame_deadline | None => frame_deadline end.

(** A phase that timed out because the run's deadline has passed records it;
    [now] is the clock after the failure. *)
Definition phase_timeout (failed : option io_error) (effective_deadline : option Z) (now : Z)
    (requested : option cancel_reason) : option cancel_reason :=
  match failed with
  | Some e =>
      if kind_is e TimedOut && is_some_and effective_deadline (fun at_ => Z.leb at_ now) &&
         bool_decide (requested = None)
      then get_or_insert requested Deadline else requested
  | None => requested
  end.

Definition err {A E : Type} (r : result A E) : option E := match r with Ok _ => None | Err e => Some e end.

(** The clock when the phase starts and after it, and a cancellation requested
    by another thread in between. *)
Record phase_clock := PhaseClock { ph_from : Z; ph_arrived : option cancel_reason; ph_ended : Z }.

Definition read_supervisor_handshake_frame (effective_deadline requested : _) (k : phase_clock) (s : incoming)
  : option (result supervisor_frame io_error * option cancel_reason * incoming) :=
  match read_frame_with_deadline ChildToParent
          (Limits (Some (phase_frame_deadline (ph_from k) effective_deadline)) true) s with
  | None => None
  | Some (r, s) =>
      Some (r, phase_timeout (err r) effective_deadline (ph_ended k) (arrive requested (ph_arrived k)), s)
  end.

(** Both ends of a write's script: the final checks of its two parts. *)
Record write_script := WriteScript { ws_header : io_probe; ws_payload : io_probe; ws_turns : list write_turn }.

Section Writes.
Context (from_raw_os_error : Z -> io_error) (reason_to_vec : cancel_reason -> result (list Z) string).

Definition write_supervisor_frame (f : supervisor_frame) (effective_deadline requested : _) (k : phase_clock)
    (w : write_script) : option (written * option cancel_reason) :=
  match write_frame_until from_raw_os_error f
          (Limits (Some (phase_frame_deadline (ph_from k) effective_deadline)) true)
          (ws_header w) (ws_payload w) (ws_turns w) with
  | None => None
  | Some wr =>
      Some (wr, phase_timeout (err (wr_result wr)) effective_deadline (ph_ended k) (arrive requested (ph_arrived k)))
  end.

(** What the function returns is also the reason recorded afterwards. *)
Definition cancellation_reason_if_due (requested deadline : option _) (now : Z) : option cancel_reason :=
  match requested with
  | Some reason => Some reason
  | None => if is_some_and deadline (fun at_ => Z.leb at_ now) then Some Deadline else None
  end.

(** The CANCEL of both threads; the writer has at most 100ms. *)
Definition write_cancel (f : supervisor_frame) (grace_deadline now : Z) (w : write_script) : option written :=
  write_frame_until from_raw_os_error f
    (Limits (Some (Z.min (supervisor_deadline_after now (from_millis 100)) grace_deadline)) false)
    (ws_header w) (ws_payload w) (ws_turns w).

(** [from] and [now] are the two clock readings; the last part is what was sent. *)
Definition send_supervisor_cancel (p : parent_session) (reason : cancel_reason) (from now : Z) (w : write_script)
  : option (result Z io_error * parent_session * list Z) :=
  let grace_deadline := supervisor_deadline_after from SUPERVISOR_CANCEL_GRACE in
  match send_cancel p reason with
  | (Err e, p) => Some (Err e, p, [])
  | (Ok false, p) => Some (Ok grace_deadline, p, [])
  | (Ok true, p) =>
      match cancel_frame reason_to_vec reason with
      | Err e => Some (Err e, p, [])
      | Ok f =>
          match write_cancel f grace_deadline now w with
          | None => None
          | Some wr => Some ((let? _ := wr_result wr in Ok grace_deadline), p, wr_sent wr)
          end
      end
  end.
End Writes.

(** ** Reading the terminal *)
Record terminal_context := TerminalContext {
  tc_effective_deadline : option Z; tc_started_phase_deadline : Z;
  tc_cancel_grace_deadline : option Z; tc_read_cancellation : bool
}.

(** One frame: what the worker's [send_cancel] did to the session before its
    state is read and before the frame is received, a request that arrived, and
    the clocks of the fallback grace, of the first byte and after a failure. *)
Record terminal_turn := TerminalTurn {
  tt_before : option cancel_reason; tt_during : option cancel_reason; tt_arrived : option cancel_reason;
  tt_grace_from : Z; tt_frame_started : Z; tt_ended : Z
}.

Definition worker_cancels (p : parent_session) (reason : option cancel_reason) : parent_session :=
  match reason with Some r => (send_cancel p r).2 | None => p end.

Definition waiting_started (p : parent_session) : bool :=
  bool_decide (ps_state p = PAwaitStarted) || (bool_decide (ps_state p = PCancelling) && negb (ps_started_received p)).

(** The deadlines of the first byte and of the rest. *)
Definition terminal_deadlines (c : terminal_context) (p : parent_session) (grace_from : Z) : option Z * option Z :=
  if waiting_started p then (Some (tc_started_phase_deadline c), Some (tc_started_phase_deadline c))
  else if bool_decide (ps_state p = PCancellingBeforeStart) then
    let grace_deadline := default (supervisor_deadline_after grace_from SUPERVISOR_CANCEL_GRACE)
                            (tc_cancel_grace_deadline c) in
    (Some grace_deadline, Some grace_deadline)
  else (None, None).

(** [tr_started] counts the calls of [on_started]. *)
Record terminal_read := TerminalRead {
  tr_result : result supervisor_terminal io_error; tr_session : parent_session;
  tr_requested : option cancel_reason; tr_started : nat; tr_in : incoming
}.

(** The panic of [expect]; see [terminal_read_spec]. *)
Definition no_terminal_stored : io_error := IoError OtherKind "terminal event must store a terminal".

Section Terminal.
Context (from_slice : list Z -> result supervisor_terminal string).

Fixpoint terminal_loop (c : terminal_context) (p : parent_session) (requested : option cancel_reason) (started : nat)
    (turns : list terminal_turn) (s : incoming) : option terminal_read :=
  match turns with
  | [] => None
  | t :: turns =>
      let p := worker_cancels p (tt_before t) in
      let cancelled_before_start := bool_decide (ps_state p = PCancellingBeforeStart) in
      let '(first_byte_deadline, assembly_deadline) := terminal_deadlines c p (tt_grace_from t) in
      let phase_deadline := if waiting_started p then tc_effective_deadline c else None in
      let requested := arrive requested (tt_arrived t) in
      match read_frame_after_first_byte ChildToParent first_byte_deadline assembly_deadline
              (negb cancelled_before_start && tc_read_cancellation c) (tt_frame_started t) s with
      | None => None
      | Some (Err e, s) =>
          Some (TerminalRead (Err e) p (phase_timeout (Some e) phase_deadline (tt_ended t) requested) started s)
      | Some (Ok f, s) =>
          let p := worker_cancels p (tt_during t) in
          match receive_child_frame from_slice p f with
          | (Err e, p) => Some (TerminalRead (Err e) p requested started s)
          | (Ok EvTerminal, p) =>
              Some (TerminalRead (match ps_terminal p with Some t => Ok t | None => Err no_terminal_stored end)
                      p requested started s)
          | (Ok EvAccepted, p) => terminal_loop c p requested started turns s
          | (Ok EvStarted, p) => terminal_loop c p requested (S started) turns s
          end
      end
  end.

Definition frame_follows_terminal : io_error := invalid_data "supervisor frame follows TERMINAL".

(** Each element of [turns] is what the worker does before the next receive. *)
Fixpoint duplicates_loop (deadline : Z) (terminal : supervisor_terminal) (p : parent_session)
    (turns : list (option cancel_reason)) (s : incoming)
  : option (result supervisor_terminal io_error * parent_session * incoming) :=
  match turns with
  | [] => None
  | t :: turns =>
      match read_optional_frame_until ChildToParent deadline s with
      | None => None
      | Some (Err e, s) => Some (Err e, p, s)
      | Some (Ok None, s) => Some (Ok terminal, p, s)
      | Some (Ok (Some f), s) =>
          match receive_child_frame from_slice (worker_cancels p t) f with
          | (Err e, p) => Some (Err e, p, s)
          | (Ok EvTerminal, p) => duplicates_loop deadline terminal p turns s
          | (Ok _, p) => Some (Err frame_follows_terminal, p, s)
          end
      end
  end.

Definition duplicate_deadline (c : terminal_context) (now duplicate_grace : Z) : Z :=
  let deadline := supervisor_deadline_after now duplicate_grace in
  match tc_cancel_grace_deadline c with Some grace => Z.min deadline grace | None => deadline end.

(** [now] is the clock when the terminal has arrived. *)
Definition read_supervisor_terminal_with_duplicate_grace (c : terminal_context) (duplicate_grace now : Z)
    (p : parent_session) (requested : option cancel_reason) (turns : list terminal_turn)
    (duplicates : list (option cancel_reason)) (s : incoming) : option terminal_read :=
  match terminal_loop c p requested 0 turns s with
  | Some (TerminalRead (Ok terminal) p requested started s) =>
      match duplicates_loop (duplicate_deadline c now duplicate_grace) terminal p duplicates s with
      | Some (r, p, s) => Some (TerminalRead r p requested started s)
      | None => None
      end
  | other => other
  end.

Definition read_supervisor_terminal (c : terminal_context) (now : Z) (p : parent_session)
    (requested : option cancel_reason) (turns : list terminal_turn) (duplicates : list (option cancel_reason))
    (s : incoming) : option terminal_read :=
  read_supervisor_terminal_with_duplicate_grace c (from_millis 100) now p requested turns duplicates s.
End Terminal.

(** ** The terminal read is a history of the session *)

Lemma read_after_first_byte_sound (d : frame_direction) (first assembly : option Z) (c : bool) (started : Z)
    (s s' : incoming) (f : supervisor_frame) :
  Forall is_u8 (in_bytes s) ->
  read_frame_after_first_byte d first assembly c started s = Some (Ok f, s') ->
  in_bytes s = frame_bytes f ++ in_bytes s' /\ Forall is_u8 (in_bytes s').
Proof.
  intros Hu (b & s1 & [_ E1]%read_until_ok & (m & s2 & [_ E2]%read_until_ok & H)%rbind_ok)%rbind_ok.
  assert (in_bytes s = frame_bytes f ++ in_bytes s') as E; [|by rewrite E in Hu; apply Forall_app_r in Hu].
  rewrite E1, E2 in *; apply Forall_app_r, Forall_app_r in Hu.
  apply read_magic_sound in H as [H _]; [|done]; by rewrite <- H, app_assoc.
Qed.

(** A frame whose first byte may take its time is read when it is delivered. *)
Lemma after_first_byte_delivers (f : supervisor_frame) (c : bool) (started : Z) (rest : list Z) (turns : list read_turn) :
  frame_ok f ->
  Forall (delivers (Limits (Some (default started (checked_add started SUPERVISOR_FRAME_TIMEOUT))) c)) turns ->
  (length (frame_bytes f) <= data_turns turns)%nat ->
  exists turns', read_frame_after_first_byte (direction (f_kind f)) None None c started
    (Incoming (frame_bytes f ++ rest) turns) = Some (Ok f, Incoming rest turns').
Proof.
  intros Hok Hf Hn; rewrite length_frame_bytes in Hn; unfold SUPERVISOR_HEADER_LEN in Hn.
  unfold read_frame_after_first_byte, frame_bytes; change SUPERVISOR_MAGIC with ([76] ++ [68; 83; 86]).
  rewrite <- !app_assoc; set (l := Limits (Some _) c) in *.
  assert (forall t, delivers l t -> delivers (Limits None c) t) as Hweak.
  { intros t (H1 & H2 & H3 & H4); split_and!; try done.
    destruct (r_read t); [done|]; destruct H4 as [?|(? & ? & ?)]; [by left|right; by split_and!]. }
  match goal with |- context [rbind _ _ (Incoming ([76] ++ ?r) turns)] =>
    destruct (read_until_delivers_weak (delivers l) (Limits None c) 1 turns [76] r (17 + length (f_payload f)) Hweak Hf eq_refl)
      as (turns1 & E1 & Hf1 & Hn1); [lia|] end.
  rewrite (rbind_step _ _ _ _ _ E1); fold l.
  read_field [68; 83; 86] (14 + length (f_payload f))%nat.
  by apply (read_magic_complete l f rest _ 0); [| |lia].
Qed.

(** Where the terminal is read: START was authorized, or a cancellation won. *)
Definition reading (p : parent_session) : Prop :=
  match ps_state p with PAwaitStarted | PStarted | PCancellingBeforeStart | PCancelling => True | _ => False end.

(** The bytes of a STARTED frame, or of a terminal frame that decodes to [t]. *)
Definition started_frame (p : parent_session) (f : supervisor_frame) : Prop :=
  f = SupervisorFrame KStarted (ps_request_id p) [].
Definition terminal_frame (from_slice : list Z -> result supervisor_terminal string) (p : parent_session)
    (t : supervisor_terminal) (f : supervisor_frame) : Prop :=
  f_kind f = KTerminal /\ f_request_id f = ps_request_id p /\ decode_payload from_slice (f_payload f) = Ok t.

Section TerminalSpec.
Context (from_slice : list Z -> result supervisor_terminal string).
Local Notation history := (reachable (parent_step from_slice)).

Lemma worker_cancels_history (p : parent_session) (o : option cancel_reason) :
  history p (worker_cancels p o) /\ ps_request_id (worker_cancels p o) = ps_request_id p /\
  ps_started_received (worker_cancels p o) = ps_started_received p /\
  ps_terminal (worker_cancels p o) = ps_terminal p /\
  (reading p -> reading (worker_cancels p o) /\
     (ps_state (worker_cancels p o) = PCancellingBeforeStart <-> ps_state p = PCancellingBeforeStart)).
Proof.
  destruct o as [r|]; simpl; [|split; [constructor|tauto]].
  destruct (send_cancel p r) as [[b|e] p'] eqn:E; simpl.
  - split; [eapply reach_step; [constructor|]; exists (OpCancel r); simpl; by rewrite E|].
    unfold send_cancel, reading in *; destruct p as [id [] rs cs sr cr tm]; simpl in *;
      repeat (destr_match; simplify_eq/=; try (split_and!; done)); by split_and!.
  - assert (p' = p) as -> by (apply (parent_refusal_unchanged from_slice _ _ (OpCancel r)); simpl; by rewrite E).
    split; [constructor|tauto].
Qed.

Lemma receive_reading (p p' : parent_session) (f : supervisor_frame) (event : frame_event) :
  parent_inv p -> reading p -> receive_child_frame from_slice p f = (Ok event, p') ->
  history p p' /\ ps_request_id p' = ps_request_id p /\
  match event with
  | EvAccepted => False
  | EvStarted => started_frame p f /\ ps_started_received p = false /\ ps_started_received p' = true /\ reading p' /\
      ps_state p <> PCancellingBeforeStart
  | EvTerminal => ps_started_received p' = ps_started_received p /\
      exists t, ps_terminal p' = Some t /\ terminal_frame from_slice p t f
  end.
Proof.
  intros Hi Hr H; split; [eapply reach_step; [constructor|]; exists (OpReceive f); simpl; by rewrite H|].
  unfold receive_child_frame in H; destruct f as [k id payload]; cbn [f_request_id f_kind f_payload] in H.
  destruct (Z.eqb_spec id (ps_request_id p)) as [Hid|Hid]; simpl in H;
    [|destruct (bool_decide _ && _) eqn:Eh in H; simpl in H; [|done]].
  - subst id; destruct k; try (by destruct payload; simplify_eq).
    + unfold reading in Hr; destruct payload, (ps_state p); by simplify_eq.
    + destruct payload; [|done]; unfold reading in Hr.
      destruct Hi as (_ & _ & _ & _ & I5 & _); destruct p as [pid [] rs cs sr cr tm]; simplify_eq/=; try done.
      destruct sr; by simplify_eq/=.
    + destruct (receive_terminal_cases from_slice p (SupervisorFrame KTerminal (ps_request_id p) payload))
        as [(e & E)|[(t & Ht & E)|(t & Ht & E & Hd & _)]]; rewrite E in H; simplify_eq/=.
      * destruct Hi as (I1 & _); unfold reading in Hr; rewrite Ht in I1; symmetry in I1.
        apply bool_decide_eq_true_1 in I1; by rewrite I1 in Hr.
      * split_and!; try done; exists t; by split_and!.
  - apply andb_true_iff in Eh as [Ek%bool_decide_eq_true _]; subst k; by destruct payload.
Qed.

Lemma history_inv (p p' : parent_session) : parent_inv p -> history p p' -> parent_inv p'.
Proof.
  intros Hi; apply reachable_invariant; [done|].
  intros a b Ha Hs; by destruct (parent_step_inv from_slice a b Ha Hs).
Qed.

Lemma history_id (p p' : parent_session) : parent_inv p -> history p p' -> ps_request_id p' = ps_request_id p.
Proof.
  intros Hi H; cut (parent_inv p' /\ ps_request_id p' = ps_request_id p); [by intros []|].
  apply (reachable_invariant (parent_step from_slice)
           (fun q => parent_inv q /\ ps_request_id q = ps_request_id p) p p'); [done| |done].
  intros a b [Ha Hb] Hab; destruct (parent_step_inv from_slice a b Ha Hab) as [? [? _]]; split; congruence.
Qed.

Lemma worker_cancels_inv (p : parent_session) (o : option cancel_reason) :
  parent_inv p -> parent_inv (worker_cancels p o).
Proof.
  intros Hi; eapply history_inv; [exact Hi|]; apply worker_cancels_history.
Qed.

Lemma receive_inv (p p' : parent_session) (f : supervisor_frame) (event : frame_event) :
  parent_inv p -> receive_child_frame from_slice p f = (Ok event, p') -> parent_inv p'.
Proof.
  intros Hi H; apply (parent_step_inv from_slice p p' Hi); exists (OpReceive f); simpl; by rewrite H.
Qed.

Lemma receive_refused (p p' : parent_session) (f : supervisor_frame) (e : io_error) :
  receive_child_frame from_slice p f = (Err e, p') -> p' = p.
Proof.
  intros H; apply (parent_refusal_unchanged from_slice p p' (OpReceive f)); simpl; by rewrite H.
Qed.

(** What the loop has read and recorded when it returns. *)
Definition terminal_read_ok (p : parent_session) (started : nat) (bytes : list Z) (tr : terminal_read) : Prop :=
  history p (tr_session tr) /\
  tr_started tr = (started + (if negb (ps_started_received p) && ps_started_received (tr_session tr) then 1 else 0))%nat /\
  match tr_result tr with
  | Ok t => ps_terminal (tr_session tr) = Some t /\
      exists pre frames, bytes = ((pre ++ frames) ≫= frame_bytes) ++ in_bytes (tr_in tr) /\
        (started + length pre)%nat = tr_started tr /\ Forall (started_frame p) pre /\
        frames <> [] /\ Forall (terminal_frame from_slice p t) frames /\ Forall is_u8 (in_bytes (tr_in tr))
  | Err _ => True
  end.

Lemma started_stays (p p' : parent_session) :
  parent_inv p -> history p p' -> ps_started_received p = true -> ps_started_received p' = true.
Proof.
  intros Hi H Hs; cut (parent_inv p' /\ ps_started_received p' = true); [by intros []|].
  apply (reachable_invariant (parent_step from_slice)
           (fun q => parent_inv q /\ ps_started_received q = true) p p'); [done| |done].
  intros a b [Ha Hb] Hab; destruct (parent_step_inv from_slice a b Ha Hab) as [? (_ & _ & _ & _ & K)]; eauto.
Qed.

(** Before anything is received only the worker has acted on the session. *)
Lemma read_failed_ok (p p' : parent_session) (requested : option cancel_reason) (started : nat) (e : io_error)
    (bytes : list Z) (s : incoming) :
  history p p' -> ps_started_received p' = ps_started_received p ->
  terminal_read_ok p started bytes (TerminalRead (Err e) p' requested started s).
Proof.
  intros H E; unfold terminal_read_ok; simpl; rewrite E; split_and!; [done| |done].
  destruct (ps_started_received p); simpl; lia.
Qed.

Lemma started_frame_id (p q : parent_session) (f : supervisor_frame) :
  ps_request_id p = ps_request_id q -> started_frame p f -> started_frame q f.
Proof. unfold started_frame; by intros ->. Qed.

Lemma terminal_frame_id (p q : parent_session) (t : supervisor_terminal) (f : supervisor_frame) :
  ps_request_id p = ps_request_id q -> terminal_frame from_slice p t f -> terminal_frame from_slice q t f.
Proof. unfold terminal_frame; by intros ->. Qed.

(** A STARTED frame in front of what the rest of the loop reads. *)
Lemma started_read_ok (p p' : parent_session) (f : supervisor_frame) (started : nat) (bytes : list Z) (tr : terminal_read) :
  parent_inv p' -> history p p' -> ps_request_id p' = ps_request_id p -> started_frame p f ->
  ps_started_received p = false -> ps_started_received p' = true ->
  terminal_read_ok p' (S started) bytes tr -> terminal_read_ok p started (frame_bytes f ++ bytes) tr.
Proof.
  intros Hi Hh Hid Hf S0 S1 (H1 & H2 & H3); rewrite S1 in H2; simpl in H2.
  pose proof (started_stays _ _ Hi H1 S1) as S2.
  unfold terminal_read_ok; rewrite S0, S2; simpl; split_and!; [by eapply reachable_trans|lia|].
  destruct (tr_result tr) as [t|]; [|done].
  destruct H3 as (T1 & pre & frames & B1 & B2 & B3 & B4 & B5 & B6); split; [done|].
  exists (f :: pre), frames; split_and!; try done.
  - by rewrite B1, app_assoc.
  - simpl; lia.
  - constructor; [done|]; eapply Forall_impl; [exact B3|]; intros g; by apply started_frame_id.
  - eapply Forall_impl; [exact B5|]; intros g; by apply terminal_frame_id.
Qed.

Lemma terminal_loop_spec (c : terminal_context) (turns : list terminal_turn) :
  forall (p : parent_session) (requested : option cancel_reason) (started : nat) (s : incoming) (tr : terminal_read),
  parent_inv p -> reading p -> Forall is_u8 (in_bytes s) ->
  terminal_loop from_slice c p requested started turns s = Some tr -> terminal_read_ok p started (in_bytes s) tr.
Proof.
  induction turns as [|t turns IH]; intros p requested started s tr Hi Hr Hu H; [done|]; simpl in H.
  destruct (worker_cancels_history p (tt_before t)) as (W1 & W2 & W3 & W4 & W5).
  destruct (W5 Hr) as [Wr _]; pose proof (worker_cancels_inv p (tt_before t) Hi) as Wi.
  set (p1 := worker_cancels p (tt_before t)) in *.
  destruct (terminal_deadlines c p1 (tt_grace_from t)) as [first assembly].
  destruct (read_frame_after_first_byte _ _ _ _ _ s) as [[[f|e] s1]|] eqn:Ef;
    [|simplify_eq; by apply read_failed_ok|done].
  apply read_after_first_byte_sound in Ef as [Eb Hu1]; [|done]; rewrite Eb.
  destruct (worker_cancels_history p1 (tt_during t)) as (V1 & V2 & V3 & V4 & V5).
  destruct (V5 Wr) as [Vr _]; pose proof (worker_cancels_inv p1 (tt_during t) Wi) as Vi.
  set (p2 := worker_cancels p1 (tt_during t)) in *.
  assert (history p p2) as Hp2 by (eapply reachable_trans; eauto).
  destruct (receive_child_frame from_slice p2 f) as [[event|e] p3] eqn:Er.
  2:{ apply receive_refused in Er as ->; simplify_eq; apply read_failed_ok; [done|congruence]. }
  pose proof (receive_inv _ _ _ _ Vi Er) as Ri.
  destruct (receive_reading _ _ _ _ Vi Vr Er) as (R1 & R2 & R3).
  assert (history p p3) as Hp3 by (eapply reachable_trans; eauto).
  destruct event; [done| |].
  - destruct R3 as (Hf & S1 & S2 & Rr & _); apply (started_read_ok p p3); try done; try congruence.
    by apply (IH _ _ _ _ _ Ri Rr Hu1 H).
  - destruct R3 as (S1 & t' & T1 & T2); rewrite T1 in H; simplify_eq.
    unfold terminal_read_ok; simpl; rewrite S1, V3, W3; split_and!; [done| |done|].
    { destruct (ps_started_received p); simpl; lia. }
    exists [], [f]; simpl; rewrite app_nil_r.
    assert (terminal_frame from_slice p t' f) by (eapply terminal_frame_id; [|exact T2]; congruence).
    split_and!; try done; try lia; by constructor.
Qed.

(** A session that has its terminal takes only copies of it. *)
Lemma receive_duplicate (p p' : parent_session) (f : supervisor_frame) (t : supervisor_terminal) (event : frame_event) :
  parent_inv p -> ps_terminal p = Some t -> receive_child_frame from_slice p f = (Ok event, p') ->
  event = EvTerminal /\ p' = p /\ terminal_frame from_slice p t f.
Proof.
  intros Hi Ht H.
  assert (ps_state p = PTerminal) as Hs.
  { destruct Hi as (I1 & _); rewrite Ht in I1; symmetry in I1; by apply bool_decide_eq_true_1 in I1. }
  unfold receive_child_frame in H; destruct f as [k id payload]; cbn [f_request_id f_kind f_payload] in H.
  destruct (Z.eqb_spec id (ps_request_id p)) as [Hid|Hid]; simpl in H;
    [|destruct (bool_decide _ && _) eqn:Eh in H; simpl in H; [|done];
      apply andb_true_iff in Eh as [Ek%bool_decide_eq_true _]; subst k; by destruct payload].
  subst id; destruct k; try (by destruct payload; rewrite ?Hs in H).
  assert (receive_terminal from_slice p (SupervisorFrame KTerminal (ps_request_id p) payload) = (Ok event, p')) as H'
    by (by destruct payload).
  clear H; rename H' into H; unfold receive_terminal in H; rewrite Ht in H; cbn [f_payload] in H.
  destruct (decode_payload from_slice payload) as [t'|e] eqn:Ed; [|done].
  destruct (validate_supervisor_terminal_shape t'); [|done]; case_bool_decide; simplify_eq.
  unfold terminal_frame; by split_and!.
Qed.

Lemma optional_frame_sound (d : frame_direction) (deadline : Z) (s s' : incoming) (f : supervisor_frame) :
  Forall is_u8 (in_bytes s) -> read_optional_frame_until d deadline s = Some (Ok (Some f), s') ->
  in_bytes s = frame_bytes f ++ in_bytes s' /\ Forall is_u8 (in_bytes s').
Proof.
  unfold read_optional_frame_until; intros Hu H.
  destruct (read_until 1 _ s) as [[[v|e] s1]|] eqn:E1; [|by destruct (eof_or_timeout e)|done].
  destruct (read_until 3 _ s1) as [[[v'|e] s2]|] eqn:E2; [|done|done].
  destruct (read_frame_with_magic _ _ _ s2) as [[[f'|e] s3]|] eqn:E3; simplify_eq.
  assert (in_bytes s = frame_bytes f ++ in_bytes s') as E; [|by rewrite E in Hu; apply Forall_app_r in Hu].
  apply read_until_ok in E1 as [_ E1], E2 as [_ E2]; rewrite E1, E2 in *.
  apply Forall_app_r, Forall_app_r in Hu; apply read_magic_sound in E3 as [E3 _]; [|done].
  by rewrite app_assoc.
Qed.

Lemma optional_frame_none (d : frame_direction) (deadline : Z) (s s' : incoming) :
  read_optional_frame_until d deadline s = Some (Ok None, s') -> in_bytes s' = in_bytes s.
Proof.
  unfold read_optional_frame_until; intros H.
  destruct (read_until 1 _ s) as [[[v|e] s1]|] eqn:E1; [|destruct (eof_or_timeout e)|done].
  - repeat destr_match.
  - simplify_eq. apply read_loop_bytes in E1 as ([|] & -> & Hl); [done|simpl in Hl; lia].
  - done.
Qed.

Lemma duplicates_loop_spec (deadline : Z) (t : supervisor_terminal) (turns : list (option cancel_reason)) :
  forall (p p' : parent_session) (s s' : incoming) (r : result supervisor_terminal io_error),
  parent_inv p -> ps_terminal p = Some t -> Forall is_u8 (in_bytes s) ->
  duplicates_loop from_slice deadline t p turns s = Some (r, p', s') ->
  history p p' /\ ps_started_received p' = ps_started_received p /\ ps_terminal p' = Some t /\
  match r with
  | Ok t' => t' = t /\ exists frames, in_bytes s = (frames ≫= frame_bytes) ++ in_bytes s' /\
      Forall (terminal_frame from_slice p t) frames /\ Forall is_u8 (in_bytes s')
  | Err _ => True
  end.
Proof.
  induction turns as [|o turns IH]; intros p p' s s' r Hi Ht Hu H; [done|]; simpl in H.
  destruct (read_optional_frame_until _ _ s) as [[[[f|]|e] s1]|] eqn:Ef; [| | |done];
    [|simplify_eq|simplify_eq; split_and!; try done; constructor].
  - apply optional_frame_sound in Ef as [Eb Hu1]; [|done].
    destruct (worker_cancels_history p o) as (W1 & W2 & W3 & W4 & _).
    pose proof (worker_cancels_inv p o Hi) as Wi; rewrite Ht in W4.
    destruct (receive_child_frame from_slice (worker_cancels p o) f) as [[event|e] p1] eqn:Er.
    2:{ apply receive_refused in Er as ->; simplify_eq; by split_and!. }
    destruct (receive_duplicate _ _ _ _ _ Wi W4 Er) as (-> & -> & Hf).
    destruct (IH _ _ _ _ _ Wi W4 Hu1 H) as (H1 & H2 & H3 & H4).
    split_and!; [by eapply reachable_trans|congruence|done|]; destruct r as [t'|]; [|done].
    destruct H4 as (-> & frames & B1 & B2 & B3); split; [done|]; exists (f :: frames).
    split_and!; [by simpl; rewrite Eb, B1, app_assoc| |done]; constructor; [by eapply terminal_frame_id|].
    eapply Forall_impl; [exact B2|]; intros g; by apply terminal_frame_id.
  - apply optional_frame_none in Ef; split; [constructor|]; do 3 (split; [done|]).
    exists []; simpl; rewrite Ef; by split_and!.
Qed.

(** ** Both loops end *)
Lemma after_first_byte_bounded (d : frame_direction) (deadline : Z) (c : bool) (started : Z) :
  bounded_reader (stops (Limits (Some deadline) false))
    (read_frame_after_first_byte d (Some deadline) (Some deadline) c started).
Proof.
  assert (forall t, stops (Limits (Some deadline) false) t -> stops (Limits (Some deadline) c) t) as H
    by (intros t [?|?]; [done|by right]).
  unfold read_frame_after_first_byte.
  apply bounded_rbind; [by apply bounded_read_until|intros first; cbv zeta].
  apply bounded_rbind; [by apply bounded_read_until|intros rest; by apply bounded_magic].
Qed.

Lemma optional_frame_bounded (d : frame_direction) (deadline : Z) (s : incoming) :
  Exists (stops (Limits (Some deadline) false)) (in_turns s) ->
  exists r s', read_optional_frame_until d deadline s = Some (r, s') /\
    (is_ok r = true -> r = Ok None \/ Exists (stops (Limits (Some deadline) false)) (in_turns s')).
Proof.
  intros H; unfold read_optional_frame_until; set (l := Limits (Some deadline) false) in *.
  destruct (bounded_read_until (stops l) l (fun _ H => H) 1 s H) as ([v|e] & s1 & -> & H1);
    [|destruct (eof_or_timeout e); eexists _, _; (split; [done|]); [by left|done]].
  destruct (bounded_read_until (stops l) l (fun _ H => H) 3 s1 (H1 eq_refl)) as ([v'|e] & s2 & -> & H2); [|eauto].
  2:{ eexists _, _; split; [done|done]. }
  destruct (bounded_magic (stops l) l (fun _ H => H) d (v ++ v') s2 (H2 eq_refl)) as ([f|e] & s3 & -> & H3).
  - eexists _, _; split; [done|]; right; by apply H3.
  - eexists _, _; split; done.
Qed.

Lemma duplicates_loop_returns (deadline : Z) (t : supervisor_terminal) (turns : list (option cancel_reason)) :
  forall (p : parent_session) (s : incoming),
  Forall is_u8 (in_bytes s) -> (length (in_bytes s) < length turns)%nat ->
  Exists (stops (Limits (Some deadline) false)) (in_turns s) ->
  exists r, duplicates_loop from_slice deadline t p turns s = Some r.
Proof.
  induction turns as [|o turns IH]; intros p s Hu Hl H; [simpl in Hl; lia|]; cbn [duplicates_loop].
  destruct (optional_frame_bounded ChildToParent deadline s H) as (r & s1 & E & H1); rewrite E.
  destruct r as [[f|]|e]; [|eauto..].
  destruct (optional_frame_sound _ _ _ _ _ Hu E) as [Eb Hu1].
  destruct (H1 eq_refl) as [?|H2]; [done|].
  destruct (receive_child_frame from_slice (worker_cancels p o) f) as [[[]|e] p1]; [eauto..| |eauto].
  apply IH; [done| |done].
  rewrite Eb, length_app, length_frame_bytes in Hl; simpl in Hl; lia.
Qed.

Lemma waiting_started_stays (p : parent_session) (o : option cancel_reason) :
  parent_inv p -> waiting_started p = true -> waiting_started (worker_cancels p o) = true.
Proof.
  intros (_ & _ & _ & _ & I5 & _) Hw; destruct o as [r|]; [|done].
  destruct p as [id [] rs cs [] [r'|] tm]; try done;
    unfold waiting_started, worker_cancels, send_cancel in *; simpl in *;
    repeat (case_bool_decide || destr_match || simplify_eq/=); try done; congruence.
Qed.

(** The read of the terminal is a history of the session, whatever the worker
    does in between.  A terminal it returns is the session's; the bytes consumed
    were at most one STARTED, announced exactly once, and copies of that
    terminal; and after a cancellation that won before START nothing is announced
    and only the terminal that reports the cancellation is returned. *)
Theorem terminal_read_truthful (c : terminal_context) (duplicate_grace now : Z) (p : parent_session)
    (requested : option cancel_reason) (turns : list terminal_turn) (duplicates : list (option cancel_reason))
    (s : incoming) (tr : terminal_read) :
  parent_inv p -> reading p -> ps_started_received p = false -> Forall is_u8 (in_bytes s) ->
  read_supervisor_terminal_with_duplicate_grace from_slice c duplicate_grace now p requested turns duplicates s = Some tr ->
  history p (tr_session tr) /\
  tr_started tr = (if ps_started_received (tr_session tr) then 1 else 0)%nat /\
  (forall t, tr_result tr = Ok t ->
     ps_terminal (tr_session tr) = Some t /\
     exists pre frames, in_bytes s = ((pre ++ frames) ≫= frame_bytes) ++ in_bytes (tr_in tr) /\
       length pre = tr_started tr /\ Forall (started_frame p) pre /\
       frames <> [] /\ Forall (terminal_frame from_slice p t) frames) /\
  (ps_state p = PCancellingBeforeStart -> tr_started tr = 0%nat /\
     forall t, tr_result tr = Ok t -> exists r, ps_cancel_reason p = Some r /\ st_outcome t = expected_outcome r).
Proof.
  intros Hi Hr Hns Hu H.
  cut (terminal_read_ok p 0 (in_bytes s) tr).
  { intros (H1 & H2 & H3); rewrite Hns in H2; simpl in H2.
    assert (forall t, tr_result tr = Ok t -> ps_terminal (tr_session tr) = Some t) as Hterm
      by (intros t E; rewrite E in H3; apply H3).
    split_and!; [done|done| |].
    - intros t E; rewrite E in H3; destruct H3 as (T & pre & frames & B1 & B2 & B3 & B4 & B5 & _).
      split; [done|]; exists pre, frames; by split_and!.
    - intros Hc; destruct (parent_settled_reachable from_slice _ _ Hi H1) as (_ & _ & S3).
      rewrite Hc in S3; destruct (S3 eq_refl) as (S4 & _ & S5); split; [by rewrite H2, S4|eauto]. }
  unfold read_supervisor_terminal_with_duplicate_grace in H.
  destruct (terminal_loop from_slice c p requested 0 turns s) as [[[t|e] p1 q n s1]|] eqn:El;
    [| |done]; apply terminal_loop_spec in El as (H1 & H2 & H3); try done; [|simplify_eq; by split_and!].
  cbn [tr_session tr_started tr_result tr_in] in *; destruct H3 as (T & pre & frames & B1 & B2 & B3 & B4 & B5 & B6).
  destruct (duplicates_loop _ _ t p1 duplicates s1) as [[[r p2] s2]|] eqn:Ed; [|done].
  pose proof (duplicates_loop_spec _ _ _ _ _ _ _ _ (history_inv _ _ Hi H1) T B6 Ed) as (D1 & D2 & D3 & D4).
  simplify_eq; unfold terminal_read_ok; simpl; rewrite D2; split_and!; [by eapply reachable_trans|done|].
  destruct r as [t'|]; [|done]; destruct D4 as (-> & more & M1 & M2 & M3); split; [done|].
  exists pre, (frames ++ more); split_and!; [|done|done|by destruct frames| |done].
  - by rewrite B1, M1, app_assoc, !bind_app, <- !app_assoc.
  - apply Forall_app; split; [done|]; eapply Forall_impl; [exact M2|]; intros g.
    apply terminal_frame_id; by apply history_id.
Qed.

(** The phases end.  Before STARTED the read returns or moves on once the bound of
    the phase has passed, after a cancellation that won before START once the
    grace has; and the wait for duplicates ends at its deadline however many
    copies the peer sends. *)
Theorem terminal_read_bounded (c : terminal_context) (p : parent_session) (requested : option cancel_reason)
    (started : nat) (t : terminal_turn) (turns : list terminal_turn) (s : incoming) (grace deadline : Z)
    (terminal : supervisor_terminal) (duplicates : list (option cancel_reason)) :
  parent_inv p -> reading p ->
  (waiting_started p = true -> Exists (stops (Limits (Some (tc_started_phase_deadline c)) false)) (in_turns s) ->
   (exists tr, terminal_loop from_slice c p requested started (t :: turns) s = Some tr) \/
   exists p' requested' s', ps_started_received p' = true /\
     terminal_loop from_slice c p requested started (t :: turns) s =
     terminal_loop from_slice c p' requested' (S started) turns s') /\
  (ps_state p = PCancellingBeforeStart -> tc_cancel_grace_deadline c = Some grace ->
   Exists (stops (Limits (Some grace) false)) (in_turns s) ->
   exists tr, terminal_loop from_slice c p requested started (t :: turns) s = Some tr) /\
  (Forall is_u8 (in_bytes s) -> (length (in_bytes s) < length duplicates)%nat ->
   Exists (stops (Limits (Some deadline) false)) (in_turns s) ->
   exists r, duplicates_loop from_slice deadline terminal p duplicates s = Some r).
Proof.
  intros Hi Hr.
  destruct (worker_cancels_history p (tt_before t)) as (_ & _ & _ & _ & W).
  destruct (W Hr) as [Wr Ws]; pose proof (worker_cancels_inv p (tt_before t) Hi) as Wi.
  destruct (worker_cancels_history (worker_cancels p (tt_before t)) (tt_during t)) as (_ & _ & _ & _ & V).
  destruct (V Wr) as [Vr Vs]; pose proof (worker_cancels_inv _ (tt_during t) Wi) as Vi.
  split_and!; [intros Hw Hs|intros Hc Hg Hs|by apply duplicates_loop_returns]; cbn [terminal_loop]; unfold terminal_deadlines.
  - rewrite (waiting_started_stays p (tt_before t) Hi Hw).
    destruct (after_first_byte_bounded ChildToParent (tc_started_phase_deadline c)
      (negb (bool_decide (ps_state (worker_cancels p (tt_before t)) = PCancellingBeforeStart)) && tc_read_cancellation c)
      (tt_frame_started t) s Hs) as ([f|e] & s1 & -> & _); [|by left; eauto].
    destruct (receive_child_frame from_slice _ f) as [[event|e] p1] eqn:Er; [|by left; eauto].
    destruct (receive_reading _ _ _ _ Vi Vr Er) as (_ & _ & R); destruct event; [done| |by left; eauto].
    right; eexists _, _, _; split; [|done]; apply R.
  - apply Ws in Hc as Hc1; rewrite (bool_decide_eq_true_2 _ Hc1), Hg.
    assert (waiting_started (worker_cancels p (tt_before t)) = false) as -> by (unfold waiting_started; by rewrite Hc1).
    destruct (after_first_byte_bounded ChildToParent grace (negb true && tc_read_cancellation c)
      (tt_frame_started t) s Hs) as ([f|e] & s1 & E & _); simpl default in *; rewrite E; [|eauto].
    destruct (receive_child_frame from_slice _ f) as [[event|e] p1] eqn:Er; [|eauto].
    destruct (receive_reading _ _ _ _ Vi Vr Er) as (_ & _ & R); destruct event; [done| |eauto].
    apply Vs in Hc1; by destruct R as (_ & _ & _ & _ & R).
Qed.
End TerminalSpec.
