(* ===== verification/Drive.v ===== *)
(** * Drive: the parent's side of a supervised session, from the listener to the
    outcome (src/subprocess.rs, [drive_supervisor_session]).

    Composes the search for the authenticated peer (Handshake), the session
    (Session), the bounded reads and writes of the main thread (Phases) and the
    control worker's life ([SupervisorControlWorker]; its loop is in
    ControlThreads).  A [drive] computation threads what the main thread can
    observe; [None] means that it is still waiting. *)
From S2P Require Import Prelude Errors Cancel Execution Token Frame Session Protocol Supervised Handshake Phases.
Open Scope Z_scope.

(** ** The control worker as its owner sees it *)

(** [SupervisorControlWorker::spawn]: the clone of the stream and the thread. *)
Definition worker_spawn (try_clone spawned : result unit io_error) : result unit libdeno_error :=
  let? _ := map_err Io try_clone in
  map_err Io spawned.

(** [SupervisorControlWorker::join]; [None] is a panic. *)
Definition worker_join (joined : option (result unit io_error)) : result unit io_error :=
  match joined with
  | Some r => r
  | None => Err (IoError OtherKind "supervisor control worker panicked")
  end.

(** Not started; running; joined after the stop signal; joined without it. *)
Inductive worker_status := NoWorker | WorkerRunning | WorkerStopped | WorkerFinished.

(** ** What the main thread has done so far *)
Record drive_state := DriveState {
  dv_session : parent_session;
  dv_requested : option cancel_reason;
  dv_sent : list Z;                    (** bytes written to the peer *)
  dv_in : incoming;                    (** what the peer still has to say *)
  dv_started : nat;                    (** calls of [on_started] *)
  dv_worker : worker_status
}.

(** Fallible code over what a thread can observe; [None] while it waits. *)
Definition threaded (S A : Type) : Type := S -> option (result A libdeno_error * S).

Definition dret {S A} (r : result A libdeno_error) : threaded S A := fun st => Some (r, st).
Definition dbind {S A B} (m : threaded S A) (k : A -> threaded S B) : threaded S B := fun st =>
  match m st with
  | None => None
  | Some (Err e, st) => Some (Err e, st)
  | Some (Ok a, st) => k a st
  end.
Notation "'let*' x := m 'in' k" := (dbind m (fun x => k))
  (at level 10, x name, m at level 100, k at level 200) : rust_scope.

Definition drive (A : Type) : Type := threaded drive_state A.

(** An operation on the locked session. *)
Definition on_session {A} (op : parent_session -> result A io_error * parent_session) : drive A := fun st =>
  let '(r, p) := op (dv_session st) in
  Some (map_err Io r, DriveState p (dv_requested st) (dv_sent st) (dv_in st) (dv_started st) (dv_worker st)).

Definition set_requested (requested : option cancel_reason) (st : drive_state) : drive_state :=
  DriveState (dv_session st) requested (dv_sent st) (dv_in st) (dv_started st) (dv_worker st).
Definition set_worker_status (w : worker_status) (st : drive_state) : drive_state :=
  DriveState (dv_session st) (dv_requested st) (dv_sent st) (dv_in st) (dv_started st) w.

(** What the clock, the socket and the other threads answer, in the order asked. *)
Record drive_script := DriveScript {
  sc_connect_now : Z;
  sc_search : list search_turn;
  sc_request : phase_clock * write_script;
  sc_accepted : phase_clock;
  sc_due : option cancel_reason * Z;         (** a request that arrived, and the clock *)
  sc_authorize : option cancel_reason;       (** a request that arrived *)
  sc_started_from : Z;
  sc_start : phase_clock * write_script;
  sc_worker : result unit io_error * result unit io_error;
  sc_cancel : Z * Z * write_script;
  sc_terminal_now : Z;
  sc_terminal : list terminal_turn;
  sc_duplicates : list (option cancel_reason);
  sc_after : option cancel_reason;           (** a request that arrived *)
  sc_join : option (result unit io_error)    (** how the worker's thread ended *)
}.

Section Drive.
Context (from_raw_os_error : Z -> io_error).
Context (terminal_from_slice : list Z -> result supervisor_terminal string)
        (reason_to_vec : cancel_reason -> result (list Z) string).
Context (request_payload : list Z) (token : supervisor_token).
(** The deadline of the run and the reason a cancellation has by default. *)
Context (deadline : option Z) (default_reason : cancel_reason).

Definition drive_write (f : supervisor_frame) (k : phase_clock) (w : write_script) : drive unit := fun st =>
  match write_supervisor_frame from_raw_os_error f deadline (dv_requested st) k w with
  | None => None
  | Some (wr, requested) =>
      Some (map_err Io (wr_result wr),
            DriveState (dv_session st) requested (dv_sent st ++ wr_sent wr) (dv_in st) (dv_started st) (dv_worker st))
  end.

Definition drive_read (k : phase_clock) : drive supervisor_frame := fun st =>
  match read_supervisor_handshake_frame deadline (dv_requested st) k (dv_in st) with
  | None => None
  | Some (r, requested, s) =>
      Some (map_err Io r, DriveState (dv_session st) requested (dv_sent st) s (dv_started st) (dv_worker st))
  end.

(** [cancellation_reason_if_due], for its effect, and [authorize_start]. *)
Definition drive_due (arrived : option cancel_reason) (now : Z) : drive unit := fun st =>
  Some (Ok (), set_requested (cancellation_reason_if_due (arrive (dv_requested st) arrived) deadline now) st).
Definition drive_authorize (arrived : option cancel_reason) : drive bool := fun st =>
  let st := set_requested (arrive (dv_requested st) arrived) st in
  on_session (fun p => authorize_start p (dv_requested st)) st.

(** START and the worker. *)
Definition drive_start (sc : drive_script) : drive (option Z) :=
  let* start := dret (map_err Io (frame_new KStart SUPERVISOR_REQUEST_ID [])) in
  let* _ := drive_write start (sc_start sc).1 (sc_start sc).2 in
  let* _ := dret (worker_spawn (sc_worker sc).1 (sc_worker sc).2) in
  fun st => Some (Ok None, set_worker_status WorkerRunning st).

(** CANCEL instead of START; the grace it leaves. *)
Definition drive_cancel (sc : drive_script) : drive (option Z) := fun st =>
  let '(from, now, w) := sc_cancel sc in
  match send_supervisor_cancel from_raw_os_error reason_to_vec (dv_session st)
          (default default_reason (dv_requested st)) from now w with
  | None => None
  | Some (r, p, sent) =>
      Some (map_err Io (let? grace := r in Ok (Some grace)),
            DriveState p (dv_requested st) (dv_sent st ++ sent) (dv_in st) (dv_started st) (dv_worker st))
  end.

(** [read_supervisor_terminal], with its effects kept also when it fails. *)
Definition drive_terminal (sc : drive_script) (authorized : bool) (grace : option Z)
  : drive (result supervisor_terminal io_error) := fun st =>
  let c := TerminalContext deadline (phase_frame_deadline (sc_started_from sc) None) grace (negb authorized) in
  match read_supervisor_terminal terminal_from_slice c (sc_terminal_now sc) (dv_session st) (dv_requested st)
          (sc_terminal sc) (sc_duplicates sc) (dv_in st) with
  | None => None
  | Some tr =>
      Some (Ok (tr_result tr),
            DriveState (tr_session tr) (tr_requested tr) (dv_sent st) (tr_in tr)
              (dv_started st + tr_started tr) (dv_worker st))
  end.

(** The end of the session: the worker is stopped and joined, or left to finish
    its grace when a cancellation is under way, and joined. *)
Definition drive_end (sc : drive_script) (terminal : result supervisor_terminal io_error)
  : drive session_outcome := fun st =>
  let st := set_requested (arrive (dv_requested st) (sc_after sc)) st in
  let outcome t status :=
    Ok (SessionOutcome t (cancellation_before_terminal (dv_session st)) status) in
  match terminal, dv_worker st with
  | Ok t, WorkerRunning =>
      Some (outcome t (if is_ok (worker_join (sc_join sc)) then TransportClean else TransportFailed),
            set_worker_status WorkerStopped st)
  | Ok t, _ => Some (outcome t TransportClean, st)
  | Err e, WorkerRunning =>
      Some (Err (Io e),
            set_worker_status (if bool_decide (dv_requested st <> None) then WorkerFinished else WorkerStopped) st)
  | Err e, _ => Some (Err (Io e), st)
  end.

(** From the authenticated peer to its answer to REQUEST. *)
Definition drive_handshake (sc : drive_script) (hello : supervisor_frame) : drive frame_event :=
  let* _ := on_session (fun p => accept_hello p hello token) in
  let* request := dret (map_err Io (frame_new KRequest SUPERVISOR_REQUEST_ID request_payload)) in
  let* _ := on_session send_request in
  let* _ := drive_write request (sc_request sc).1 (sc_request sc).2 in
  let* accepted := drive_read (sc_accepted sc) in
  on_session (fun p => receive_child_frame terminal_from_slice p accepted).

(** From ACCEPTED on. *)
Definition drive_run (sc : drive_script) : drive session_outcome :=
  let* _ := drive_due (sc_due sc).1 (sc_due sc).2 in
  let* authorized := drive_authorize (sc_authorize sc) in
  let* grace := (if authorized then drive_start sc else drive_cancel sc) in
  let* terminal := drive_terminal sc authorized grace in
  drive_end sc terminal.

Definition drive_peer (sc : drive_script) (hello : supervisor_frame) : drive session_outcome :=
  let* event := drive_handshake sc hello in
  match event with
  | EvAccepted => drive_run sc
  | _ => dret (Err (supervisor_error "supervisor child did not accept REQUEST"))
  end.

Definition drive_supervisor_session (sc : drive_script)
  : option (result session_outcome libdeno_error * drive_state) :=
  let at_peer requested stream := DriveState (parent_new SUPERVISOR_REQUEST_ID) requested [] stream 0 NoWorker in
  match search_peer token (sc_connect_now sc) deadline (sc_search sc) with
  | None => None
  | Some (Err e, requested) => Some (Err e, at_peer requested (Incoming [] []))
  | Some (Ok (stream, hello), requested) => drive_peer sc hello (at_peer requested stream)
  end.
End Drive.

(** ** Stepping through a drive *)
Lemma dbind_inv {S A B} (m : threaded S A) (k : A -> threaded S B) (st st' : S) (r : result B libdeno_error) :
  dbind m k st = Some (r, st') ->
  (exists a st1, m st = Some (Ok a, st1) /\ k a st1 = Some (r, st')) \/
  (exists e, m st = Some (Err e, st') /\ r = Err e).
Proof. unfold dbind; destruct (m st) as [[[a|e] st1]|]; naive_solver. Qed.

Section DriveSpec.
Context (raw : Z -> io_error).
Context (from_slice : list Z -> result supervisor_terminal string)
        (reason_to_vec : cancel_reason -> result (list Z) string).
Context (request_payload : list Z) (token : supervisor_token).
Context (deadline : option Z) (default_reason : cancel_reason).
Local Notation history := (reachable (parent_step from_slice)).
Local Notation run := (drive_supervisor_session raw from_slice reason_to_vec request_payload token deadline default_reason).

Definition request_frame : supervisor_frame := SupervisorFrame KRequest SUPERVISOR_REQUEST_ID request_payload.
Definition start_frame : supervisor_frame := SupervisorFrame KStart SUPERVISOR_REQUEST_ID [].

Lemma session_history (p : parent_session) (op : parent_op) : history p (parent_apply from_slice p op).2.
Proof.
  destruct (parent_apply from_slice p op) as [[] q] eqn:E; simpl.
  - eapply reach_step; [constructor|by exists op].
  - apply parent_refusal_unchanged in E as ->; constructor.
Qed.

(** Writing extends what was sent by a prefix of the frame. *)
Lemma drive_write_spec (f : supervisor_frame) (k : phase_clock) (w : write_script) (st st' : drive_state)
    (r : result unit libdeno_error) :
  drive_write raw deadline f k w st = Some (r, st') ->
  dv_session st' = dv_session st /\ dv_in st' = dv_in st /\ dv_started st' = dv_started st /\
  dv_worker st' = dv_worker st /\
  (exists sent rest, dv_sent st' = dv_sent st ++ sent /\ frame_bytes f = sent ++ rest /\ (is_ok r = true -> rest = [])).
Proof.
  unfold drive_write, write_supervisor_frame; destruct (write_frame_until _ _ _ _ _ _) as [wr|] eqn:E; [|done].
  apply write_frame_sound in E as [(rest & E1 & E2) _]; intros H; simplify_eq/=; split_and!; try done.
  exists (wr_sent wr), rest; split_and!; [done|done|]; by destruct (wr_result wr).
Qed.

Lemma drive_read_spec (k : phase_clock) (st st' : drive_state) (r : result supervisor_frame libdeno_error) :
  drive_read deadline k st = Some (r, st') ->
  dv_session st' = dv_session st /\ dv_sent st' = dv_sent st /\ dv_started st' = dv_started st /\
  dv_worker st' = dv_worker st /\
  (forall f, r = Ok f -> Forall is_u8 (in_bytes (dv_in st)) ->
     in_bytes (dv_in st) = frame_bytes f ++ in_bytes (dv_in st') /\ Forall is_u8 (in_bytes (dv_in st'))).
Proof.
  unfold drive_read, read_supervisor_handshake_frame.
  destruct (read_frame_with_deadline _ _ _) as [[r1 s]|] eqn:E; [|done]; intros H; simplify_eq/=.
  split_and!; try done; intros f Hr Hu; apply map_err_ok in Hr as ->.
  apply read_frame_sound in E as [E _]; [|done]; split; [done|]; rewrite E in Hu; by apply Forall_app_r in Hu.
Qed.

(** The peer: authenticated, from this machine, and [stream] is what it sends
    after its HELLO. *)
Definition authenticated_peer (sc : drive_script) (stream : incoming) : Prop :=
  exists t peer l, t ∈ sc_search sc /\ AcceptTurn None (AcceptedPeer true (Ok ()) peer) ∈ se_accepts t /\
    read_frame_with_deadline ChildToParent l peer = Some (Ok (SupervisorFrame KHello 0 token), stream).

Lemma find_peer_authenticated (limit : Z) (turns : list search_turn) (stream : incoming) (hello : supervisor_frame)
    (c : option cancel_reason) :
  find_peer token limit deadline None turns = Some (Ok (stream, hello), c) ->
  c = None /\ hello = SupervisorFrame KHello 0 token /\
  exists t peer l, t ∈ turns /\ AcceptTurn None (AcceptedPeer true (Ok ()) peer) ∈ se_accepts t /\
    read_frame_with_deadline ChildToParent l peer = Some (Ok hello, stream).
Proof.
  induction turns as [|t turns IH]; [done|]; cbn [find_peer]; intros H.
  assert (find_peer token limit deadline None turns = Some (Ok (stream, hello), c) ->
    c = None /\ hello = SupervisorFrame KHello 0 token /\
    exists t0 peer l, t0 ∈ t :: turns /\ AcceptTurn None (AcceptedPeer true (Ok ()) peer) ∈ se_accepts t0 /\
      read_frame_with_deadline ChildToParent l peer = Some (Ok hello, stream)) as Hrest.
  { intros (-> & -> & t0 & peer & l & Ht & Hp)%IH; split_and!; try done.
    exists t0, peer, l; split; [by apply elem_of_cons; right|done]. }
  destruct (se_request t); [by simpl in H|]; simpl in H; destruct (Z.leb limit (se_now t)); [done|].
  destruct (accept_supervisor_peer _ _ _ _ _) as [[[s|e] q]|] eqn:Ea; [|done|done].
  apply (accept_supervisor_peer_spec limit deadline t) in Ea as [-> Ha].
  destruct (read_hello limit (se_candidate t) s) as [[[f|e] s']|] eqn:Er; [|by apply Hrest|done].
  destruct (is_hello token f) eqn:Eh; [|by apply Hrest]; apply is_hello_spec in Eh as ->; simplify_eq.
  split_and!; try done; exists t, s; eexists; split_and!; [by apply elem_of_cons; left|done|exact Er].
Qed.

Lemma on_session_spec {A} (op : parent_op) (f : parent_session -> result A io_error * parent_session)
    (st st' : drive_state) (r : result A libdeno_error) :
  (forall p, (f p).2 = (parent_apply from_slice p op).2) ->
  on_session f st = Some (r, st') ->
  history (dv_session st) (dv_session st') /\ r = map_err Io (f (dv_session st)).1 /\
  dv_session st' = (f (dv_session st)).2 /\
  dv_requested st' = dv_requested st /\ dv_sent st' = dv_sent st /\ dv_in st' = dv_in st /\
  dv_started st' = dv_started st /\ dv_worker st' = dv_worker st.
Proof.
  unfold on_session; intros Hop; specialize (Hop (dv_session st)).
  destruct (f (dv_session st)) as [r1 p]; simpl in *; intros H; simplify_eq/=; split_and!; try done.
  apply session_history.
Qed.

Lemma apply_second {A} (x : result A io_error * parent_session) :
  x.2 = (let '(r, p) := x in (is_ok r, p)).2.
Proof. by destruct x. Qed.

Definition accepted_frame : supervisor_frame := SupervisorFrame KAccepted SUPERVISOR_REQUEST_ID [].
Definition accepted_session : parent_session :=
  ParentSession SUPERVISOR_REQUEST_ID PAccepted true false false None None.

(** What the handshake leaves; [stream] is what the peer sends after its HELLO. *)
Definition handshake_ok (stream : incoming) (r : result frame_event libdeno_error) (st : drive_state) : Prop :=
  dv_started st = 0%nat /\ dv_worker st = NoWorker /\
  history (parent_new SUPERVISOR_REQUEST_ID) (dv_session st) /\ ps_started_received (dv_session st) = false /\
  (exists rest, frame_bytes request_frame = dv_sent st ++ rest) /\
  (r = Ok EvAccepted ->
   Z.of_nat (length request_payload) <= MAX_SUPERVISOR_FRAME_PAYLOAD /\
   dv_sent st = frame_bytes request_frame /\ dv_session st = accepted_session /\
   (Forall is_u8 (in_bytes stream) ->
    in_bytes stream = frame_bytes accepted_frame ++ in_bytes (dv_in st) /\ Forall is_u8 (in_bytes (dv_in st)))).

Lemma received_in_handshake (p p' : parent_session) (f : supervisor_frame) (r : result frame_event io_error) :
  p = ParentSession SUPERVISOR_REQUEST_ID PAwaitAccepted true false false None None ->
  receive_child_frame from_slice p f = (r, p') ->
  ps_started_received p' = false /\ (r = Ok EvAccepted -> p' = accepted_session /\ f = accepted_frame).
Proof.
  intros -> H; unfold receive_child_frame in H; destruct f as [k id payload]; cbn [f_request_id f_kind f_payload ps_request_id] in H.
  destruct (Z.eqb_spec id SUPERVISOR_REQUEST_ID) as [->|Hid]; cbn [negb andb] in H.
  - destruct k; try (destruct payload; by simplify_eq/=).
    destruct (receive_terminal_cases from_slice
      (ParentSession SUPERVISOR_REQUEST_ID PAwaitAccepted true false false None None)
      (SupervisorFrame KTerminal SUPERVISOR_REQUEST_ID payload))
      as [(e & E)|[(t & Ht & E)|(t & Ht & E & _ & _ & Hs)]]; rewrite E in H; simplify_eq/=; try done.
  - destruct k; simpl in H; try by simplify_eq.
    destruct (negb _) in H; [by simplify_eq|]; destruct payload; by simplify_eq/=.
Qed.

Lemma drive_handshake_spec (sc : drive_script) (stream : incoming) (requested : option cancel_reason)
    (st : drive_state) (r : result frame_event libdeno_error) :
  drive_handshake raw from_slice request_payload token deadline sc (SupervisorFrame KHello 0 token)
    (DriveState (parent_new SUPERVISOR_REQUEST_ID) requested [] stream 0 NoWorker) = Some (r, st) ->
  handshake_ok stream r st.
Proof.
  assert (authenticate token token = true) as Hauth
    by (unfold authenticate; by rewrite (proj2 (comparison_zero token token) eq_refl)).
  unfold drive_handshake; intros H.
  apply dbind_inv in H as [(a & st1 & H1 & H)|(e & H1 & ->)];
    (eapply (on_session_spec (OpHello (SupervisorFrame KHello 0 token) token)) in H1 as (Hh1 & Hr1 & Hs1 & Hq1 & Hw1 & Hi1 & Hn1 & Hk1);
     [|intros p; apply apply_second]; unfold accept_hello in Hr1, Hs1; simpl in Hr1, Hs1; rewrite Hauth in Hr1, Hs1; simpl in Hr1, Hs1);
    [|done].
  unfold frame_new in H; case_decide as Hlen; simpl in H.
  { apply dbind_inv in H as [(? & ? & ? & _)|(e & H2 & ->)]; [done|]; unfold dret in H2; simplify_eq.
    unfold handshake_ok; rewrite Hs1, Hw1, Hn1, Hk1 in *; simpl; split_and!; try done; eauto. }
  apply dbind_inv in H as [(f & st2 & H2 & H)|(e & H2 & _)]; unfold dret in H2; simplify_eq; fold request_frame in H.
  apply dbind_inv in H as [(b & st3 & H3 & H)|(e & H3 & ->)];
    (eapply (on_session_spec OpRequest) in H3 as (Hh3 & Hr3 & Hs3 & Hq3 & Hw3 & Hi3 & Hn3 & Hk3);
     [|intros p; apply apply_second]; rewrite Hs1 in Hr3, Hs3; simpl in Hr3, Hs3); [|done].
  assert (history (parent_new SUPERVISOR_REQUEST_ID) (dv_session st3)) as Hh by (by eapply reachable_trans).
  rewrite Hn1 in Hn3; rewrite Hk1 in Hk3; rewrite Hw1 in Hw3; rewrite Hi1 in Hi3; simpl in Hn3, Hk3, Hw3, Hi3.
  apply dbind_inv in H as [(c & st4 & H4 & H)|(e & H4 & ->)];
    apply drive_write_spec in H4 as (Hs4 & Hi4 & Hn4 & Hk4 & sent & rest & Hw4 & Hb4 & Hok4);
    rewrite Hw3 in Hw4; simpl in Hw4.
  2: { unfold handshake_ok; rewrite Hs4, Hw4, Hn4, Hk4, Hs3 in *; split_and!; try done; eauto. }
  rewrite (Hok4 eq_refl), app_nil_r in Hb4; rewrite <- Hb4 in Hw4; clear Hok4 Hb4 rest sent.
  apply dbind_inv in H as [(d & st5 & H5 & H)|(e & H5 & ->)];
    apply drive_read_spec in H5 as (Hs5 & Hw5 & Hn5 & Hk5 & Hr5); rewrite Hi4, Hi3 in Hr5.
  2: { unfold handshake_ok; rewrite Hs5, Hs4, Hw5, Hw4, Hn5, Hn4, Hk5, Hk4, Hs3 in *; split_and!; try done.
       by exists []; rewrite app_nil_r. }
  apply (on_session_spec (OpReceive d)) in H as (Hh6 & Hr6 & Hs6 & Hq6 & Hw6 & Hi6 & Hn6 & Hk6); [|intros p; apply apply_second].
  rewrite Hs5, Hs4 in Hh6, Hr6, Hs6.
  destruct (receive_child_frame from_slice (dv_session st3) d) as [r6 p6] eqn:E6; simpl in Hr6, Hs6.
  destruct (received_in_handshake _ _ _ _ Hs3 E6) as [R1 R2].
  unfold handshake_ok; rewrite Hn6, Hk6, Hw6, Hs6, Hw5, Hw4, Hn5, Hk5, Hn4, Hk4; split_and!; try done.
  - rewrite <- Hs6; by eapply reachable_trans.
  - by exists []; rewrite app_nil_r.
  - intros ->; symmetry in Hr6; apply map_err_ok in Hr6; split_and!; [lia|done|by apply R2|].
    intros Hu; destruct (R2 Hr6) as [_ Hd]; rewrite Hd in Hr5; rewrite Hi6; by apply Hr5.
Qed.

(** What the run leaves: [next] is what follows REQUEST on the wire. *)
Definition run_ok (sc : drive_script) (stream : incoming) (r : result session_outcome libdeno_error)
    (st : drive_state) : Prop :=
  history accepted_session (dv_session st) /\ dv_worker st <> WorkerRunning /\
  dv_started st = (if ps_started_received (dv_session st) then 1 else 0)%nat /\
  (exists next rest, frame_bytes request_frame ++ next = dv_sent st ++ rest /\
     (next = frame_bytes start_frame \/
      dv_started st = 0%nat /\ dv_worker st = NoWorker /\
      exists reason, (next = [] \/ exists f, cancel_frame reason_to_vec reason = Ok f /\ next = frame_bytes f) /\
        forall o, r = Ok o -> st_outcome (so_terminal o) = expected_outcome reason) /\
     (is_ok r = true -> rest = [])) /\
  forall o, r = Ok o ->
    ps_terminal (dv_session st) = Some (so_terminal o) /\
    so_cancellation_before_terminal o = ps_cancel_reason (dv_session st) /\
    (so_transport o = TransportFailed <->
       dv_worker st = WorkerStopped /\ is_ok (worker_join (sc_join sc)) = false) /\
    exists pre frames, in_bytes stream = ((pre ++ frames) ≫= frame_bytes) ++ in_bytes (dv_in st) /\
      length pre = dv_started st /\ frames <> [] /\
      Forall (started_frame accepted_session) pre /\
      Forall (terminal_frame from_slice accepted_session (so_terminal o)) frames.

(** The end keeps what the terminal read established. *)
Lemma drive_end_spec (sc : drive_script) (terminal : result supervisor_terminal io_error) (st st' : drive_state)
    (r : result session_outcome libdeno_error) :
  drive_end sc terminal st = Some (r, st') ->
  dv_session st' = dv_session st /\ dv_sent st' = dv_sent st /\ dv_in st' = dv_in st /\ dv_started st' = dv_started st /\
  dv_worker st' <> WorkerRunning /\ (dv_worker st = NoWorker -> dv_worker st' = NoWorker) /\
  is_ok r = is_ok terminal /\
  forall o, r = Ok o ->
    terminal = Ok (so_terminal o) /\
    so_cancellation_before_terminal o = cancellation_before_terminal (dv_session st) /\
    (dv_worker st = NoWorker \/ dv_worker st = WorkerRunning ->
     so_transport o = TransportFailed <-> dv_worker st' = WorkerStopped /\ is_ok (worker_join (sc_join sc)) = false).
Proof.
  unfold drive_end; intros H; cbn [dv_worker set_requested] in H.
  destruct terminal as [t|e], (dv_worker st) eqn:Ew; simplify_eq/=;
    rewrite ?Ew; split_and!; try done; try (intros o Ho; simplify_eq/=; split_and!; try done; rewrite ?Ew).
  all: try (intros [?|?]; done); try (case_bool_decide; done).
  - intros _; split; [done|]; intros [? _]; congruence.
  - intros _; destruct (is_ok (worker_join (sc_join sc))); split; [done|by intros [_ ?]|done|done].
Qed.

(** The read of the terminal, from where START was sent or a cancellation won. *)
Lemma drive_terminal_spec (sc : drive_script) (authorized : bool) (grace : option Z) (st st' : drive_state)
    (r : result (result supervisor_terminal io_error) libdeno_error) :
  parent_inv (dv_session st) -> reading (dv_session st) -> ps_started_received (dv_session st) = false ->
  Forall is_u8 (in_bytes (dv_in st)) -> dv_started st = 0%nat ->
  drive_terminal from_slice deadline sc authorized grace st = Some (r, st') ->
  exists terminal, r = Ok terminal /\
  dv_sent st' = dv_sent st /\ dv_worker st' = dv_worker st /\
  history (dv_session st) (dv_session st') /\
  dv_started st' = (if ps_started_received (dv_session st') then 1 else 0)%nat /\
  (forall t, terminal = Ok t ->
     ps_terminal (dv_session st') = Some t /\
     exists pre frames, in_bytes (dv_in st) = ((pre ++ frames) ≫= frame_bytes) ++ in_bytes (dv_in st') /\
       length pre = dv_started st' /\ Forall (started_frame (dv_session st)) pre /\
       frames <> [] /\ Forall (terminal_frame from_slice (dv_session st) t) frames) /\
  (ps_state (dv_session st) = PCancellingBeforeStart -> dv_started st' = 0%nat /\
     forall t, terminal = Ok t ->
       exists r, ps_cancel_reason (dv_session st) = Some r /\ st_outcome t = expected_outcome r).
Proof.
  intros Hi Hr Hn Hu Hz; unfold drive_terminal, read_supervisor_terminal.
  destruct (read_supervisor_terminal_with_duplicate_grace _ _ _ _ _ _ _ _ _) as [tr|] eqn:E; [|done].
  intros H; simplify_eq/=; exists (tr_result tr); rewrite Hz; simpl.
  apply (terminal_read_truthful from_slice) in E as (H1 & H2 & H3 & H4); try done.
Qed.

Lemma session_id (p : parent_session) :
  history accepted_session p -> ps_request_id p = ps_request_id accepted_session.
Proof.
  intros H; apply (history_id from_slice accepted_session p); [|exact H].
  unfold parent_inv, accepted_session; simpl; split_and!; naive_solver.
Qed.

Lemma accepted_inv : parent_inv accepted_session.
Proof. unfold parent_inv, accepted_session; simpl; split_and!; naive_solver. Qed.

(** From a session in which the terminal may be read to the outcome. *)
Lemma drive_rest_spec (sc : drive_script) (authorized : bool) (grace : option Z) (st st' : drive_state)
    (r : result session_outcome libdeno_error) (next : list Z) :
  history accepted_session (dv_session st) -> reading (dv_session st) ->
  ps_started_received (dv_session st) = false -> Forall is_u8 (in_bytes (dv_in st)) -> dv_started st = 0%nat ->
  dv_sent st = frame_bytes request_frame ++ next ->
  (next = frame_bytes start_frame /\ dv_worker st = WorkerRunning \/
   ps_state (dv_session st) = PCancellingBeforeStart /\ dv_worker st = NoWorker /\
   exists reason, ps_cancel_reason (dv_session st) = Some reason /\
     (next = [] \/ exists f, cancel_frame reason_to_vec reason = Ok f /\ next = frame_bytes f)) ->
  (let* terminal := drive_terminal from_slice deadline sc authorized grace in drive_end sc terminal) st = Some (r, st') ->
  run_ok sc (dv_in st) r st'.
Proof.
  intros Hh Hr Hn Hu Hz Hsent Hnext H; pose proof (history_inv from_slice _ _ accepted_inv Hh) as Hi.
  apply dbind_inv in H as [(terminal & st1 & H1 & H)|(e & H1 & _)];
    apply drive_terminal_spec in H1 as (term & Et & T1 & T2 & T3 & T4 & T5 & T6); try done; simplify_eq.
  apply drive_end_spec in H as (E1 & E2 & E3 & E4 & E5 & E6 & E7 & E8).
  assert (forall o, r = Ok o -> term = Ok (so_terminal o)) as Hterm by (intros o Ho; apply E8, Ho).
  unfold run_ok; rewrite E1, E2, E3, E4; split_and!; try done.
  - by eapply reachable_trans.
  - exists next, []; split_and!; [by rewrite T1, Hsent, app_nil_r| |done].
    destruct Hnext as [[-> _]|(Hc & Hw & reason & Hcr & Hne)]; [by left|right].
    destruct (T6 Hc) as [Z1 Z2]; split_and!; [done|apply E6; congruence|].
    exists reason; split; [done|]; intros o Ho; destruct (Z2 _ (Hterm o Ho)) as (q & ? & ?); congruence.
  - intros o Ho; destruct (E8 o Ho) as (_ & Oc & Ot); destruct (T5 _ (Hterm o Ho)) as (P1 & pre & frames & P2 & P3 & P4 & P5 & P6).
    split_and!; [done| | |exists pre, frames; split_and!; try done].
    + rewrite Oc; unfold cancellation_before_terminal; by rewrite P1.
    + apply Ot; rewrite T2; destruct Hnext as [[_ ?]|(_ & ? & _)]; auto.
    + eapply Forall_impl; [exact P4|]; intros f; unfold started_frame; by rewrite (session_id _ Hh).
    + eapply Forall_impl; [exact P6|]; intros f; unfold terminal_frame; by rewrite (session_id _ Hh).
Qed.

(** The session in which START was authorized. *)
Definition authorized_session : parent_session :=
  ParentSession SUPERVISOR_REQUEST_ID PAwaitStarted true false false None None.
(** A cancellation won, before and after CANCEL was recorded as sent. *)
Definition refused_session (sent : bool) (reason : cancel_reason) : parent_session :=
  ParentSession SUPERVISOR_REQUEST_ID PCancellingBeforeStart true sent false (Some reason) None.

(** A run that ends before its terminal is read. *)
Lemma run_ok_early (sc : drive_script) (stream : incoming) (e : libdeno_error) (st : drive_state) (next rest : list Z) :
  history accepted_session (dv_session st) -> dv_worker st = NoWorker -> dv_started st = 0%nat ->
  ps_started_received (dv_session st) = false ->
  frame_bytes request_frame ++ next = dv_sent st ++ rest ->
  (next = frame_bytes start_frame \/
   exists reason, next = [] \/ exists f, cancel_frame reason_to_vec reason = Ok f /\ next = frame_bytes f) ->
  run_ok sc stream (Err e) st.
Proof.
  intros Hh Hw Hz Hn Hs Hnext; unfold run_ok; rewrite Hw, Hz, Hn; split_and!; try done.
  exists next, rest; split_and!; [done| |done]; destruct Hnext as [->|(reason & Hne)]; [by left|right].
  split_and!; [done|done|exists reason]; by split.
Qed.

Lemma drive_start_spec (sc : drive_script) (st st' : drive_state) (r : result (option Z) libdeno_error) :
  dv_worker st = NoWorker -> drive_start raw deadline sc st = Some (r, st') ->
  dv_session st' = dv_session st /\ dv_in st' = dv_in st /\ dv_started st' = dv_started st /\
  (exists sent rest, dv_sent st' = dv_sent st ++ sent /\ frame_bytes start_frame = sent ++ rest /\
     (is_ok r = true -> rest = [])) /\
  dv_worker st' = (if is_ok r then WorkerRunning else NoWorker).
Proof.
  intros Hw H; unfold drive_start in H.
  apply dbind_inv in H as [(f & st1 & H1 & H)|(e & H1 & _)]; unfold dret in H1; simplify_eq/=; fold start_frame in H.
  apply dbind_inv in H as [(a & st2 & H2 & H)|(e & H2 & ->)];
    apply drive_write_spec in H2 as (W1 & W2 & W3 & W4 & sent & rest & W5 & W6 & W7).
  - rewrite (W7 eq_refl) in W6.
    apply dbind_inv in H as [(b & st3 & H3 & H)|(e & H3 & ->)]; unfold dret in H3; simplify_eq/=.
    + split_and!; try done; by exists sent, [].
    + split_and!; try done; [by exists sent, []|congruence].
  - split_and!; try done; [by exists sent, rest|simpl; congruence].
Qed.

Lemma drive_cancel_spec (sc : drive_script) (reason : cancel_reason) (st st' : drive_state)
    (r : result (option Z) libdeno_error) :
  dv_session st = refused_session false reason -> dv_requested st = Some reason ->
  drive_cancel raw reason_to_vec default_reason sc st = Some (r, st') ->
  dv_session st' = refused_session true reason /\ dv_in st' = dv_in st /\ dv_started st' = dv_started st /\
  dv_worker st' = dv_worker st /\
  exists next sent rest, dv_sent st' = dv_sent st ++ sent /\ next = sent ++ rest /\ (is_ok r = true -> rest = []) /\
    (next = [] \/ exists f, cancel_frame reason_to_vec reason = Ok f /\ next = frame_bytes f).
Proof.
  intros Hs Hq H; unfold drive_cancel in H; destruct (sc_cancel sc) as [[from now] w].
  assert (send_cancel (refused_session false reason) reason = (Ok true, refused_session true reason)) as Es
    by (by destruct reason).
  rewrite Hs, Hq in H; unfold send_supervisor_cancel in H; cbn [default from_option id] in H; rewrite Es in H.
  destruct (cancel_frame reason_to_vec reason) as [f|e] eqn:Ef; cbv beta iota in H.
  - unfold write_cancel in H; destruct (write_frame_until _ _ _ _ _ _) as [wr|] eqn:Ew; [|done].
    apply write_frame_sound in Ew as [(rest & E1 & E2) _]; simplify_eq/=; split_and!; try done.
    exists (frame_bytes f), (wr_sent wr), rest; split_and!; try done; [|by right; eauto].
    by destruct (wr_result wr).
  - simplify_eq/=; split_and!; try done; exists [], [], []; split_and!; try done; by left.
Qed.

Lemma drive_run_spec (sc : drive_script) (st st' : drive_state) (r : result session_outcome libdeno_error) :
  dv_session st = accepted_session -> dv_sent st = frame_bytes request_frame -> dv_started st = 0%nat ->
  dv_worker st = NoWorker -> Forall is_u8 (in_bytes (dv_in st)) ->
  drive_run raw from_slice reason_to_vec deadline default_reason sc st = Some (r, st') ->
  run_ok sc (dv_in st) r st'.
Proof.
  intros Hs Hw Hz Hk Hu H; unfold drive_run in H.
  apply dbind_inv in H as [(a & st1 & H1 & H)|(e & H1 & _)]; unfold drive_due in H1; simplify_eq/=.
  apply dbind_inv in H as [(authorized & st2 & H2 & H)|(e & H2 & _)];
    unfold drive_authorize, on_session in H2; cbn [dv_session set_requested dv_requested] in H2; rewrite Hs in H2;
    destruct (arrive _ (sc_authorize sc)) as [reason|] eqn:Eq; cbn [authorize_start accepted_session] in H2;
    cbv [map_err authorize_start accepted_session ps_state negb] in H2; simpl in H2; simplify_eq/=.
  - assert (history accepted_session (refused_session false reason)) as Hh1
      by (eapply reach_step; [constructor|by exists (OpAuthorize (Some reason))]).
    assert (history accepted_session (refused_session true reason)) as Hh
      by (eapply reach_step; [exact Hh1|exists (OpCancel reason); by destruct reason]).
    apply dbind_inv in H as [(grace & st3 & H3 & H)|(e & H3 & ->)];
      apply (drive_cancel_spec _ reason) in H3 as (C1 & C2 & C3 & C4 & next & sent & rest & C5 & C6 & C7 & C8); try done;
      cbn [dv_sent dv_in dv_started dv_worker set_requested] in *.
    + rewrite (C7 eq_refl), app_nil_r in C6; subst sent; rewrite <- C2.
      eapply (drive_rest_spec sc _ _ st3 _ r next); try done; rewrite ?C1, ?C2, ?C3; try done; [congruence|].
      right; split_and!; [done|congruence|by exists reason].
    + eapply run_ok_early; rewrite ?C1, ?C3; try done; [congruence| |right; eauto].
      by rewrite C5, Hw, C6, <- app_assoc.
  - assert (history accepted_session authorized_session) as Hh
      by (eapply reach_step; [constructor|by exists (OpAuthorize None)]).
    apply dbind_inv in H as [(grace & st3 & H3 & H)|(e & H3 & ->)];
      apply drive_start_spec in H3 as (C1 & C2 & C3 & (sent & rest & C5 & C6 & C7) & C8); try done;
      cbn [dv_session dv_sent dv_in dv_started dv_worker set_requested] in *.
    + rewrite (C7 eq_refl), app_nil_r in C6; subst sent; rewrite <- C2.
      eapply (drive_rest_spec sc _ _ st3 _ r (frame_bytes start_frame)); try done;
        rewrite ?C1, ?C2, ?C3; try done; [congruence|by left].
    + eapply (run_ok_early sc (dv_in st) e st' (frame_bytes start_frame) rest); rewrite ?C1, ?C3; try done; [|by left].
      by rewrite C5, Hw, C6, <- app_assoc.
Qed.

(** Peers send bytes. *)
Definition peers_send_bytes (sc : drive_script) : Prop :=
  forall t peer, t ∈ sc_search sc -> AcceptTurn None (AcceptedPeer true (Ok ()) peer) ∈ se_accepts t ->
  Forall is_u8 (in_bytes peer).

Lemma authenticated_bytes (sc : drive_script) (stream : incoming) :
  peers_send_bytes sc -> authenticated_peer sc stream -> Forall is_u8 (in_bytes stream).
Proof.
  intros Hb (t & peer & l & Ht & Ha & Hr); pose proof (Hb t peer Ht Ha) as Hu.
  apply read_frame_sound in Hr as [E _]; [|done]; rewrite E in Hu; by apply Forall_app_r in Hu.
Qed.

(** See [drive_session_truthful]. *)
Definition drive_ok (sc : drive_script) (r : result session_outcome libdeno_error) (st : drive_state) : Prop :=
  history (parent_new SUPERVISOR_REQUEST_ID) (dv_session st) /\
  dv_worker st <> WorkerRunning /\
  dv_started st = (if ps_started_received (dv_session st) then 1 else 0)%nat /\
  (dv_sent st <> [] -> exists stream, authenticated_peer sc stream) /\
  (exists next rest, frame_bytes request_frame ++ next = dv_sent st ++ rest /\
     (next = frame_bytes start_frame \/
      dv_started st = 0%nat /\ dv_worker st = NoWorker /\
      exists reason, (next = [] \/ exists f, cancel_frame reason_to_vec reason = Ok f /\ next = frame_bytes f) /\
        forall o, r = Ok o -> st_outcome (so_terminal o) = expected_outcome reason) /\
     (is_ok r = true -> rest = [])) /\
  forall o, r = Ok o ->
    Z.of_nat (length request_payload) <= MAX_SUPERVISOR_FRAME_PAYLOAD /\
    ps_terminal (dv_session st) = Some (so_terminal o) /\
    so_cancellation_before_terminal o = ps_cancel_reason (dv_session st) /\
    (so_transport o = TransportFailed <->
       dv_worker st = WorkerStopped /\ is_ok (worker_join (sc_join sc)) = false) /\
    exists stream pre frames, authenticated_peer sc stream /\
      in_bytes stream = frame_bytes accepted_frame ++ ((pre ++ frames) ≫= frame_bytes) ++ in_bytes (dv_in st) /\
      length pre = dv_started st /\ frames <> [] /\
      Forall (started_frame accepted_session) pre /\
      Forall (terminal_frame from_slice accepted_session (so_terminal o)) frames.

Lemma drive_session_ok (sc : drive_script) (r : result session_outcome libdeno_error) (st : drive_state) :
  peers_send_bytes sc -> run sc = Some (r, st) -> drive_ok sc r st.
Proof.
  intros Hb H; unfold drive_ok; unfold drive_supervisor_session, search_peer in H.
  destruct (find_peer _ _ _ _ _) as [[[[stream hello]|e] q]|] eqn:Ef; [| |done].
  2: { simplify_eq/=; split_and!; try done; [constructor|].
       exists (frame_bytes start_frame), (frame_bytes request_frame ++ frame_bytes start_frame); split_and!; auto; done. }
  apply find_peer_authenticated in Ef as (-> & -> & Hpeer).
  assert (authenticated_peer sc stream) as Ha by exact Hpeer; clear Hpeer.
  pose proof (authenticated_bytes _ _ Hb Ha) as Hu.
  unfold drive_peer in H; apply dbind_inv in H as [(event & st1 & H1 & H)|(e & H1 & ->)];
    apply drive_handshake_spec in H1 as (S1 & S2 & S3 & S4 & (rest & S5) & S6).
  2: { rewrite S1, S2, S4; split_and!; try done; [by eauto|].
       exists (frame_bytes start_frame), (rest ++ frame_bytes start_frame); split_and!; auto; [by rewrite S5, <- app_assoc|done]. }
  destruct event.
  2, 3: unfold dret in H; simplify_eq; rewrite S1, S2, S4; split_and!; try done; [by eauto|];
    exists (frame_bytes start_frame), (rest ++ frame_bytes start_frame); split_and!; auto; [by rewrite S5, <- app_assoc|done].
  destruct (S6 eq_refl) as (Wl & W & Hs & Hin); destruct (Hin Hu) as (Eb & Hu1).
  apply drive_run_spec in H as (R1 & R2 & R3 & R4 & R5); try done.
  split_and!; [rewrite Hs in S3; by eapply reachable_trans|done|done|by eauto|exact R4|].
  intros o Ho; destruct (R5 o Ho) as (P1 & P2 & P3 & pre & frames & P4 & P5 & P6 & P7 & P8); split_and!; try done.
  exists stream, pre, frames; split_and!; try done; by rewrite Eb, P4.
Qed.
(** C14. What [drive_supervisor_session] does and reports.  It writes only to the
    peer that presented the token: REQUEST, then START, or, when a cancellation
    was there first, the CANCEL that carries it; a failure leaves a prefix of
    that.  The session it leaves is a history of the protocol's state machine,
    user code was announced as started exactly when STARTED was received, and
    never after CANCEL took START's place.  The control worker has been joined
    on every path.  On success everything was written, and the outcome is the
    terminal that peer sent after its answer to REQUEST (and STARTED, when it
    was announced), with nothing but copies of it in between; it reports the
    cancellation when one won before START; the cancellation it carries is the
    session's; and the transport counts as failed exactly when the worker that
    was stopped ended with an error. *)
Theorem drive_session_truthful (sc : drive_script) (r : result session_outcome libdeno_error) (st : drive_state) :
  peers_send_bytes sc -> run sc = Some (r, st) ->
  history (parent_new SUPERVISOR_REQUEST_ID) (dv_session st) /\
  dv_worker st <> WorkerRunning /\
  dv_started st = (if ps_started_received (dv_session st) then 1 else 0)%nat /\
  (dv_sent st <> [] -> exists stream, authenticated_peer sc stream) /\
  (exists next rest, frame_bytes request_frame ++ next = dv_sent st ++ rest /\
     (next = frame_bytes start_frame \/
      dv_started st = 0%nat /\ dv_worker st = NoWorker /\
      exists reason, (next = [] \/ exists f, cancel_frame reason_to_vec reason = Ok f /\ next = frame_bytes f) /\
        forall o, r = Ok o -> st_outcome (so_terminal o) = expected_outcome reason) /\
     (is_ok r = true -> rest = [])) /\
  forall o, r = Ok o ->
    Z.of_nat (length request_payload) <= MAX_SUPERVISOR_FRAME_PAYLOAD /\
    ps_terminal (dv_session st) = Some (so_terminal o) /\
    so_cancellation_before_terminal o = ps_cancel_reason (dv_session st) /\
    (so_transport o = TransportFailed <->
       dv_worker st = WorkerStopped /\ is_ok (worker_join (sc_join sc)) = false) /\
    exists stream pre frames, authenticated_peer sc stream /\
      in_bytes stream = frame_bytes accepted_frame ++ ((pre ++ frames) ≫= frame_bytes) ++ in_bytes (dv_in st) /\
      length pre = dv_started st /\ frames <> [] /\
      Forall (started_frame accepted_session) pre /\
      Forall (terminal_frame from_slice accepted_session (so_terminal o)) frames.
Proof. apply drive_session_ok. Qed.
End DriveSpec.

(** A run in which the child answers, starts and completes, and one in which the
    user cancels before START. *)
Definition sample_script (peer : list Z) (cancelled : option cancel_reason) : drive_script :=
  let ok := IoProbe false 10 in
  let clock := PhaseClock 10 None 10 in
  let write := WriteScript ok ok (replicate 4 (WriteTurn ok 10 (Sent 60) PollTimeout ok)) in
  let peer_in := Incoming peer (replicate 40 (ReadTurn ok (Ok ()) (RData 30) ok)) in
  let turn := TerminalTurn None None None 10 10 10 in
  DriveScript 10
    [SearchTurn None 10 (Ok ()) [AcceptTurn None (AcceptedPeer true (Ok ()) peer_in)] 10]
    (clock, write) clock (cancelled, 10) None 10 (clock, write) (Ok (), Ok ()) (10, 10, write)
    10 [turn; turn] [None; None] None (Some (Ok ())).

Definition sample_peer (frames : list supervisor_frame) : list Z :=
  (SupervisorFrame KHello 0 [5; 6] :: SupervisorFrame KAccepted 1 [] :: frames) ≫= frame_bytes.

Lemma sample_script_bytes (peer : list Z) (cancelled : option cancel_reason) :
  Forall is_u8 peer -> peers_send_bytes (sample_script peer cancelled).
Proof.
  intros Hu t p Ht Ha; apply list_elem_of_singleton in Ht as ->; apply list_elem_of_singleton in Ha.
  by simplify_eq.
Qed.

(** The state a run leaves. *)
Definition left_state (o : option (result session_outcome libdeno_error * drive_state)) : drive_state :=
  match o with
  | Some (_, st) => st
  | None => DriveState (parent_new SUPERVISOR_REQUEST_ID) None [] (Incoming [] []) 0 NoWorker
  end.

Lemma drive_session_truthful_witness :
  let raw := fun _ : Z => IoError OtherKind "os error" in
  let to_vec := fun _ : cancel_reason => Ok (E := string) [1] in
  let go sc := drive_supervisor_session raw sample_slice to_vec [9] [5; 6] None User sc in
  let completed := SupervisorTerminal OCompleted (Some 0) None [] [] false in
  let cancelled := SupervisorTerminal OCancelled None None [] [] false in
  let sc := sample_script (sample_peer [SupervisorFrame KStarted 1 []; SupervisorFrame KTerminal 1 [0]]) None in
  let sc' := sample_script (sample_peer [SupervisorFrame KTerminal 1 [3]]) (Some User) in
  go sc = Some (Ok (SessionOutcome completed None TransportClean), left_state (go sc)) /\
  go sc' = Some (Ok (SessionOutcome cancelled (Some User) TransportClean), left_state (go sc')) /\
  dv_started (left_state (go sc)) = 1%nat /\ dv_started (left_state (go sc')) = 0%nat /\
  ps_terminal (dv_session (left_state (go sc))) = Some completed.
Proof.
  intros; assert (go sc = Some (Ok (SessionOutcome completed None TransportClean), left_state (go sc))) as E
    by (vm_compute; reflexivity).
  split_and!; [exact E|vm_compute; reflexivity|vm_compute; reflexivity|vm_compute; reflexivity|].
  destruct (drive_session_truthful raw sample_slice to_vec [9] [5; 6] None User sc
    (Ok (SessionOutcome completed None TransportClean)) (left_state (go sc))) as (_ & _ & _ & _ & _ & H);
    [|exact E|exact (proj1 (proj2 (H _ eq_refl)))].
  apply sample_script_bytes; vm_compute; repeat (constructor; [split; [discriminate|reflexivity]|]); constructor.
Defined.
