(* ===== verification/ControlThreads.v ===== *)
(** * ControlThreads: the two threads that carry a cancellation (src/subprocess.rs).

    [supervisor_control_loop] runs in the parent once START was written: it turns
    a request or the deadline into one CANCEL and closes the connection when the
    grace is over.  [start_supervisor_child_control_inner] runs in the child and
    turns CANCEL frames, or a broken connection, into a cancellation of the run. *)
From S2P Require Import Prelude Errors Cancel Execution Token Frame Session Protocol Handshake Phases.
Open Scope Z_scope.

(** ** The parent's control worker *)

(** One poll: the stop signal, [terminal_seen], a request of another thread, the
    clock and the second look at [terminal_seen]. *)
Record poll_turn := PollTurn {
  pt_stop : bool; pt_seen : bool; pt_arrived : option cancel_reason; pt_now : Z; pt_seen_again : bool
}.

(** One round of the grace: the clock, whether the stop channel answered (a
    disconnected one counts) and [terminal_seen]. *)
Record grace_turn := GraceTurn { gt_now : Z; gt_stopped : bool; gt_seen : bool }.

(** [we_shutdown]: the worker shut the connection down itself. *)
Record worker_end := WorkerEnd {
  we_result : result unit io_error; we_session : parent_session; we_requested : option cancel_reason;
  we_sent : list Z; we_shutdown : bool
}.

(** Whether the connection is shut down at the end of the grace. *)
Fixpoint grace_loop (grace_deadline : Z) (turns : list grace_turn) : option bool :=
  match turns with
  | [] => None
  | t :: turns =>
      if Z.eqb (duration_since grace_deadline (gt_now t)) 0 then Some true
      else if gt_stopped t || gt_seen t then Some false
      else grace_loop grace_deadline turns
  end.

Section Worker.
Context (from_raw_os_error : Z -> io_error) (reason_to_vec : cancel_reason -> result (list Z) string).

(** From the lock on: [p] is the session as it is found, [from] and [now] the
    clocks of the grace and of the write. *)
Definition cancel_child (p : parent_session) (reason : cancel_reason) (from now : Z) (w : write_script)
    (turns : list grace_turn) : option worker_end :=
  let grace_deadline := supervisor_deadline_after from SUPERVISOR_CANCEL_GRACE in
  let finish p sent :=
    match grace_loop grace_deadline turns with
    | None => None
    | Some shutdown => Some (WorkerEnd (Ok ()) p (Some reason) sent shutdown)
    end in
  match send_cancel p reason with
  | (Err e, p) => Some (WorkerEnd (Err e) p (Some reason) [] false)
  | (Ok false, p) => finish p []
  | (Ok true, p) =>
      match cancel_frame reason_to_vec reason with
      | Err e => Some (WorkerEnd (Err e) p (Some reason) [] false)
      | Ok f =>
          match write_cancel from_raw_os_error f grace_deadline now w with
          | None => None
          | Some (Written (Err e) sent _) => Some (WorkerEnd (Err e) p (Some reason) sent true)
          | Some (Written (Ok _) sent _) => finish p sent
          end
      end
  end.

Fixpoint supervisor_control_loop (deadline requested : option _) (turns : list poll_turn) (p : parent_session)
    (from now : Z) (w : write_script) (grace : list grace_turn) : option worker_end :=
  match turns with
  | [] => None
  | t :: turns =>
      if pt_stop t || pt_seen t then Some (WorkerEnd (Ok ()) p requested [] false)
      else
        let requested := arrive requested (pt_arrived t) in
        match cancellation_reason_if_due requested deadline (pt_now t) with
        | None => supervisor_control_loop deadline requested turns p from now w grace
        | Some reason =>
            if pt_seen_again t then Some (WorkerEnd (Ok ()) p (Some reason) [] false)
            else cancel_child p reason from now w grace
        end
  end.
End Worker.

(** ** The child's control thread *)
Inductive control_peek_outcome := Ready | Idle | Closed | Stopped.
Inductive interrupted_peek_action := Retry | StoppedPeek.

(** A peek sees the peer's bytes, none of them meaning end of file. *)
Inductive peek_reply := PeekData | PeekError (e : io_error).

(** The stop signal and the new timeout are looked at after an interruption. *)
Record peek_turn := PeekTurn { pk_reply : peek_reply; pk_stop : bool; pk_set_read_timeout : result unit io_error }.

Definition on_interrupted (t : peek_turn) : result interrupted_peek_action io_error :=
  if pk_stop t then Ok StoppedPeek else let? _ := pk_set_read_timeout t in Ok Retry.

Fixpoint peek_control_with_retry (bytes : list Z) (turns : list peek_turn)
  : option (result control_peek_outcome io_error) :=
  match turns with
  | [] => None
  | t :: turns =>
      match pk_reply t with
      | PeekData => Some (Ok (match bytes with [] => Closed | _ :: _ => Ready end))
      | PeekError e =>
          if kind_is e Interrupted then
            match on_interrupted t with
            | Err e => Some (Err e)
            | Ok Retry => peek_control_with_retry bytes turns
            | Ok StoppedPeek => Some (Ok Stopped)
            end
          else if kind_is e TimedOut || kind_is e WouldBlock then Some (Ok Idle)
          else Some (Err e)
      end
  end.

(** One iteration: the stop signal at its start, after a closed peek and after a
    failed read; the timeout set before the peek; the peeks; the clock of the
    first byte; and a request of another thread before the frame counts. *)
Record control_turn := ControlTurn {
  ct_stop : bool; ct_set_read_timeout : result unit io_error; ct_peeks : list peek_turn; ct_stop_closed : bool;
  ct_frame_started : Z; ct_stop_failed : bool; ct_arrived : option cancel_reason
}.

Definition control_closed : io_error := IoError UnexpectedEof "supervisor control stream closed".
Definition invalid_control_frame : io_error := invalid_data "invalid supervisor control frame after START".
Definition conflicting_reason : io_error := invalid_data "conflicting supervisor cancellation reason".

(** What the thread ends with, and the reason recorded in the run's context. *)
Record control_end := ControlEnd { ce_result : result unit io_error; ce_requested : option cancel_reason; ce_in : incoming }.

Section ChildControl.
Context (reason_from_slice : list Z -> result cancel_reason string).

(** One frame, in a context with [requested]. *)
Definition control_frame (request_id : Z) (requested : option cancel_reason) (f : supervisor_frame)
  : result cancel_reason io_error :=
  if negb (bool_decide (f_kind f = KCancel)) || negb (Z.eqb (f_request_id f) request_id)
  then Err invalid_control_frame
  else
    let? reason := decode_payload reason_from_slice (f_payload f) in
    match requested with
    | Some previous => if negb (bool_decide (previous = reason)) then Err conflicting_reason else Ok reason
    | None => Ok reason
    end.

Fixpoint control_loop (request_id : Z) (requested : option cancel_reason) (turns : list control_turn) (s : incoming)
  : option control_end :=
  match turns with
  | [] => None
  | t :: turns =>
      let stop r s := Some (ControlEnd r requested s) in
      if ct_stop t then stop (Ok ()) s
      else
        match ct_set_read_timeout t with
        | Err e => stop (Err e) s
        | Ok _ =>
            match peek_control_with_retry (in_bytes s) (ct_peeks t) with
            | None => None
            | Some (Err e) => stop (Err e) s
            | Some (Ok Idle) => control_loop request_id requested turns s
            | Some (Ok Stopped) => stop (Ok ()) s
            | Some (Ok Closed) => stop (if ct_stop_closed t then Ok () else Err control_closed) s
            | Some (Ok Ready) =>
                match read_frame_after_first_byte ParentToChild None None false (ct_frame_started t) s with
                | None => None
                | Some (Err e, s) => stop (if ct_stop_failed t then Ok () else Err e) s
                | Some (Ok f, s) =>
                    let requested := arrive requested (ct_arrived t) in
                    match control_frame request_id requested f with
                    | Err e => Some (ControlEnd (Err e) requested s)
                    | Ok reason => control_loop request_id (get_or_insert requested reason) turns s
                    end
                end
            end
        end
  end.

(** The thread: a failure of the loop cancels the run. *)
Definition start_supervisor_child_control (set_read_timeout : result unit io_error) (request_id : Z)
    (requested : option cancel_reason) (turns : list control_turn) (s : incoming) : option control_end :=
  let result :=
    match set_read_timeout with
    | Err e => Some (ControlEnd (Err e) requested s)
    | Ok _ => control_loop request_id requested turns s
    end in
  match result with
  | Some (ControlEnd (Err e) requested s) => Some (ControlEnd (Err e) (get_or_insert requested User) s)
  | other => other
  end.
End ChildControl.

(** ** The worker: one CANCEL, a bounded grace *)
Lemma grace_loop_spec (deadline : Z) (turns : list grace_turn) :
  (forall shutdown, grace_loop deadline turns = Some shutdown ->
   Exists (fun t => if shutdown then deadline <= gt_now t else gt_stopped t || gt_seen t = true) turns) /\
  (Exists (fun t => deadline <= gt_now t \/ gt_stopped t || gt_seen t = true) turns ->
   exists shutdown, grace_loop deadline turns = Some shutdown).
Proof.
  induction turns as [|t turns [IH1 IH2]]; simpl; [split; [done|by intros ?%Exists_nil]|].
  destruct (Z.eqb_spec (duration_since deadline (gt_now t)) 0) as [E|E]; unfold duration_since in E.
  - split; [intros [] ?; simplify_eq; left; lia|eauto].
  - destruct (gt_stopped t || gt_seen t) eqn:Es.
    + split; [intros [] ?; simplify_eq; by left|eauto].
    + split; [intros b Hb; right; eauto|].
      intros [[?|?]|?]%Exists_cons; [lia|congruence|eauto].
Qed.

Section WorkerSpec.
Context (raw : Z -> io_error) (reason_to_vec : cancel_reason -> result (list Z) string).

(** What the worker has done on the wire once it acted on [reason]. *)
Definition cancelled_child (p : parent_session) (reason : cancel_reason) (from : Z) (grace : list grace_turn)
    (we : worker_end) : Prop :=
  let grace_deadline := supervisor_deadline_after from SUPERVISOR_CANCEL_GRACE in
  we_requested we = Some reason /\ we_session we = (send_cancel p reason).2 /\
  (we_sent we <> [] -> ps_cancel_sent p = false /\ (send_cancel p reason).1 = Ok true /\
     exists f rest, cancel_frame reason_to_vec reason = Ok f /\ frame_bytes f = we_sent we ++ rest /\
       (is_ok (we_result we) = true -> rest = [])) /\
  (we_shutdown we = true -> is_ok (we_result we) = true -> Exists (fun t => grace_deadline <= gt_now t) grace) /\
  (we_shutdown we = false -> is_ok (we_result we) = true -> Exists (fun t => gt_stopped t || gt_seen t = true) grace) /\
  (is_ok (we_result we) = false -> we_sent we <> [] -> we_shutdown we = true).

Lemma send_cancel_once (p p' : parent_session) (reason : cancel_reason) :
  parent_inv p -> send_cancel p reason = (Ok true, p') -> ps_cancel_sent p = false.
Proof.
  intros (_ & _ & _ & _ & _ & I6) H; destruct (ps_cancel_sent p) eqn:E; [|done].
  specialize (I6 eq_refl); unfold send_cancel in H; rewrite E in H.
  destruct (ps_cancel_reason p); [|done]; repeat (destr_match; simplify_eq/=); by rewrite orb_true_r in *.
Qed.

Lemma cancel_child_spec (p : parent_session) (reason : cancel_reason) (from now : Z) (w : write_script)
    (grace : list grace_turn) (we : worker_end) :
  parent_inv p -> cancel_child raw reason_to_vec p reason from now w grace = Some we ->
  cancelled_child p reason from grace we.
Proof.
  intros Hi; unfold cancel_child, cancelled_child.
  set (gd := supervisor_deadline_after from SUPERVISOR_CANCEL_GRACE); destruct (grace_loop_spec gd grace) as [G _].
  destruct (send_cancel p reason) as [[[]|e] p'] eqn:Es; simpl; intros H.
  - pose proof (send_cancel_once _ _ _ Hi Es) as Ho.
    destruct (cancel_frame reason_to_vec reason) as [f|e] eqn:Ef; [|by simplify_eq/=; split_and!].
    destruct (write_cancel raw f gd now w) as [[r sent shut]|] eqn:Ew; [|done].
    apply write_frame_sound in Ew as [(rest & E1 & E2) _]; simpl in E1, E2.
    destruct r as [[]|e].
    + destruct (grace_loop gd grace) as [b|]; [|done]; specialize (G _ eq_refl); simplify_eq/=.
      split_and!; try done; [|by destruct b|by destruct b]. intros _; split_and!; try done; eauto.
    + simplify_eq/=; split_and!; try done. intros _; split_and!; try done; eauto.
  - destruct (grace_loop gd grace) as [b|]; [|done]; specialize (G _ eq_refl); simplify_eq/=.
    split_and!; try done; by destruct b.
  - simplify_eq/=; by split_and!.
Qed.

(** A poll after which the worker does not wait any longer. *)
Definition settles (deadline : option Z) (t : poll_turn) : Prop :=
  pt_stop t = true \/ pt_seen t = true \/ pt_arrived t <> None \/ exists d, deadline = Some d /\ d <= pt_now t.

Definition worker_idle (p : parent_session) (turns : list poll_turn) (we : worker_end) : Prop :=
  we_sent we = [] /\ we_result we = Ok () /\ we_session we = p /\ we_shutdown we = false /\
  Exists (fun t => pt_stop t || pt_seen t || pt_seen_again t = true) turns.

Lemma due_honest (requested deadline : option _) (now : Z) (r : cancel_reason) :
  cancellation_reason_if_due requested deadline now = Some r ->
  requested = Some r \/ requested = None /\ r = Deadline /\ exists d, deadline = Some d /\ d <= now.
Proof.
  unfold cancellation_reason_if_due; destruct requested; [by left; simplify_eq|].
  destruct deadline as [d|]; simpl; [|done]; destruct (Z.leb_spec d now); naive_solver.
Qed.

Lemma worker_spec (deadline : option Z) (turns : list poll_turn) (p : parent_session) (from now : Z)
    (w : write_script) (grace : list grace_turn) :
  parent_inv p -> forall (requested : option cancel_reason) (we : worker_end),
  supervisor_control_loop raw reason_to_vec deadline requested turns p from now w grace = Some we ->
  (worker_idle p turns we \/ exists reason, cancelled_child p reason from grace we) /\
  (requested = None -> Forall (fun t => pt_arrived t = None) turns -> forall r, we_requested we = Some r ->
   r = Deadline /\ exists d, deadline = Some d /\ Exists (fun t => d <= pt_now t) turns) /\
  (forall r, requested = Some r -> we_requested we = Some r).
Proof.
  intros Hi; induction turns as [|t turns IH]; intros requested we H; [done|]; cbn [supervisor_control_loop] in H.
  destruct (pt_stop t || pt_seen t) eqn:E1.
  { simplify_eq; split_and!; simpl; [|by intros ->|done].
    left; split_and!; try done; left; by rewrite E1. }
  destruct (cancellation_reason_if_due _ deadline (pt_now t)) as [reason|] eqn:Ed.
  2:{ destruct (IH _ _ H) as (I1 & I2 & I3); split_and!.
      - destruct I1 as [(A & B & C & D & E)|?]; [left; split_and!; try done; by right|by right].
      - intros -> [Ht Hts]%Forall_cons r Hr; rewrite Ht in *.
        destruct (I2 eq_refl Hts r Hr) as (-> & d & -> & ?); split; [done|]; exists d; split; [done|]; by right.
      - intros r ->; destruct (pt_arrived t); discriminate Ed. }
  assert (we_requested we = Some reason /\ (worker_idle p (t :: turns) we \/ exists reason, cancelled_child p reason from grace we))
    as [Hw ?].
  { destruct (pt_seen_again t) eqn:E2.
    - simplify_eq; split; [done|left]; split_and!; try done; left; by rewrite E1, E2.
    - pose proof (cancel_child_spec _ _ _ _ _ _ _ Hi H) as Hc; split; [apply Hc|eauto]. }
  split_and!; [done| |].
  - intros -> [Ht _]%Forall_cons r Hr; rewrite Ht in Ed; rewrite Hw in Hr; simplify_eq.
    apply due_honest in Ed as [?|(_ & -> & d & -> & ?)]; [done|].
    split; [done|]; exists d; split; [done|by left].
  - intros r ->; destruct (pt_arrived t); simpl in Ed; by simplify_eq.
Qed.

Lemma cancel_child_returns (p : parent_session) (reason : cancel_reason) (from now : Z) (w : write_script)
    (grace : list grace_turn) :
  let gd := supervisor_deadline_after from SUPERVISOR_CANCEL_GRACE in
  Exists (write_stops (Limits (Some (Z.min (supervisor_deadline_after now (from_millis 100)) gd)) false)) (ws_turns w) ->
  Exists (fun t => gd <= gt_now t \/ gt_stopped t || gt_seen t = true) grace ->
  exists we, cancel_child raw reason_to_vec p reason from now w grace = Some we.
Proof.
  intros gd Hw Hg; unfold cancel_child; fold gd; destruct (proj2 (grace_loop_spec gd grace) Hg) as [b ->].
  destruct (send_cancel p reason) as [[[]|] p']; [|eauto..].
  destruct (cancel_frame reason_to_vec reason) as [f|]; [|eauto].
  destruct (write_frame_returns raw f _ (ws_header w) (ws_payload w) _ Hw) as [[[] ? ?] E];
    unfold write_cancel; rewrite E; eauto.
Qed.

(** The worker carries a cancellation at most once and leaves no run behind.
    It acts only on a request or on a deadline that has passed, never after the
    terminal was seen; what it writes is one CANCEL with the first reason, whole
    unless it reports a failure; it closes the connection exactly when the write
    failed or the grace ran out without a terminal; and it ends: after a stop
    signal, the terminal, or a cancellation, its bounded write and its grace. *)
Theorem control_worker_spec (deadline requested : option _) (turns : list poll_turn) (p : parent_session)
    (from now : Z) (w : write_script) (grace : list grace_turn) :
  let gd := supervisor_deadline_after from SUPERVISOR_CANCEL_GRACE in
  let outcome := supervisor_control_loop raw reason_to_vec deadline requested turns p from now w grace in
  parent_inv p ->
  (forall we, outcome = Some we ->
   (worker_idle p turns we \/ exists reason, cancelled_child p reason from grace we) /\
   (requested = None -> Forall (fun t => pt_arrived t = None) turns -> forall r, we_requested we = Some r ->
    r = Deadline /\ exists d, deadline = Some d /\ Exists (fun t => d <= pt_now t) turns) /\
   (forall r, requested = Some r -> we_requested we = Some r)) /\
  (Exists (settles deadline) turns ->
   Exists (write_stops (Limits (Some (Z.min (supervisor_deadline_after now (from_millis 100)) gd)) false)) (ws_turns w) ->
   Exists (fun t => gd <= gt_now t \/ gt_stopped t || gt_seen t = true) grace ->
   exists we, outcome = Some we).
Proof.
  intros gd outcome Hi; split; [intros we; by apply worker_spec|]; subst outcome; intros Hs Hw Hg.
  clear Hi; revert requested; induction turns as [|t turns IH]; intros requested; [by apply Exists_nil in Hs|].
  cbn [supervisor_control_loop]; destruct (pt_stop t || pt_seen t) eqn:E1; [eauto|].
  destruct (cancellation_reason_if_due _ deadline (pt_now t)) as [reason|] eqn:Ed.
  - destruct (pt_seen_again t); [eauto|by apply cancel_child_returns].
  - apply Exists_cons in Hs as [Hs|Hs]; [exfalso|by apply IH].
    apply orb_false_iff in E1 as [E1 E2]; unfold settles in Hs.
    destruct Hs as [?|[?|[Ha|(d & -> & Hd)]]]; [congruence..| |].
    + destruct (pt_arrived t), requested; done.
    + unfold cancellation_reason_if_due in Ed; destruct (arrive requested (pt_arrived t)); [done|]; simpl in Ed.
      destruct (Z.leb_spec d (pt_now t)); [done|lia].
Qed.
End WorkerSpec.

(** ** The child's thread: the parent's reason, or a broken connection *)
Section ChildControlSpec.
Context (reason_from_slice : list Z -> result cancel_reason string).

(** A CANCEL of the request that decodes to [r]. *)
Definition cancel_of (request_id : Z) (r : cancel_reason) (f : supervisor_frame) : Prop :=
  f_kind f = KCancel /\ f_request_id f = request_id /\ decode_payload reason_from_slice (f_payload f) = Ok r.

Lemma control_frame_spec (request_id : Z) (requested : option cancel_reason) (f : supervisor_frame) (r : cancel_reason) :
  control_frame reason_from_slice request_id requested f = Ok r <->
  cancel_of request_id r f /\ (forall previous, requested = Some previous -> previous = r).
Proof.
  unfold control_frame, cancel_of.
  destruct (bool_decide (f_kind f = KCancel)) eqn:Ek; [apply bool_decide_eq_true_1 in Ek|apply bool_decide_eq_false_1 in Ek; naive_solver].
  destruct (Z.eqb_spec (f_request_id f) request_id); simpl; [|naive_solver].
  destruct (decode_payload reason_from_slice (f_payload f)) as [r'|]; simpl; [|naive_solver].
  destruct requested as [q|]; [|naive_solver]; case_bool_decide; naive_solver.
Qed.

Lemma get_or_insert_same (requested : option cancel_reason) (r : cancel_reason) :
  (forall previous, requested = Some previous -> previous = r) -> get_or_insert requested r = Some r.
Proof. destruct requested as [q|]; simpl; [|done]. intros H; by rewrite (H q eq_refl). Qed.

(** A stop signal was seen. *)
Definition saw_stop (t : control_turn) : Prop :=
  ct_stop t = true \/ ct_stop_closed t = true \/ ct_stop_failed t = true \/ Exists (fun p => pk_stop p = true) (ct_peeks t).

Lemma peek_stopped (bytes : list Z) (turns : list peek_turn) :
  peek_control_with_retry bytes turns = Some (Ok Stopped) -> Exists (fun p => pk_stop p = true) turns.
Proof.
  induction turns as [|t turns IH]; simpl; [done|]; destruct (pk_reply t) as [|e]; [by destruct bytes|].
  destruct (kind_is e Interrupted); [|by destruct (kind_is e TimedOut || kind_is e WouldBlock)].
  unfold on_interrupted; destruct (pk_stop t) eqn:Es; [by left|].
  destruct (pk_set_read_timeout t); simpl; [right; eauto|done].
Qed.

(** What a run of the loop has taken from the parent and recorded. *)
Definition control_ok (request_id : Z) (requested : option cancel_reason) (turns : list control_turn)
    (bytes : list Z) (ce : control_end) : Prop :=
  exists frames rest, bytes = (frames ≫= frame_bytes) ++ rest /\
    Forall (fun f => exists r, ce_requested ce = Some r /\ cancel_of request_id r f) frames /\
    (forall r, requested = Some r -> ce_requested ce = Some r) /\
    (requested = None -> frames = [] -> Forall (fun t => ct_arrived t = None) turns -> ce_requested ce = None) /\
    (ce_result ce = Ok () -> Exists saw_stop turns).

Lemma control_ends (request_id : Z) (requested : option cancel_reason) (turns : list control_turn) (bytes : list Z)
    (r : result unit io_error) (s : incoming) :
  (r = Ok () -> Exists saw_stop turns) -> control_ok request_id requested turns bytes (ControlEnd r requested s).
Proof. intros H; exists [], bytes; by split_and!. Qed.

Lemma control_ok_later (request_id : Z) (requested : option cancel_reason) (t : control_turn) (turns : list control_turn)
    (bytes : list Z) (ce : control_end) :
  control_ok request_id requested turns bytes ce -> control_ok request_id requested (t :: turns) bytes ce.
Proof.
  intros (frames & rest & H1 & H2 & H3 & H4 & H5); exists frames, rest; split_and!; try done.
  - intros Hq Hf [_ Ht]%Forall_cons; by apply H4.
  - intros Hr; right; by apply H5.
Qed.

Lemma arrive_keeps (requested arrived : option cancel_reason) (r : cancel_reason) :
  requested = Some r -> arrive requested arrived = Some r.
Proof. intros ->; by destruct arrived. Qed.

Lemma control_loop_spec (request_id : Z) (turns : list control_turn) :
  forall (requested : option cancel_reason) (s : incoming) (ce : control_end),
  Forall is_u8 (in_bytes s) -> control_loop reason_from_slice request_id requested turns s = Some ce ->
  control_ok request_id requested turns (in_bytes s) ce.
Proof.
  induction turns as [|t turns IH]; intros requested s ce Hu H; [done|]; cbn [control_loop] in H.
  destruct (ct_stop t) eqn:E1; [simplify_eq; apply control_ends; intros _; left; by left|].
  destruct (ct_set_read_timeout t); [|simplify_eq; by apply control_ends].
  destruct (peek_control_with_retry (in_bytes s) (ct_peeks t)) as [[[]|e]|] eqn:Ep;
    [| |simplify_eq; apply control_ends| |simplify_eq; by apply control_ends|done].
  2: by apply control_ok_later, IH.
  2:{ destruct (ct_stop_closed t) eqn:E2; [|done]; intros _; left; right; by left. }
  2:{ simplify_eq; apply control_ends; intros _; left; do 3 right; by eapply peek_stopped. }
  destruct (read_frame_after_first_byte _ _ _ _ _ s) as [[[f|e] s1]|] eqn:Ef; [| |done].
  2:{ simplify_eq; apply control_ends; destruct (ct_stop_failed t) eqn:E2; [|done]; intros _; left; do 2 right; by left. }
  apply read_after_first_byte_sound in Ef as [Eb Hu1]; [|done].
  destruct (control_frame reason_from_slice request_id (arrive requested (ct_arrived t)) f) as [r|e] eqn:Ec.
  - apply control_frame_spec in Ec as [Hc Hp]; rewrite (get_or_insert_same _ _ Hp) in H.
    destruct (IH _ _ _ Hu1 H) as (frames & rest & H1 & H2 & H3 & H4 & H5); specialize (H3 r eq_refl).
    exists (f :: frames), rest; split_and!; [|constructor; eauto| |done|].
    + by simpl; rewrite Eb, H1, app_assoc.
    + intros q Hq; rewrite H3; f_equal; symmetry; apply Hp; by apply arrive_keeps.
    + intros Hr; right; by apply H5.
  - simplify_eq; exists [], (in_bytes s); split_and!; try done; simpl.
    + intros q Hq; by apply arrive_keeps.
    + intros -> _ [-> _]%Forall_cons; done.
Qed.

(** What the child's control thread makes of the connection.  A run is
    cancelled with the reason of the parent's CANCEL frames, which all agree, or
    as by a user when the connection fails, and otherwise not; a reason recorded
    first stays; the thread ends well only on the stop signal; and a CANCEL that
    is delivered always reaches the run. *)
Theorem child_control_spec (set_read_timeout : result unit io_error) (request_id : Z) (requested : option cancel_reason)
    (turns : list control_turn) (s : incoming) (ce : control_end)
    (t : control_turn) (f : supervisor_frame) (r : cancel_reason) (rest : list Z) (reads : list read_turn) :
  (Forall is_u8 (in_bytes s) ->
   start_supervisor_child_control reason_from_slice set_read_timeout request_id requested turns s = Some ce ->
   (exists frames rest, in_bytes s = (frames ≫= frame_bytes) ++ rest /\
      Forall (fun f => exists r, ce_requested ce = Some r /\ cancel_of request_id r f) frames /\
      (requested = None -> frames = [] -> Forall (fun t => ct_arrived t = None) turns ->
       ce_requested ce = match ce_result ce with Ok _ => None | Err _ => Some User end)) /\
   (forall r, requested = Some r -> ce_requested ce = Some r) /\
   (ce_result ce = Ok () -> Exists saw_stop turns) /\
   (is_ok (ce_result ce) = false -> ce_requested ce <> None)) /\
  (ct_stop t = false -> is_ok (ct_set_read_timeout t) = true -> ct_arrived t = None ->
   peek_control_with_retry (frame_bytes f ++ rest) (ct_peeks t) = Some (Ok Ready) ->
   frame_ok f -> cancel_of request_id r f ->
   Forall (delivers (Limits (Some (default (ct_frame_started t)
     (checked_add (ct_frame_started t) SUPERVISOR_FRAME_TIMEOUT))) false)) reads ->
   (length (frame_bytes f) <= data_turns reads)%nat -> Forall is_u8 rest ->
   start_supervisor_child_control reason_from_slice (Ok ()) request_id None (t :: turns)
     (Incoming (frame_bytes f ++ rest) reads) = Some ce ->
   ce_requested ce = Some r).
Proof.
  split.
  - intros Hu H; unfold start_supervisor_child_control in H.
    assert (exists ce0, control_ok request_id requested turns (in_bytes s) ce0 /\ ce_result ce = ce_result ce0 /\
      ce_requested ce = match ce_result ce0 with Ok _ => ce_requested ce0 | Err _ => get_or_insert (ce_requested ce0) User end)
      as (ce0 & (frames & rest0 & H1 & H2 & H3 & H4 & H5) & Er & Eq).
    { destruct set_read_timeout as [[]|e].
      - destruct (control_loop reason_from_slice request_id requested turns s) as [ce0|] eqn:El; [|done].
        exists ce0; split; [by eapply control_loop_spec|]; by destruct ce0 as [[[]|] q s0]; simplify_eq.
      - exists (ControlEnd (Err e) requested s); split; [by apply control_ends|by simplify_eq]. }
    assert (forall q, ce_requested ce0 = Some q -> ce_requested ce = Some q) as Hk
      by (intros q Hq; rewrite Eq, Hq; by destruct (ce_result ce0)).
    split_and!.
    + exists frames, rest0; split_and!; [done| |].
      * eapply Forall_impl; [exact H2|]; simpl; intros g (q & Hq & Hg); eauto.
      * intros Hq Hf Ht; rewrite Eq, Er, (H4 Hq Hf Ht); by destruct (ce_result ce0).
    + eauto.
    + rewrite Er; exact H5.
    + rewrite Er, Eq; destruct (ce_result ce0); [done|]; by destruct (ce_requested ce0).
  - intros Hs Ht Ha Hp Hok Hc Hd Hl Hu H; unfold start_supervisor_child_control in H; cbn [control_loop in_bytes] in H.
    rewrite Hs, Hp in H; destruct (ct_set_read_timeout t); [|done].
    destruct (after_first_byte_delivers f false (ct_frame_started t) rest reads Hok Hd Hl) as (reads' & E).
    assert (direction (f_kind f) = ParentToChild) as Hdir by (by destruct Hc as (-> & _)).
    rewrite Hdir in E; rewrite E, Ha in H; cbn [arrive] in H.
    rewrite (proj2 (control_frame_spec request_id None f r)) in H by (split; [done|by intros]).
    destruct (control_loop reason_from_slice request_id (get_or_insert None r) turns (Incoming rest reads')) as [ce0|] eqn:El; [|done].
    apply control_loop_spec in El as (? & ? & _ & _ & H3 & _); [|done]; specialize (H3 r eq_refl).
    destruct ce0 as [[]]; simplify_eq/=; by rewrite ?H3.
Qed.
End ChildControlSpec.
