(* ===== verification/ChildRun.v ===== *)
(** * ChildRun: the child's side of a supervised session, from the connection to
    the exit code (src/subprocess.rs, [run_supervisor_child] and
    [supervisor_child_exit]).

    Composes the child's session (Session), the bounded reads and writes (Frame,
    Phases) and the control thread (ControlThreads) around the run itself, which
    is a parameter.  With Drive it gives both ends of the connection as the
    bytes they read and write. *)
From S2P Require Import Prelude Errors Cancel Options Execution Token Frame Session Protocol Supervised Handshake Phases Drive ControlThreads.
Open Scope Z_scope.

(** What the child has done so far. *)
Record child_drive_state := ChildDriveState {
  cd_session : child_session;
  cd_sent : list Z;
  cd_in : incoming;
  cd_requested : option cancel_reason;          (** the run's cancellation context *)
  cd_ran : option (path * libdeno_options);     (** the run that was started *)
  cd_control : worker_status
}.

Definition child_drive (A : Type) : Type := threaded child_drive_state A.

(** What the operating system, the clock and the other threads answer. *)
Record child_script := ChildScript {
  ch_connect : result unit io_error;
  ch_prepare : result unit io_error;
  ch_stream : incoming;                         (** what the parent sends *)
  ch_hello : Z * write_script;
  ch_request_from : Z;
  ch_accepted : Z * write_script;
  ch_next_from : Z;
  ch_clone : result unit io_error;
  ch_spawn : result unit io_error;
  ch_started : Z * write_script;
  ch_set_read_timeout : result unit io_error;
  ch_requested : option cancel_reason;          (** recorded before the thread's first look *)
  ch_turns : list control_turn;
  ch_terminal : Z * write_script
}.

Section ChildRun.
Context (from_raw_os_error : Z -> io_error).
Context (terminal_to_vec : supervisor_terminal -> result (list Z) string)
        (reason_from_slice : list Z -> result cancel_reason string)
        (request_from_slice : list Z -> result supervisor_request string).
Context (token : supervisor_token).
(** [run_with_output_observed_cancellable], the failure's error taken out. *)
Context (run : path -> libdeno_options -> result run_output libdeno_error).

(** An operation on the session. *)
Definition on_child {A} (op : child_session -> result A io_error * child_session) : child_drive A := fun st =>
  let '(r, c) := op (cd_session st) in
  Some (map_err Io r, ChildDriveState c (cd_sent st) (cd_in st) (cd_requested st) (cd_ran st) (cd_control st)).

(** [write_frame_until] with [phase_frame_deadline(None)]. *)
Definition child_drive_write (f : supervisor_frame) (k : Z * write_script) : child_drive unit := fun st =>
  match write_frame_until from_raw_os_error f (Limits (Some (phase_frame_deadline k.1 None)) false)
          (ws_header k.2) (ws_payload k.2) (ws_turns k.2) with
  | None => None
  | Some wr =>
      Some (map_err Io (wr_result wr),
            ChildDriveState (cd_session st) (cd_sent st ++ wr_sent wr) (cd_in st) (cd_requested st) (cd_ran st) (cd_control st))
  end.

(** [read_frame] with [Instant::now() + SUPERVISOR_FRAME_TIMEOUT]. *)
Definition child_drive_read (from : Z) : child_drive supervisor_frame := fun st =>
  match read_frame ParentToChild (from + SUPERVISOR_FRAME_TIMEOUT) (cd_in st) with
  | None => None
  | Some (r, s) =>
      Some (map_err Io r, ChildDriveState (cd_session st) (cd_sent st) s (cd_requested st) (cd_ran st) (cd_control st))
  end.

Definition child_request_id (message : string) : child_drive Z := fun st =>
  Some (match cs_request_id (cd_session st) with
        | Some id => Ok id
        | None => Err (supervisor_error message)
        end, st).

(** [supervisor_child_exit] *)
Definition supervisor_child_exit (terminal : supervisor_terminal) (k : Z * write_script) : child_drive Z :=
  let* _ := on_child (fun c => mark_terminal c terminal) in
  let* request_id := child_request_id "supervisor child has no request ID" in
  let* payload := dret (map_err Io (encode_payload terminal_to_vec terminal)) in
  let* frame := dret (map_err Io (frame_new KTerminal request_id payload)) in
  let* _ := child_drive_write frame k in
  dret (Ok (child_exit_code terminal)).

(** [start_supervisor_child_control]: the clone and the thread. *)
Definition child_control_start (sc : child_script) : child_drive unit :=
  let* _ := dret (worker_spawn (ch_clone sc) (ch_spawn sc)) in
  fun st => Some (Ok (), ChildDriveState (cd_session st) (cd_sent st) (cd_in st) (cd_requested st) (cd_ran st) WorkerRunning).

(** [stop_supervisor_child_control] and the join: what the thread read and the
    reason it or anyone else recorded meanwhile. *)
Definition child_control_join (sc : child_script) (request_id : Z) : child_drive (result unit io_error) := fun st =>
  match start_supervisor_child_control reason_from_slice (ch_set_read_timeout sc) request_id (ch_requested sc)
          (ch_turns sc) (cd_in st) with
  | None => None
  | Some ce =>
      Some (Ok (ce_result ce),
            ChildDriveState (cd_session st) (cd_sent st) (ce_in ce) (ce_requested ce) (cd_ran st) WorkerStopped)
  end.

(** The options of the run. *)
Definition supervised_options (request : supervisor_request) : libdeno_options :=
  LibdenoOptions (sq_permissions request) (sq_allow_all request) (sq_prompt request) (sq_args request)
    (Some (sq_cwd request)) (sq_max_heap_bytes request) (sq_execution_deadline request)
    false false None (sq_features request) None.

(** The run itself. *)
Definition child_user_code (request : supervisor_request) : child_drive (result run_output libdeno_error) := fun st =>
  let options := supervised_options request in
  Some (Ok (run (sq_entry request) options),
        ChildDriveState (cd_session st) (cd_sent st) (cd_in st) (cd_requested st)
          (Some (sq_entry request, options)) (cd_control st)).

(** HELLO, REQUEST and ACCEPTED. *)
Definition child_handshake (sc : child_script) : child_drive (supervisor_request * Z) :=
  let* hello := dret (map_err Io (frame_new KHello 0 token)) in
  let* _ := child_drive_write hello (ch_hello sc) in
  let* request_frame := child_drive_read (ch_request_from sc) in
  let* _ := on_child (fun c => receive_parent_frame reason_from_slice c request_frame) in
  let* request := dret (map_err Io (decode_payload request_from_slice (f_payload request_frame))) in
  let* request_id := child_request_id "supervisor REQUEST did not establish an ID" in
  let* accepted := dret (map_err Io (frame_new KAccepted request_id [])) in
  let* _ := child_drive_write accepted (ch_accepted sc) in
  dret (Ok (request, request_id)).

(** STARTED, the run, and the terminal that reports it. *)
Definition child_started (sc : child_script) (request : supervisor_request) (request_id : Z) : child_drive Z :=
  let* _ := child_control_start sc in
  let* started := dret (map_err Io (frame_new KStarted request_id [])) in
  fun st =>
  match child_drive_write started (ch_started sc) st with
  | None => None
  | Some (Err e, st) =>
      (let* _ := child_control_join sc request_id in dret (Err e)) st
  | Some (Ok _, st) =>
      (let* runtime_result := child_user_code request in
       let* _ := child_control_join sc request_id in
       fun st => supervisor_child_exit (child_terminal (cd_requested st) runtime_result) (ch_terminal sc) st) st
  end.

(** What follows ACCEPTED: CANCEL or START. *)
Definition child_next (sc : child_script) (request : supervisor_request) (request_id : Z) : child_drive Z :=
  let* next := child_drive_read (ch_next_from sc) in
  let* event := on_child (fun c => receive_parent_frame reason_from_slice c next) in
  if bool_decide (f_kind next = KCancel) then
    fun st =>
      let reason := default User (cs_cancel_reason (cd_session st)) in
      supervisor_child_exit (no_output (expected_outcome reason) None None) (ch_terminal sc) st
  else
    match event, f_kind next with
    | Some EvStarted, KStart => child_started sc request request_id
    | _, _ => dret (Err (supervisor_error "supervisor START barrier was not satisfied"))
    end.

(** [run_supervisor_child] *)
Definition run_supervisor_child (sc : child_script) : option (result Z libdeno_error * child_drive_state) :=
  (let* _ := dret (map_err Io (ch_connect sc)) in
   let* _ := dret (map_err Io (ch_prepare sc)) in
   let* x := child_handshake sc in
   child_next sc x.1 x.2)
  (ChildDriveState child_new [] (ch_stream sc) None None NoWorker).
End ChildRun.

(** ** What the child writes, runs and reports *)
Section ChildRunSpec.
Context (raw : Z -> io_error).
Context (terminal_to_vec : supervisor_terminal -> result (list Z) string)
        (reason_from_slice : list Z -> result cancel_reason string)
        (request_from_slice : list Z -> result supervisor_request string).
Context (token : supervisor_token).
Context (run : path -> libdeno_options -> result run_output libdeno_error).
Local Notation child := (run_supervisor_child raw terminal_to_vec reason_from_slice request_from_slice token run).

(** The frames of a session of the child. *)
Definition hello_frame : supervisor_frame := SupervisorFrame KHello 0 token.
Definition child_frames (id : Z) (started : bool) (payload : list Z) : list supervisor_frame :=
  [hello_frame; SupervisorFrame KAccepted id []] ++
  (if started then [SupervisorFrame KStarted id []] else []) ++ [SupervisorFrame KTerminal id payload].

(** [st'] differs from [st] by [sent] on the wire and by its session. *)
Definition child_sends (st st' : child_drive_state) (sent : list Z) : Prop :=
  cd_sent st' = cd_sent st ++ sent /\ cd_in st' = cd_in st /\ cd_requested st' = cd_requested st /\
  cd_ran st' = cd_ran st /\ cd_control st' = cd_control st.

Lemma child_write_spec (f : supervisor_frame) (k : Z * write_script) (st st' : child_drive_state)
    (r : result unit libdeno_error) :
  child_drive_write raw f k st = Some (r, st') ->
  exists sent rest, child_sends st st' sent /\ cd_session st' = cd_session st /\ frame_bytes f = sent ++ rest /\
    (is_ok r = true -> rest = []).
Proof.
  unfold child_drive_write; destruct (write_frame_until _ _ _ _ _ _) as [wr|] eqn:E; [|done].
  apply write_frame_sound in E as [(rest & E1 & E2) _]; intros H; simplify_eq/=.
  exists (wr_sent wr), rest; split_and!; try done; by destruct (wr_result wr).
Qed.

Lemma child_read_spec (from : Z) (st st' : child_drive_state) (r : result supervisor_frame libdeno_error) :
  child_drive_read from st = Some (r, st') ->
  cd_session st' = cd_session st /\ cd_sent st' = cd_sent st /\ cd_requested st' = cd_requested st /\
  cd_ran st' = cd_ran st /\ cd_control st' = cd_control st /\
  (forall f, r = Ok f -> Forall is_u8 (in_bytes (cd_in st)) ->
     in_bytes (cd_in st) = frame_bytes f ++ in_bytes (cd_in st') /\ Forall is_u8 (in_bytes (cd_in st')) /\ frame_ok f).
Proof.
  unfold child_drive_read, read_frame.
  destruct (read_frame_with_deadline _ _ _) as [[r1 s]|] eqn:E; [|done]; intros H; simplify_eq/=.
  split_and!; try done; intros f Hr Hu; apply map_err_ok in Hr as ->.
  apply read_frame_sound in E as (E & Hok & _); [|done]; split_and!; [done| |done]; rewrite E in Hu; by apply Forall_app_r in Hu.
Qed.

Lemma on_child_spec {A} (op : child_session -> result A io_error * child_session) (st st' : child_drive_state)
    (r : result A libdeno_error) :
  on_child op st = Some (r, st') ->
  child_sends st st' [] /\ r = map_err Io (op (cd_session st)).1 /\ cd_session st' = (op (cd_session st)).2.
Proof.
  unfold on_child, child_sends; destruct (op (cd_session st)) as [r1 c]; intros H; simplify_eq/=.
  by rewrite app_nil_r.
Qed.

(** The session after REQUEST. *)
Definition requested_session (id : Z) : child_session := ChildSession (Some id) CAwaitStart None None.

Lemma receive_request (f : supervisor_frame) (event : option frame_event) (c : child_session) :
  receive_parent_frame reason_from_slice child_new f = (Ok event, c) ->
  f_kind f = KRequest /\ event = None /\ c = requested_session (f_request_id f).
Proof.
  unfold receive_parent_frame, child_new; simpl; destruct (f_kind f); intros H; try done.
  - destruct (Z.eqb _ 0); by simplify_eq.
  - unfold receive_cancel in H; simpl in H; destruct (decode_payload _ _); by simplify_eq.
Qed.

Lemma receive_next (id : Z) (f : supervisor_frame) (event : option frame_event) (c : child_session) :
  receive_parent_frame reason_from_slice (requested_session id) f = (Ok event, c) ->
  (f = SupervisorFrame KStart id [] /\ event = Some EvStarted /\ c = ChildSession (Some id) CStarted None None) \/
  exists reason, cancel_of reason_from_slice id reason f /\ event = None /\
    c = ChildSession (Some id) CCancelling (Some reason) None.
Proof.
  unfold receive_parent_frame, requested_session; cbn [cs_request_id is_some_and cs_state].
  destruct f as [k i payload]; cbn [f_request_id f_kind f_payload].
  destruct (Z.eqb_spec i id) as [->|]; simpl; [|done].
  destruct k; intros H; try done; [destruct payload; [left; by simplify_eq|done]|right].
  unfold receive_cancel in H; cbn [f_payload cs_cancel_reason cs_state] in H.
  destruct (decode_payload reason_from_slice payload) as [reason|] eqn:Ed; [|done].
  simplify_eq; by exists reason.
Qed.

(** [supervisor_child_exit]: the terminal is the session's, and with success it
    was sent and decides the exit code. *)
Lemma child_exit_spec (t : supervisor_terminal) (k : Z * write_script) (id : Z) (st st' : child_drive_state)
    (r : result Z libdeno_error) :
  cs_request_id (cd_session st) = Some id ->
  supervisor_child_exit raw terminal_to_vec t k st = Some (r, st') ->
  exists payload sent rest, child_sends st st' sent /\ frame_bytes (SupervisorFrame KTerminal id payload) = sent ++ rest /\
    Z.of_nat (length payload) <= MAX_SUPERVISOR_FRAME_PAYLOAD /\
    (sent <> [] -> encode_payload terminal_to_vec t = Ok payload) /\
    (forall code, r = Ok code -> rest = [] /\ code = child_exit_code t) /\
    (sent <> [] \/ is_ok r = true -> cs_terminal (cd_session st') = Some t).
Proof.
  intros Hid H; unfold supervisor_child_exit in H.
  assert (forall e st1, child_sends st st1 [] -> r = Err e -> st' = st1 ->
    exists payload sent rest, child_sends st st' sent /\ frame_bytes (SupervisorFrame KTerminal id payload) = sent ++ rest /\
    Z.of_nat (length payload) <= MAX_SUPERVISOR_FRAME_PAYLOAD /\
    (sent <> [] -> encode_payload terminal_to_vec t = Ok payload) /\
    (forall code, r = Ok code -> rest = [] /\ code = child_exit_code t) /\
    (sent <> [] \/ is_ok r = true -> cs_terminal (cd_session st') = Some t)) as Hnone
    by (intros e st1 Hs -> ->; exists [], [], (frame_bytes (SupervisorFrame KTerminal id [])); split_and!; try done; by intros [?|?]).
  apply dbind_inv in H as [(b & st1 & H1 & H)|(e & H1 & ->)]; apply on_child_spec in H1 as (Hs1 & Hr1 & Hc1);
    [|by eapply Hnone].
  assert (cs_request_id (cd_session st1) = Some id /\ cs_terminal (cd_session st1) = Some t) as [Hid1 Ht1].
  { symmetry in Hr1; apply map_err_ok in Hr1; rewrite Hc1; unfold mark_terminal in *.
    destruct (validate_supervisor_terminal_shape t); [|done].
    destruct (cs_terminal (cd_session st)) as [t0|] eqn:Et.
    - case_bool_decide; [|done]; simplify_eq/=; by rewrite Et.
    - destruct (cs_state (cd_session st)); by simplify_eq/=. }
  apply dbind_inv in H as [(i & st2 & H2 & H)|(e & H2 & _)]; unfold child_request_id in H2; rewrite Hid1 in H2; simplify_eq.
  apply dbind_inv in H as [(payload & st3 & H3 & H)|(e & H3 & ->)]; injection H3 as Hp E3; subst; [|by eapply Hnone].
  apply map_err_ok in Hp.
  apply dbind_inv in H as [(f & st4 & H4 & H)|(e & H4 & ->)]; injection H4 as Hf E4; subst; [|by eapply Hnone].
  apply map_err_ok in Hf; unfold frame_new in Hf; case_decide; simplify_eq.
  apply dbind_inv in H as [(u & st5 & H5 & H)|(e & H5 & ->)];
    apply child_write_spec in H5 as (sent & rest & (W1 & W2 & W3 & W4 & W5) & Ws & W6 & W7);
    destruct Hs1 as (V1 & V2 & V3 & V4 & V5); rewrite app_nil_r in V1.
  - unfold dret in H; simplify_eq; exists payload, sent, rest; unfold child_sends; split_and!; try congruence; try lia.
    + intros code E; simplify_eq; split; [by apply W7|done].
  - exists payload, sent, rest; unfold child_sends; split_and!; try congruence; try lia; done.
Qed.

(** What is on the wire when the terminal has been written, or the write failed. *)
Definition child_wire (id : Z) (started : bool) (payload : list Z) : list Z :=
  child_frames id started payload ≫= frame_bytes.
Definition greeting (id : Z) : list Z := frame_bytes hello_frame ++ frame_bytes (SupervisorFrame KAccepted id []).
Definition started_bytes (id : Z) : list Z := frame_bytes (SupervisorFrame KStarted id []).

Lemma child_wire_eq (id : Z) (started : bool) (payload : list Z) :
  child_wire id started payload =
    greeting id ++ (if started then started_bytes id else []) ++ frame_bytes (SupervisorFrame KTerminal id payload).
Proof.
  unfold child_wire, child_frames, greeting, started_bytes; destruct started; cbn [app mbind list_bind];
    by rewrite ?app_nil_r, <- ?app_assoc.
Qed.

(** The terminal that is on the wire as [payload]. *)
Definition reported_terminal (stream : incoming) (id : Z) (started : bool) (payload : list Z)
    (st : child_drive_state) : Prop :=
  exists t, encode_payload terminal_to_vec t = Ok payload /\ cs_terminal (cd_session st) = Some t /\
    if started then
      exists entry options, cd_ran st = Some (entry, options) /\
        t = child_terminal (cd_requested st) (run entry options)
    else
      cd_ran st = None /\ exists reason f before after, t = no_output (expected_outcome reason) None None /\
        cancel_of reason_from_slice id reason f /\ in_bytes stream = before ++ frame_bytes f ++ after.

(** What follows the greeting; [stream] is what the parent sends from there. *)
Definition next_ok (stream : incoming) (request : supervisor_request) (id : Z) (r : result Z libdeno_error)
    (st : child_drive_state) : Prop :=
  cd_control st <> WorkerRunning /\
  (exists started payload rest, child_wire id started payload = cd_sent st ++ rest /\
     Z.of_nat (length payload) <= MAX_SUPERVISOR_FRAME_PAYLOAD /\
     (cd_ran st <> None -> started = true /\ exists tail, cd_sent st = greeting id ++ started_bytes id ++ tail) /\
     (forall tail, tail <> [] -> cd_sent st = greeting id ++ (if started then started_bytes id else []) ++ tail ->
        reported_terminal stream id started payload st) /\
     forall code, r = Ok code -> rest = [] /\ exists t, cs_terminal (cd_session st) = Some t /\ code = child_exit_code t) /\
  forall entry options, cd_ran st = Some (entry, options) ->
    entry = sq_entry request /\ options = supervised_options request /\
    exists rest, in_bytes stream = frame_bytes (SupervisorFrame KStart id []) ++ rest.

Lemma app_self_nil {A} (a b : list A) : a = a ++ b -> b = [].
Proof. intros H; apply (f_equal length) in H; rewrite length_app in H; by destruct b; simpl in H; [|lia]. Qed.

(** The greeting is all that was written. *)
Lemma next_ok_greeting (stream : incoming) (request : supervisor_request) (id : Z) (e : libdeno_error)
    (st : child_drive_state) :
  cd_control st <> WorkerRunning -> cd_sent st = greeting id -> cd_ran st = None -> next_ok stream request id (Err e) st.
Proof.
  intros Hc Hs Hr; unfold next_ok; rewrite Hr; split_and!; [done| |done].
  exists false, [], (frame_bytes (SupervisorFrame KTerminal id [])); split_and!; try done; [by rewrite child_wire_eq, Hs|].
  intros tail Ht E; rewrite Hs in E; cbn [app] in E; by apply (app_self_nil (greeting id)) in E.
Qed.

(** The terminal, with or without STARTED before it. *)
Lemma next_ok_terminal (stream : incoming) (request : supervisor_request) (id : Z) (t : supervisor_terminal)
    (k : Z * write_script) (started : bool) (st st' : child_drive_state) (r : result Z libdeno_error) :
  cs_request_id (cd_session st) = Some id -> cd_control st <> WorkerRunning ->
  cd_sent st = greeting id ++ (if started then started_bytes id else []) ->
  (if started then
     t = child_terminal (cd_requested st) (run (sq_entry request) (supervised_options request)) /\
     cd_ran st = Some (sq_entry request, supervised_options request) /\
     exists rest, in_bytes stream = frame_bytes (SupervisorFrame KStart id []) ++ rest
   else cd_ran st = None /\ exists reason f before after, t = no_output (expected_outcome reason) None None /\
        cancel_of reason_from_slice id reason f /\ in_bytes stream = before ++ frame_bytes f ++ after) ->
  supervisor_child_exit raw terminal_to_vec t k st = Some (r, st') -> next_ok stream request id r st'.
Proof.
  intros Hid Hc Hs Hrep H.
  destruct (child_exit_spec _ _ id _ _ _ Hid H) as (payload & sent & rest & (W1 & W2 & W3 & W4 & W5) & W6 & Wl & We & W7 & Wt).
  unfold next_ok, reported_terminal; rewrite W4, W5, W3, W1, Hs; split_and!; [done| |].
  - exists started, payload, rest; split_and!.
    + by rewrite child_wire_eq, W6, <- !app_assoc.
    + done.
    + intros Hran; destruct started; [|by destruct Hrep as [? _]]; split; [done|]; exists sent; by rewrite <- app_assoc.
    + intros tail Htail E; rewrite <- !app_assoc in E; apply app_inv_head, app_inv_head in E; subst sent.
      exists t; split_and!; [by apply We|by apply Wt; left|].
      destruct started; [|done]; destruct Hrep as (Et & Er & _); rewrite Er; eauto.
    + intros code Hr; destruct (W7 code Hr) as (-> & ->); split; [done|]; exists t; split; [|done].
      apply Wt; right; by rewrite Hr.
  - intros entry options Hran; destruct started; [|by destruct Hrep as [? _]; congruence].
    destruct Hrep as (_ & Er & Hb); rewrite Er in Hran; by simplify_eq.
Qed.

Lemma child_join_spec (sc : child_script) (id : Z) (st st' : child_drive_state) (r : result _ libdeno_error) :
  child_control_join reason_from_slice sc id st = Some (r, st') ->
  exists v, r = Ok v /\ cd_session st' = cd_session st /\ cd_sent st' = cd_sent st /\ cd_ran st' = cd_ran st /\
    cd_control st' = WorkerStopped.
Proof.
  unfold child_control_join; destruct (start_supervisor_child_control _ _ _ _ _ _) as [ce|]; [|done].
  intros H; simplify_eq/=; exists (ce_result ce); by split_and!.
Qed.

Lemma child_started_spec (sc : child_script) (request : supervisor_request) (id : Z) (stream : incoming)
    (st st' : child_drive_state) (r : result Z libdeno_error) :
  cs_request_id (cd_session st) = Some id -> cd_sent st = greeting id -> cd_ran st = None -> cd_control st = NoWorker ->
  (exists rest, in_bytes stream = frame_bytes (SupervisorFrame KStart id []) ++ rest) ->
  child_started raw terminal_to_vec reason_from_slice run sc request id st = Some (r, st') ->
  next_ok stream request id r st'.
Proof.
  intros Hid Hs Hr Hc Hb H; unfold child_started in H.
  apply dbind_inv in H as [(u & st1 & H1 & H)|(e & H1 & ->)]; unfold child_control_start in H1;
    apply dbind_inv in H1 as [(v & st2 & H2 & H1)|(e2 & H2 & E)]; unfold dret in H2; simplify_eq/=;
    [|by apply next_ok_greeting; rewrite ?Hc].
  apply dbind_inv in H as [(f & st3 & H3 & H)|(e & H3 & _)]; unfold dret, frame_new in H3; simplify_eq/=.
  match type of H with context [child_drive_write raw ?f ?k ?st] =>
    destruct (child_drive_write raw f k st) as [[[u|e] st4]|] eqn:H4 end; [| |done];
    apply child_write_spec in H4 as (sent & rest & (W1 & W2 & W3 & W4 & W5) & Ws & W6 & W7);
    cbn [cd_sent cd_in cd_requested cd_ran cd_control cd_session] in *; fold (started_bytes id) in W6.
  - rewrite (W7 eq_refl), app_nil_r in W6; subst sent.
    apply dbind_inv in H as [(v5 & st5 & H5 & H)|(e & H5 & _)]; unfold child_user_code in H5; simplify_eq.
    apply dbind_inv in H as [(w & st6 & H6 & H)|(e & H6 & _)]; apply child_join_spec in H6 as (x & ? & J1 & J2 & J3 & J4);
      [|done]; cbn [cd_session cd_sent cd_ran] in *.
    eapply (next_ok_terminal stream request id _ _ true); [..|exact H]; try congruence.
    split_and!; [done|exact J3|exact Hb].
  - apply dbind_inv in H as [(w & st6 & H6 & H)|(e' & H6 & _)]; apply child_join_spec in H6 as (x & ? & J1 & J2 & J3 & J4); [|done].
    unfold dret in H; simplify_eq; unfold next_ok; rewrite J4, J3, W4, Hr; split_and!; [done| |done].
    exists true, [], (rest ++ frame_bytes (SupervisorFrame KTerminal id [])); split_and!; try done.
    + by rewrite child_wire_eq, J2, W1, Hs, W6, <- !app_assoc.
    + intros tail Ht E; rewrite J2, W1, Hs, W6, <- !app_assoc in E; apply app_inv_head, app_self_nil, app_eq_nil in E.
      by destruct E.
Qed.

Lemma child_next_spec (sc : child_script) (request : supervisor_request) (id : Z)
    (st st' : child_drive_state) (r : result Z libdeno_error) :
  cd_session st = requested_session id -> cd_sent st = greeting id -> cd_ran st = None -> cd_control st = NoWorker ->
  Forall is_u8 (in_bytes (cd_in st)) ->
  child_next raw terminal_to_vec reason_from_slice run sc request id st = Some (r, st') ->
  next_ok (cd_in st) request id r st'.
Proof.
  intros Hse Hs Hr Hc Hu H; unfold child_next in H.
  apply dbind_inv in H as [(f & st1 & H1 & H)|(e & H1 & ->)]; apply child_read_spec in H1 as (R1 & R2 & R3 & R4 & R5 & R6);
    [|by apply next_ok_greeting; rewrite ?R5, ?R2, ?R4, ?Hc].
  destruct (R6 f eq_refl Hu) as (Eb & Hu1 & Hok); clear R6.
  apply dbind_inv in H as [(event & st2 & H2 & H)|(e & H2 & ->)];
    apply on_child_spec in H2 as ((V1 & V2 & V3 & V4 & V5) & Hr2 & Hc2); rewrite app_nil_r in V1;
    [|by apply next_ok_greeting; rewrite ?V5, ?V1, ?V4, ?R5, ?R2, ?R4, ?Hc].
  rewrite R1, Hse in Hr2, Hc2; symmetry in Hr2; apply map_err_ok in Hr2.
  destruct (receive_parent_frame reason_from_slice (requested_session id) f) as [r0 c] eqn:Ef; simpl in Hr2, Hc2; subst r0 c.
  apply receive_next in Ef as [(-> & -> & Ec)|(reason & Hcancel & -> & Ec)].
  - rewrite bool_decide_eq_false_2 in H by done; cbn [f_kind] in H.
    eapply child_started_spec; [..|exact H]; rewrite ?Ec; try congruence; [done|by eauto].
  - pose proof Hcancel as (Hk & _ & _); rewrite bool_decide_eq_true_2 in H by done; cbv beta zeta in H.
    eapply (next_ok_terminal (cd_in st) request id _ _ false); [..|exact H]; rewrite ?Ec; try congruence; [done| |].
    + by rewrite app_nil_r, V1, R2.
    + split; [congruence|]; exists reason, f, [], (in_bytes (cd_in st1)); by split_and!.
Qed.

(** What the handshake leaves; [stream] is all the parent sends. *)
Definition greeted (stream : incoming) (r : result (supervisor_request * Z) libdeno_error) (st : child_drive_state) : Prop :=
  cd_ran st = None /\ cd_control st = NoWorker /\
  (exists id rest, is_u64 id /\ greeting id = cd_sent st ++ rest) /\
  forall request id, r = Ok (request, id) ->
    cd_sent st = greeting id /\ cd_session st = requested_session id /\
    exists f, in_bytes stream = frame_bytes f ++ in_bytes (cd_in st) /\ Forall is_u8 (in_bytes (cd_in st)) /\ frame_ok f /\
      f_kind f = KRequest /\ f_request_id f = id /\ decode_payload request_from_slice (f_payload f) = Ok request.

Lemma greeted_early (stream : incoming) (e : libdeno_error) (id : Z) (st : child_drive_state) (rest : list Z) :
  cd_ran st = None -> cd_control st = NoWorker -> is_u64 id -> greeting id = cd_sent st ++ rest ->
  greeted stream (Err e) st.
Proof. intros Hr Hc Hi Hs; unfold greeted; split_and!; eauto; done. Qed.

Lemma child_handshake_spec (sc : child_script) (stream : incoming) (st : child_drive_state)
    (r : result (supervisor_request * Z) libdeno_error) :
  Forall is_u8 (in_bytes stream) ->
  child_handshake raw reason_from_slice request_from_slice token sc
    (ChildDriveState child_new [] stream None None NoWorker) = Some (r, st) ->
  greeted stream r st.
Proof.
  intros Hu H; unfold child_handshake in H.
  apply dbind_inv in H as [(hello & st1 & H1 & H)|(e & H1 & ->)]; injection H1 as Hf E1; subst;
    [|by eapply (greeted_early _ _ 0 _ (greeting 0))].
  apply map_err_ok in Hf; unfold frame_new in Hf; case_decide; simplify_eq; fold hello_frame in H.
  apply dbind_inv in H as [(u & st2 & H2 & H)|(e & H2 & ->)];
    apply child_write_spec in H2 as (sent & rest & (W1 & W2 & W3 & W4 & W5) & Ws & W6 & W7);
    cbn [cd_sent cd_in cd_requested cd_ran cd_control cd_session app] in *.
  2: { eapply (greeted_early _ _ 0); [done|done|done|]; unfold greeting; by rewrite W6, W1, <- app_assoc. }
  rewrite (W7 eq_refl), app_nil_r in W6; rewrite <- W6 in W1; clear W6 W7 rest sent.
  assert (forall i, greeting i = cd_sent st2 ++ frame_bytes (SupervisorFrame KAccepted i [])) as Hg
    by (intros i; unfold greeting; by rewrite W1).
  apply dbind_inv in H as [(f & st3 & H3 & H)|(e & H3 & ->)]; apply child_read_spec in H3 as (R1 & R2 & R3 & R4 & R5 & R6);
    [|eapply (greeted_early _ _ 0); rewrite ?R4, ?R5, ?R2; done].
  rewrite W2 in R6; destruct (R6 f eq_refl Hu) as (Eb & Hu1 & Hok); clear R6.
  apply dbind_inv in H as [(event & st4 & H4 & H)|(e & H4 & ->)];
    apply on_child_spec in H4 as ((V1 & V2 & V3 & V4 & V5) & Hr4 & Hc4); rewrite app_nil_r in V1;
    [|eapply (greeted_early _ _ 0); rewrite ?V4, ?V5, ?V1, ?R4, ?R5, ?R2; done].
  rewrite R1, Ws in Hr4, Hc4; symmetry in Hr4; apply map_err_ok in Hr4.
  destruct (receive_parent_frame reason_from_slice child_new f) as [r0 c] eqn:Ef; simpl in Hr4, Hc4; subst r0 c.
  apply receive_request in Ef as (Hk & -> & Ec).
  assert (cd_ran st4 = None /\ cd_control st4 = NoWorker /\ cd_sent st4 = cd_sent st2) as (Q1 & Q2 & Q3)
    by (split_and!; congruence).
  apply dbind_inv in H as [(request & st5 & H5 & H)|(e & H5 & ->)]; injection H5 as Hd E5; subst;
    [|eapply (greeted_early _ _ 0); rewrite ?Q3; done].
  apply map_err_ok in Hd.
  apply dbind_inv in H as [(id & st6 & H6 & H)|(e & H6 & _)]; unfold child_request_id in H6; rewrite Ec in H6; simplify_eq/=.
  apply dbind_inv in H as [(acc & st7 & H7 & H)|(e & H7 & _)]; unfold dret, frame_new in H7; simplify_eq/=.
  apply dbind_inv in H as [(w & st8 & H8 & H)|(e & H8 & ->)];
    apply child_write_spec in H8 as (sent & rest' & (X1 & X2 & X3 & X4 & X5) & Xs & X6 & X7).
  2: { eapply (greeted_early _ _ (f_request_id f)); [congruence|congruence|apply Hok|]; by rewrite Hg, X6, X1, Q3, <- app_assoc. }
  rewrite (X7 eq_refl), app_nil_r in X6; subst sent; unfold dret in H; simplify_eq.
  unfold greeted; split_and!; [congruence|congruence|exists (f_request_id f), []; split; [apply Hok|by rewrite app_nil_r, X1, Hg, Q3]|].
  intros request' id' E; simplify_eq; split_and!; [by rewrite X1, Hg, Q3|congruence|].
  exists f; rewrite X2, V2; by split_and!.
Qed.

Lemma reported_earlier (stream stream' : incoming) (before : list Z) (id : Z) (started : bool) (payload : list Z)
    (st : child_drive_state) :
  in_bytes stream' = before ++ in_bytes stream ->
  reported_terminal stream id started payload st -> reported_terminal stream' id started payload st.
Proof.
  intros E (t & H1 & H2 & H3); exists t; split_and!; try done; destruct started; [done|].
  destruct H3 as (H3 & reason & f & b & a & H4 & H5 & H6); split; [done|].
  exists reason, f, (before ++ b), a; split_and!; [done|done|by rewrite E, H6, <- app_assoc].
Qed.

(** See [child_run_truthful]. *)
Definition child_ok (sc : child_script) (r : result Z libdeno_error) (st : child_drive_state) : Prop :=
  cd_control st <> WorkerRunning /\
  exists id started payload rest, is_u64 id /\ Z.of_nat (length payload) <= MAX_SUPERVISOR_FRAME_PAYLOAD /\
    child_wire id started payload = cd_sent st ++ rest /\
    (forall entry options, cd_ran st = Some (entry, options) ->
       started = true /\ (exists tail, cd_sent st = greeting id ++ started_bytes id ++ tail) /\
       exists f request rest, in_bytes (ch_stream sc) = frame_bytes f ++ frame_bytes (SupervisorFrame KStart id []) ++ rest /\
         frame_ok f /\ f_kind f = KRequest /\ f_request_id f = id /\
         decode_payload request_from_slice (f_payload f) = Ok request /\
         entry = sq_entry request /\ options = supervised_options request) /\
    (forall tail, tail <> [] -> cd_sent st = greeting id ++ (if started then started_bytes id else []) ++ tail ->
       reported_terminal (ch_stream sc) id started payload st) /\
    (forall code, r = Ok code -> rest = [] /\ exists t, cs_terminal (cd_session st) = Some t /\ code = child_exit_code t).

(** A run that ends before the greeting is complete. *)
Lemma child_ok_early (sc : child_script) (e : libdeno_error) (st : child_drive_state) (rest : list Z) (id : Z) :
  cd_ran st = None -> cd_control st = NoWorker -> is_u64 id -> greeting id = cd_sent st ++ rest ->
  child_ok sc (Err e) st.
Proof.
  intros Hr Hc Hi Hg; unfold child_ok; rewrite Hr, Hc; split; [done|].
  exists id, false, [], (rest ++ frame_bytes (SupervisorFrame KTerminal id [])); split_and!; try done.
  - by rewrite child_wire_eq, Hg, <- app_assoc.
  - intros tail Ht E; rewrite E in Hg; cbn [app] in Hg; rewrite <- app_assoc in Hg.
    apply app_self_nil, app_eq_nil in Hg; by destruct Hg.
Qed.

Lemma child_run_ok (sc : child_script) (r : result Z libdeno_error) (st : child_drive_state) :
  Forall is_u8 (in_bytes (ch_stream sc)) -> child sc = Some (r, st) -> child_ok sc r st.
Proof.
  intros Hu H; unfold run_supervisor_child in H; set (st0 := ChildDriveState _ _ _ _ _ _) in H.
  assert (forall e, child_ok sc (Err e) st0) as Hearly
    by (intros e; by apply (child_ok_early sc e st0 (greeting 0) 0)).
  apply dbind_inv in H as [(u & st1 & H1 & H)|(e & H1 & ->)]; injection H1 as _ E1; rewrite <- ?E1; [subst st1|done].
  apply dbind_inv in H as [(v & st1 & H1 & H)|(e & H1 & ->)]; injection H1 as _ E1; rewrite <- ?E1; [subst st1|done].
  apply dbind_inv in H as [([request id] & st1 & H1 & H)|(e & H1 & ->)];
    apply child_handshake_spec in H1 as (G1 & G2 & (i & rest & G3 & G4) & G5); try done;
    [|by eapply child_ok_early].
  destruct (G5 request id eq_refl) as (Gs & Gc & f & Gb & Gu & Gok & Gk & Gi & Gd); clear G5; simpl in H.
  apply child_next_spec in H as (N1 & (started & payload & rest' & N2 & N3 & N4 & N5 & N6) & N7); try done.
  split; [done|]; exists id, started, payload, rest'; split_and!; try done.
  - rewrite <- Gi; apply Gok.
  - intros entry options Hran; destruct (N4 ltac:(congruence)) as [-> Ht]; destruct (N7 _ _ Hran) as (-> & -> & more & Hm).
    split_and!; [done|done|]; exists f, request, more; split_and!; try done; by rewrite Gb, Hm.
  - intros tail Ht E; eapply reported_earlier; [exact Gb|by eapply N5].
Qed.

(** C15. What [run_supervisor_child] writes, runs and reports, whatever the parent
    sends.  On the wire is a prefix of HELLO with its token, ACCEPTED for the
    request's identifier, STARTED and one terminal, or the same without STARTED
    when a CANCEL came instead of START.  User code runs only after REQUEST and
    START were read and STARTED was written entirely, and then it is the entry
    and the options of that request; the control thread has been joined on every
    path.  A terminal of which any byte was written is the session's: after the
    run it says what the run and the cancellation context say, without a run it
    reports the CANCEL that was read.  The exit code, when there is one, is that
    of the terminal, which was then written entirely. *)
Theorem child_run_truthful (sc : child_script) (r : result Z libdeno_error) (st : child_drive_state) :
  Forall is_u8 (in_bytes (ch_stream sc)) -> child sc = Some (r, st) ->
  cd_control st <> WorkerRunning /\
  exists id started payload rest, is_u64 id /\ Z.of_nat (length payload) <= MAX_SUPERVISOR_FRAME_PAYLOAD /\
    child_wire id started payload = cd_sent st ++ rest /\
    (forall entry options, cd_ran st = Some (entry, options) ->
       started = true /\ (exists tail, cd_sent st = greeting id ++ started_bytes id ++ tail) /\
       exists f request rest, in_bytes (ch_stream sc) = frame_bytes f ++ frame_bytes (SupervisorFrame KStart id []) ++ rest /\
         frame_ok f /\ f_kind f = KRequest /\ f_request_id f = id /\
         decode_payload request_from_slice (f_payload f) = Ok request /\
         entry = sq_entry request /\ options = supervised_options request) /\
    (forall tail, tail <> [] -> cd_sent st = greeting id ++ (if started then started_bytes id else []) ++ tail ->
       reported_terminal (ch_stream sc) id started payload st) /\
    (forall code, r = Ok code -> rest = [] /\ exists t, cs_terminal (cd_session st) = Some t /\ code = child_exit_code t).
Proof. apply child_run_ok. Qed.
End ChildRunSpec.

(** ** A run that completes and one that is cancelled before START *)
Definition sample_request : supervisor_request :=
  SupervisorRequest "/app/main.ts" "/app" ["--allow-read"] false false ["a"] None None None false false None.
Definition sample_request_slice (bytes : list Z) : result supervisor_request string :=
  match bytes with [9] => Ok sample_request | _ => Err "bad" end.

(** The other way of [sample_slice]. *)
Definition sample_vec (t : supervisor_terminal) : result (list Z) string :=
  if bool_decide (t = SupervisorTerminal OCompleted (Some 0) None [] [] false) then Ok [0]
  else if bool_decide (t = SupervisorTerminal OCancelled None None [] [] false) then Ok [3] else Err "bad".
Definition sample_reason_slice (bytes : list Z) : result cancel_reason string :=
  match bytes with [1] => Ok User | _ => Err "bad" end.

Definition sample_child (parent : list Z) : child_script :=
  let ok := IoProbe false 10 in
  let write := (10, WriteScript ok ok (replicate 4 (WriteTurn ok 10 (Sent 60) PollTimeout ok))) in
  let stream := Incoming parent (replicate 60 (ReadTurn ok (Ok ()) (RData 30) ok)) in
  ChildScript (Ok ()) (Ok ()) stream write 10 write 10 (Ok ()) (Ok ()) write (Ok ()) None
    [ControlTurn true (Ok ()) [] false 10 false None] write.

Definition sample_parent (next : supervisor_frame) : list Z :=
  [SupervisorFrame KRequest 1 [9]; next] ≫= frame_bytes.

(** The state a run leaves. *)
Definition child_left (o : option (result Z libdeno_error * child_drive_state)) : child_drive_state :=
  match o with
  | Some (_, st) => st
  | None => ChildDriveState child_new [] (Incoming [] []) None None NoWorker
  end.

Lemma child_run_truthful_witness :
  let raw := fun _ : Z => IoError OtherKind "os error" in
  let go sc := run_supervisor_child raw sample_vec sample_reason_slice sample_request_slice [5; 6]
    (fun _ _ => Ok (RunOutput 0 [] [] false)) sc in
  let sc := sample_child (sample_parent (SupervisorFrame KStart 1 [])) in
  let sc' := sample_child (sample_parent (SupervisorFrame KCancel 1 [1])) in
  go sc = Some (Ok 0, child_left (go sc)) /\ go sc' = Some (Ok 1, child_left (go sc')) /\
  cd_ran (child_left (go sc)) = Some (sq_entry sample_request, supervised_options sample_request) /\
  cd_ran (child_left (go sc')) = None /\ cd_control (child_left (go sc)) <> WorkerRunning.
Proof.
  intros; assert (go sc = Some (Ok 0, child_left (go sc))) as E by (vm_compute; reflexivity).
  split_and!; [exact E|vm_compute; reflexivity|vm_compute; reflexivity|vm_compute; reflexivity|].
  refine (proj1 (child_run_truthful raw sample_vec sample_reason_slice sample_request_slice [5; 6]
    (fun _ _ => Ok (RunOutput 0 [] [] false)) sc (Ok 0) (child_left (go sc)) _ E)).
  vm_compute; repeat (constructor; [split; [discriminate|reflexivity]|]); constructor.
Defined.
