(* ===== verification/EndToEnd.v ===== *)
(** * EndToEnd: both ends of a supervised session over one connection.

    Drive says what the parent ([drive_supervisor_session]) reads and writes,
    ChildRun what the child ([run_supervisor_child]) does.  Here the two are put
    at the ends of one byte stream each way, which may lose its tail but changes
    nothing: what the parent reports is what happened in the child. *)
From S2P Require Import Prelude Errors Cancel Options Execution Token Frame Session Protocol Supervised Handshake Phases Drive ControlThreads ChildRun.
Open Scope Z_scope.

(** ** Frames are a prefix code *)
Definition plain_read : read_turn := ReadTurn (IoProbe false 0) (Ok ()) (RData 0) (IoProbe false 0).

Lemma data_turns_plain (n : nat) : data_turns (replicate n plain_read) = n.
Proof. unfold data_turns; induction n as [|n IH]; [done|]; cbn [replicate sum_list_with]; rewrite IH; done. Qed.

Lemma frame_bytes_inj (d : frame_direction) (f g : supervisor_frame) (a b : list Z) :
  frame_ok f -> frame_ok g -> direction (f_kind f) = d -> direction (f_kind g) = d ->
  frame_bytes f ++ a = frame_bytes g ++ b -> f = g /\ a = b.
Proof.
  intros Hf Hg Df Dg E; set (turns := replicate (length (frame_bytes f ++ a)) plain_read).
  assert (Forall (delivers (Limits (Some (default 0 (checked_add 0 SUPERVISOR_FRAME_TIMEOUT))) false)) turns) as Hd
    by (apply Forall_replicate; by vm_compute).
  assert (data_turns turns = length (frame_bytes f ++ a)) as Hn by apply data_turns_plain.
  clearbody turns.
  destruct (after_first_byte_delivers f false 0 a turns Hf Hd) as [t1 E1]; [rewrite Hn, length_app; lia|].
  destruct (after_first_byte_delivers g false 0 b turns Hg Hd) as [t2 E2]; [rewrite Hn, E, length_app; lia|].
  rewrite Df, E in E1; rewrite Dg, E1 in E2; injection E2 as Hfg Hab _; done.
Qed.

Lemma frames_cons (f : supervisor_frame) (fs : list supervisor_frame) :
  (f :: fs) ≫= frame_bytes = frame_bytes f ++ (fs ≫= frame_bytes).
Proof. done. Qed.

(** Two runs of small frames of the child that start the same. *)
Definition child_frame_ok (f : supervisor_frame) : Prop := frame_ok f /\ direction (f_kind f) = ChildToParent.

Lemma frames_agree (f g : supervisor_frame) (fs gs : list supervisor_frame) (a b : list Z) :
  child_frame_ok f -> child_frame_ok g ->
  ((f :: fs) ≫= frame_bytes) ++ a = ((g :: gs) ≫= frame_bytes) ++ b ->
  f = g /\ (fs ≫= frame_bytes) ++ a = (gs ≫= frame_bytes) ++ b.
Proof.
  intros [Hf Df] [Hg Dg] E; rewrite !frames_cons, <- !app_assoc in E; by eapply frame_bytes_inj.
Qed.

Lemma small_frame_ok (k : frame_kind) (id : Z) (payload : list Z) :
  is_u64 id -> Z.of_nat (length payload) <= MAX_SUPERVISOR_FRAME_PAYLOAD -> direction k = ChildToParent ->
  child_frame_ok (SupervisorFrame k id payload).
Proof. by split. Qed.

(** ** The two ends *)
Section EndToEnd.
Context (raw raw' : Z -> io_error).
Context (terminal_to_vec : supervisor_terminal -> result (list Z) string)
        (terminal_from_slice : list Z -> result supervisor_terminal string)
        (reason_to_vec : cancel_reason -> result (list Z) string)
        (reason_from_slice : list Z -> result cancel_reason string)
        (request_from_slice : list Z -> result supervisor_request string).
Context (request_payload : list Z) (token : supervisor_token) (deadline : option Z) (default_reason : cancel_reason).
Context (run : path -> libdeno_options -> result run_output libdeno_error).
Local Notation parent := (drive_supervisor_session raw terminal_from_slice reason_to_vec request_payload token deadline default_reason).
Local Notation child := (run_supervisor_child raw' terminal_to_vec reason_from_slice request_from_slice token run).

(** serde_json decodes what it encoded. *)
Definition terminals_round_trip : Prop :=
  forall t payload, terminal_to_vec t = Ok payload -> terminal_from_slice payload = Ok t.

(** Only this child presents the token, and what the parent receives from it is
    what it wrote, up to where the connection ended. *)
Definition up_stream (sc : drive_script) (cst : child_drive_state) : Prop :=
  forall stream, authenticated_peer token sc stream ->
    exists more, cd_sent cst = frame_bytes (hello_frame token) ++ in_bytes stream ++ more.

(** What the child receives is what the parent wrote, the control worker's
    CANCEL after the main thread's frames, up to where the connection ended. *)
Definition down_stream (st : drive_state) (ch : child_script) : Prop :=
  exists worker more, dv_sent st ++ worker = in_bytes (ch_stream ch) ++ more.

Lemma encode_decode (t : supervisor_terminal) (payload : list Z) :
  terminals_round_trip -> encode_payload terminal_to_vec t = Ok payload ->
  decode_payload terminal_from_slice payload = Ok t.
Proof.
  intros Hrt H; unfold encode_payload in H; destruct (terminal_to_vec t) as [p|] eqn:E; simpl in H; [|done].
  case_decide; simplify_eq; unfold decode_payload; rewrite decide_False by lia; by rewrite (Hrt _ _ E).
Qed.

Lemma terminal_frame_sendable (t : supervisor_terminal) (f : supervisor_frame) :
  terminal_frame terminal_from_slice accepted_session t f -> child_frame_ok f.
Proof.
  intros (Hk & Hi & Hd); unfold child_frame_ok, frame_ok, payload_len; rewrite Hi, Hk; split_and!; try done.
  unfold decode_payload in Hd; case_decide; [done|]; lia.
Qed.

(** The frames the parent read are those the child wrote. *)
Lemma frames_read (id : Z) (started : bool) (payload a b : list Z) (pre frames : list supervisor_frame)
    (t : supervisor_terminal) :
  is_u64 id -> Z.of_nat (length payload) <= MAX_SUPERVISOR_FRAME_PAYLOAD ->
  Forall (started_frame accepted_session) pre -> frames <> [] ->
  Forall (terminal_frame terminal_from_slice accepted_session t) frames ->
  frame_bytes accepted_frame ++ ((pre ++ frames) ≫= frame_bytes) ++ a =
    frame_bytes (SupervisorFrame KAccepted id []) ++
    (((if started then [SupervisorFrame KStarted id []] else []) ++ [SupervisorFrame KTerminal id payload]) ≫= frame_bytes) ++ b ->
  id = SUPERVISOR_REQUEST_ID /\ length pre = (if started then 1 else 0)%nat /\
  decode_payload terminal_from_slice payload = Ok t.
Proof.
  intros Hid Hp Hpre Hne Hfr E.
  apply (frame_bytes_inj ChildToParent) in E as [E0 E]; [| | |done|done].
  2: split; [done|by vm_compute].
  2: split; [exact Hid|by vm_compute].
  injection E0 as <-; split; [done|].
  destruct frames as [|g frames]; [done|]; apply Forall_cons in Hfr as [Hg Hfr].
  pose proof (terminal_frame_sendable _ _ Hg) as Hgok; destruct Hg as (Gk & Gi & Gd).
  assert (forall h, started_frame accepted_session h -> h = SupervisorFrame KStarted SUPERVISOR_REQUEST_ID []) as Hst by done.
  assert (child_frame_ok (SupervisorFrame KTerminal SUPERVISOR_REQUEST_ID payload)) as Ht
    by (by apply small_frame_ok).
  assert (child_frame_ok (SupervisorFrame KStarted SUPERVISOR_REQUEST_ID [])) as Hs
    by (apply small_frame_ok; [done|by vm_compute|done]).
  destruct pre as [|h pre]; [|apply Forall_cons in Hpre as [Hh%Hst Hpre]; subst h]; destruct started; cbn [app] in E.
  - apply frames_agree in E as [E _]; [|done|done]; by rewrite E in Gk.
  - apply frames_agree in E as [E _]; [|done|done]; subst g; by split.
  - apply frames_agree in E as [_ E]; [|done|done].
    destruct pre as [|h pre]; [|apply Forall_cons in Hpre as [Hh%Hst Hpre]; subst h]; cbn [app] in E.
    + apply frames_agree in E as [E _]; [|done|done]; subst g; by split.
    + apply frames_agree in E as [E _]; [|done|done]; done.
  - apply frames_agree in E as [E _]; [|done|done]; done.
Qed.

(** The request the child ran is the parent's. *)
Lemma request_crossed (st : drive_state) (ch : child_script) (next rest : list Z) (f g : supervisor_frame) :
  down_stream st ch -> Z.of_nat (length request_payload) <= MAX_SUPERVISOR_FRAME_PAYLOAD ->
  frame_bytes (request_frame request_payload) ++ next = dv_sent st ->
  in_bytes (ch_stream ch) = frame_bytes f ++ rest -> frame_ok f -> f_kind f = KRequest ->
  f = request_frame request_payload.
Proof.
  intros (worker & more & E) Hl Hs Hb Hok Hk; rewrite <- Hs, Hb, <- !app_assoc in E; symmetry.
  eapply (frame_bytes_inj ParentToChild); [|exact Hok|done|by rewrite Hk|exact E].
  by split.
Qed.

(** See [supervised_end_to_end]. *)
Definition ends_agree (st : drive_state) (o : session_outcome) (ch : child_script) (cst : child_drive_state)
    (rc : result Z libdeno_error) : Prop :=
  cs_terminal (cd_session cst) = Some (so_terminal o) /\
  match cd_ran cst with
  | Some (entry, options) =>
      dv_started st = 1%nat /\ so_terminal o = child_terminal (cd_requested cst) (run entry options) /\
      exists request, decode_payload request_from_slice request_payload = Ok request /\
        entry = sq_entry request /\ options = supervised_options request
  | None =>
      dv_started st = 0%nat /\ exists reason f before after,
        so_terminal o = no_output (expected_outcome reason) None None /\
        cancel_of reason_from_slice SUPERVISOR_REQUEST_ID reason f /\
        in_bytes (ch_stream ch) = before ++ frame_bytes f ++ after
  end /\
  (forall code, rc = Ok code -> code = child_exit_code (so_terminal o)).

Lemma ends_ok (sc : drive_script) (st : drive_state) (o : session_outcome)
    (ch : child_script) (cst : child_drive_state) (rc : result Z libdeno_error) :
  terminals_round_trip -> peers_send_bytes sc -> Forall is_u8 (in_bytes (ch_stream ch)) ->
  up_stream sc cst -> down_stream st ch ->
  parent sc = Some (Ok o, st) -> child ch = Some (rc, cst) ->
  ends_agree st o ch cst rc.
Proof.
  unfold ends_agree; intros Hrt Hpb Hcb Hup Hdown Hp Hc.
  destruct (drive_session_ok _ _ _ _ _ _ _ _ _ _ Hpb Hp) as (_ & _ & _ & _ & (next & rest & P1 & P2 & P3) & P4).
  rewrite (P3 eq_refl), app_nil_r in P1.
  destruct (P4 o eq_refl) as (Pl & _ & _ & _ & stream & pre & frames & A & B1 & B2 & B3 & B4 & B5).
  destruct (child_run_ok _ _ _ _ _ _ _ _ _ Hcb Hc)
    as (_ & id & started & payload & rest' & C1 & C2 & C3 & C4 & C5 & C6).
  destruct (Hup stream A) as [more U].
  assert (frame_bytes (hello_frame token) ++ frame_bytes accepted_frame ++ ((pre ++ frames) ≫= frame_bytes) ++
            (in_bytes (dv_in st) ++ more ++ rest') = child_wire token id started payload) as E
    by (rewrite C3, U, B1, <- !app_assoc; done).
  unfold child_wire, child_frames in E; cbn [app] in E; rewrite !frames_cons in E; apply app_inv_head in E.
  rewrite <- (app_nil_r ((_ ++ [SupervisorFrame KTerminal id payload]) ≫= frame_bytes)) in E.
  destruct (frames_read id started payload _ [] pre frames (so_terminal o) C1 C2 B4 B3 B5 E) as (-> & Hn & Hd).
  clear E; assert (exists tail, tail <> [] /\
      cd_sent cst = greeting token SUPERVISOR_REQUEST_ID ++
        (if started then started_bytes SUPERVISOR_REQUEST_ID else []) ++ tail) as (tail & Ht & Hs).
  { assert (frames ≫= frame_bytes <> []) as Hf.
    { destruct frames as [|g frames]; [done|]; rewrite frames_cons; unfold frame_bytes; by simpl. }
    exists ((frames ≫= frame_bytes) ++ in_bytes (dv_in st) ++ more); split; [by intros [? _]%app_eq_nil|].
    rewrite U, B1, bind_app; unfold greeting; fold accepted_frame; rewrite <- !app_assoc; do 3 f_equal.
    destruct started, pre as [|h [|]]; try done; simpl.
    apply Forall_cons in B4 as [B4 _]; unfold started_frame in B4; rewrite B4; by rewrite app_nil_r. }
  destruct (C5 tail Ht Hs) as (t & T1 & T2 & T3).
  assert (t = so_terminal o) as -> by (apply (encode_decode _ _ Hrt) in T1; congruence).
  split_and!; [done| |intros code Hcode; destruct (C6 code Hcode) as (_ & t' & E1 & E2); congruence].
  destruct started.
  - destruct T3 as (entry & options & T3 & T4); rewrite T3; split_and!; [congruence|done|].
    destruct (C4 entry options T3) as (_ & _ & f & request & rest'' & F1 & F2 & F3 & F4 & F5 & F6 & F7).
    rewrite (request_crossed st ch next _ f f Hdown Pl P1 F1 F2 F3) in F5; eauto.
  - destruct T3 as (T3 & reason & f & before & after & T4 & T5 & T6); rewrite T3; split; [congruence|].
    by exists reason, f, before, after.
Qed.
(** C9. End to end, a supervised run reports what happened in the child.  When the
    only process that presents the token is a child of this protocol and the
    connection loses at most the end of each stream, an outcome of the parent is
    the terminal of the child's session.  If user code ran, it was the parent's
    own request, entry and options, it was announced as started, and the
    terminal says what the run returned and whether it was cancelled; if none
    ran, nothing was announced and the terminal reports the CANCEL the child
    read.  The child's exit code, when it has one, is that of the terminal the
    parent reports. *)
Theorem supervised_end_to_end (sc : drive_script) (st : drive_state) (o : session_outcome)
    (ch : child_script) (cst : child_drive_state) (rc : result Z libdeno_error) :
  terminals_round_trip -> peers_send_bytes sc -> Forall is_u8 (in_bytes (ch_stream ch)) ->
  up_stream sc cst -> down_stream st ch ->
  parent sc = Some (Ok o, st) -> child ch = Some (rc, cst) ->
  cs_terminal (cd_session cst) = Some (so_terminal o) /\
  match cd_ran cst with
  | Some (entry, options) =>
      dv_started st = 1%nat /\ so_terminal o = child_terminal (cd_requested cst) (run entry options) /\
      exists request, decode_payload request_from_slice request_payload = Ok request /\
        entry = sq_entry request /\ options = supervised_options request
  | None =>
      dv_started st = 0%nat /\ exists reason f before after,
        so_terminal o = no_output (expected_outcome reason) None None /\
        cancel_of reason_from_slice SUPERVISOR_REQUEST_ID reason f /\
        in_bytes (ch_stream ch) = before ++ frame_bytes f ++ after
  end /\
  (forall code, rc = Ok code -> code = child_exit_code (so_terminal o)).
Proof. apply ends_ok. Qed.
End EndToEnd.

(** Both ends of one run: what each reads is what the other wrote. *)
Lemma sample_round_trip : terminals_round_trip sample_vec sample_slice.
Proof. by intros t payload; unfold sample_vec; repeat case_bool_decide; intros; simplify_eq. Qed.

(** What the child of [sample_child] writes is what the peer of [sample_script] sends. *)
Lemma sample_up (raw : Z -> io_error) :
  let go := run_supervisor_child raw sample_vec sample_reason_slice sample_request_slice [5; 6]
    (fun _ _ => Ok (RunOutput 0 [] [] false)) (sample_child (sample_parent (SupervisorFrame KStart 1 []))) in
  up_stream [5; 6] (sample_script (sample_peer [SupervisorFrame KStarted 1 []; SupervisorFrame KTerminal 1 [0]]) None)
    (child_left go).
Proof.
  intros go stream (t & peer & l & Ht & Ha & Hr).
  apply list_elem_of_singleton in Ht; subst t; apply list_elem_of_singleton in Ha; injection Ha as Hp; subst peer.
  apply read_frame_sound in Hr as [Hr _].
  2: { vm_compute; repeat (constructor; [split; [discriminate|reflexivity]|]); constructor. }
  exists []; rewrite app_nil_r; unfold hello_frame; rewrite <- Hr; vm_compute; reflexivity.
Qed.

Lemma supervised_end_to_end_witness :
  let raw := fun _ : Z => IoError OtherKind "os error" in
  let run := fun (_ : path) (_ : libdeno_options) => Ok (E := libdeno_error) (RunOutput 0 [] [] false) in
  let go sc := drive_supervisor_session raw sample_slice (fun _ => Ok [1]) [9] [5; 6] None User sc in
  let child ch := run_supervisor_child raw sample_vec sample_reason_slice sample_request_slice [5; 6] run ch in
  let up := [SupervisorFrame KStarted 1 []; SupervisorFrame KTerminal 1 [0]] in
  let down := sample_parent (SupervisorFrame KStart 1 []) in
  let sc := sample_script (sample_peer up) None in
  let ch := sample_child down in
  let completed := SupervisorTerminal OCompleted (Some 0) None [] [] false in
  go sc = Some (Ok (SessionOutcome completed None TransportClean), left_state (go sc)) /\
  child ch = Some (Ok 0, child_left (child ch)) /\
  cs_terminal (cd_session (child_left (child ch))) = Some completed.
Proof.
  intros.
  assert (go sc = Some (Ok (SessionOutcome completed None TransportClean), left_state (go sc))) as Ep
    by (vm_compute; reflexivity).
  assert (child ch = Some (Ok 0, child_left (child ch))) as Ec by (vm_compute; reflexivity).
  split; [exact Ep|split; [exact Ec|]].
  refine (proj1 (supervised_end_to_end raw raw sample_vec sample_slice (fun _ => Ok [1]) sample_reason_slice
    sample_request_slice [9] [5; 6] None User run sc _ (SessionOutcome completed None TransportClean) ch _ (Ok 0)
    sample_round_trip _ _ _ _ Ep Ec)).
  - apply sample_script_bytes; vm_compute; repeat (constructor; [split; [discriminate|reflexivity]|]); constructor.
  - vm_compute; repeat (constructor; [split; [discriminate|reflexivity]|]); constructor.
  - exact (sample_up raw).
  - exists [], []. vm_compute; reflexivity.
Defined.
