(* ===== verification/Submission.v ===== *)
(** * Submission: a submission on the subprocess backend, from the executor to
    the child and back.

    Composes the executor's call ([execute_submission], Execution), the
    supervised run around the session
    ([run_supervised_subprocess_with_executable_observed_and_started] of
    src/subprocess.rs, Supervised), the session (Drive) and the child (ChildRun)
    over the connection of EndToEnd. *)
From S2P Require Import Prelude Errors Cancel Options Execution Token Frame Session Protocol Supervised Paths Entry Handshake Phases Drive ControlThreads ChildRun EndToEnd Timing.
Open Scope Z_scope.

(** The answers of [env], with those the composition computes itself. *)
Definition with_request (env : supervised_env) (cwd : result path libdeno_error)
    (request : path -> result supervisor_request libdeno_error) (encode : result unit io_error) : supervised_env :=
  SupervisedEnv (ev_started env) (ev_now env) (ev_requested env) cwd request encode
    (ev_token env) (ev_bind env) (ev_local_addr env) (ev_spawn env) (ev_readers env) (ev_session env)
    (ev_cleanup env) (ev_capture env) (ev_deadline_won env) (ev_requested_after env).
Definition with_session (env : supervised_env) (session : result session_outcome libdeno_error)
    (after : option cancel_reason) : supervised_env :=
  SupervisedEnv (ev_started env) (ev_now env) (ev_requested env) (ev_cwd env) (ev_request env) (ev_encode env)
    (ev_token env) (ev_bind env) (ev_local_addr env) (ev_spawn env) (ev_readers env) session
    (ev_cleanup env) (ev_capture env) (ev_deadline_won env) after.

Section Run.
Context (raw : Z -> io_error).
Context (terminal_from_slice : list Z -> result supervisor_terminal string)
        (reason_to_vec : cancel_reason -> result (list Z) string)
        (request_to_vec : supervisor_request -> result (list Z) string).
Context (validate_permission_args : list string -> bool -> bool -> path -> result unit libdeno_error)
        (static_feature_names : list string -> result (list string) string).
Context (h : host) (token : supervisor_token).

Definition request_env (env : supervised_env) (now : Z) (entry : path) (options : libdeno_options) : supervised_env :=
  let cwd := effective_cwd h options in
  let request := make_supervisor_request validate_permission_args static_feature_names now entry options in
  let payload :=
    let? cwd := cwd in
    let? request := request cwd in
    map_err Io (encode_payload request_to_vec request) in
  with_request env cwd request (match payload with Err (Io e) => Err e | _ => Ok () end).

(** [run_supervised_subprocess_with_executable_observed_and_started]: the result,
    and the session with the state it left when there was one; [None] while it
    waits. *)
Definition run_supervised_session (env : supervised_env) (sc : drive_script) (now : Z) (entry : path)
    (options : libdeno_options) (default_reason : cancel_reason) (parent_deadline : option Z)
  : option (result supervisor_run_result supervised_subprocess_error *
            option (result session_outcome libdeno_error * drive_state)) :=
  let env := request_env env now entry options in
  let alone := Some (run_supervised env parent_deadline options, None) in
  match prepare env parent_deadline options, effective_supervisor_deadline (ev_started env) parent_deadline (o_execution_deadline options) with
  | Ok request, Ok deadline =>
      if captures options && negb (is_ok (ev_readers env)) then alone
      else
        match encode_payload request_to_vec request with
        | Err _ => alone
        | Ok payload =>
            match drive_supervisor_session raw terminal_from_slice reason_to_vec payload token deadline default_reason sc with
            | None => None
            | Some (session, st) =>
                Some (run_supervised (with_session env session (dv_requested st)) parent_deadline options,
                      Some (session, st))
            end
        end
  | _, _ => alone
  end.

(** ** What a run hands to its session *)
Lemma prepare_request (env : supervised_env) (pd : option Z) (options : libdeno_options) (request : supervisor_request) :
  prepare env pd options = Ok request -> exists cwd, ev_cwd env = Ok cwd /\ ev_request env cwd = Ok request.
Proof.
  unfold prepare; cbv zeta; destruct (effective_supervisor_deadline _ _ _) as [d|]; [|done]; cbn [map_err].
  destruct (ev_requested env); [done|]; destruct (is_some_and d _); [done|].
  destruct (ev_cwd env) as [cwd|]; [|done]; cbn [map_err].
  destruct (ev_request env cwd) as [q|] eqn:Hq; [|done]; cbn [map_err]; intros H; exists cwd.
  by destruct (ev_encode env), (ev_token env), (ev_bind env), (ev_local_addr env), (ev_spawn env); simplify_eq/=.
Qed.

Lemma make_request_fields (now : Z) (entry cwd : path) (options : libdeno_options) (request : supervisor_request) :
  make_supervisor_request validate_permission_args static_feature_names now entry options cwd = Ok request ->
  sq_entry request = entry /\ supervised_options request =
    LibdenoOptions (o_permissions options) (o_allow_all_permissions options) (o_prompt options) (o_args options)
      (Some cwd) (o_max_heap_bytes options) (o_execution_deadline options) false false None (o_features options) None.
Proof.
  unfold make_supervisor_request; destruct (o_extensions options); [done|].
  intros (_ & _ & (limit & _ & H)%bind_ok)%bind_ok; simplify_eq; by split.
Qed.

(** A run that had a session. *)
Lemma run_session_inv (env : supervised_env) (sc : drive_script) (now : Z) (entry : path) (options : libdeno_options)
    (reason : cancel_reason) (pd : option Z) (r : result supervisor_run_result supervised_subprocess_error)
    (session : result session_outcome libdeno_error) (st : drive_state) :
  run_supervised_session env sc now entry options reason pd = Some (r, Some (session, st)) ->
  exists cwd request payload deadline,
    effective_cwd h options = Ok cwd /\ encode_payload request_to_vec request = Ok payload /\
    sq_entry request = entry /\ supervised_options request =
      LibdenoOptions (o_permissions options) (o_allow_all_permissions options) (o_prompt options) (o_args options)
        (Some cwd) (o_max_heap_bytes options) (o_execution_deadline options) false false None (o_features options) None /\
    drive_supervisor_session raw terminal_from_slice reason_to_vec payload token deadline reason sc = Some (session, st) /\
    r = run_supervised (with_session (request_env env now entry options) session (dv_requested st)) pd options /\
    r = conclude (with_session (request_env env now entry options) session (dv_requested st)) (captures options).
Proof.
  unfold run_supervised_session; cbv zeta; set (env' := request_env env now entry options).
  destruct (prepare env' pd options) as [request|] eqn:Hp; [|done].
  destruct (effective_supervisor_deadline _ _ _) as [deadline|]; [|done].
  destruct (captures options && negb (is_ok (ev_readers env'))) eqn:Hr; [done|].
  destruct (encode_payload request_to_vec request) as [payload|] eqn:He; [|done].
  destruct (drive_supervisor_session _ _ _ _ _ _ _ _) as [[s st']|] eqn:Hd; [|done]; intros H; simplify_eq.
  pose proof (prepare_request _ _ _ _ Hp) as (cwd & Hc & Hq); apply make_request_fields in Hq as [Hq1 Hq2].
  exists cwd, request, payload, deadline; split_and!; try done.
  unfold run_supervised; fold (captures options).
  change (prepare (with_session env' session (dv_requested st)) pd options) with (prepare env' pd options).
  rewrite Hp; cbn [ev_readers with_session]; by rewrite Hr.
Qed.
End Run.

(** ** The verdict of the child in the parent's terms *)

(** A terminal of this protocol's child. *)
Lemma cancelled_terminal (reason : cancel_reason) (r : result run_output libdeno_error) :
  no_output (expected_outcome reason) None None = child_terminal (Some reason) r.
Proof. by destruct reason. Qed.

Lemma completed_terminal (requested : option cancel_reason) (r : result run_output libdeno_error) (code : Z) :
  st_outcome (child_terminal requested r) = OCompleted -> st_exit_code (child_terminal requested r) = Some code ->
  requested = None /\ exists output, r = Ok output /\ ro_exit_code output = code.
Proof.
  unfold child_terminal; destruct requested as [[]|]; [done..|]; destruct r as [output|[]]; try done.
  intros _ [= <-]; by split; [|exists output].
Qed.

(** What a caller of the executor is told of a failed run. *)
Definition told (c : option failure_category) (reason : cancel_reason) : execution_error :=
  match c with Some c => ExSupervisor c | None => ExLibdeno (supervisor_cancel_error reason) end.

(** ** From the executor to the child and back *)
Section Submission.
Context (raw raw' : Z -> io_error).
Context (terminal_to_vec : supervisor_terminal -> result (list Z) string)
        (terminal_from_slice : list Z -> result supervisor_terminal string)
        (reason_to_vec : cancel_reason -> result (list Z) string)
        (reason_from_slice : list Z -> result cancel_reason string)
        (request_to_vec : supervisor_request -> result (list Z) string)
        (request_from_slice : list Z -> result supervisor_request string).
Context (validate_permission_args : list string -> bool -> bool -> path -> result unit libdeno_error)
        (static_feature_names : list string -> result (list string) string).
Context (h : host) (token : supervisor_token).
(** The run in the child, and the executor's own. *)
Context (run : path -> libdeno_options -> result run_output libdeno_error).
Context (canonicalize : path -> result path io_error).
Context (run_cancellable_until : path -> libdeno_options -> cancellation_context -> option Z ->
           result run_output captured_run_error * list (phase * Z)).
Context (run_supervised_observed : path -> path -> libdeno_options -> cancellation_context ->
           cancel_reason -> option Z ->
           result supervisor_run_result supervised_subprocess_error * list (phase * Z)).
Local Notation submission := (execute_submission canonicalize run_cancellable_until run_supervised_observed).
Local Notation supervised := (run_supervised_session raw terminal_from_slice reason_to_vec request_to_vec
  validate_permission_args static_feature_names h token).
Local Notation child := (run_supervisor_child raw' terminal_to_vec reason_from_slice request_from_slice token run).

(** serde_json decodes the requests it encoded. *)
Definition requests_round_trip : Prop :=
  forall q payload, request_to_vec q = Ok payload -> request_from_slice payload = Ok q.

(** The options the script runs with: those of the submission, in the project
    directory and within the time that is left, without capture. *)
Definition script_options (cwd : path) (options : libdeno_options) : libdeno_options :=
  LibdenoOptions (o_permissions options) (o_allow_all_permissions options) (o_prompt options) (o_args options)
    (Some cwd) (o_max_heap_bytes options) (o_execution_deadline options) false false None (o_features options) None.

Lemma decode_encoded (q : supervisor_request) (payload : list Z) :
  requests_round_trip -> encode_payload request_to_vec q = Ok payload ->
  decode_payload request_from_slice payload = Ok q.
Proof.
  intros Hrt H; unfold encode_payload in H; destruct (request_to_vec q) as [p|] eqn:E; simpl in H; [|done].
  case_decide; simplify_eq; unfold decode_payload; rewrite decide_False by lia; by rewrite (Hrt _ _ E).
Qed.

(** What the session of a run says, once it has an outcome. *)
Lemma session_verdict (env : supervised_env) (sc : drive_script) (now : Z) (entry : path) (options : libdeno_options)
    (reason : cancel_reason) (pd : option Z) (r : result supervisor_run_result supervised_subprocess_error)
    (o : session_outcome) (st : drive_state) (ch : child_script) (cst : child_drive_state) (rc : result Z libdeno_error) :
  terminals_round_trip terminal_to_vec terminal_from_slice -> requests_round_trip ->
  peers_send_bytes sc -> Forall is_u8 (in_bytes (ch_stream ch)) ->
  up_stream token sc cst -> down_stream st ch ->
  supervised env sc now entry options reason pd = Some (r, Some (Ok o, st)) -> child ch = Some (rc, cst) ->
  exists cwd requested result, effective_cwd h options = Ok cwd /\ so_terminal o = child_terminal requested result /\
    (forall code, rc = Ok code -> code = child_exit_code (so_terminal o)) /\
    match cd_ran cst with
    | Some (e, opts) => e = entry /\ opts = script_options cwd options /\ dv_started st = 1%nat /\
        requested = cd_requested cst /\ result = run e opts
    | None => requested <> None /\ dv_started st = 0%nat
    end.
Proof.
  intros Hrt Hrq Hpb Hcb Hup Hdown Hs Hc.
  apply run_session_inv in Hs as (cwd & q & payload & deadline & Hcwd & He & Hq1 & Hq2 & Hd & _ & _).
  apply (decode_encoded q payload Hrq) in He; exists cwd.
  destruct (ends_ok raw raw' terminal_to_vec terminal_from_slice reason_to_vec reason_from_slice request_from_slice
    payload token deadline reason run sc st o ch cst rc Hrt Hpb Hcb Hup Hdown Hd Hc) as (_ & E & Hcode).
  destruct (cd_ran cst) as [[e opts]|].
  - destruct E as (E1 & E2 & q' & E3 & -> & ->); rewrite He in E3; injection E3 as <-.
    exists (cd_requested cst), (run (sq_entry q) (supervised_options q)); split_and!; try done; by rewrite Hq1.
  - destruct E as (E1 & why & f & before & after & E2 & _ & _).
    exists (Some why), (Ok (RunOutput 0 [] [] false)); split_and!; try done; by rewrite E2, (cancelled_terminal why (Ok (RunOutput 0 [] [] false))).
Qed.

(** The result of a submission, when its run had a session. *)
Lemma submission_result (x : executor) (ck : clock) (rq : execution_request) (deadline : option Z)
    (c : cancellation_context) (reason : cancel_reason) (t : execution_timing) (where_ : path)
    (options : libdeno_options) (d : option Z) (r : result supervisor_run_result supervised_subprocess_error)
    (phases : list (phase * Z)) :
  x_state x = BackSubprocess where_ -> submission_inputs canonicalize x ck rq deadline = Ok (options, d) ->
  run_supervised_observed where_ (rq_entry rq) options c reason deadline = (r, phases) ->
  match submission x ck rq deadline c reason t, r with
  | Ok res, Ok s => ex_exit_code res = sr_exit_code s /\ er_dispatched (ex_report res) = Some Subprocess
  | Err f, Err e => xf_error f = match se_category e with Some k => ExSupervisor k | None => ExLibdeno (se_error e) end
  | _, _ => False
  end.
Proof.
  intros Hx Hi Hr; unfold execute_submission; rewrite Hi, Hx, Hr; unfold finish_supervised; by destruct r.
Qed.

(** C8. A submission on the subprocess backend reports what happened in the child
    process, from the executor to the script and back.  When the run reached a
    session whose peer is this child, and the session gave an outcome: if the
    script ran, it ran the entry of the submission, with its permissions,
    arguments and limits, in the project directory and within the time the
    submission had left, and was announced as started once.  An exit code is only
    returned for a script that ran, was not cancelled and returned that code.
    When the child was reaped with the status its terminal announces and its
    output was collected in time, a failure is the child's own as well: the
    category of the error its run ended with, the timeout or the cancellation
    that stopped it, or, when the parent had recorded a cancellation before the
    terminal came, that cancellation. *)
Theorem submission_reports_child (x : executor) (ck : clock) (rq : execution_request) (deadline : option Z)
    (c : cancellation_context) (reason : cancel_reason) (t : execution_timing) (where_ : path)
    (options : libdeno_options) (d : option Z) (env : supervised_env) (now : Z) (sc : drive_script)
    (r : result supervisor_run_result supervised_subprocess_error) (phases : list (phase * Z))
    (o : session_outcome) (st : drive_state)
    (ch : child_script) (cst : child_drive_state) (rc : result Z libdeno_error) :
  terminals_round_trip terminal_to_vec terminal_from_slice -> requests_round_trip ->
  peers_send_bytes sc -> Forall is_u8 (in_bytes (ch_stream ch)) ->
  x_state x = BackSubprocess where_ -> submission_inputs canonicalize x ck rq deadline = Ok (options, d) ->
  run_supervised_observed where_ (rq_entry rq) options c reason deadline = (r, phases) ->
  supervised env sc now (rq_entry rq) options reason deadline = Some (r, Some (Ok o, st)) ->
  child ch = Some (rc, cst) -> up_stream token sc cst -> down_stream st ch ->
  exists cwd, effective_cwd h options = Ok cwd /\
  (forall e opts, cd_ran cst = Some (e, opts) ->
     e = rq_entry rq /\ opts = script_options cwd options /\ dv_started st = 1%nat) /\
  (forall res, submission x ck rq deadline c reason t = Ok res ->
     er_dispatched (ex_report res) = Some Subprocess /\ cd_requested cst = None /\
     exists output, cd_ran cst = Some (rq_entry rq, script_options cwd options) /\
       run (rq_entry rq) (script_options cwd options) = Ok output /\ ro_exit_code output = ex_exit_code res) /\
  (forall f, submission x ck rq deadline c reason t = Err f ->
     ev_cleanup env = Ok (ChildReap (Some (reaped_status (so_terminal o))) false) ->
     captures options && ev_deadline_won env = false ->
     match so_cancellation_before_terminal o with
     | Some why =>
         xf_error f = told (if bool_decide (why = Deadline /\ st_outcome (so_terminal o) = ODeadline)
                            then Some CatTimeout else None) why
     | None =>
         exists requested result category, reported requested result = Err category /\ xf_error f = told category User /\
           match cd_ran cst with
           | Some (e, opts) => requested = cd_requested cst /\ result = run e opts
           | None => requested <> None
           end
     end).
Proof.
  intros Hrt Hrq Hpb Hcb Hx Hi Hr Hs Hc Hup Hdown.
  destruct (session_verdict _ _ _ _ _ _ _ _ _ _ _ _ _ Hrt Hrq Hpb Hcb Hup Hdown Hs Hc)
    as (cwd & requested & result & Hcwd & Ht & _ & Hran).
  pose proof (submission_result x ck rq deadline c reason t _ _ _ _ _ Hx Hi Hr) as Hsub.
  apply run_session_inv in Hs as (cwd' & q & payload & dl & Hcwd' & _ & _ & _ & _ & Hr1 & Hr2).
  exists cwd; split_and!; [done|intros e opts E; rewrite E in Hran; naive_solver| |].
  - intros res E; rewrite E in Hsub; destruct r as [s|]; [|done]; destruct Hsub as [Hcode Hdis].
    symmetry in Hr1; apply run_supervised_ok in Hr1 as (o' & reap & Ho & _ & _ & Hcomp & Hexit & _).
    cbn [ev_session with_session] in Ho; injection Ho as <-; rewrite Ht in Hcomp, Hexit.
    destruct (completed_terminal _ _ _ Hcomp Hexit) as (-> & output & -> & Hout).
    destruct (cd_ran cst) as [[e opts]|]; [|by destruct Hran].
    destruct Hran as (-> & -> & _ & <- & Hrun); split_and!; try done; exists output; by rewrite Hcode.
  - intros f E Hclean Hwon; rewrite E in Hsub; destruct r as [|e]; [done|].
    destruct o as [term before transport]; cbn [so_terminal so_cancellation_before_terminal] in *; subst term.
    pose proof (conclude_verdict (with_session (request_env request_to_vec validate_permission_args static_feature_names
      h env now (rq_entry rq) options) (Ok (SessionOutcome (child_terminal requested result) before transport))
      (dv_requested st)) (captures options) requested before result transport eq_refl Hclean Hwon) as Hv.
    rewrite <- Hr2 in Hv; unfold told; rewrite Hsub; destruct before as [why|]; destruct Hv as [Hv1 Hv2].
    + destruct (se_category e) as [k|]; [by rewrite <- Hv1|]; rewrite <- Hv1; by rewrite Hv2.
    + exists requested, result, (se_category e); split_and!; [done|by destruct (se_category e); [|rewrite Hv2]|].
      destruct (cd_ran cst) as [[]|]; naive_solver.
Qed.
End Submission.

(** ** A submission that completes *)
#[local] Instance supervisor_request_eq_dec : EqDecision supervisor_request.
Proof. solve_decision. Defined.

Definition sample_request_vec (q : supervisor_request) : result (list Z) string :=
  if bool_decide (q = ChildRun.sample_request) then Ok [9] else Err "bad".

Lemma sample_requests_round_trip : requests_round_trip sample_request_vec sample_request_slice.
Proof. by intros q payload; unfold sample_request_vec; case_bool_decide; intros; simplify_eq. Qed.

Definition sample_host : host := Host (Ok "/") Ok (fun _ => true) (fun _ => true) (fun _ => Ok EmptyString).
Definition sample_submission : libdeno_options :=
  LibdenoOptions ["--allow-read"] false false ["a"] None None None false false None None None.

(** The state a session leaves. *)
Definition session_state {A B} (o : option (A * option (B * drive_state))) : drive_state :=
  match o with Some (_, Some (_, st)) => st | _ => left_state None end.

Lemma submission_reports_child_witness :
  let raw := fun _ : Z => IoError OtherKind "os error" in
  let run := fun (_ : path) (_ : libdeno_options) => Ok (E := libdeno_error) (RunOutput 0 [] [] false) in
  let completed := SupervisorTerminal OCompleted (Some 0) None [] [] false in
  let env := session_env completed None (Some 0) ChildRun.sample_request in
  let up := [SupervisorFrame KStarted 1 []; SupervisorFrame KTerminal 1 [0]] in
  let sc := sample_script (sample_peer up) None in
  let ch := sample_child (sample_parent (SupervisorFrame KStart 1 [])) in
  let supervised entry options reason deadline :=
    run_supervised_session raw sample_slice (fun _ => Ok [1]) sample_request_vec (fun _ _ _ _ => Ok ()) Ok sample_host [5; 6]
      env sc 0 entry options reason deadline in
  let sup := fun (_ : path) entry options (_ : cancellation_context) reason deadline =>
    match supervised entry options reason deadline with
    | Some (r, _) => (r, @nil (phase * Z))
    | None => (Err (with_category_and_partial CatInfrastructure None None None), [])
    end in
  let own := fun (_ : path) (_ : libdeno_options) (_ : cancellation_context) (_ : option Z) =>
    (@Ok run_output captured_run_error (RunOutput 0 [] [] false), @nil (phase * Z)) in
  let x := Executor "/app" Subprocess (BackSubprocess "/host") in
  let rq := ExecutionRequest "/app/main.ts" sample_submission in
  let ck := Clock 0 0 0 2 3 9 resource_sample_default in
  let child := run_supervisor_child raw sample_vec sample_reason_slice sample_request_slice [5; 6] run ch in
  exists res, execute_submission Ok own sup x ck rq None ctx_new User disabled = Ok res /\ ex_exit_code res = 0 /\
    cd_ran (child_left child) = Some ("/app/main.ts"%string, script_options "/app" (with_cwd sample_submission (Some "/app"%string))).
Proof.
  intros.
  set (options := with_cwd sample_submission (Some "/app"%string)).
  assert (submission_inputs Ok x ck rq None = Ok (options, None)) as Hi by reflexivity.
  set (st := session_state (supervised "/app/main.ts"%string options User None)).
  set (r := Ok (E := supervised_subprocess_error) (SupervisorRunResult 0 None DirectChild TransportClean)).
  assert (supervised "/app/main.ts"%string options User None =
    Some (r, Some (Ok (SessionOutcome completed None TransportClean), st))) as Es by (vm_compute; reflexivity).
  assert (child = Some (Ok 0, child_left child)) as Ec by (vm_compute; reflexivity).
  set (res := match execute_submission Ok own sup x ck rq None ctx_new User disabled with
              | Ok res => res
              | Err _ => ExecutionResult 1 execution_output_default (report x ck None Failed disabled)
              end).
  assert (execute_submission Ok own sup x ck rq None ctx_new User disabled = Ok res) as Ex by (vm_compute; reflexivity).
  exists res; split; [exact Ex|].
  destruct (submission_reports_child raw raw sample_vec sample_slice (fun _ => Ok [1]) sample_reason_slice
    sample_request_vec sample_request_slice (fun _ _ _ _ => Ok ()) Ok sample_host [5; 6] run Ok own sup
    x ck rq None ctx_new User disabled "/host" options None env 0 sc r [] (SessionOutcome completed None TransportClean) st
    ch (child_left child) (Ok 0)) as (cwd & Hcwd & _ & Hok & _).
  - exact sample_round_trip.
  - exact sample_requests_round_trip.
  - apply sample_script_bytes; vm_compute; repeat (constructor; [split; [discriminate|reflexivity]|]); constructor.
  - vm_compute; repeat (constructor; [split; [discriminate|reflexivity]|]); constructor.
  - reflexivity.
  - exact Hi.
  - vm_compute; reflexivity.
  - exact Es.
  - exact Ec.
  - exact (sample_up raw).
  - exists [], []; rewrite !app_nil_r; vm_compute; reflexivity.
  - destruct (Hok res Ex) as (_ & _ & output & H1 & H2 & H3); injection Hcwd as <-.
    injection H2 as <-; split; [symmetry; exact H3|exact H1].
Defined.
