(* ===== verification/Http.v ===== *)
(** * Http: the client for module and npm downloads (src/http.rs).

    The retry loop of module fetches ([send_no_follow]) and the retrying,
    redirect-following npm download
    ([download_with_retries_on_any_tokio_runtime]).  The network and the clock
    are a script with one [http_turn] for every request sent; URLs, header maps
    and base64 are the libraries' own. *)
From S2P Require Import Prelude.
Local Open Scope Z_scope.

Definition MAX_RESPONSE_BODY_BYTES : Z := Z.shiftl 256 20.
Definition MAX_TARBALL_BODY_BYTES : Z := Z.shiftl 1 30.
Definition HTTP_RETRY_WALL_CLOCK_BUDGET : Z := from_secs 300.
Definition max_attempts : Z := 3.

Definition budget_exceeded (what : string) : string :=
  what +:+ " exceeded the " +:+ pretty (HTTP_RETRY_WALL_CLOCK_BUDGET / from_secs 1) +:+ "-second wall-clock budget".

(** The body arrives in chunks; [Err] is a failed read. *)
Fixpoint read_body_limited (limit : Z) (body : list Z) (chunks : list (result (list Z) string))
  : result (list Z) string :=
  match chunks with
  | [] => Ok body
  | Err e :: _ => Err ("failed to read response body: " +:+ e)
  | Ok chunk :: chunks =>
      if decide (Z.of_nat (length chunk) > saturating_sub limit (Z.of_nat (length body))) then
        Err ("response body exceeded the " +:+ pretty limit +:+ "-byte limit")
      else read_body_limited limit (body ++ chunk) chunks
  end.

Definition npm_body_limit (is_tarball : bool) (content_length : option Z) : Z :=
  if is_tarball then MAX_TARBALL_BODY_BYTES else MAX_RESPONSE_BODY_BYTES.

Definition remaining_http_budget (deadline now : Z) : result Z string :=
  let remaining := duration_since deadline now in
  if decide (remaining = 0) then Err (budget_exceeded "HTTP request") else Ok remaining.

(** [LIBDENO_MAX_TARBALL_DECOMPRESSED_BYTES], already parsed. *)
Definition tarball_decompress_budget (variable : option Z) : Z := default (Z.shiftl 1 30) variable.

(** [u32::from_le_bytes] of the last four bytes. *)
Definition isize_trailer (bytes : list Z) : Z :=
  let at_ k := default 0 (bytes !! (length bytes - k)%nat) in
  at_ 4%nat + 2 ^ 8 * at_ 3%nat + 2 ^ 16 * at_ 2%nat + 2 ^ 24 * at_ 1%nat.

Definition guard_tarball_isize (budget : Z) (is_tarball : bool) (bytes : list Z) : result (list Z) string :=
  if negb is_tarball || (length bytes <? 8)%nat || negb (bool_decide (take 2 bytes = [31; 139])) then Ok bytes
  else
    let isize := isize_trailer bytes in
    if decide (isize > budget) then
      Err ("tarball declares " +:+ pretty isize +:+ " decompressed bytes, over the " +:+ pretty budget +:+
           "-byte budget (raise LIBDENO_MAX_TARBALL_DECOMPRESSED_BYTES to allow it)")
    else Ok bytes.

(** ** Status codes *)
Definition is_redirection (status : Z) : bool := (300 <=? status) && (status <=? 399).
Definition is_success (status : Z) : bool := (200 <=? status) && (status <=? 299).
Definition is_server_error (status : Z) : bool := (500 <=? status) && (status <=? 599).
Definition is_transient (status : Z) : bool := (status =? 429) || is_server_error status.

Section Http.
(** Header maps: [value] is a header value, [to_str] its text if it has one. *)
Context (headers value : Type).
Context (get : headers -> string -> option value) (contains_key : headers -> string -> bool)
        (to_str : value -> option string).

Record response := Response {
  rs_status : Z;
  rs_headers : headers;
  rs_content_length : option Z;
  rs_chunks : list (result (list Z) string);
  rs_body_timeout : bool   (** the budget ran out while the body was read *)
}.

Inductive reply := Answer (r : response) | SendFailed (e : string) | SendTimeout.

(** One request: the clock when the budget is checked before it, the reply, and
    the clock when the budget is checked after it. *)
Record http_turn := HttpTurn { ht_before : Z; ht_reply : reply; ht_after : Z }.

(** The pause before the next attempt, when the budget still allows it. *)
Definition backoff (what : string) (deadline now attempt : Z) : result unit string :=
  let delay := from_millis (200 * attempt) in
  let? remaining := remaining_http_budget deadline now in
  if decide (delay >= remaining) then Err (budget_exceeded what) else Ok ().

(** ** Module fetches *)
Inductive send_response :=
| NotModified
| Redirect (location : option value)
| Success (h : headers) (body : list Z).
Inductive send_error := FetchFailed (message : string) | StatusCode (status : Z) | FetchNotFound.

(** The result and the number of requests sent; no result when the script ends
    first. *)
Fixpoint send_loop (deadline : Z) (request : headers) (attempt : Z) (turns : list http_turn)
  : nat * option (result send_response send_error) :=
  match turns with
  | [] => (O, None)
  | t :: turns =>
      let attempt := attempt + 1 in
      let failed m := Some (Err (FetchFailed m)) in
      let retry :=
        match backoff "HTTP request" deadline (ht_after t) attempt with
        | Err m => (1%nat, failed m)
        | Ok _ => let '(n, r) := send_loop deadline request attempt turns in (S n, r)
        end in
      match remaining_http_budget deadline (ht_before t) with
      | Err m => (O, failed m)
      | Ok _ =>
          match ht_reply t with
          | Answer response =>
              let status := rs_status response in
              if Z.eqb status 304 then
                (1%nat, Some (if contains_key request "if-none-match" then Ok NotModified
                              else Err (StatusCode status)))
              else if is_redirection status then
                (1%nat, Some (Ok (Redirect (get (rs_headers response) "location"))))
              else if is_success status then
                (1%nat,
                 match remaining_http_budget deadline (ht_after t) with
                 | Err m => failed m
                 | Ok _ =>
                     if rs_body_timeout response then failed (budget_exceeded "HTTP request")
                     else
                       match read_body_limited MAX_RESPONSE_BODY_BYTES [] (rs_chunks response) with
                       | Err m => failed m
                       | Ok body => Some (Ok (Success (rs_headers response) body))
                       end
                 end)
              else if Z.eqb status 404 then (1%nat, Some (Err FetchNotFound))
              else if is_transient status && (attempt <? max_attempts) then retry
              else (1%nat, Some (Err (StatusCode status)))
          | SendFailed e => if attempt <? max_attempts then retry else (1%nat, failed e)
          | SendTimeout => (1%nat, failed (budget_exceeded "HTTP request"))
          end
      end
  end.

Definition send_no_follow (started : Z) (request : headers) (turns : list http_turn) :=
  send_loop (started + HTTP_RETRY_WALL_CLOCK_BUDGET) request 0 turns.

(** ** npm downloads *)
Context (url : Type) {url_eq : EqDecision url} (origin_t : Type) {origin_eq : EqDecision origin_t}.
Context (origin : url -> origin_t) (join : url -> string -> result url string) (ends_with_tgz : url -> bool).
Context (base64 : string -> string) (status_display : Z -> string).

Record registry_config := RegistryConfig {
  rc_auth_token : option string; rc_auth : option string;
  rc_username : option string; rc_password : option string
}.

Definition config_auth (c : registry_config) : option string :=
  match rc_auth_token c, rc_auth c, rc_username c, rc_password c with
  | Some token, _, _, _ => Some ("Bearer " +:+ token)
  | None, Some token, _, _ => Some ("Basic " +:+ token)
  | None, None, Some user, Some pass => Some ("Basic " +:+ base64 (user +:+ ":" +:+ pass))
  | None, None, _, _ => None
  end.

Definition request_auth (maybe_auth : option string) (config : option registry_config) : option string :=
  match maybe_auth with Some a => Some a | None => config ≫= config_auth end.

Record download_error := DownloadError { de_status : option Z; de_message : string }.
Inductive npm_response := NpmNotFound | NpmNotModified | NpmBytes (bytes : list Z) (etag : option string).

(** A request as it is sent. *)
Record npm_request := NpmRequest { rq_url : url; rq_auth : option string; rq_etag : option string }.

(** The variables of the loop. *)
Record npm_state := NpmState { np_request : npm_request; np_attempt : Z; np_redirects : Z }.

Definition npm_status_error (status : Z) : download_error :=
  DownloadError (Some status) ("npm registry request failed with status " +:+ status_display status).

(** The loop's variables after a redirect to [next]. *)
Definition follow (s : npm_state) (next : url) : npm_state :=
  let r := np_request s in
  NpmState
    (NpmRequest next (if decide (origin next = origin (rq_url r)) then rq_auth r else None)
       (if decide (next = rq_url r) then rq_etag r else None))
    0 (np_redirects s - 1).

Definition npm_redirect (s : npm_state) (response : response) : result npm_state download_error :=
  let status := rs_status response in
  if decide (np_redirects s = 0) then Err (npm_status_error status)
  else
    match get (rs_headers response) "location" ≫= to_str with
    | None => Err (npm_status_error status)
    | Some location =>
        match join (rq_url (np_request s)) location with
        | Err e => Err (DownloadError (Some status) ("invalid npm registry redirect location: " +:+ e))
        | Ok next => Ok (follow s next)
        end
    end.

Definition npm_body (isize_budget deadline now : Z) (is_tarball : bool) (response : response)
  : result npm_response download_error :=
  let failed m := DownloadError None m in
  let limit := npm_body_limit is_tarball (rs_content_length response) in
  let? _ := map_err failed (remaining_http_budget deadline now) in
  if rs_body_timeout response then Err (failed (budget_exceeded "npm registry request"))
  else
    let? bytes := map_err (fun e => failed ("failed to read npm registry response: " +:+ e))
                    (read_body_limited limit [] (rs_chunks response)) in
    let? bytes := map_err (fun e => failed ("failed to download npm tarball: " +:+ e))
                    (guard_tarball_isize isize_budget is_tarball bytes) in
    Ok (NpmBytes bytes (get (rs_headers response) "etag" ≫= to_str)).

(** One turn of the loop, [s] holding the incremented attempt: the end of the
    download or the state of the next turn. *)
Definition npm_turn (isize_budget deadline : Z) (is_tarball : bool) (s : npm_state) (t : http_turn)
  : result npm_response download_error + npm_state :=
  let failed m := inl (Err (DownloadError None m)) in
  let retry :=
    match backoff "npm registry request" deadline (ht_after t) (np_attempt s) with
    | Err m => failed m
    | Ok _ => inr s
    end in
  match ht_reply t with
  | Answer response =>
      let status := rs_status response in
      if Z.eqb status 404 then inl (Ok NpmNotFound)
      else if Z.eqb status 304 then
        inl (match rq_etag (np_request s) with
             | Some _ => Ok NpmNotModified
             | None => Err (DownloadError (Some status)
                             "npm registry returned 304 without a conditional ETag request")
             end)
      else if is_success status then inl (npm_body isize_budget deadline (ht_after t) is_tarball response)
      else if is_redirection status then
        match npm_redirect s response with Ok s' => inr s' | Err e => inl (Err e) end
      else if is_transient status && (np_attempt s <? max_attempts) then retry
      else inl (Err (npm_status_error status))
  | SendFailed e =>
      if np_attempt s <? max_attempts then retry
      else failed ("npm registry request failed: " +:+ e)
  | SendTimeout => failed (budget_exceeded "npm registry request")
  end.

(** The requests sent and the result. *)
Fixpoint npm_loop (isize_budget deadline : Z) (is_tarball : bool) (s : npm_state) (turns : list http_turn)
  : list npm_request * option (result npm_response download_error) :=
  match turns with
  | [] => ([], None)
  | t :: turns =>
      let s := NpmState (np_request s) (np_attempt s + 1) (np_redirects s) in
      match remaining_http_budget deadline (ht_before t) with
      | Err m => ([], Some (Err (DownloadError None m)))
      | Ok _ =>
          match npm_turn isize_budget deadline is_tarball s t with
          | inl r => ([np_request s], Some r)
          | inr s' =>
              let '(sent, r) := npm_loop isize_budget deadline is_tarball s' turns in
              (np_request s :: sent, r)
          end
      end
  end.

Definition download_with_retries_on_any_tokio_runtime (started isize_budget : Z) (u : url)
    (maybe_auth maybe_etag : option string) (config : option registry_config) (turns : list http_turn) :=
  npm_loop isize_budget (started + HTTP_RETRY_WALL_CLOCK_BUDGET) (ends_with_tgz u)
    (NpmState (NpmRequest u (request_auth maybe_auth config) maybe_etag) 0 10) turns.

(** ** Lemmas *)

Lemma read_body_limited_ok (limit : Z) (chunks : list (result (list Z) string)) (body0 body : list Z) :
  read_body_limited limit body0 chunks = Ok body -> Z.of_nat (length body0) <= limit ->
  Z.of_nat (length body) <= limit /\ exists cs, chunks = map Ok cs /\ body = body0 ++ concat cs.
Proof.
  revert body0; induction chunks as [|[chunk|e] chunks IH]; intros body0; simpl; [|case_decide as Hd|]; try done.
  - intros H; simplify_eq; split; [done|]; exists []; by rewrite app_nil_r.
  - unfold saturating_sub in Hd; intros H Hl.
    destruct (IH _ H) as (H1 & cs & -> & ->); [rewrite length_app; lia|].
    split; [done|]; exists (chunk :: cs); by rewrite <- app_assoc.
Qed.

Lemma guard_tarball_isize_ok (budget : Z) (is_tarball : bool) (bytes bytes' : list Z) :
  guard_tarball_isize budget is_tarball bytes = Ok bytes' ->
  bytes' = bytes /\ (is_tarball = true -> (8 <= length bytes)%nat -> take 2 bytes = [31; 139] ->
                     isize_trailer bytes <= budget).
Proof.
  unfold guard_tarball_isize; destruct (_ || _) eqn:Hg; [|cbv zeta; destruct (decide (isize_trailer bytes > budget)) as [Hd|Hd]; [intros; discriminate|]];
    intros H; injection H as <-; (split; [done|]).
  - intros -> Hl Ht; exfalso; rewrite bool_decide_eq_true_2 in Hg by done.
    cbn [negb orb] in Hg; rewrite orb_false_r in Hg; apply Nat.ltb_lt in Hg; lia.
  - intros; lia.
Qed.

(** How a module fetch may end, given the last answer. *)
Definition send_end (request : headers) (t : http_turn) (r : result send_response send_error) : Prop :=
  match r with
  | Ok NotModified =>
      contains_key request "if-none-match" = true /\
      exists a, ht_reply t = Answer a /\ rs_status a = 304
  | Ok (Redirect location) =>
      exists a, ht_reply t = Answer a /\ rs_status a <> 304 /\ is_redirection (rs_status a) = true /\
        location = get (rs_headers a) "location"
  | Ok (Success h body) =>
      exists a cs, ht_reply t = Answer a /\ is_success (rs_status a) = true /\ h = rs_headers a /\
        rs_body_timeout a = false /\ rs_chunks a = map Ok cs /\ body = concat cs /\
        Z.of_nat (length body) <= MAX_RESPONSE_BODY_BYTES
  | Err FetchNotFound => exists a, ht_reply t = Answer a /\ rs_status a = 404
  | Err (StatusCode status) => exists a, ht_reply t = Answer a /\ rs_status a = status
  | Err (FetchFailed _) => True
  end.

#[local] Opaque MAX_RESPONSE_BODY_BYTES MAX_TARBALL_BODY_BYTES.

Lemma send_loop_spec (deadline : Z) (request : headers) (turns : list http_turn) (attempt : Z) :
  0 <= attempt < max_attempts -> max_attempts - attempt <= Z.of_nat (length turns) ->
  exists n r, send_loop deadline request attempt turns = (n, Some r) /\
    Z.of_nat n <= max_attempts - attempt /\
    ((exists m, r = Err (FetchFailed m)) \/
     exists t, turns !! pred n = Some t /\ n <> O /\ send_end request t r).
Proof.
  revert attempt; induction turns as [|t turns IH]; intros attempt Ha Hl; [unfold max_attempts in *; simpl in Hl; lia|].
  cbn [send_loop length] in *.
  destruct (remaining_http_budget _ (ht_before t)); [|by eexists _, _; split; [done|]; split; [unfold max_attempts in *; lia|eauto]].
  set (retry := match backoff _ _ _ _ with Ok _ => _ | Err _ => _ end).
  assert (attempt + 1 < max_attempts -> exists n r, retry = (n, Some r) /\ Z.of_nat n <= max_attempts - attempt /\
    ((exists m, r = Err (FetchFailed m)) \/ exists t0, (t :: turns) !! pred n = Some t0 /\ n <> O /\ send_end request t0 r)) as Hretry.
  { intros Hlt; subst retry; destruct (backoff _ _ _ _); [|by eexists _, _; split; [done|]; split; [lia|eauto]].
    destruct (IH (attempt + 1)) as (n & r & -> & Hn & Hr); [lia..|].
    eexists _, _; split; [done|]; split; [lia|].
    destruct Hr as [?|(t0 & Ht & Hn0 & He)]; [by left|right; exists t0; split_and!; [|done..]].
    by destruct n. }
  clearbody retry.
  assert (forall r, (exists m, r = Err (FetchFailed m)) \/ send_end request t r ->
    exists n r', (1%nat, Some r) = (n, Some r') /\ Z.of_nat n <= max_attempts - attempt /\
    ((exists m, r' = Err (FetchFailed m)) \/ exists t0, (t :: turns) !! pred n = Some t0 /\ n <> O /\ send_end request t0 r')) as Hend.
  { intros r Hr; exists 1%nat, r; split; [done|]; split; [lia|].
    destruct Hr as [?|Hr]; [by left|right; by exists t]. }
  destruct (ht_reply t) as [a|e|] eqn:Hrep; [|destruct (attempt + 1 <? _) eqn:Hlt; [apply Hretry; lia|apply Hend; eauto]|apply Hend; eauto].
  destruct (Z.eqb_spec (rs_status a) 304) as [H304|H304].
  { apply Hend; destruct (contains_key _ _) eqn:Hk; right; simpl; eauto. }
  destruct (is_redirection _) eqn:Hredir; [apply Hend; right; simpl; eauto 6|].
  destruct (is_success _) eqn:Hsucc.
  { destruct (remaining_http_budget _ _); [|apply Hend; eauto].
    destruct (rs_body_timeout a) eqn:Hto; [apply Hend; eauto|].
    destruct (read_body_limited _ _ _) as [body|] eqn:Hb; [|apply Hend; eauto].
    apply Hend; right; apply read_body_limited_ok in Hb as (Hbl & cs & Hcs & Hbody); [|done].
    exists a, cs; split_and!; done. }
  destruct (Z.eqb_spec (rs_status a) 404) as [H404|H404]; [apply Hend; right; simpl; eauto|].
  destruct (is_transient _ && _) eqn:Htr; [|apply Hend; right; simpl; eauto].
  apply andb_true_iff in Htr as [_ Hlt]; apply Hretry; lia.
Qed.

Section Npm.
(** One download. *)
Context (u : url) (auth etag : option string).

(** Credentials belong to the origin, the etag to the very URL of the download. *)
Definition request_ok (q : npm_request) : Prop :=
  (rq_auth q <> None -> rq_auth q = auth /\ origin (rq_url q) = origin u) /\
  (rq_etag q <> None -> rq_etag q = etag /\ rq_url q = u).

Definition npm_inv (s : npm_state) : Prop :=
  request_ok (np_request s) /\ 0 <= np_attempt s < max_attempts /\ 0 <= np_redirects s.

(** The requests a state can still send. *)
Definition npm_measure (s : npm_state) : Z := max_attempts * np_redirects s + (max_attempts - np_attempt s).

Lemma follow_ok (s : npm_state) (next : url) : request_ok (np_request s) -> request_ok (np_request (follow s next)).
Proof.
  intros [Ha He]; unfold follow, request_ok; cbn [np_request rq_auth rq_etag rq_url]; split; case_decide as Hd; try done.
  - rewrite Hd; exact Ha.
  - rewrite Hd; exact He.
Qed.

Definition next_attempt (s : npm_state) : npm_state :=
  NpmState (np_request s) (np_attempt s + 1) (np_redirects s).

Lemma npm_turn_next (isize_budget deadline : Z) (is_tarball : bool) (s s' : npm_state) (t : http_turn) :
  npm_inv s -> npm_turn isize_budget deadline is_tarball (next_attempt s) t = inr s' ->
  npm_inv s' /\ npm_measure s' < npm_measure s.
Proof.
  intros (Hr & Ha & Hd); unfold npm_turn.
  set (retry := match backoff _ _ _ _ with Ok _ => _ | Err _ => _ end).
  assert (np_attempt s + 1 < max_attempts -> retry = inr s' -> npm_inv s' /\ npm_measure s' < npm_measure s) as Hretry.
  { intros Hlt; subst retry; destruct (backoff _ _ _ _); [|done]; intros Hx; injection Hx as <-.
    unfold npm_inv, npm_measure, next_attempt; simpl; split_and!; try done; lia. }
  clearbody retry.
  destruct (ht_reply t) as [a|e|]; [|simpl np_attempt; destruct (_ <? _) eqn:Hlt; [apply Hretry; lia|done]|done].
  repeat (case_match; [done|]); simpl np_attempt in *.
  destruct (is_redirection _).
  - unfold npm_redirect; simpl; case_decide as Hz; [done|].
    destruct (_ ≫= _); [|done]; destruct (join _ _) as [next|]; [|done]; intros Hx; injection Hx as <-.
    split; [split; [by apply follow_ok|]|]; unfold npm_measure, max_attempts in *; simpl; lia.
  - destruct (is_transient _ && _) eqn:Htr; [|done].
    apply andb_true_iff in Htr as [_ Hlt]; apply Hretry; lia.
Qed.

(** How a download may end, [q] being the last request. *)
Definition npm_end (isize_budget : Z) (is_tarball : bool) (q : npm_request) (r : result npm_response download_error) : Prop :=
  match r with
  | Ok (NpmBytes bytes _) =>
      Z.of_nat (length bytes) <= (if is_tarball then MAX_TARBALL_BODY_BYTES else MAX_RESPONSE_BODY_BYTES) /\
      (is_tarball = true -> (8 <= length bytes)%nat -> take 2 bytes = [31; 139] -> isize_trailer bytes <= isize_budget)
  | Ok NpmNotModified => rq_etag q <> None
  | _ => True
  end.

Lemma npm_turn_end (isize_budget deadline : Z) (is_tarball : bool) (s : npm_state) (t : http_turn)
    (r : result npm_response download_error) :
  npm_turn isize_budget deadline is_tarball s t = inl r -> npm_end isize_budget is_tarball (np_request s) r.
Proof.
  unfold npm_turn; cbv zeta; set (retry := match backoff _ _ _ _ with Ok _ => _ | Err _ => _ end).
  assert (retry = inl r -> npm_end isize_budget is_tarball (np_request s) r) as Hretry.
  { subst retry; destruct (backoff _ _ _ _); [done|]; intros Hx; by injection Hx as <-. }
  clearbody retry.
  destruct (ht_reply t) as [a|e|]; [|case_match; [done|]; intros Hx; by injection Hx as <-|intros Hx; by injection Hx as <-].
  case_match; [intros Hx; by injection Hx as <-|].
  case_match; [intros Hx; injection Hx as <-; by destruct (rq_etag _) eqn:He; simpl; rewrite ?He|].
  case_match.
  { intros Hx; injection Hx as <-; unfold npm_body.
    destruct (remaining_http_budget _ _); [|done]; simpl; case_match; [done|].
    destruct (read_body_limited _ _ _) as [bytes|] eqn:Hb; [|done]; simpl.
    apply read_body_limited_ok in Hb as [Hl _]; [|by destruct is_tarball].
    destruct (guard_tarball_isize _ _ _) as [bytes'|] eqn:Hg; [|done]; simpl.
    by apply guard_tarball_isize_ok in Hg as [-> Hg]. }
  case_match; [destruct (npm_redirect s a); [done|]; intros Hx; by injection Hx as <-|].
  case_match; [done|]; intros Hx; by injection Hx as <-.
Qed.

Lemma npm_loop_spec (isize_budget deadline : Z) (is_tarball : bool) (turns : list http_turn) (s : npm_state) :
  npm_inv s ->
  let '(sent, r) := npm_loop isize_budget deadline is_tarball s turns in
  Z.of_nat (length sent) <= npm_measure s /\ Forall request_ok sent /\
  (npm_measure s <= Z.of_nat (length turns) -> is_Some r) /\
  (forall v, r = Some (Ok v) -> exists q, last sent = Some q /\ npm_end isize_budget is_tarball q (Ok v)).
Proof.
  revert s; induction turns as [|t turns IH]; intros s Hi; cbn [npm_loop].
  - destruct Hi as (_ & ? & ?); unfold npm_measure, max_attempts in *; split_and!; simpl; try done; lia.
  - fold (next_attempt s); destruct Hi as (Hr & Ha & Hd) eqn:E; clear E.
    assert (0 < npm_measure s) as Hm by (unfold npm_measure, max_attempts in *; lia).
    destruct (remaining_http_budget _ _); [|by split_and!; simpl; try done; lia].
    destruct (npm_turn _ _ _ _ _) as [r|s'] eqn:Ht.
    + apply npm_turn_end in Ht; split_and!; simpl; [lia|by apply Forall_singleton|done|].
      intros w Hv; injection Hv as ->; eauto.
    + apply npm_turn_next in Ht as [Hi' Hlt]; [|done].
      specialize (IH s' Hi'); destruct (npm_loop _ _ _ _ _) as [sent r]; destruct IH as (H1 & H2 & H3 & H4).
      split_and!; cbn [length]; [lia|by constructor|intros; apply H3; lia|].
      intros w Hv; destruct (H4 w Hv) as (q & Hq & He); exists q; split; [|done].
      by destruct sent.
Qed.
End Npm.

(** A module fetch sends at most three requests and always ends.  When it
    does not fail, its result is what the last answer says: a body is returned
    only for a 2xx status, whole and within the module cap; not modified is
    reported only for a request that carried an etag; a redirect is handed back
    with its location only, never followed. *)
Theorem send_no_follow_spec (started : Z) (request : headers) (turns : list http_turn)
    (Hturns : (3 <= length turns)%nat) :
  exists n r, send_no_follow started request turns = (n, Some r) /\ (n <= 3)%nat /\
    ((exists m, r = Err (FetchFailed m)) \/
     exists t, turns !! pred n = Some t /\ n <> O /\ send_end request t r).
Proof.
  destruct (send_loop_spec (started + HTTP_RETRY_WALL_CLOCK_BUDGET) request turns 0) as (n & r & H & Hn & Hr);
    [by unfold max_attempts|unfold max_attempts; lia|].
  exists n, r; split; [done|]; split; [unfold max_attempts in Hn; lia|done].
Qed.

(** C39. An npm download keeps its credentials and its bounds against any
    registry.  It sends at most 33 requests, whatever is answered and wherever
    it is redirected, and ends.  Only requests to the origin of the original URL
    carry an authorization, and it is the caller's or else the registry
    configuration's; only requests to the original URL itself carry the etag,
    and only then is not modified reported.  The bytes returned are within the
    cap the original path stands for, and a gzip tarball whose declared size is
    over the budget is refused. *)
Theorem npm_download_contained (started isize_budget : Z) (u : url) (maybe_auth maybe_etag : option string)
    (config : option registry_config) (turns : list http_turn) :
  let '(sent, r) := download_with_retries_on_any_tokio_runtime started isize_budget u maybe_auth maybe_etag config turns in
  (length sent <= 33)%nat /\ ((33 <= length turns)%nat -> is_Some r) /\
  Forall (fun q =>
    (rq_auth q <> None -> rq_auth q = request_auth maybe_auth config /\ origin (rq_url q) = origin u) /\
    (rq_etag q <> None -> rq_etag q = maybe_etag /\ rq_url q = u)) sent /\
  match r with
  | Some (Ok NpmNotModified) => exists q, last sent = Some q /\ rq_url q = u /\ rq_etag q = maybe_etag /\ maybe_etag <> None
  | Some (Ok (NpmBytes bytes _)) =>
      Z.of_nat (length bytes) <= (if ends_with_tgz u then 2 ^ 30 else 2 ^ 28) /\
      (ends_with_tgz u = true -> (8 <= length bytes)%nat -> take 2 bytes = [31; 139] ->
       isize_trailer bytes <= isize_budget)
  | _ => True
  end.
Proof.
  unfold download_with_retries_on_any_tokio_runtime.
  set (s := NpmState _ _ _).
  assert (npm_inv u (request_auth maybe_auth config) maybe_etag s) as Hi.
  { subst s; unfold npm_inv, request_ok, max_attempts; simpl; split_and!; try done; lia. }
  pose proof (npm_loop_spec u (request_auth maybe_auth config) maybe_etag isize_budget
    (started + HTTP_RETRY_WALL_CLOCK_BUDGET) (ends_with_tgz u) turns s Hi) as H.
  destruct (npm_loop _ _ _ _ _) as [sent r]; destruct H as (H1 & H2 & H3 & H4).
  assert (npm_measure s = 33) as Hm by done; rewrite Hm in *.
  split_and!; [lia|intros; apply H3; lia|exact H2|].
  destruct r as [[v|]|]; [|done..]; destruct (H4 v eq_refl) as (q & Hq & He); destruct v as [| |bytes e]; [done| |exact He].
  destruct (proj1 (Forall_forall _ _) H2 q) as [_ Hq']; [by apply last_Some_elem_of|].
  destruct (Hq' He) as [Hq1 Hq2].
  exists q; split_and!; try done; by rewrite <- Hq1.
Qed.
End Http.

Definition sample_answer (status : Z) (chunks : list (result (list Z) string)) : http_turn unit :=
  HttpTurn unit 0 (Answer unit (Response unit status () None chunks false)) 0.

Lemma send_no_follow_spec_witness :
  let turns := [sample_answer 503 []; HttpTurn unit 0 (SendFailed unit "reset") 0; sample_answer 200 [Ok [1; 2]; Ok [3]]] in
  (3 <= length turns)%nat /\
  send_no_follow unit unit (fun _ _ => None) (fun _ _ => false) 0 () turns =
    (3%nat, Some (Ok (Success unit unit () [1; 2; 3]))) /\
  exists n r, send_no_follow unit unit (fun _ _ => None) (fun _ _ => false) 0 () turns = (n, Some r) /\ (n <= 3)%nat.
Proof.
  split; [simpl; lia|]; split; [vm_compute; reflexivity|].
  destruct (send_no_follow_spec unit unit (fun _ _ => None) (fun _ _ => false) 0 ()
    [sample_answer 503 []; HttpTurn unit 0 (SendFailed unit "reset") 0; sample_answer 200 [Ok [1; 2]; Ok [3]]]
    ltac:(simpl; lia)) as (n & r & H & Hn & _).
  exists n, r; split; [exact H|exact Hn].
Defined.
