(* ===== verification/AnalysisCache.v ===== *)
(** * AnalysisCache: analyses kept across runs (src/analysis_cache.rs).

    The process-global cache of module analyses, whose lookup and insertion are
    two critical sections with the analysis in between, and the CommonJS cache
    of one resolver stack.  The hash function, the analyzer and its results are
    the libraries' own. *)
From S2P Require Import Prelude.
Local Open Scope Z_scope.

(** [LIBDENO_ANALYSIS_CACHE_ENTRIES], already parsed. *)
Definition cache_capacity (variable : option nat) : nat :=
  match variable with
  | Some v => if (0 <? v)%nat then v else 8192%nat
  | None => 8192%nat
  end.

(** A full cache is cleared before the insertion. *)
Definition insert_capped {K V} `{Countable K} (capacity : nat) (k : K) (v : V) (entries : gmap K V) : gmap K V :=
  <[k := v]> (if (capacity <=? size entries)%nat then ∅ else entries).

Lemma insert_capped_size {K V} `{Countable K} (capacity : nat) (k : K) (v : V) (entries : gmap K V) :
  (0 < capacity)%nat -> (size entries <= capacity)%nat -> (size (insert_capped capacity k v entries) <= capacity)%nat.
Proof.
  intros Hc Hs; unfold insert_capped; destruct (Nat.leb_spec capacity (size entries)).
  - rewrite map_size_insert, lookup_empty, map_size_empty; lia.
  - rewrite map_size_insert; destruct (entries !! k); simpl; lia.
Qed.

Lemma insert_capped_lookup {K V} `{Countable K} (capacity : nat) (k k' : K) (v v' : V) (entries : gmap K V) :
  insert_capped capacity k v entries !! k' = Some v' -> (k' = k /\ v' = v) \/ entries !! k' = Some v'.
Proof.
  unfold insert_capped; intros H0; apply lookup_insert_Some in H0 as [[-> ->]|[Hne H0]]; [by left|].
  destruct (_ <=? _)%nat; [by rewrite lookup_empty in H0|by right].
Qed.

Section Modules.
Context (capacity : nat) (Hcapacity : (0 < capacity)%nat).
Context (media_type module_info error : Type) (hash : string -> Z).
(** [format!("{media_type:?}")]; the hasher is fed this text, then the source. *)
Context (debug : media_type -> string).
Context (default_analyze : string -> string -> media_type -> result module_info error).

Definition module_info_hash (media : media_type) (source : string) : Z := hash (debug media +:+ source).

Definition entries := gmap string (Z * module_info).

(** The two critical sections of [analyze]. *)
Definition cached (c : gmap string (Z * module_info)) (specifier source : string) (media : media_type)
  : option module_info :=
  match c !! specifier with
  | Some (cached_hash, info) =>
      if Z.eqb cached_hash (module_info_hash media source) then Some info else None
  | None => None
  end.

Definition remember (c : gmap string (Z * module_info)) (specifier source : string) (media : media_type)
    (info : module_info) : gmap string (Z * module_info) :=
  insert_capped capacity specifier (module_info_hash media source, info) c.

(** [analyze], when [c] is the cache at its lookup and [c'] the cache when the
    analysis is done. *)
Definition analyze (c c' : gmap string (Z * module_info)) (specifier source : string) (media : media_type)
  : result module_info error * gmap string (Z * module_info) :=
  match cached c specifier source media with
  | Some info => (Ok info, c')
  | None =>
      match default_analyze specifier source media with
      | Err e => (Err e, c')
      | Ok info => (Ok info, remember c' specifier source media info)
      end
  end.

Definition cache_module_info := remember.

(** The contents under every interleaving: insertions of analyses, each at some
    moment, by [analyze] or by the graph. *)
Inductive reachable_cache : gmap string (Z * module_info) -> Prop :=
| rc_new : reachable_cache ∅
| rc_store c specifier source media info :
    reachable_cache c -> default_analyze specifier source media = Ok info ->
    reachable_cache (remember c specifier source media info).

Lemma cached_genuine c specifier source media info :
  reachable_cache c -> cached c specifier source media = Some info ->
  exists source' media', default_analyze specifier source' media' = Ok info /\
    module_info_hash media' source' = module_info_hash media source.
Proof.
  intros Hc; unfold cached; destruct (c !! specifier) as [[h i]|] eqn:Hl; [|done].
  destruct (Z.eqb_spec h (module_info_hash media source)) as [->|]; [|done].
  intros H; injection H as ->; revert Hl.
  induction Hc as [|c sp src m i Hc IH Ha]; [by rewrite lookup_empty|].
  intros [[-> Heq]|Hl]%insert_capped_lookup; [|by apply IH].
  injection Heq as Hh ->; eauto.
Qed.

Lemma reachable_size c : reachable_cache c -> (size c <= capacity)%nat.
Proof. induction 1; [rewrite map_size_empty; lia|by apply insert_capped_size]. Qed.

(** The analysis cache is transparent.  Whatever else was analyzed before or
    in the meantime, an analysis served from the cache is the analyzer's own
    result for the same specifier and for a source and media type with the same
    hash, so it is the result for this very source unless the hash collides; an
    analysis that is not served from it is the analyzer's result; failures are
    never stored; and the cache never holds more than its capacity. *)
Theorem analysis_transparent (c c' : gmap string (Z * module_info)) (specifier source : string)
    (media : media_type) (Hc : reachable_cache c) (Hc' : reachable_cache c') :
  let '(r, after) := analyze c c' specifier source media in
  reachable_cache after /\ (size after <= capacity)%nat /\
  ((forall source' media', module_info_hash media' source' = module_info_hash media source ->
      source' = source /\ media' = media) -> r = default_analyze specifier source media) /\
  match r with
  | Ok info => exists source' media', default_analyze specifier source' media' = Ok info /\
      module_info_hash media' source' = module_info_hash media source
  | Err e => default_analyze specifier source media = Err e /\ after = c'
  end.
Proof.
  unfold analyze; destruct (cached c specifier source media) as [info|] eqn:Hh.
  - apply cached_genuine in Hh as (s' & m' & Ha & He); [|done].
    split_and!; [done|by apply reachable_size| |eauto].
    intros Hinj; destruct (Hinj _ _ He) as [-> ->]; by symmetry.
  - destruct (default_analyze _ _ _) as [info|e] eqn:Ha.
    + assert (reachable_cache (remember c' specifier source media info)) by by constructor.
      split_and!; [done|by apply reachable_size|done|eauto].
    + split_and!; [done|by apply reachable_size|done..].
Qed.
End Modules.

(** ** CommonJS analyses of one resolver stack *)
Section Cjs.
Context (capacity : nat) (Hcapacity : (0 < capacity)%nat).
Context (exports : Type) (hash : string -> Z).

Inductive cjs_analysis := Esm | EsmAnalysis (e : exports) | Cjs (e : exports).

Definition cjs_entries := gmap (string * Z) cjs_analysis.
Definition node_analysis_cache : gmap (string * Z) cjs_analysis := ∅.
Definition compute_source_hash (source : string) : Z := hash source.
Definition get_cjs_analysis (c : gmap (string * Z) cjs_analysis) (specifier : string) (source_hash : Z)
  : option cjs_analysis := c !! (specifier, source_hash).
Definition set_cjs_analysis (c : gmap (string * Z) cjs_analysis) (specifier : string) (source_hash : Z)
    (analysis : cjs_analysis) : gmap (string * Z) cjs_analysis :=
  match analysis with
  | Esm => c
  | _ => insert_capped capacity (specifier, source_hash) analysis c
  end.

Definition set_all (calls : list (string * Z * cjs_analysis)) : gmap (string * Z) cjs_analysis :=
  foldl (fun c call => set_cjs_analysis c call.1.1 call.1.2 call.2) node_analysis_cache calls.

(** What a resolver stack finds is what it stored itself: a complete analysis,
    the last one under this specifier and hash. *)
Lemma set_all_spec (calls : list (string * Z * cjs_analysis)) specifier source_hash analysis :
  (size (set_all calls) <= capacity)%nat /\
  (get_cjs_analysis (set_all calls) specifier source_hash = Some analysis ->
   analysis <> Esm /\ (specifier, source_hash, analysis) ∈ calls).
Proof.
  unfold set_all; induction calls as [|[[sp h] a] calls [IHs IH]] using rev_ind.
  - split; [unfold node_analysis_cache; simpl; rewrite map_size_empty; lia|].
    unfold get_cjs_analysis, node_analysis_cache; simpl; by rewrite lookup_empty.
  - rewrite foldl_app; simpl; set (c := foldl _ _ _) in *; split.
    + destruct a; simpl; [done|by apply insert_capped_size..].
    + unfold get_cjs_analysis in *; destruct a; simpl;
        [intros H; destruct (IH H); split; [done|set_solver]|..];
        (intros [[Heq ->]|H]%insert_capped_lookup;
         [simplify_eq; split; [done|set_solver]|destruct (IH H); split; [done|set_solver]]).
Qed.
End Cjs.
