(* ===== verification/NodeLoader.v ===== *)
(** * NodeLoader: reading files for require() and CommonJS analysis
    (src/node_loader.rs).

    [FsCjsAnalysisSourceProvider::load_source] and the read checks of
    [SimpleNodeRequireLoader].  The file system is a [host]; the permission
    container and the npm-package test are the libraries' own; [broker] tells
    whether a permission broker is installed. *)
From S2P Require Import Prelude Errors Options Entry.

(** What the code asks of a permission container: [query_read_all], and
    [check_open] with the path it returns. *)
Record container := Container {
  pm_query_read_all : bool;
  pm_check_open : path -> result path string
}.

Section NodeLoader.
Context (h : host) (broker : bool).
Context (url : Type) (to_file_path : url -> option path) (from_file_path : path -> option url)
        (in_npm_package : url -> bool).

Definition canonical (p : path) : path :=
  match h_canonicalize h p with Ok c => c | Err _ => p end.

Definition in_npm (p : path) : bool :=
  match from_file_path p with Some u => in_npm_package u | None => false end.

(** The loader's own container is [self]. *)
Definition load_source (self : container) (specifier : url) : option string :=
  match to_file_path specifier with
  | None => None
  | Some path =>
      let canonical := canonical path in
      let read_path :=
        if negb broker && pm_query_read_all self then Some canonical
        else if in_npm canonical && negb broker then Some canonical
        else match pm_check_open self canonical with Ok p => Some p | Err _ => None end in
      match read_path with
      | None => None
      | Some p => match h_read h p with Ok s => Some s | Err _ => None end
      end
  end.

Definition ensure_read_permission (permissions : container) (p : path) : result path string :=
  if negb broker && pm_query_read_all permissions then Ok p
  else
    let canonical := canonical p in
    if in_npm canonical && negb broker then Ok canonical else pm_check_open permissions canonical.

(** The path is quoted by the system's debug format. *)
Context (debug_path : path -> string).
Definition load_text_file_lossy (self : container) (p : path) : result string string :=
  let? p := if broker then pm_check_open self (canonical p) else Ok p in
  map_err (fun e => "Failed to read " +:+ debug_path p +:+ ": " +:+ io_message e) (h_read h p).

(** The paths a container allows a module file to be read from, when no broker
    decides or when [asked] was put to it. *)
Definition may_read (permissions : container) (p : path) : Prop :=
  (broker = false /\ (pm_query_read_all permissions = true \/ in_npm p = true)) \/
  exists asked, pm_check_open permissions (canonical asked) = Ok p.

Lemma ensure_read_permission_ok (permissions : container) (p checked : path) :
  ensure_read_permission permissions p = Ok checked -> may_read permissions checked.
Proof.
  unfold ensure_read_permission, may_read.
  destruct broker, (pm_query_read_all permissions); simpl; rewrite ?andb_false_r, ?andb_true_r; eauto.
  destruct (in_npm (canonical p)) eqn:Hn; intros H; simplify_eq; eauto.
Qed.

(** [load_source] is the same check followed by the read of the path it returns,
    except that a granted read resolves the path first. *)
Lemma load_source_ok (self : container) (specifier : url) (source : string) :
  load_source self specifier = Some source -> exists p, may_read self p /\ h_read h p = Ok source.
Proof.
  unfold load_source; destruct (to_file_path specifier) as [p|]; [|done].
  pose proof (ensure_read_permission_ok self p) as Hq; unfold ensure_read_permission in Hq.
  destruct (negb broker && pm_query_read_all self) eqn:Hb.
  { apply andb_true_iff in Hb as [Hb Hr]; apply negb_true_iff in Hb.
    destruct (h_read h (canonical p)) eqn:Hread; [|done]; intros; simplify_eq.
    exists (canonical p); split; [left; by split; [|left]|done]. }
  simpl in Hq; destruct (in_npm (canonical p) && negb broker);
    [|destruct (pm_check_open self (canonical p)) as [q|]; [|done]];
    match goal with |- context [h_read h ?q] => destruct (h_read h q) eqn:Hread; [|done] end;
    intros; simplify_eq; eauto.
Qed.

(** Files are read for CommonJS only where the permissions allow it.  The
    source handed to the analysis, and the text [require] loads from the path
    its check returned, is the content of a path that is fully granted, or
    inside an npm package, or returned by the permission check for a resolved
    path; under an installed broker only the last remains, and the loader's own
    permissions are asked again for the load itself. *)
Theorem cjs_reads_gated (self permissions : container) :
  (forall specifier source, load_source self specifier = Some source ->
     exists p, may_read self p /\ h_read h p = Ok source) /\
  (forall p checked text, ensure_read_permission permissions p = Ok checked ->
     load_text_file_lossy self checked = Ok text ->
     exists q, h_read h q = Ok text /\
       (broker = false -> q = checked /\ may_read permissions q) /\
       (broker = true -> (exists asked, pm_check_open permissions (canonical asked) = Ok checked) /\
                         pm_check_open self (canonical checked) = Ok q)).
Proof.
  split; [apply load_source_ok|].
  intros p checked text He%ensure_read_permission_ok; unfold load_text_file_lossy, may_read in *.
  destruct broker.
  - destruct (pm_check_open self (canonical checked)) as [q|] eqn:Hc; [|done].
    destruct (h_read h q) eqn:Hr; [|done]; intros; simplify_eq/=; exists q; split_and!; [done..|].
    intros _; split; [by destruct He as [[]|]|done].
  - destruct (h_read h checked) eqn:Hr; [|done]; intros; simplify_eq/=; exists checked; split_and!; done.
Qed.
End NodeLoader.
