(* ===== verification/NodeIpc.v ===== *)
(** * NodeIpc: the one-time handoff of a launcher's IPC channel (src/limits.rs).

    [initialize_node_ipc_from_env], [claim_node_ipc], [take_node_ipc] and
    [parse_node_channel_fd], on Unix.  The process's descriptor table is a set;
    the environment and the socket calls enter as their answers. *)
From S2P Require Import Prelude Errors Text.
Local Open Scope Z_scope.

Inductive serialization := Json | Advanced.

(** [NodeIpcState]: no attempt yet, or an attempt and the channel it left. *)
Definition node_ipc_state : Type := option (option (Z * serialization)).

Definition begin_node_ipc_attempt (state : node_ipc_state) : bool * node_ipc_state :=
  match state with Some _ => (false, state) | None => (true, Some None) end.

(** [std::env::var] *)
Inductive env_var := Present (value : string) | NotPresent | NotUnicode (message : string).

(** ** [parse_node_channel_fd] *)

Definition i64_min : Z := - 2 ^ 63.

(** [str::parse::<i64>]: an optional sign and at least one digit. *)
Definition parse_i64 (s : string) : option Z :=
  let in_range z := if decide (i64_min <= z <= i64_max) then Some z else None in
  match s with
  | String c rest =>
      if Ascii.eqb c minus then unsigned rest ≫= (fun d => in_range (- d))
      else if Ascii.eqb c plus then unsigned rest ≫= in_range
      else unsigned s ≫= in_range
  | EmptyString => None
  end.

Definition parse_node_channel_fd (value : string) : option Z :=
  fd ← parse_i64 value; if decide (0 <= fd <= i32_max) then Some fd else None.

(** ** [claim_node_ipc] *)

Inductive socket_type := SockStream | OtherType.
Inductive family := AfUnix | OtherFamily.
Inductive peer_error := NotConnected | PeerError (e : io_error).

(** The answers of [getsockopt], [getsockname], [getpeername] and the two
    [fcntl] calls on a descriptor. *)
Record socket := Socket {
  sk_type : result socket_type io_error;
  sk_name : result family io_error;
  sk_peer : result family peer_error;
  sk_cloexec : result unit io_error
}.

Definition config_error (m : string) : libdeno_error := Configuration m.

Definition validate_socket (s : socket) : result unit libdeno_error :=
  let? type := map_err Io (sk_type s) in
  match type with
  | OtherType => Err (config_error "NODE_CHANNEL_FD must be a stream socket")
  | SockStream =>
      let? domain := map_err Io (sk_name s) in
      match domain with
      | OtherFamily => Err (config_error "NODE_CHANNEL_FD must be a local Unix socket")
      | AfUnix =>
          match sk_peer s with
          | Err NotConnected => Err (config_error "NODE_CHANNEL_FD must be a connected local Unix socket")
          | Err (PeerError e) => Err (Io e)
          | Ok OtherFamily => Err (config_error "NODE_CHANNEL_FD peer must be a local Unix socket")
          | Ok AfUnix => map_err Io (sk_cloexec s)
          end
      end
  end.

(** The claimed descriptor is owned from here on: an error closes it. *)
Definition claim_node_ipc (raw : string) (sockets : Z -> socket) (open : gset Z)
  : result Z libdeno_error * gset Z :=
  match parse_node_channel_fd raw with
  | None => (Err (config_error "invalid NODE_CHANNEL_FD"), open)
  | Some fd =>
      match validate_socket (sockets fd) with
      | Ok _ => (Ok fd, open)
      | Err e => (Err e, open ∖ {[fd]})
      end
  end.

Definition parse_serialization (mode : env_var) : result serialization libdeno_error :=
  match mode with
  | NotPresent => Ok Json
  | NotUnicode e => Err (config_error ("invalid NODE_CHANNEL_SERIALIZATION_MODE: " +:+ e))
  | Present other =>
      if decide (other = "json") then Ok Json
      else if decide (other = "advanced") then Ok Advanced
      else Err (config_error ("invalid NODE_CHANNEL_SERIALIZATION_MODE: " +:+ other))
  end.

(** The process: the state behind the lock, the open descriptors, and what has
    been handed to a run. *)
Record process := Process {
  pr_state : node_ipc_state;
  pr_open : gset Z;
  pr_handed : list (Z * serialization)
}.

Definition initialize_node_ipc_from_env (channel mode : env_var) (sockets : Z -> socket) (p : process)
  : result unit libdeno_error * process :=
  match begin_node_ipc_attempt (pr_state p) with
  | (false, state) =>
      (Err (config_error "Node IPC initialization may only be performed once"),
       Process state (pr_open p) (pr_handed p))
  | (true, state) =>
      match channel with
      | NotPresent => (Ok (), Process state (pr_open p) (pr_handed p))
      | NotUnicode e =>
          (Err (config_error ("invalid NODE_CHANNEL_FD: " +:+ e)), Process state (pr_open p) (pr_handed p))
      | Present raw =>
          match claim_node_ipc raw sockets (pr_open p) with
          | (Err e, open) => (Err e, Process state open (pr_handed p))
          | (Ok fd, open) =>
              match parse_serialization mode with
              | Ok serialization => (Ok (), Process (Some (Some (fd, serialization))) open (pr_handed p))
              | Err e => (Err e, Process state (open ∖ {[fd]}) (pr_handed p))
              end
          end
      end
  end.

Definition take_node_ipc (state : node_ipc_state) : option (Z * serialization) * node_ipc_state :=
  match state with
  | Some (Some channel) => (Some channel, Some None)
  | _ => (None, state)
  end.

(** [node_ipc_init]: a run's worker takes the channel. *)
Definition node_ipc_init (p : process) : option (Z * serialization) * process :=
  let '(channel, state) := take_node_ipc (pr_state p) in
  (channel, Process state (pr_open p)
              (pr_handed p ++ match channel with Some c => [c] | None => [] end)).

(** ** Histories *)
Inductive ipc_call := Initialize (channel mode : env_var) (sockets : Z -> socket) | Take.

Definition ipc_step (p : process) (c : ipc_call) : process :=
  match c with
  | Initialize channel mode sockets => (initialize_node_ipc_from_env channel mode sockets p).2
  | Take => (node_ipc_init p).2
  end.

Definition ipc_start (open : gset Z) : process := Process None open [].
Definition ipc_run (open : gset Z) (calls : list ipc_call) : process := foldl ipc_step (ipc_start open) calls.

(** A descriptor that passed every check, with the mode it was announced with. *)
Definition valid_channel (channel mode : env_var) (sockets : Z -> socket) (c : Z * serialization) : Prop :=
  (exists raw, channel = Present raw /\ parse_node_channel_fd raw = Some c.1) /\
  validate_socket (sockets c.1) = Ok () /\ parse_serialization mode = Ok c.2.

(** What one attempt makes of a descriptor. *)
Lemma initialize_cases (channel mode : env_var) (sockets : Z -> socket) (open : gset Z) :
  let '(r, p) := initialize_node_ipc_from_env channel mode sockets (ipc_start open) in
  pr_handed p = [] /\
  match pr_state p with
  | None => False
  | Some (Some c) => r = Ok () /\ pr_open p = open /\ valid_channel channel mode sockets c
  | Some None =>
      (r = Ok () /\ channel = NotPresent /\ pr_open p = open) \/
      (is_ok r = false /\ pr_open p = open /\ forall raw, channel = Present raw -> parse_node_channel_fd raw = None) \/
      (exists raw fd, is_ok r = false /\ channel = Present raw /\ parse_node_channel_fd raw = Some fd /\
         pr_open p = open ∖ {[fd]})
  end.
Proof.
  unfold initialize_node_ipc_from_env, ipc_start; cbn [pr_state pr_open pr_handed begin_node_ipc_attempt].
  destruct channel as [raw| |e]; simpl; [|by split; [|left]|by split; [|right; left]].
  unfold claim_node_ipc; destruct (parse_node_channel_fd raw) as [fd|] eqn:Hp; simpl.
  - destruct (validate_socket (sockets fd)) as [[]|] eqn:Hv; simpl; [|by split; [|right; right; exists raw, fd]].
    destruct (parse_serialization mode) as [s|] eqn:Hs; simpl; [|by split; [|right; right; exists raw, fd]].
    split; [done|]; unfold valid_channel; split_and!; try done; by exists raw.
  - split; [done|]; right; left; split_and!; try done; intros raw' H; by simplify_eq.
Qed.

(** After an attempt only the taking of the channel changes anything, and it
    happens at the first opportunity. *)
Lemma ipc_settled (p : process) (calls : list ipc_call) :
  pr_state p <> None ->
  let q := foldl ipc_step p calls in
  pr_state q <> None /\ pr_open q = pr_open p /\
  ((q = p /\ (Take ∈ calls -> pr_state p = Some None)) \/
   exists c, pr_state p = Some (Some c) /\ pr_handed q = pr_handed p ++ [c]).
Proof.
  revert p; induction calls as [|c calls IH]; intros p Hp.
  { split_and!; [done..|left]; split; [done|]; set_solver. }
  simpl; destruct p as [[[ch|]|] open handed]; [| |done]; destruct c as [channel mode sockets|].
  - change (ipc_step _ _) with (Process (Some (Some ch)) open handed).
    destruct (IH (Process (Some (Some ch)) open handed) Hp) as (H1 & H2 & [[H3 H4]|H3]);
      (split_and!; [done|done|]); [left; split; [done|]|by right].
    intros [|]%elem_of_cons; [done|by apply H4].
  - destruct (IH (Process (Some None) open (handed ++ [ch]))) as (H1 & H2 & [[H3 _]|(c & H3 & _)]); [done| |done].
    cbn [ipc_step node_ipc_init take_node_ipc pr_state pr_open pr_handed snd] in *.
    split_and!; [done|done|]; right; exists ch; by rewrite H3.
  - change (ipc_step _ _) with (Process (Some None) open handed).
    destruct (IH (Process (Some None) open handed) Hp) as (H1 & H2 & [[H3 H4]|(c & H3 & _)]); [|done].
    split_and!; [done|done|]; by left.
  - assert (ipc_step (Process (Some None) open handed) Take = Process (Some None) open handed) as ->
      by (unfold ipc_step, node_ipc_init; simpl; by rewrite app_nil_r).
    destruct (IH (Process (Some None) open handed) Hp) as (H1 & H2 & [[H3 H4]|(c & H3 & _)]); [|done].
    split_and!; [done|done|]; by left.
Qed.

Lemma ipc_before_attempt (open : gset Z) (calls : list ipc_call) :
  Forall (fun c => c = Take) calls -> ipc_run open calls = ipc_start open.
Proof.
  unfold ipc_run; induction 1 as [|c calls -> Hc IH]; [done|].
  simpl; unfold node_ipc_init; simpl; exact IH.
Qed.

(** The launcher's channel is handed over at most once and never half
    validated.  Whatever the calls of a process and their order, only the first
    initialization counts: every later one is refused and changes nothing.  If it
    fails after naming a descriptor, that descriptor is closed and no run ever
    gets a channel; if it succeeds, the descriptors are untouched and the first
    run that asks afterwards gets the channel, which is a connected Unix stream
    socket in the announced mode, and no other run gets one. *)
Theorem node_ipc_handed_once (open : gset Z) (before after : list ipc_call) (channel mode : env_var)
    (sockets : Z -> socket) (Hbefore : Forall (fun c => c = Take) before) :
  let r := (initialize_node_ipc_from_env channel mode sockets (ipc_run open before)).1 in
  let p := ipc_run open (before ++ Initialize channel mode sockets :: after) in
  (forall ch m s, initialize_node_ipc_from_env ch m s p =
     (Err (config_error "Node IPC initialization may only be performed once"), p)) /\
  (length (pr_handed p) <= 1)%nat /\
  (forall c, c ∈ pr_handed p -> r = Ok () /\ valid_channel channel mode sockets c) /\
  (r = Ok () -> pr_open p = open) /\
  (forall raw fd, is_ok r = false -> channel = Present raw -> parse_node_channel_fd raw = Some fd ->
     fd ∉ pr_open p /\ pr_handed p = []) /\
  (r = Ok () -> channel <> NotPresent -> Take ∈ after -> length (pr_handed p) = 1%nat).
Proof.
  rewrite (ipc_before_attempt _ _ Hbefore); cbv zeta.
  assert (ipc_run open (before ++ Initialize channel mode sockets :: after) =
    foldl ipc_step (initialize_node_ipc_from_env channel mode sockets (ipc_start open)).2 after) as ->.
  { unfold ipc_run; rewrite foldl_app; simpl; pose proof (ipc_before_attempt open _ Hbefore) as Hb.
    unfold ipc_run in Hb; by rewrite Hb. }
  pose proof (initialize_cases channel mode sockets open) as Hi.
  destruct (initialize_node_ipc_from_env _ _ _ _) as [r p0]; destruct Hi as [Hh Hi]; cbn [fst snd].
  destruct (ipc_settled p0 after) as (Hs & Ho & Hq); [by intros E; rewrite E in Hi|].
  cbv zeta in *; set (p := foldl ipc_step p0 after) in *.
  assert (forall ch m s, initialize_node_ipc_from_env ch m s p =
    (Err (config_error "Node IPC initialization may only be performed once"), p)) as Hlate.
  { intros ch m s; unfold initialize_node_ipc_from_env; by destruct p as [[|] ? ?]. }
  destruct (pr_state p0) as [[c|]|] eqn:Hp0; [| |done].
  - destruct Hi as (-> & Hopen & Hv).
    assert (pr_handed p = [] \/ pr_handed p = [c]) as Hhanded.
    { destruct Hq as [[-> _]|(c' & Hc & ->)]; [by left|right; rewrite Hh; by simplify_eq]. }
    split_and!; try done.
    + by destruct Hhanded as [-> | ->]; simpl; lia.
    + intros c' Hc; destruct Hhanded as [E|E]; rewrite E in Hc; [by apply elem_of_nil in Hc|].
      apply list_elem_of_singleton in Hc as ->; done.
    + by intros _; rewrite Ho.
    + intros _ _ Ht; destruct Hq as [[_ Hn]|(c' & _ & ->)]; [by specialize (Hn Ht)|by rewrite Hh].
  - destruct Hq as [[-> _]|(c' & Hc & _)]; [|done].
    rewrite Hh; split_and!; try done; [simpl; lia|set_solver|..];
      destruct Hi as [(-> & -> & Hi)|[(Hr & Hi & Hn)|(raw & fd & Hr & -> & Hp & Hi)]];
      try (intros ->); try done.
    + intros raw fd _ -> Hfd; by rewrite (Hn raw) in Hfd.
    + intros raw' fd' _ Hraw Hfd; simplify_eq; rewrite Hi; split; [set_solver|done].
Qed.

Definition sample_socket (fd : Z) : socket := Socket (Ok SockStream) (Ok AfUnix) (Ok AfUnix) (Ok ()).

Definition sample_open : gset Z := {[17; 18]}.
Definition sample_after : list ipc_call := [Take; Take; Initialize (Present "18") NotPresent sample_socket].

Lemma node_ipc_handed_once_witness :
  let p := ipc_run sample_open ([Take] ++ Initialize (Present "17") (Present "advanced") sample_socket :: sample_after) in
  Forall (fun c => c = Take) [Take] /\ p = Process (Some None) sample_open [(17, Advanced)] /\
  (length (pr_handed p) <= 1)%nat.
Proof.
  assert (Forall (fun c => c = Take) [Take]) as H by (repeat constructor).
  split; [exact H|]; split; [reflexivity|].
  exact (proj1 (proj2 (node_ipc_handed_once sample_open [Take] sample_after (Present "17") (Present "advanced")
    sample_socket H))).
Defined.
