(* ===== verification/Spawn.v ===== *)
(** * Spawn: what a run's workers are made of (src/services.rs, src/worker_factory.rs,
    src/deno_runtime_adapter.rs, src/module_loader.rs).

    [RuntimeServices::new], [GraphModuleLoader::new] and [with_graph_loader],
    [build_main_worker] and the recursive factory of web workers.  A shared Rust
    object ([Arc], [Rc]) is an identity: cloning it keeps the identity, building
    one takes a fresh identity from the world.  The parts without a decision here
    (the file system, the inspector channel, DNS, the snapshot) are left out of the
    records.  A permission container is such an
    identity, so which container decides what is what the theorems are about. *)
From S2P Require Import Prelude Errors Options Features NodeIpc Workers.
Open Scope Z_scope.

(** ** The pieces *)
Section Spawn.
Context (blob : Type) (UNSTABLE_FEATURES : list (string * Z)).
(** The resolver objects and the extensions a host's factory creates. *)
Context (cjs_tracker node_resolver npm_checker pkg_json_resolver host_extension : Type).
Context (crate_version : string).

(** The permission-free stack, its fallible resolver accessors included. *)
Record shared_services := SharedServices {
  sh_cjs_tracker : result cjs_tracker libdeno_error;
  sh_node_resolver : result node_resolver libdeno_error;
  sh_in_npm_package_checker : result npm_checker libdeno_error;
  sh_pkg_json_resolver : pkg_json_resolver;
  sh_http_cache : nat; sh_global_http_cache : nat; sh_http_client : nat;
  sh_npm_process_state_provider : nat; sh_initial_cwd : path
}.

Record file_fetcher := FileFetcher {
  ff_blob_store : nat; ff_fallback : option (string * blob); ff_http_cache : nat; ff_http_client : nat;
  ff_memory_files : nat; ff_allow_remote : bool
}.

Record graph_loader := GraphLoader {
  gl_file_fetcher : file_fetcher; gl_cache : nat; gl_checker : npm_checker;
  gl_include_npm_sources : bool; gl_permissions : option nat; gl_file_permission_api_name : option string
}.

Record runtime_services := RuntimeServices {
  rs_shared : shared_services; rs_file_fetcher : file_fetcher; rs_graph_loader : graph_loader; rs_graph : nat;
  rs_blob_store : nat; rs_memory_files : nat; rs_thread_messaging : nat; rs_worker_lifecycle : nat;
  rs_shared_array_buffer_store : nat; rs_compiled_wasm_module_store : nat
}.

Record module_loader := ModuleLoader {
  ml_shared : shared_services; ml_file_fetcher : file_fetcher; ml_graph_loader : graph_loader; ml_graph : nat;
  ml_cwd : path; ml_lifecycle_closing : nat; ml_permissions : nat
}.

Record require_loader := RequireLoader { rl_cjs_tracker : cjs_tracker; rl_checker : npm_checker; rl_permissions : nat }.

Record bootstrap_options := BootstrapOptions {
  bo_deno_version : string; bo_user_agent : string; bo_has_node_modules_dir : bool; bo_location : string;
  bo_args : list string; bo_unstable_features : list Z; bo_node_ipc_init : option (Z * serialization);
  bo_worker : bool; bo_close_on_idle : bool
}.

Inductive extension :=
| GuardExtension (checker : list string) (thread_domain lifecycle : nat) (registration : option Z)
| HostExtension (e : host_extension).

(** What [new Worker(...)] passes. *)
Record worker_args := WorkerArgs {
  wa_permissions : nat; wa_main_module : string; wa_worker_id : Z; wa_close_on_idle : bool;
  wa_main_module_blob : option blob
}.

(** The state every factory of one run shares. *)
Record factory_shared := FactoryShared {
  fs_blob_store : nat; fs_broadcast_channel : nat; fs_feature_checker : list string; fs_runtime : runtime_services;
  fs_bootstrap_base : bootstrap_options; fs_max_heap_bytes : option Z; fs_extensions : option (list host_extension);
  fs_cjs_tracker : cjs_tracker; fs_node_resolver : node_resolver; fs_pkg_json_resolver : pkg_json_resolver;
  fs_checker : npm_checker
}.

Record worker := Worker {
  wk_permissions : nat; wk_loader : module_loader; wk_require : require_loader; wk_node_resolver : node_resolver;
  wk_bootstrap : bootstrap_options; wk_extensions : list extension; wk_create_params : option Z; wk_heap_guard : option (Z -> bool * Z);
  wk_blob_store : nat; wk_broadcast_channel : nat; wk_feature_checker : list string;
  wk_shared_array_buffer_store : nat; wk_compiled_wasm_module_store : nat; wk_npm_process_state_provider : nat;
  wk_factory : factory_shared * Z;  (** its [create_web_worker_cb], with the id its own workers get as parent *)
  wk_isolate : nat
}.

(** The next identity and registration, the run's worker registry with the
    process counter, and the isolates told to terminate. *)
Record world := World {
  wd_next : nat; wd_registration : Z; wd_active : Z; wd_registry : registry; wd_terminated : list nat
}.

Definition fresh (w : world) : nat * world :=
  (wd_next w, World (S (wd_next w)) (wd_registration w) (wd_active w) (wd_registry w) (wd_terminated w)).

(** ** [RuntimeServices] *)
Definition runtime_services_new (shared : shared_services) (permissions : nat) (w : world)
  : result runtime_services libdeno_error * world :=
  match sh_in_npm_package_checker shared with
  | Err e => (Err e, w)
  | Ok checker =>
      let '(memory_files, w) := fresh w in
      let '(blob_store, w) := fresh w in
      let fetcher := FileFetcher blob_store None (sh_http_cache shared) (sh_http_client shared) memory_files true in
      let loader := GraphLoader fetcher (sh_global_http_cache shared) checker false (Some permissions) (Some "import") in
      let '(graph, w) := fresh w in
      let '(thread_messaging, w) := fresh w in
      let '(worker_lifecycle, w) := fresh w in
      let '(buffers, w) := fresh w in
      let '(modules, w) := fresh w in
      (Ok (RuntimeServices shared fetcher loader graph blob_store memory_files thread_messaging worker_lifecycle
             buffers modules), w)
  end.

Definition worker_file_fetcher (r : runtime_services) (fallback : option (string * blob)) : file_fetcher :=
  FileFetcher (rs_blob_store r) fallback (sh_http_cache (rs_shared r)) (sh_http_client (rs_shared r))
    (rs_memory_files r) true.

(** [ResolverBlobStore::get]: the store first, the main module's own blob next. *)
Definition resolver_blob_get (store : string -> option blob) (fallback : option (string * blob)) (url : string)
  : option blob :=
  match store url with
  | Some b => Some b
  | None => match fallback with Some (root, b) => if bool_decide (root = url) then Some b else None | None => None end
  end.

(** ** [GraphModuleLoader] *)
Definition with_graph_loader_and_graph (r : runtime_services) (permissions : nat) (fetcher : file_fetcher)
    (loader : graph_loader) (graph : nat) : module_loader :=
  ModuleLoader (rs_shared r) fetcher loader graph (sh_initial_cwd (rs_shared r)) (rs_worker_lifecycle r) permissions.

Definition module_loader_new (r : runtime_services) (permissions : nat) : module_loader :=
  with_graph_loader_and_graph r permissions (rs_file_fetcher r) (rs_graph_loader r) (rs_graph r).

Definition with_graph_loader (r : runtime_services) (permissions : nat) (fetcher : file_fetcher)
    (loader : graph_loader) (w : world) : module_loader * world :=
  let '(graph, w) := fresh w in (with_graph_loader_and_graph r permissions fetcher loader graph, w).

(** ** Workers *)
Definition extensions_of (checker : list string) (r : runtime_services) (registration : option Z)
    (host : option (list host_extension)) : list extension :=
  GuardExtension checker (rs_thread_messaging r) (rs_worker_lifecycle r) registration ::
  match host with Some l => map HostExtension l | None => [] end.

Definition is_fresh (g : registry) : bool :=
  match g_lock g with Some (AfterInsert b) => b | _ => false end.

(** [reserve], to the end of its critical section. *)
Definition reserve_worker (worker_id parent_id : Z) (w : world) : option Z * world :=
  let id := wd_registration w in
  match reserve (wd_registry w) worker_id parent_id id with
  | None => (None, World (wd_next w) (id + 1) (wd_active w) (wd_registry w) (wd_terminated w))
  | Some g =>
      let '(active, g) := finish_reserve (is_fresh g) (wd_active w) g in
      (Some id, World (wd_next w) (id + 1) active g (wd_terminated w))
  end.

Definition set_registry (g : registry) (w : world) : world :=
  World (wd_next w) (wd_registration w) (wd_active w) g (wd_terminated w).

(** The registered worker is attached; an unregistered one is terminated. *)
Definition attach_or_terminate (worker_id : Z) (registration : option Z) (isolate : nat) (w : world) : world :=
  match registration with
  | Some id => set_registry (attach (wd_registry w) worker_id id isolate) w
  | None => World (wd_next w) (wd_registration w) (wd_active w) (wd_registry w) (isolate :: wd_terminated w)
  end.

(** The callback of [build_web_worker_factory]; [meanwhile] is what other threads
    do to the registry while the worker is bootstrapped. *)
Definition spawn_worker (factory : factory_shared * Z) (args : worker_args) (meanwhile : registry -> registry)
    (w : world) : worker * world :=
  let '(s, parent_thread_id) := factory in
  let r := fs_runtime s in
  let permissions := wa_permissions args in
  let '(registration, w) := reserve_worker (wa_worker_id args) parent_thread_id w in
  let fetcher := worker_file_fetcher r (option_map (fun b => (wa_main_module args, b)) (wa_main_module_blob args)) in
  let loader := GraphLoader fetcher (sh_global_http_cache (rs_shared r)) (fs_checker s) false (Some permissions)
                  (Some "import") in
  let '(module_loader, w) := with_graph_loader r permissions fetcher loader w in
  let base := fs_bootstrap_base s in
  let bootstrap := BootstrapOptions (bo_deno_version base) (bo_user_agent base) (bo_has_node_modules_dir base)
                     (wa_main_module args) (bo_args base) (bo_unstable_features base) (bo_node_ipc_init base) true
                     (wa_close_on_idle args) in
  let '(isolate, w) := fresh w in
  let worker := Worker permissions module_loader (RequireLoader (fs_cjs_tracker s) (fs_checker s) permissions)
      (fs_node_resolver s) bootstrap (extensions_of (fs_feature_checker s) r registration (fs_extensions s))
      (isolate_create_params (fs_max_heap_bytes s))
      (install_heap_limit_guard (bool_decide (fs_max_heap_bytes s <> None))) (fs_blob_store s)
      (fs_broadcast_channel s) (fs_feature_checker s) (rs_shared_array_buffer_store r)
      (rs_compiled_wasm_module_store r) (sh_npm_process_state_provider (rs_shared r)) (s, wa_worker_id args) isolate in
  (worker, attach_or_terminate (wa_worker_id args) registration isolate (set_registry (meanwhile (wd_registry w)) w)).

(** [create_web_worker_factory]: every fallible accessor is asked here. *)
Definition create_web_worker_factory (blob_store broadcast_channel : nat) (checker : list string)
    (r : runtime_services) (base : bootstrap_options) (max_heap_bytes : option Z)
    (extensions : option (list host_extension)) (parent_thread_id : Z)
  : result (factory_shared * Z) libdeno_error :=
  let? cjs := sh_cjs_tracker (rs_shared r) in
  let? node := sh_node_resolver (rs_shared r) in
  let? npm := sh_in_npm_package_checker (rs_shared r) in
  Ok (FactoryShared blob_store broadcast_channel checker r base max_heap_bytes extensions cjs node
        (sh_pkg_json_resolver (rs_shared r)) npm, parent_thread_id).

Definition DENO_VERSION : string := "2.9.7".

Record main_worker_input := MainWorkerInput {
  mi_main_module : string; mi_args : list string; mi_features : option (list string); mi_max_heap_bytes : option Z;
  mi_extensions : option (list host_extension); mi_has_node_modules_dir : bool; mi_module_loader : module_loader;
  mi_permissions : nat; mi_services : runtime_services
}.

(** [build_main_worker]; the launcher's channel is taken at the very end. *)
Definition build_main_worker (i : main_worker_input) (p : process) (w : world)
  : result worker libdeno_error * process * world :=
  let r := mi_services i in
  let setup :=
    let? node := sh_node_resolver (rs_shared r) in
    let? cjs := sh_cjs_tracker (rs_shared r) in
    let? npm := sh_in_npm_package_checker (rs_shared r) in
    let? enabled := enabled_features UNSTABLE_FEATURES (mi_features i) in
    Ok (node, cjs, npm, enabled) in
  match setup with
  | Err e => (Err e, p, w)
  | Ok (node, cjs, npm, enabled) =>
      let '(broadcast_channel, w) := fresh w in
      let base := BootstrapOptions DENO_VERSION ("libdeno/" +:+ crate_version +:+ "/Deno/" +:+ DENO_VERSION)
                    (mi_has_node_modules_dir i) (mi_main_module i) (mi_args i)
                    (unstable_ids UNSTABLE_FEATURES enabled) None false false in
      match create_web_worker_factory (rs_blob_store r) broadcast_channel enabled r base (mi_max_heap_bytes i)
              (mi_extensions i) 0 with
      | Err e => (Err e, p, w)
      | Ok factory =>
          let '(channel, p) := node_ipc_init p in
          let bootstrap := BootstrapOptions (bo_deno_version base) (bo_user_agent base) (bo_has_node_modules_dir base)
                             (bo_location base) (bo_args base) (bo_unstable_features base) channel false false in
          let '(isolate, w) := fresh w in
          (Ok (Worker (mi_permissions i) (mi_module_loader i) (RequireLoader cjs npm (mi_permissions i)) node bootstrap
                 (extensions_of enabled r None (mi_extensions i)) (isolate_create_params (mi_max_heap_bytes i))
                 (install_heap_limit_guard (bool_decide (mi_max_heap_bytes i <> None))) (rs_blob_store r) broadcast_channel enabled
                 (rs_shared_array_buffer_store r) (rs_compiled_wasm_module_store r)
                 (sh_npm_process_state_provider (rs_shared r)) factory isolate), p, w)
      end
  end.

(** ** One run and the workers it grows *)

(** A worker with the container it was given. *)
Record spawned := Spawned { sp_container : nat; sp_worker : worker; sp_registration : option Z }.

(** Any worker of the run may start another one. *)
Inductive run_step : list spawned * world -> list spawned * world -> Prop :=
| step_spawn (ws : list spawned) (w w' : world) (parent : spawned) (args : worker_args)
    (meanwhile : registry -> registry) (child : worker) :
    parent ∈ ws -> spawn_worker (wk_factory (sp_worker parent)) args meanwhile w = (child, w') ->
    run_step (ws, w) (ws ++ [Spawned (wa_permissions args) child (reserve_worker (wa_worker_id args)
      (wk_factory (sp_worker parent)).2 w).1], w').

(** Everything of a worker that asks for permissions asks its own container, and
    file imports are checked as imports. *)
Definition bound_to (container : nat) (k : worker) : Prop :=
  wk_permissions k = container /\ ml_permissions (wk_loader k) = container /\
  gl_permissions (ml_graph_loader (wk_loader k)) = Some container /\ rl_permissions (wk_require k) = container /\
  gl_file_permission_api_name (ml_graph_loader (wk_loader k)) = Some "import" /\
  gl_include_npm_sources (ml_graph_loader (wk_loader k)) = false /\
  gl_file_fetcher (ml_graph_loader (wk_loader k)) = ml_file_fetcher (wk_loader k).

(** What every worker of a run has in common. *)
Definition of_run (r : runtime_services) (enabled : list string) (max_heap_bytes : option Z)
    (host : option (list host_extension)) (k : worker) : Prop :=
  wk_create_params k = max_heap_bytes /\
  wk_heap_guard k = install_heap_limit_guard (bool_decide (max_heap_bytes <> None)) /\
  wk_feature_checker k = enabled /\
  (exists registration, wk_extensions k = extensions_of enabled r registration host) /\
  ff_memory_files (ml_file_fetcher (wk_loader k)) = rs_memory_files r /\
  ml_lifecycle_closing (wk_loader k) = rs_worker_lifecycle r /\
  fs_runtime (wk_factory k).1 = r /\ fs_max_heap_bytes (wk_factory k).1 = max_heap_bytes /\
  fs_feature_checker (wk_factory k).1 = enabled /\ fs_extensions (wk_factory k).1 = host /\
  bo_node_ipc_init (fs_bootstrap_base (wk_factory k).1) = None.

Definition graph_of (x : spawned) : nat := ml_graph (wk_loader (sp_worker x)).

Record run_inv (r : runtime_services) (enabled : list string) (heap : option Z) (host : option (list host_extension))
    (s : list spawned * world) : Prop := RunInv {
  ri_bound : Forall (fun x => bound_to (sp_container x) (sp_worker x)) s.1;
  ri_run : Forall (fun x => of_run r enabled heap host (sp_worker x)) s.1;
  ri_graphs : NoDup (map graph_of s.1);
  ri_old : Forall (fun x => (graph_of x < wd_next s.2)%nat) s.1;
  ri_ipc : Forall (fun x => bo_node_ipc_init (wk_bootstrap (sp_worker x)) = None) (tail s.1)
}.

Lemma reserve_next (id parent : Z) (w : world) : wd_next (reserve_worker id parent w).2 = wd_next w.
Proof. unfold reserve_worker; destruct (reserve _ _ _ _); [|done]; by destruct (finish_reserve _ _ _). Qed.

Lemma spawn_bound (factory : factory_shared * Z) (args : worker_args) (meanwhile : registry -> registry) (w w' : world)
    (k : worker) :
  spawn_worker factory args meanwhile w = (k, w') ->
  bound_to (wa_permissions args) k /\ ml_graph (wk_loader k) = wd_next w /\ wd_next w' = S (S (wd_next w)) /\
  bo_node_ipc_init (wk_bootstrap k) = bo_node_ipc_init (fs_bootstrap_base factory.1).
Proof.
  destruct factory as [s parent]; unfold spawn_worker; pose proof (reserve_next (wa_worker_id args) parent w) as Hn.
  destruct (reserve_worker (wa_worker_id args) parent w) as [reg w1]; simpl in Hn |- *; intros [= <- <-].
  split; [by split_and!|]; destruct reg; simpl; rewrite Hn; by split_and!.
Qed.

Lemma spawn_of_run (r : runtime_services) (enabled : list string) (heap : option Z) (host : option (list host_extension))
    (parent k : worker) (args : worker_args) (meanwhile : registry -> registry) (w w' : world) :
  of_run r enabled heap host parent -> spawn_worker (wk_factory parent) args meanwhile w = (k, w') ->
  of_run r enabled heap host k.
Proof.
  intros (_ & _ & _ & _ & _ & _ & P1 & P2 & P3 & P4 & P5); destruct (wk_factory parent) as [s pid]; simpl in *.
  unfold spawn_worker; destruct (reserve_worker _ _ _) as [reg w1]; simpl; intros [= <- <-]; subst.
  unfold of_run; simpl; split_and!; try done; by exists reg.
Qed.

Lemma run_step_inv (r : runtime_services) (enabled : list string) (heap : option Z) (host : option (list host_extension))
    (a b : list spawned * world) :
  run_inv r enabled heap host a -> a.1 <> [] -> run_step a b -> run_inv r enabled heap host b /\ b.1 <> [].
Proof.
  intros [I1 I2 I3 I4 I5] Hne Hs; destruct Hs as [ws w w' parent args meanwhile child Hp Hc]; simpl in *.
  pose proof (proj1 (Forall_forall _ _) I2 _ Hp) as Hpr.
  destruct (spawn_bound _ _ _ _ _ _ Hc) as (B1 & B2 & B3 & B4); pose proof (spawn_of_run _ _ _ _ _ _ _ _ _ _ Hpr Hc) as Hcr.
  split; [|by destruct ws]; split; simpl.
  - apply Forall_app; split; [done|]; by apply Forall_singleton.
  - apply Forall_app; split; [done|]; by apply Forall_singleton.
  - rewrite map_app; apply NoDup_app; split_and!; [done| |apply NoDup_singleton].
    intros g (x & -> & Hx)%list_elem_of_fmap Hg; apply list_elem_of_singleton in Hg; unfold graph_of at 2 in Hg; simpl in Hg.
    pose proof (proj1 (Forall_forall _ _) I4 _ Hx) as H; simpl in H; lia.
  - apply Forall_app; split; [|repeat constructor; unfold graph_of; simpl; lia].
    eapply Forall_impl; [exact I4|]; simpl; lia.
  - destruct ws as [|x ws]; [done|]; simpl in *; apply Forall_app; split; [done|].
    constructor; [|constructor]; simpl; rewrite B4; apply Hpr.
Qed.

(** What [run_inner_with] makes of its inputs before the module is run: the
    services, the loader over their graph, and the main worker.  The checks that
    come between these (the entry, its read permission, the cancellation
    checkpoints) end the run before a worker exists; they are in Entry and Runs. *)
Definition prepare_run (shared : shared_services) (permissions : nat) (main_module : string) (args : list string)
    (features : option (list string)) (max_heap_bytes : option Z) (host : option (list host_extension))
    (has_node_modules_dir : bool) (p : process) (w : world)
  : result (runtime_services * worker) libdeno_error * process * world :=
  match runtime_services_new shared permissions w with
  | (Err e, w) => (Err e, p, w)
  | (Ok r, w) =>
      match build_main_worker (MainWorkerInput main_module args features max_heap_bytes host has_node_modules_dir
              (module_loader_new r permissions) permissions r) p w with
      | (Err e, p, w) => (Err e, p, w)
      | (Ok main, p, w) => (Ok (r, main), p, w)
      end
  end.

Lemma prepare_run_inv (shared : shared_services) (permissions : nat) (main_module : string) (args : list string)
    (features : option (list string)) (heap : option Z) (host : option (list host_extension)) (nm : bool)
    (p p' : process) (w w' : world) (r : runtime_services) (main : worker) :
  prepare_run shared permissions main_module args features heap host nm p w = (Ok (r, main), p', w') ->
  run_inv r (wk_feature_checker main) heap host ([Spawned permissions main None], w') /\
  enabled_features UNSTABLE_FEATURES features = Ok (wk_feature_checker main) /\
  (bo_node_ipc_init (wk_bootstrap main), p') = node_ipc_init p.
Proof.
  unfold prepare_run, runtime_services_new; destruct (sh_in_npm_package_checker shared) as [npm|] eqn:En; [|done].
  unfold build_main_worker, create_web_worker_factory; cbn -[node_ipc_init enabled_features unstable_ids String.append].
  destruct (sh_node_resolver shared) as [node|]; [|done]; destruct (sh_cjs_tracker shared) as [cjs|]; [|done]; rewrite En.
  destruct (enabled_features UNSTABLE_FEATURES features) as [enabled|]; [|done].
  destruct (node_ipc_init p) as [channel p1] eqn:Ep; intros [= <- <- <- <-].
  split; [|by split]; split; simpl.
  - by apply Forall_singleton.
  - apply Forall_singleton; unfold of_run; simpl; split_and!; try done; by exists None.
  - apply NoDup_singleton.
  - apply Forall_singleton; unfold graph_of; simpl; lia.
  - done.
Qed.

(** C29. Workers never borrow each other's permissions.  However a run grows its
    tree of workers, each asks its own container for everything: its operations,
    its module loader, the graph loader of its static and dynamic imports, which
    are checked as imports, and its CommonJS reads; no two of them share a module
    graph, so none sees a module another was allowed to load; all of them have the
    run's heap ceiling and guard, features, guarded operations and host
    extensions; and only the main worker can have the launcher's channel, which a
    failed preparation leaves untaken. *)
Theorem workers_isolated (shared : shared_services) (permissions : nat) (main_module : string) (args : list string)
    (features : option (list string)) (heap : option Z) (host : option (list host_extension)) (nm : bool)
    (p p' : process) (w w0 w' : world) (r : runtime_services) (main : worker) (ws : list spawned) (e : libdeno_error) :
  (prepare_run shared permissions main_module args features heap host nm p w = (Err e, p', w') -> p' = p) /\
  (prepare_run shared permissions main_module args features heap host nm p w = (Ok (r, main), p', w0) ->
   reachable run_step ([Spawned permissions main None], w0) (ws, w') ->
   (exists enabled, enabled_features UNSTABLE_FEATURES features = Ok enabled /\
      Forall (fun x => bound_to (sp_container x) (sp_worker x) /\ of_run r enabled heap host (sp_worker x)) ws) /\
   NoDup (map graph_of ws) /\
   (exists children, ws = Spawned permissions main None :: children /\
      Forall (fun x => bo_node_ipc_init (wk_bootstrap (sp_worker x)) = None) children) /\
   (bo_node_ipc_init (wk_bootstrap main), p') = node_ipc_init p).
Proof.
  split.
  - unfold prepare_run, runtime_services_new; destruct (sh_in_npm_package_checker shared); [|by intros [= _ <- _]].
    unfold build_main_worker, create_web_worker_factory; cbn -[node_ipc_init enabled_features unstable_ids String.append].
    repeat (destr_match; simplify_eq/=; try (by intros [= _ <- _]); try done).
  - intros H Hr; apply prepare_run_inv in H as (Hi & He & Hp).
    set (start := ([Spawned permissions main None], w0)) in *.
    assert (forall b, reachable run_step start b -> run_inv r (wk_feature_checker main) heap host b /\
      exists children, b.1 = Spawned permissions main None :: children) as Hall.
    { intros b Hb; induction Hb as [|a b Ha [IH1 [children IH2]] Hs]; [split; [done|by exists []]|].
      destruct (run_step_inv _ _ _ _ a b IH1) as [? _]; [by rewrite IH2|done|].
      split; [done|]; destruct Hs as [l]; simpl in IH2 |- *; rewrite IH2; simpl; eauto. }
    destruct (Hall _ Hr) as [[I1 I2 I3 I4 I5] [children Ec]]; simpl in I1, I2, I3, I4, I5, Ec; subst ws.
    split_and!; [|done| |done].
    + exists (wk_feature_checker main); split; [done|]; apply Forall_and; by split.
    + by exists children.
Qed.

(** No worker escapes the end of its run: one started after the run's registry was
    closed is terminated before it is handed out; one whose registry is closed
    while it is bootstrapped is among those to be stopped as soon as it is
    attached; and any other is registered under its parent. *)
Theorem late_workers_stopped (factory : factory_shared * Z) (args : worker_args) (meanwhile : registry -> registry)
    (w w' : world) (k : worker) :
  spawn_worker factory args meanwhile w = (k, w') ->
  (g_closing (wd_registry w) = true -> wk_isolate k ∈ wd_terminated w') /\
  (g_closing (wd_registry w) = false ->
   (forall g rec, g_workers g !! wa_worker_id args = Some rec ->
    g_workers (meanwhile g) !! wa_worker_id args = Some rec) ->
   exists rec, g_workers (wd_registry w') !! wa_worker_id args = Some rec /\ wr_control rec = Some (wk_isolate k) /\
     wr_parent rec = factory.2 /\
     (g_closing (wd_registry w') = true -> wk_isolate k ∈ g_pending (wd_registry w'))).
Proof.
  destruct factory as [s parent]; unfold spawn_worker, reserve_worker, reserve.
  destruct (g_closing (wd_registry w)) eqn:Hc; simpl; intros [= <- <-]; (split; [intros Hc'|intros Hc' Hkeep]); try done.
  - by left.
  - set (rec := WorkerRecord (wd_registration w) parent None).
    set (g := finish_critical (set_workers (wd_registry w) (<[wa_worker_id args := rec]> (g_workers (wd_registry w)))
      (Some (AfterInsert match g_workers (wd_registry w) !! wa_worker_id args with None => true | Some _ => false end)))).
    assert (g_workers (meanwhile g) !! wa_worker_id args = Some rec) as Hm.
    { apply Hkeep; simpl; apply lookup_insert_eq. }
    unfold attach; simpl; fold rec; fold g; rewrite Hm; simpl; rewrite bool_decide_eq_true_2 by done; simpl.
    eexists; split_and!; [apply lookup_insert_eq|done|done|].
    intros ->; apply elem_of_app; right; by apply list_elem_of_singleton.
Qed.

(** The identities a run owns. *)
Definition own_ids (r : runtime_services) : list nat :=
  [rs_graph r; rs_blob_store r; rs_memory_files r; rs_thread_messaging r; rs_worker_lifecycle r;
   rs_shared_array_buffer_store r; rs_compiled_wasm_module_store r].

(** Two runs over one stack share the stack and nothing else. *)
Lemma runs_share_the_stack_only (shared : shared_services) (c1 c2 : nat) (w w1 w2 w3 : world) (r1 r2 : runtime_services) :
  runtime_services_new shared c1 w = (Ok r1, w1) -> (wd_next w1 <= wd_next w2)%nat ->
  runtime_services_new shared c2 w2 = (Ok r2, w3) ->
  own_ids r1 ## own_ids r2 /\ rs_shared r1 = rs_shared r2 /\ gl_permissions (rs_graph_loader r1) = Some c1 /\
  gl_permissions (rs_graph_loader r2) = Some c2.
Proof.
  unfold runtime_services_new; destruct (sh_in_npm_package_checker shared) as [npm|]; [|done]; simpl.
  intros [= <- <-] Hle [= <- <-]; simpl in Hle; split_and!; try done.
  intros x Hx Hy; unfold own_ids in *; simpl in *; set_unfold; lia.
Qed.
End Spawn.

(** A run whose main worker starts a worker that starts another one. *)
Definition toy_shared : shared_services unit unit unit unit :=
  SharedServices unit unit unit unit (Ok ()) (Ok ()) (Ok ()) () 1 2 3 4 "/p".
Definition toy_world : world := World 10 0 0 registry_new [].
Definition toy_run := prepare_run unit [("kv", 1)] unit unit unit unit unit "1" toy_shared 5 "m.ts" [] None (Some 1000) None
  false (Process None ∅ []) toy_world.

Lemma workers_isolated_witness :
  exists r main p' w0 ws w', toy_run = (Ok (r, main), p', w0) /\
    reachable (run_step unit unit unit unit unit unit) ([Spawned _ _ _ _ _ _ 5%nat main None], w0) (ws, w') /\
    map (sp_container _ _ _ _ _ _) ws = [5; 7; 8]%nat /\ NoDup (map (graph_of _ _ _ _ _ _) ws).
Proof.
  do 6 eexists; split; [unfold toy_run; vm_compute; reflexivity|].
  assert (forall A B C : Prop, A -> (A -> B /\ C) -> A /\ B /\ C) as Hc by tauto.
  apply Hc; clear Hc.
  - eapply reach_step; [eapply reach_step; [apply reach_refl|]|].
    + eapply (step_spawn _ _ _ _ _ _ _ _ _ _ (WorkerArgs unit 7 "w.ts" 1 false None) id); [left|vm_compute; reflexivity].
    + eapply (step_spawn _ _ _ _ _ _ _ _ _ _ (WorkerArgs unit 8 "v.ts" 2 false None) id); [right; left|vm_compute; reflexivity].
  - intros Hr; split; [reflexivity|].
    eapply (workers_isolated unit [("kv", 1)] unit unit unit unit unit "1" toy_shared 5 "m.ts" [] None (Some 1000) None false
      (Process None ∅ []) _ toy_world _ _ _ _ _ (Io (IoError OtherKind ""))); [|exact Hr]; vm_compute; reflexivity.
Defined.
