(* ===== verification/SnapshotBundle.v ===== *)
(** * SnapshotBundle: portable startup snapshots (build_support/, build.rs,
    src/snapshot_identity.rs).

    The manifest of a bundle and its text, the fingerprint, the names of the
    residual sources, what is compared before a bundle is used
    ([snapshot_bundle.rs], [snapshot_compat.rs], [snapshot_identity.rs] of both trees), and the
    import and export of a bundle by the build script.  A panic of the build
    script is an error with the message it wraps; a file system maps the components of a path to what reading
    the file gives. *)
From S2P Require Import Prelude Text Options Paths Vectors.
Open Scope Z_scope.

Definition FORMAT : string := "libdeno-snapshot-2".
Definition MANIFEST_FILE : string := "libdeno-snapshot.manifest".
Definition SNAPSHOT_FILE : string := "CLI_SNAPSHOT.bin".
Definition TABLE_FILE : string := "EXTENSION_RESIDUAL_SOURCES.rs".
Definition SIDECAR : string := "libdeno-snapshot.sources".

Record identity := Identity {
  id_libdeno : string; id_target : string; id_v8 : string; id_typescript : string; id_deno_core : string;
  id_deno_runtime : string
}.
Record residual := Residual { r_name : string; r_bytes : Z; r_hash : string }.
Record manifest := Manifest {
  m_identity : identity; m_snapshot_bytes : Z; m_snapshot_hash : string; m_table_bytes : Z; m_table_hash : string;
  m_residuals : list residual
}.

#[export] Instance identity_eq_dec : EqDecision identity.
Proof. solve_decision. Defined.

(** ** FNV-1a *)
Definition fnv_prime : Z := 0x00000100000001b3.
Definition fnv_offset : Z := 0xcbf29ce484222325.
Definition fnv_step (hash byte : Z) : Z := (Z.lxor hash byte * fnv_prime) mod 2 ^ 64.
Definition fnv (bytes : list Z) : Z := foldl fnv_step fnv_offset bytes.
Definition fingerprint (bytes : list Z) : string := hex_fixed 16 (fnv bytes) "".
Arguments fingerprint _ : simpl never.
Arguments fnv _ : simpl never.

(** ** The residual table *)
Definition backslash : Ascii.ascii := Ascii.ascii_of_nat 92.
Definition colon : Ascii.ascii := Ascii.ascii_of_nat 58.
Fixpoint replace_char (a b : Ascii.ascii) (s : string) : string :=
  match s with EmptyString => EmptyString | String c s => String (if Ascii.eqb c a then b else c) (replace_char a b s) end.
Definition table_path (rel : path) : string := String slash (replace_char backslash slash rel).

Fixpoint contains (needle s : string) : bool :=
  match without_prefix needle s with
  | Some _ => true
  | None => match s with EmptyString => false | String _ s => contains needle s end
  end.
Fixpoint trim_start_slashes (s : string) : string :=
  match s with
  | String c r => if Ascii.eqb c slash then trim_start_slashes r else s
  | EmptyString => s
  end.
Definition table_source (line : string) : option string :=
  if contains "include_str!" line then
    before ← rsplit_once quote line;
    last ← rsplit_once quote before.1;
    Some (trim_start_slashes last.2)
  else None.
Definition table_sources (table : string) : list string := omap table_source (text_lines table).

(** [write_residual_table]: the entries in the order of their specifiers, each with
    its path below the output directory; [debug] is [{:?}] of a string. *)
Definition entry_greater (a b : string * path) : bool :=
  match String.compare a.1 b.1 with Gt => true | _ => false end.
Definition entry_head (specifier : string) : string :=
  "  (" +:+ specifier +:+ ", " +:+ "include_str!" +:+ "(concat!(env!(" +:+ String quote ("OUT_DIR" +:+ String quote "), ").
Definition entry_line (debug : string -> string) (entry : string * path) : string :=
  entry_head (debug entry.1) +:+ debug (table_path entry.2) +:+ "))),".
Definition ended (line : string) : string := line +:+ String newline "".
Definition write_residual_table (debug : string -> string) (name : string) (entries : list (string * path)) : string :=
  ended ("pub static " +:+ name +:+ ": &[(&str, &str)] = &[") +:+
  foldr (fun entry rest => ended (entry_line debug entry) +:+ rest) (ended "];" +:+ ended "") (sort_by entry_greater entries).
Definition residual_table (debug : string -> string) (js esm : list (string * path)) : string :=
  ended "// @generated by build.rs - do not edit." +:+ ended "" +:+
  write_residual_table debug "RESIDUAL_LAZY_JS" js +:+ write_residual_table debug "RESIDUAL_LAZY_ESM" esm.

(** [sort] then [dedup], by the bytes of the names. *)
Definition name_greater (a b : string) : bool := match String.compare a b with Gt => true | _ => false end.
Definition sorted_names (names : list string) : list string :=
  dedup_by (fun a b => bool_decide (a = b)) (sort_by name_greater names).

(** ** Files *)
Definition files : Type := list component -> result (list Z) io_error.
Definition read (fs : files) (p : path) : result (list Z) io_error := fs (components p).
Definition write (fs : files) (p : path) (bytes : list Z) : files :=
  fun q => if decide (q = components p) then Ok bytes else fs q.
Definition is_file (fs : files) (p : path) : bool := is_ok (read fs p).

Section Bundle.
Set Default Proof Using "Type".
(** [{:?}] of a string, and the answers of directory creation and of writing. *)
Context (debug : string -> string) (create_dir_all can_write : path -> result unit string).

Definition validate_residual_name (name : string) : result unit string :=
  if decide (name = "") then Err "residual name is empty"
  else
    let normalized := replace_char backslash slash name in
    if is_absolute normalized then Err ("residual name " +:+ debug name +:+ " is absolute")
    else if existsb (fun c => bool_decide (c = "..") || bool_decide (c = ".") || bool_decide (c = "")) (split slash normalized)
    then Err ("residual name " +:+ debug name +:+ " is not a plain relative path")
    else if has colon normalized then Err ("residual name " +:+ debug name +:+ " contains ':'")
    else Ok tt.

Definition missing_sources (fs : files) (table : string) (dir : path) : list string :=
  sorted_names (List.filter (fun name => negb (is_file fs (join dir name))) (table_sources table)).

Fixpoint describe_names (fs : files) (dir : path) (names : list string) : result (list residual) string :=
  match names with
  | [] => Ok []
  | name :: names =>
      let? _ := validate_residual_name name in
      let? bytes := map_err (fun e => "cannot read residual source " +:+ name +:+ ": " +:+ io_message e)
                      (read fs (join dir name)) in
      let? rest := describe_names fs dir names in
      Ok (Residual name (Z.of_nat (length bytes)) (fingerprint bytes) :: rest)
  end.
Definition describe_residuals (fs : files) (table : string) (dir : path) : result (list residual) string :=
  describe_names fs dir (sorted_names (table_sources table)).

Fixpoint verify_each (fs : files) (dir : path) (residuals : list residual) : result unit string :=
  match residuals with
  | [] => Ok tt
  | r :: residuals =>
      let? _ := validate_residual_name (r_name r) in
      let? bytes := map_err (fun e => "missing residual source " +:+ r_name r +:+ ": " +:+ io_message e)
                      (read fs (join dir (r_name r))) in
      if decide (Z.of_nat (length bytes) <> r_bytes r \/ fingerprint bytes <> r_hash r)
      then Err ("residual source " +:+ r_name r +:+ " does not match the manifest")
      else verify_each fs dir residuals
  end.
Definition verify_residuals (m : manifest) (fs : files) (table : string) (dir : path) : result unit string :=
  let expected := sorted_names (table_sources table) in
  let recorded := sorted_names (map r_name (m_residuals m)) in
  if decide (recorded <> expected \/ length recorded <> length (m_residuals m))
  then Err "residual source list does not match the residual table"
  else verify_each fs dir (m_residuals m).

(** One iteration of the copy, then the rest; what was copied stays. *)
Fixpoint copy_each (source_dir output_dir : path) (names : list string) (fs : files) : result unit string * files :=
  match names with
  | [] => (Ok tt, fs)
  | name :: names =>
      let source := join source_dir name in
      let target := join output_dir name in
      let prepared :=
        let? _ := validate_residual_name name in
        let? _ := match parent target with
                  | Some p => map_err (fun e => "failed to create " +:+ p +:+ ": " +:+ e) (create_dir_all p)
                  | None => Ok tt
                  end in
        map_err (fun e => "does not contain the residual source " +:+ name +:+ ": " +:+ e)
          (let? bytes := map_err io_message (read fs source) in
           let? _ := can_write target in Ok bytes) in
      match prepared with
      | Err e => (Err e, fs)
      | Ok bytes => copy_each source_dir output_dir names (write fs target bytes)
      end
  end.
Definition copy_verified_residuals (m : manifest) (table : string) (source_dir output_dir : path) (fs : files)
  : result unit string * files :=
  match copy_each source_dir output_dir (table_sources table) fs with
  | (Err e, fs) => (Err e, fs)
  | (Ok _, fs) => (verify_residuals m fs table output_dir, fs)
  end.

(** ** The text of a manifest *)
Definition field_line (key value : string) : string := key +:+ String equals (value +:+ String newline "").
Definition residual_line (r : residual) : string :=
  "residual=" +:+ r_name r +:+ String tab (pretty (r_bytes r) +:+ String tab (r_hash r +:+ String newline "")).
Definition concat_text (l : list string) : string := foldr String.append "" l.
Definition render (m : manifest) : string :=
  let i := m_identity m in
  concat_text [field_line "format" FORMAT; field_line "libdeno" (id_libdeno i); field_line "target" (id_target i);
    field_line "v8" (id_v8 i); field_line "typescript" (id_typescript i); field_line "deno-core" (id_deno_core i);
    field_line "deno-runtime" (id_deno_runtime i); field_line "snapshot-bytes" (pretty (m_snapshot_bytes m));
    field_line "snapshot-hash" (m_snapshot_hash m); field_line "table-bytes" (pretty (m_table_bytes m));
    field_line "table-hash" (m_table_hash m); concat_text (map residual_line (m_residuals m))].

Definition describe (i : identity) (snapshot table : list Z) : manifest :=
  Manifest i (Z.of_nat (length snapshot)) (fingerprint snapshot) (Z.of_nat (length table)) (fingerprint table) [].

Definition manifest_keys : list string :=
  ["format"; "libdeno"; "target"; "v8"; "typescript"; "deno-core"; "deno-runtime"; "snapshot-bytes"; "snapshot-hash";
   "table-bytes"; "table-hash"].

Definition parse_residual (value : string) : result residual string :=
  match split tab value with
  | [name; bytes; hash] =>
      match parse_u64 bytes with
      | Some n => if decide (name = "") then Err "invalid residual manifest entry" else Ok (Residual name n hash)
      | None => Err "invalid residual manifest entry"
      end
  | _ => Err "invalid residual manifest entry"
  end.

(** The loop over the lines; [index] counts from 1. *)
Fixpoint parse_lines (index : Z) (ls : list string) (fields : gmap string string) (residuals : list residual)
  : result (gmap string string * list residual) string :=
  match ls with
  | [] => Ok (fields, residuals)
  | line :: ls =>
      let line := trim line in
      if decide (line = "") then parse_lines (index + 1) ls fields residuals
      else
        match split_once equals line with
        | None => Err ("line " +:+ pretty index +:+ " is not key=value: " +:+ debug line)
        | Some (key, value) =>
            if decide (key = "residual") then
              let? r := parse_residual value in parse_lines (index + 1) ls fields (residuals ++ [r])
            else if decide (key ∈ manifest_keys) then parse_lines (index + 1) ls (<[key := value]> fields) residuals
            else Err ("unknown manifest key " +:+ debug key)
        end
  end.

Definition get_field (fields : gmap string string) (key : string) : result string string :=
  match fields !! key with Some v => Ok v | None => Err ("manifest is missing " +:+ key) end.
Definition number_field (fields : gmap string string) (key : string) : result Z string :=
  let? v := get_field fields key in
  match parse_u64 v with Some n => Ok n | None => Err ("manifest " +:+ key +:+ " is not a byte count") end.

Definition parse (text : string) : result manifest string :=
  let? (fields, residuals) := parse_lines 1 (text_lines text) ∅ [] in
  let? format := get_field fields "format" in
  if decide (format <> FORMAT) then Err ("manifest format " +:+ format +:+ " is not " +:+ FORMAT +:+ "; regenerate the bundle")
  else
    let? libdeno := get_field fields "libdeno" in
    let? target := get_field fields "target" in
    let? v8 := get_field fields "v8" in
    let? typescript := get_field fields "typescript" in
    let? deno_core := get_field fields "deno-core" in
    let? deno_runtime := get_field fields "deno-runtime" in
    let? snapshot_bytes := number_field fields "snapshot-bytes" in
    let? snapshot_hash := get_field fields "snapshot-hash" in
    let? table_bytes := number_field fields "table-bytes" in
    let? table_hash := get_field fields "table-hash" in
    Ok (Manifest (Identity libdeno target v8 typescript deno_core deno_runtime) snapshot_bytes snapshot_hash
          table_bytes table_hash residuals).

(** ** Comparing a bundle with this build *)
Fixpoint verify_fields (l : list (string * string * string)) : result unit string :=
  match l with
  | [] => Ok tt
  | (field, bundle, local) :: l =>
      if decide (bundle <> local)
      then Err ("bundle was built with " +:+ field +:+ "=" +:+ bundle +:+ ", this build needs " +:+ field +:+ "=" +:+ local)
      else verify_fields l
  end.
Definition verify_content (name : string) (size : Z) (hash : string) (bytes : list Z) : result unit string :=
  if decide (Z.of_nat (length bytes) <> size \/ fingerprint bytes <> hash)
  then Err (name +:+ " does not match the manifest (expected " +:+ pretty size +:+ " bytes, hash " +:+ hash +:+
            "; found " +:+ pretty (Z.of_nat (length bytes)) +:+ " bytes, hash " +:+ fingerprint bytes +:+ ")")
  else Ok tt.
Definition verify (m : manifest) (expected : identity) (snapshot table : list Z) : result unit string :=
  let found := m_identity m in
  let? _ := verify_fields
    [("libdeno", id_libdeno found, id_libdeno expected); ("target", id_target found, id_target expected);
     ("v8", id_v8 found, id_v8 expected); ("typescript", id_typescript found, id_typescript expected);
     ("deno_core", id_deno_core found, id_deno_core expected);
     ("deno_runtime", id_deno_runtime found, id_deno_runtime expected)] in
  let? _ := verify_content "snapshot" (m_snapshot_bytes m) (m_snapshot_hash m) snapshot in
  verify_content "residual table" (m_table_bytes m) (m_table_hash m) table.

(** ** The compatibility declaration *)
(** UTF-8 decoding, strict and lossy, and the canonical form of a path. *)
Context (utf8 : list Z -> option string) (utf8_lossy : list Z -> string) (canonicalize : path -> option path).

Definition read_to_string (fs : files) (p : path) : result string io_error :=
  let? bytes := read fs p in
  match utf8 bytes with Some s => Ok s | None => Err (IoError InvalidData "stream did not contain valid UTF-8") end.

Fixpoint record_fields (ls : list string) (acc : gmap string string) : result (gmap string string) string :=
  match ls with
  | [] => Ok acc
  | line :: ls =>
      match split_once equals line with
      | None => Err "invalid compatibility record"
      | Some (key, value) =>
          match acc !! key with
          | Some _ => Err ("duplicate compatibility field " +:+ key)
          | None => record_fields ls (<[key := value]> acc)
          end
      end
  end.
Definition fields (text : string) : result (gmap string string) string := record_fields (text_lines text) ∅.

Definition only_keys (allowed : list string) (m : gmap string string) : bool :=
  forallb (fun kv => bool_decide (kv.1 ∈ allowed)) (map_to_list m).
Definition is_hexdigit (c : Ascii.ascii) : bool :=
  let n := Z.of_nat (Ascii.nat_of_ascii c) in
  bool_decide (48 <= n <= 57) || bool_decide (97 <= n <= 102) || bool_decide (65 <= n <= 70).
Definition is_source_hash (s : string) : bool :=
  Nat.eqb (String.length s) 64 && forallb is_hexdigit (String.list_ascii_of_string s).

(** What the declaration says once all its own checks have passed. *)
Definition check_declaration (fs : files) (declaration_file : option path) (bundle : path) (target : string)
    (manifest_bytes : list Z) : result (gmap string string * string) string :=
  match declaration_file with
  | None => Err "snapshot import requires the snapshot compatibility wrapper; see scripts/snapshot_compat.py"
  | Some p =>
      let? text := map_err (fun e => "cannot read compatibility declaration: " +:+ io_message e) (read_to_string fs p) in
      let? d := fields text in
      if negb (only_keys ["format"; "mode"; "target"; "bundle"; "source-hash"; "manifest-hash"] d)
      then Err "unknown field in compatibility declaration"
      else if decide (d !! "format" <> Some "libdeno-snapshot-compat-1") then Err "unsupported snapshot compatibility declaration"
      else if decide (d !! "target" <> Some target) then Err "compatibility declaration target does not match this build"
      else if decide (d !! "mode" <> Some "verified" /\ d !! "mode" <> Some "assumed")
      then Err "compatibility declaration has an invalid mode"
      else
        match d !! "bundle" with
        | None => Err "declaration is missing bundle"
        | Some declared =>
            if decide (canonicalize declared = None \/ canonicalize declared <> canonicalize bundle)
            then Err "compatibility declaration refers to a different bundle"
            else
              match d !! "source-hash" with
              | None => Err "declaration is missing source-hash"
              | Some source_hash =>
                  if negb (is_source_hash source_hash) then Err "invalid source identity in compatibility declaration"
                  else if decide (d !! "manifest-hash" <> Some (fingerprint manifest_bytes))
                  then Err "compatibility declaration is bound to a different bundle manifest"
                  else Ok (d, source_hash)
              end
        end
  end.

Definition verify_compatibility (fs : files) (declaration_file : option path) (bundle : path) (target : string)
    (manifest_bytes : list Z) : result unit string :=
  let? (d, source_hash) := check_declaration fs declaration_file bundle target manifest_bytes in
  match read_to_string fs (join bundle SIDECAR) with
  | Err e =>
      if bool_decide (d !! "mode" = Some "assumed") && kind_is e NotFound then Ok tt
      else if kind_is e NotFound
      then Err "bundle has no source provenance; rerun with --assume-compatible only if its dependencies are known to match"
      else Err ("cannot read source provenance sidecar: " +:+ io_message e)
  | Ok text =>
      let? s := fields text in
      if negb (only_keys ["format"; "target"; "manifest-hash"; "source-hash"] s)
      then Err "unknown field in source provenance sidecar"
      else if decide (s !! "format" <> Some "libdeno-snapshot-sources-1" \/ s !! "target" <> Some target \/
                 s !! "source-hash" <> Some source_hash \/ s !! "manifest-hash" <> Some (fingerprint manifest_bytes))
      then Err "bundle source provenance does not match this source tree, target, or manifest"
      else Ok tt
  end.

(** ** The ledger of Cargo.toml *)
Definition strip_quotes (rest : string) : option string :=
  rest ← without_prefix (" = " +:+ String quote "") rest; without_suffix (String quote "") rest.
Definition declared_version (manifest key : string) : result string string :=
  match omap strip_quotes (omap (fun line => without_prefix key (trim line)) (text_lines manifest)) with
  | v :: _ => Ok v
  | [] => Err ("Cargo.toml is missing " +:+ key +:+ "; it belongs under [package.metadata.libdeno.upstream]")
  end.
Definition ledger (fs : files) (manifest_path : path) (key : string) : result string string :=
  let? text := map_err (fun e => "failed to read " +:+ manifest_path +:+ ": " +:+ io_message e)
                 (read_to_string fs manifest_path) in
  declared_version text key.

(** The versions an import-only build expects ([CARGO_PKG_VERSION], [TARGET], the
    ledger of Cargo.toml in [CARGO_MANIFEST_DIR]). *)
Definition expected_snapshot_identity (fs : files) (cargo_dir : path) (pkg_version target : string) : result identity string :=
  let toml := join cargo_dir "Cargo.toml" in
  let? deno_core := ledger fs toml "deno-core-version" in
  let? deno_runtime := ledger fs toml "deno-runtime-version" in
  let? v8 := ledger fs toml "v8-version" in
  let? typescript := ledger fs toml "typescript-version" in
  Ok (Identity pkg_version target v8 typescript deno_core deno_runtime).

(** A snapshot is made by running host code. *)
Definition ensure_compatible (host_arch target_arch host target : string) : result unit string :=
  if decide (host = target) then Ok tt
  else Err ("libdeno cannot create its runtime snapshot for a cross-target build: HOST=" +:+ host +:+ " (arch " +:+ host_arch +:+
    ") must equal TARGET=" +:+ target +:+ " (arch " +:+ target_arch +:+
    "). The snapshot is created by running host code, so cross-architecture, cross-OS, and cross-ABI (glibc/musl) builds cannot label a host-generated snapshot as a "
    +:+ target +:+ " artifact. Build natively on a " +:+ target +:+ " host, or import a snapshot bundle built for " +:+ target +:+
    " with scripts/snapshot_compat.py import (see docs/prebuilt-snapshots.md); the wrapper supplies LIBDENO_SNAPSHOT_DIR.").

(** ** Import and export *)
Definition write_file (fs : files) (p : path) (bytes : list Z) : result files string :=
  let? _ := can_write p in Ok (write fs p bytes).

(** What is read and checked before anything is written. *)
Definition check_bundle (fs : files) (declaration_file : option path) (i : identity) (bundle : path)
  : result (manifest * list Z * list Z) string :=
  let? bytes := map_err io_message (read fs (join bundle MANIFEST_FILE)) in
  let? text := match utf8 bytes with Some t => Ok t | None => Err "stream did not contain valid UTF-8" end in
  let? m := parse text in
  let? _ := verify_compatibility fs declaration_file bundle (id_target i) bytes in
  let? snapshot := map_err io_message (read fs (join bundle SNAPSHOT_FILE)) in
  let? table := map_err io_message (read fs (join bundle TABLE_FILE)) in
  let? _ := verify m i snapshot table in
  let? _ := verify_residuals m fs (utf8_lossy table) bundle in
  Ok (m, snapshot, table).

Definition install_prebuilt_snapshot (fs : files) (declaration_file : option path) (i : identity) (bundle out_dir : path)
  : result unit string * files :=
  match check_bundle fs declaration_file i bundle with
  | Err e => (Err e, fs)
  | Ok (m, snapshot, table) =>
      match write_file fs (join out_dir SNAPSHOT_FILE) snapshot with
      | Err e => (Err e, fs)
      | Ok fs =>
          match write_file fs (join out_dir TABLE_FILE) table with
          | Err e => (Err e, fs)
          | Ok fs => copy_verified_residuals m (utf8_lossy table) bundle out_dir fs
          end
      end
  end.

(** ** Containment of residual names *)
Lemma split_replace (name : string) :
  split slash (replace_char backslash slash name) =
    concat (map (fun seg => split slash (replace_char backslash slash seg)) (split slash name)).
Proof.
  induction name as [|c name IH]; [done|]; simpl.
  destruct (Ascii.eqb c slash) eqn:Es; simpl.
  - apply Ascii.eqb_eq in Es as ->; simpl; by rewrite IH.
  - destruct (Ascii.eqb c backslash) eqn:Eb; simpl; rewrite ?Es, IH;
      destruct (split slash name) as [|x xs] eqn:E; [by apply split_nonempty in E| |by apply split_nonempty in E|]; simpl.
    + by rewrite Eb.
    + rewrite Eb, Es; by destruct (split slash (replace_char backslash slash x)) eqn:Ex; [apply split_nonempty in Ex|].
Qed.

Lemma split_segments (s : string) : segments s = split slash s.
Proof. induction s as [|c s IH]; simpl; [done|]; by rewrite IH. Qed.

Lemma validated_segments (name : string) :
  validate_residual_name name = Ok tt ->
  name <> "" /\ is_absolute name = false /\ Forall (fun seg => seg <> "" /\ seg <> "." /\ seg <> "..") (segments name).
Proof. clear create_dir_all canonicalize can_write.
  unfold validate_residual_name; case_decide as Hne; [done|]; destruct (is_absolute _) eqn:Ha; [done|].
  destruct (existsb _ _) eqn:Ee; [done|]; intros _; split_and!; [done| |].
  - destruct name as [|c name]; [done|]; simpl in *; destruct (Ascii.eqb c backslash) eqn:Eb; [|done].
    apply Ascii.eqb_eq in Eb as ->; done.
  - rewrite split_segments; apply Forall_forall; intros seg Hseg; rewrite split_replace in Ee.
    assert (forall x, x ∈ [""; "."; ".."] -> seg <> x) as H.
    { intros x Hx ->; apply not_true_iff_false in Ee; apply Ee; apply existsb_exists; exists x; split.
      - apply list_elem_of_In, list_elem_of_In, in_concat; exists [x]; split; [|by left].
        apply in_map_iff; exists x; split; [|by apply list_elem_of_In].
        set_unfold; destruct Hx as [->|[->|[->|[]]]]; reflexivity.
      - set_unfold; destruct Hx as [->|[->|[->|[]]]]; reflexivity. }
    split_and!; apply H; set_solver.
Qed.

Lemma validated_components (dir name : string) :
  validate_residual_name name = Ok tt -> dir <> "" ->
  components (join dir name) = components dir ++ map Normal (segments name).
Proof. clear create_dir_all canonicalize can_write.
  intros (Hne & Ha & Hs)%validated_segments Hd; rewrite components_join by done; f_equal.
  unfold plain_components; induction Hs as [|x l (H1 & H2 & H3) _ IH]; [done|].
  change (match segment_component x with Some y => y :: omap segment_component l | None => omap segment_component l end
    = Normal x :: map Normal l).
  rewrite IH; unfold segment_component; rewrite decide_False by naive_solver; by rewrite decide_False by done.
Qed.

(** ** Fingerprints *)
Definition fnv_inverse : Z := 0xce965057aff6957b.

Lemma fnv_step_range (h b : Z) : is_u64 (fnv_step h b).
Proof. unfold fnv_step, is_u64, u64_max; pose proof (Z.mod_pos_bound (Z.lxor h b * fnv_prime) (2 ^ 64)); lia. Qed.

Lemma fnv_mul_inj (a b : Z) :
  is_u64 a -> is_u64 b -> (a * fnv_prime) mod 2 ^ 64 = (b * fnv_prime) mod 2 ^ 64 -> a = b.
Proof.
  unfold is_u64, u64_max; intros Ha Hb H.
  assert (forall x, 0 <= x <= 2 ^ 64 - 1 -> ((x * fnv_prime) mod 2 ^ 64 * fnv_inverse) mod 2 ^ 64 = x) as Hinv.
  { intros x Hx; rewrite Z.mul_mod_idemp_l, <- Z.mul_assoc by done.
    replace ((x * (fnv_prime * fnv_inverse)) mod 2 ^ 64) with ((x * ((fnv_prime * fnv_inverse) mod 2 ^ 64)) mod 2 ^ 64)
      by (by rewrite Z.mul_mod_idemp_r).
    replace ((fnv_prime * fnv_inverse) mod 2 ^ 64) with 1 by by vm_compute.
    rewrite Z.mul_1_r; apply Z.mod_small; lia. }
  by rewrite <- (Hinv a), <- (Hinv b), H by done.
Qed.

Lemma lxor_u64 (a b : Z) : is_u64 a -> is_u8 b -> is_u64 (Z.lxor a b).
Proof.
  unfold is_u64, is_u8, u64_max; intros Ha Hb; assert (0 <= Z.lxor a b) by (apply Z.lxor_nonneg; lia).
  split; [done|]; destruct (decide (Z.lxor a b = 0)) as [->|Hn]; [done|].
  assert (Z.lxor a b < 2 ^ 64); [|lia].
  apply Z.log2_lt_pow2; [lia|]; eapply Z.le_lt_trans; [apply Z.log2_lxor; lia|].
  assert (forall x, 0 <= x < 2 ^ 64 -> Z.log2 x < 64) as Hl.
  { intros x Hx; destruct (decide (x = 0)) as [->|]; [done|]; apply Z.log2_lt_pow2; lia. }
  apply Z.max_lub_lt; apply Hl; lia.
Qed.

Lemma fnv_tail_inj (bytes : list Z) (h h' : Z) :
  Forall is_u8 bytes -> is_u64 h -> is_u64 h' -> foldl fnv_step h bytes = foldl fnv_step h' bytes -> h = h'.
Proof.
  intros Hb; revert h h'; induction Hb as [|b bytes Hb _ IH]; intros h h' Hh Hh'; [done|]; simpl; intros E.
  apply IH in E; [|apply fnv_step_range..]; apply fnv_mul_inj in E; [|by apply lxor_u64..].
  by rewrite <- (Z.lxor_0_r h), <- (Z.lxor_nilpotent b), <- Z.lxor_assoc, E, Z.lxor_assoc, Z.lxor_nilpotent, Z.lxor_0_r.
Qed.

Lemma fnv_range (bytes : list Z) : is_u64 (fnv bytes).
Proof.
  unfold fnv; destruct (list_eq_nil_dec bytes) as [->|Hn]; [by vm_compute|].
  destruct bytes as [|b bytes _] using rev_ind; [done|]; rewrite foldl_snoc; apply fnv_step_range.
Qed.

(** A changed byte changes the fingerprint, whatever surrounds it. *)
Lemma fingerprint_substitution (a b : list Z) (x y : Z) :
  Forall is_u8 b -> is_u8 x -> is_u8 y -> fingerprint (a ++ x :: b) = fingerprint (a ++ y :: b) -> x = y.
Proof.
  intros Hb Hx Hy E; unfold fingerprint in E; apply hex_fixed_inj in E;
    [|match goal with |- 0 <= fnv ?l < _ => pose proof (fnv_range l) as H; unfold is_u64, u64_max in H; change (16 ^ Z.of_nat 16) with (2 ^ 64); lia end..].
  unfold fnv in E; rewrite !foldl_app in E; simpl in E; apply fnv_tail_inj in E; [|done|apply fnv_step_range..].
  pose proof (fnv_range a) as Ha; apply fnv_mul_inj in E; [|by apply lxor_u64..].
  apply (f_equal (Z.lxor (fnv a))) in E; unfold fnv in E.
  by rewrite <- !Z.lxor_assoc, !Z.lxor_nilpotent, !Z.lxor_0_l in E.
Qed.

(** ** What [verify] compares *)
Lemma verify_content_ok (name hash : string) (size : Z) (bytes : list Z) :
  verify_content name size hash bytes = Ok tt <-> Z.of_nat (length bytes) = size /\ fingerprint bytes = hash.
Proof. clear utf8_lossy utf8 debug create_dir_all canonicalize can_write.
  unfold verify_content; case_decide as H; [split; [done|]|split; [intros _|done]].
  - by intros [H1 H2]; destruct H.
  - split; apply dec_stable; tauto.
Qed.

Lemma verify_ok (m : manifest) (i : identity) (snapshot table : list Z) :
  verify m i snapshot table = Ok tt <->
  m_identity m = i /\
  (Z.of_nat (length snapshot) = m_snapshot_bytes m /\ fingerprint snapshot = m_snapshot_hash m) /\
  (Z.of_nat (length table) = m_table_bytes m /\ fingerprint table = m_table_hash m).
Proof. clear utf8_lossy utf8 debug create_dir_all canonicalize can_write.
  rewrite <- (verify_content_ok "snapshot" (m_snapshot_hash m) (m_snapshot_bytes m) snapshot).
  rewrite <- (verify_content_ok "residual table" (m_table_hash m) (m_table_bytes m) table); unfold verify.
  destruct (m_identity m) as [a1 a2 a3 a4 a5 a6], i as [b1 b2 b3 b4 b5 b6]; simpl.
  repeat (case_decide; [split; [done|intros (? & _); congruence]|]).
  destruct (verify_content "snapshot" _ _ _) as [[]|]; [|naive_solver].
  split; [intros Ht|by intros (_ & _ & Ht)]; split; [by f_equal|done].
Qed.

(** ** Names in order *)
Definition in_order (l : list string) : Prop := forall i a b, l !! i = Some a -> l !! S i = Some b -> name_greater a b = false.

Lemma name_greater_asym (a b : string) : name_greater a b = true -> name_greater b a = false.
Proof. unfold name_greater; rewrite (String.compare_antisym b a); by destruct (String.compare a b). Qed.

Lemma in_order_cons (a : string) (l : list string) :
  in_order (a :: l) <-> (match l with b :: _ => name_greater a b = false | [] => True end) /\ in_order l.
Proof.
  split.
  - intros H; split; [destruct l as [|b l]; [done|]; by apply (H 0%nat)|]; intros i x y; apply (H (S i)).
  - intros [H1 H2] [|i] x y; simpl; [|apply H2]; intros [= <-]; destruct l; [done|]; by intros [= <-].
Qed.

Lemma sort_insert_order (e : string) (l : list string) : in_order l -> in_order (sort_insert name_greater e l).
Proof.
  induction l as [|d l IH]; simpl; intros H; [by intros [|i] ? ?|].
  destruct (name_greater e d) eqn:E; [|by apply in_order_cons].
  apply in_order_cons in H as [H1 H2]; apply in_order_cons; split; [|by apply IH].
  destruct l as [|x l]; simpl; [by apply name_greater_asym|]; destruct (name_greater e x); [done|by apply name_greater_asym].
Qed.
Lemma sort_by_order (l : list string) : in_order (sort_by name_greater l).
Proof. induction l as [|e l IH]; [by intros [|i] ? ?|]; by apply sort_insert_order. Qed.
Lemma sort_by_id (l : list string) : in_order l -> sort_by name_greater l = l.
Proof.
  induction l as [|e l IH]; [done|]; intros [H1 H2]%in_order_cons; simpl; rewrite (IH H2).
  destruct l as [|d l]; simpl; [done|]; by rewrite H1.
Qed.

Definition same_name (a b : string) : bool := bool_decide (a = b).
Lemma dedup_after_head (a : string) (l : list string) : exists l', dedup_after same_name a l = a :: l'.
Proof.
  revert a; induction l as [|b l IH]; intros a; simpl; [by exists []|]; destruct (same_name b a); [apply IH|eauto].
Qed.
Lemma dedup_after_fixed (a : string) (l : list string) :
  in_order (a :: l) ->
  in_order (dedup_after same_name a l) /\
  dedup_by same_name (dedup_after same_name a l) = dedup_after same_name a l.
Proof.
  revert a; induction l as [|b l IH]; intros a; simpl; [done|]; intros H.
  destruct (same_name b a) eqn:E.
  - apply bool_decide_eq_true in E as ->; apply IH; by apply in_order_cons in H as [_ H].
  - apply in_order_cons in H as [H1 H2]; destruct (IH b H2) as [I1 I2], (dedup_after_head b l) as [l' El].
    rewrite El in I1, I2 |- *; split; [by apply in_order_cons|]; simpl in I2 |- *; by rewrite E, I2.
Qed.

Lemma sorted_names_idem (l : list string) : sorted_names (sorted_names l) = sorted_names l.
Proof.
  unfold sorted_names; change (fun a b : string => bool_decide (a = b)) with same_name.
  pose proof (sort_by_order l) as H; destruct (sort_by name_greater l) as [|a k]; [done|]; simpl.
  destruct (dedup_after_fixed a k H) as [H1 H2]; by rewrite sort_by_id.
Qed.

Lemma describe_names_spec (fs : files) (dir : path) (names : list string) (rs : list residual) :
  describe_names fs dir names = Ok rs ->
  map r_name rs = names /\ verify_each fs dir rs = Ok tt /\
  Forall (fun r => exists bytes, r_bytes r = Z.of_nat (length bytes) /\ r_hash r = fingerprint bytes /\
    validate_residual_name (r_name r) = Ok tt) rs.
Proof. clear utf8_lossy utf8 create_dir_all canonicalize can_write.
  revert rs; induction names as [|name names IH]; intros rs; simpl; [by intros [= <-]|].
  destruct (validate_residual_name name) as [[]|] eqn:Ev; [|done].
  destruct (read fs (join dir name)) as [bytes|] eqn:Er; simpl; [|done].
  destruct (describe_names fs dir names) as [rest|]; [|done]; intros [= <-].
  destruct (IH _ eq_refl) as (I1 & I2 & I3); split; [cbn [map r_name]; by rewrite I1|split].
  - cbn [verify_each r_name r_bytes r_hash]; rewrite Ev, Er; cbn [map_err]; by rewrite decide_False by tauto.
  - constructor; [by exists bytes|done].
Qed.

Lemma described_residuals_verify (m : manifest) (fs : files) (table : string) (dir : path) (rs : list residual) :
  describe_residuals fs table dir = Ok rs -> m_residuals m = rs -> verify_residuals m fs table dir = Ok tt.
Proof.
  intros (H1 & H2 & _)%describe_names_spec Hm; unfold verify_residuals; rewrite Hm, H1, sorted_names_idem.
  rewrite decide_False; [done|]; intros [H|H]; [done|]; by rewrite <- H1, length_map in H.
Qed.

(** ** Reading a rendered manifest back *)
Lemma ends_visibly_has (s : string) :
  Forall (fun w => exists c r, reverse_text w = String c r /\ has c s = false) white_space -> ends_visibly s.
Proof.
  unfold ends_visibly, white_free; intros H; apply omap_nil, Forall_fmap; eapply Forall_impl; [exact H|].
  intros w (c & r & Hw & Hc); simpl; rewrite Hw; rewrite <- has_reverse in Hc.
  destruct (reverse_text s) as [|d t]; [done|]; simpl in Hc |- *; apply orb_false_iff in Hc as [Hc _].
  by rewrite Ascii.eqb_sym, Hc.
Qed.

Lemma pretty_ends_visibly (z : Z) : 0 <= z -> ends_visibly (pretty z).
Proof.
  intros Hz; apply ends_visibly_has; repeat (constructor; [do 2 eexists; split; [reflexivity|]; by apply pretty_has_not|]); constructor.
Qed.
Lemma fingerprint_has_not (c : Ascii.ascii) (bytes : list Z) :
  forallb (fun i => negb (Ascii.eqb (hex_char (Z.of_nat i)) c)) (seq 0 16) = true -> has c (fingerprint bytes) = false.
Proof. intros H; by apply hex_fixed_has_not. Qed.
Lemma fingerprint_ends_visibly (bytes : list Z) : ends_visibly (fingerprint bytes).
Proof.
  apply ends_visibly_has; repeat (constructor; [do 2 eexists; split; [reflexivity|]; by apply fingerprint_has_not|]); constructor.
Qed.

(** What a value of the text may be: one line that no white space ends. *)
Definition value_ok (v : string) : Prop := has newline v = false /\ ends_visibly v.

Record identity_ok (i : identity) : Prop := IdentityOk {
  iok_libdeno : value_ok (id_libdeno i); iok_target : value_ok (id_target i); iok_v8 : value_ok (id_v8 i);
  iok_typescript : value_ok (id_typescript i); iok_deno_core : value_ok (id_deno_core i);
  iok_deno_runtime : value_ok (id_deno_runtime i)
}.
Definition residual_ok (r : residual) : Prop :=
  r_name r <> "" /\ has newline (r_name r) = false /\ has tab (r_name r) = false /\ is_u64 (r_bytes r) /\
  has tab (r_hash r) = false /\ has newline (r_hash r) = false /\
  exists c t, r_hash r = String c t /\ visible c /\ ends_visibly t.
Record manifest_ok (m : manifest) : Prop := ManifestOk {
  mok_identity : identity_ok (m_identity m);
  mok_snapshot : is_u64 (m_snapshot_bytes m) /\ value_ok (m_snapshot_hash m);
  mok_table : is_u64 (m_table_bytes m) /\ value_ok (m_table_hash m);
  mok_residuals : Forall residual_ok (m_residuals m)
}.

Lemma pretty_value_ok (z : Z) : is_u64 z -> value_ok (pretty z).
Proof. intros [H _]; split; [by apply pretty_has_not|by apply pretty_ends_visibly]. Qed.
Lemma fingerprint_value_ok (bytes : list Z) : value_ok (fingerprint bytes).
Proof. split; [by apply fingerprint_has_not|apply fingerprint_ends_visibly]. Qed.

(** No white space is a hexadecimal digit. *)
Definition hex_free (w : string) : bool :=
  forallb (fun c => forallb (fun i => negb (Ascii.eqb (hex_char (Z.of_nat i)) c)) (seq 0 16)) (String.list_ascii_of_string w).

Lemma fingerprint_head (bytes : list Z) : exists c t, fingerprint bytes = String c t /\ visible c /\ ends_visibly t.
Proof.
  pose proof (fun c => fingerprint_has_not c bytes) as H; pose proof (hex_fixed_length 16 (fnv bytes) "") as Hl.
  unfold fingerprint in *; destruct (hex_fixed 16 _ _) as [|c t]; [done|]; exists c, t; split; [done|].
  assert (forallb hex_free white_space = true) as Hw by by vm_compute.
  rewrite forallb_forall in Hw; split.
  - unfold visible; apply forallb_forall; intros w Hin; apply negb_true_iff, not_true_iff_false; intros Hc%has_in.
    specialize (Hw w Hin); unfold hex_free in Hw; rewrite forallb_forall in Hw; specialize (H c (Hw c Hc)).
    simpl in H; by rewrite Ascii.eqb_refl in H.
  - apply ends_visibly_has; repeat (constructor; [do 2 eexists; split; [reflexivity|]|]); [..|constructor];
      (match goal with |- has ?x t = false => specialize (H x ltac:(by vm_compute)); simpl in H; by apply orb_false_iff in H as [_ H] end).
Qed.

(** One line of the loop, whatever its kind. *)
Lemma parse_line (index : Z) (c : Ascii.ascii) (key value rest : string) (fs : gmap string string) (rs : list residual) :
  visible c -> has newline (String c key) = false -> has equals (String c key) = false -> value_ok value ->
  parse_lines index (text_lines (field_line (String c key) value +:+ rest)) fs rs =
    if decide (String c key = "residual")
    then let? r := parse_residual value in parse_lines (index + 1) (text_lines rest) fs (rs ++ [r])
    else if decide (String c key ∈ manifest_keys)
    then parse_lines (index + 1) (text_lines rest) (<[String c key := value]> fs) rs
    else Err ("unknown manifest key " +:+ debug (String c key)).
Proof.
  intros Hc Hn He [Hvn Hve].
  assert (field_line (String c key) value +:+ rest = (String c key +:+ String equals value) +:+ String newline rest) as ->.
  { unfold field_line; rewrite (string_app_assoc (String c key)), (string_app_assoc (String c key) (String equals value)); f_equal.
    change (String equals ((value +:+ String newline "") +:+ rest) = String equals (value +:+ String newline rest)).
    by rewrite string_app_assoc. }
  rewrite text_lines_cons by (rewrite has_app; cbn [has]; cbn [has] in Hn; by rewrite Hn, Hvn).
  assert (ends_visibly (String c key +:+ String equals value)) as Hv by by apply ends_visibly_app.
  rewrite strip_carriage_visible by done; cbn [parse_lines].
  change (String c key +:+ String equals value) with (String c (key +:+ String equals value)) in *.
  rewrite trim_visible, decide_False by done.
  change (String c (key +:+ String equals value)) with (String c key +:+ String equals value).
  by rewrite split_once_cons.
Qed.

Definition residual_value (r : residual) : string :=
  r_name r +:+ String tab (pretty (r_bytes r) +:+ String tab (r_hash r)).

Lemma residual_line_field (r : residual) : residual_line r = field_line "residual" (residual_value r).
Proof.
  unfold residual_line, field_line, residual_value.
  change ("residual=" +:+ ?x) with ("residual" +:+ String equals x); do 2 f_equal.
  rewrite string_app_assoc; f_equal.
  change (String tab (?a +:+ ?b) +:+ ?c) with (String tab ((a +:+ b) +:+ c)); by rewrite string_app_assoc.
Qed.

Lemma residual_value_ok (r : residual) : residual_ok r -> value_ok (residual_value r) /\ parse_residual (residual_value r) = Ok r.
Proof.
  intros (Hne & Hnn & Hnt & Hb & Hht & Hhn & c & t & Hct & Hc & Ht); unfold residual_value; split; [split|].
  - rewrite has_app, Hnn; cbn [has]; rewrite has_app, (pretty_has_not newline) by (apply Hb || done); cbn [has]; by rewrite Hhn.
  - assert (r_name r +:+ String tab (pretty (r_bytes r) +:+ String tab (r_hash r)) =
      (r_name r +:+ String tab (pretty (r_bytes r) +:+ String tab "")) +:+ r_hash r) as ->.
    { rewrite string_app_assoc; f_equal; change (?x = String tab (?a +:+ String tab "") +:+ ?h) with
        (x = String tab ((a +:+ String tab "") +:+ h)); by rewrite string_app_assoc. }
    rewrite Hct; by apply ends_visibly_app.
  - unfold parse_residual; rewrite split_cons, split_cons, split_none by (done || (apply pretty_has_not; [apply Hb|done])).
    rewrite parse_u64_pretty by done; rewrite decide_False by done; by destruct r.
Qed.

Lemma parse_residuals (index : Z) (l rs : list residual) (fs : gmap string string) :
  Forall residual_ok l -> parse_lines index (text_lines (concat_text (map residual_line l))) fs rs = Ok (fs, rs ++ l).
Proof.
  intros H; revert index rs; induction H as [|r l Hr _ IH]; intros index rs; [by rewrite app_nil_r|].
  cbn [map concat_text foldr]; destruct (residual_value_ok r Hr) as [Hv Hp]; rewrite residual_line_field.
  rewrite parse_line by done; rewrite decide_True by done; rewrite Hp; cbn [foldr].
  unfold concat_text in IH; by rewrite IH, <- app_assoc.
Qed.

(** Reading one field of [render]. *)
Ltac read_field := rewrite parse_line by (assumption || reflexivity);
  rewrite decide_False by discriminate; rewrite decide_True by (eapply bool_decide_eq_true_1; reflexivity).

Lemma parse_render (m : manifest) : manifest_ok m -> parse (render m) = Ok m.
Proof.
  intros [[I1 I2 I3 I4 I5 I6] [S1 S2] [T1 T2] R].
  assert (value_ok FORMAT) as HF by (by vm_compute).
  pose proof (pretty_value_ok _ S1) as S1'; pose proof (pretty_value_ok _ T1) as T1'.
  unfold parse, render; cbn [concat_text foldr].
  do 11 read_field; rewrite string_app_nil, parse_residuals by done.
  unfold number_field, get_field; rewrite !lookup_insert_ne, lookup_insert_eq by done; rewrite decide_False by tauto.
  repeat (rewrite ?lookup_insert_ne by done; rewrite lookup_insert_eq).
  rewrite !parse_u64_pretty by done; by destruct m as [[]].
Qed.

(** A described residual matches what was read, and its sizes fit. *)
Lemma describe_names_residuals (fs : files) (dir : path) (names : list string) (rs : list residual) :
  Forall (fun n => forall bytes, read fs (join dir n) = Ok bytes -> is_u64 (Z.of_nat (length bytes))) names ->
  describe_names fs dir names = Ok rs ->
  map r_name rs = names /\
  Forall (fun r => validate_residual_name (r_name r) = Ok tt /\ is_u64 (r_bytes r) /\ exists bytes, r_hash r = fingerprint bytes) rs.
Proof.
  intros Hsize; revert rs; induction Hsize as [|name names Hsize _ IH]; intros rs; cbn [describe_names]; [by intros [= <-]|].
  destruct (validate_residual_name name) as [[]|] eqn:Ev; [|done].
  destruct (read fs (join dir name)) as [bytes|] eqn:Er; cbn [map_err]; [|done].
  destruct (describe_names fs dir names) as [rest|]; [|done]; intros [= <-].
  destruct (IH _ eq_refl) as [I1 I2]; split; [cbn [map r_name]; by rewrite I1|].
  constructor; [|done]; split_and!; [done|by eapply Hsize|by exists bytes].
Qed.

(** ** What the build writes *)
Definition one_byte_differs (s s' : list Z) : Prop :=
  exists a b x y, s = a ++ x :: b /\ s' = a ++ y :: b /\ Forall is_u8 b /\ is_u8 x /\ is_u8 y /\ x <> y.

Definition agree_outside (dir : path) (fs fs' : files) : Prop := forall q, ~ (components dir `prefix_of` q) -> fs' q = fs q.
Lemma agree_refl (dir : path) (fs : files) : agree_outside dir fs fs.
Proof. by intros q _. Qed.
Lemma agree_trans (dir : path) (a b c : files) : agree_outside dir a b -> agree_outside dir b c -> agree_outside dir a c.
Proof. intros H1 H2 q Hq; by rewrite H2, H1. Qed.

Lemma agree_write (dir name : path) (fs : files) (bytes : list Z) :
  validate_residual_name name = Ok tt -> dir <> "" -> agree_outside dir fs (write fs (join dir name) bytes).
Proof.
  intros Hv Hd q Hq; unfold write; rewrite decide_False; [done|]; intros ->; apply Hq.
  rewrite validated_components by done; by exists (map Normal (segments name)).
Qed.
Lemma agree_write_file (dir name : path) (fs : files) (bytes : list Z) :
  name = SNAPSHOT_FILE \/ name = TABLE_FILE -> dir <> "" -> agree_outside dir fs (write fs (join dir name) bytes).
Proof using debug. intros [-> | ->] Hd; by apply agree_write. Qed.

(** ** Files copied from one directory to another *)
Lemma read_components (fs : files) (p q : path) : components p = components q -> read fs p = read fs q.
Proof. unfold read; by intros ->. Qed.
Lemma read_write_eq (fs : files) (p q : path) (bytes : list Z) :
  components q = components p -> read (write fs p bytes) q = Ok bytes.
Proof. intros E; unfold read, write; by rewrite decide_True. Qed.
Lemma read_write_ne (fs : files) (p q : path) (bytes : list Z) :
  components q <> components p -> read (write fs p bytes) q = read fs q.
Proof. intros E; unfold read, write; by rewrite decide_False. Qed.

(** Two directories neither of which holds the other. *)
Definition apart (a b : path) : Prop :=
  ~ (components a `prefix_of` components b) /\ ~ (components b `prefix_of` components a).

Lemma apart_sym (a b : path) : apart a b -> apart b a.
Proof. by intros []. Qed.
Lemma apart_app (a b : path) (xs : list component) : apart a b -> ~ (components a `prefix_of` components b ++ xs).
Proof.
  intros [H1 H2] [k Hk]; destruct (decide (length (components a) <= length (components b))%nat) as [Hl|Hl].
  - apply H1; exists (drop (length (components a)) (components b)).
    apply (f_equal (take (length (components a)))) in Hk; rewrite take_app_le, take_app_length in Hk by done.
    rewrite <- Hk at 1; by rewrite take_drop.
  - apply H2; exists (drop (length (components b)) (components a)).
    apply (f_equal (take (length (components b)))) in Hk; rewrite take_app_length, take_app_le in Hk by lia.
    rewrite Hk at 1; by rewrite take_drop.
Qed.

Lemma agree_read (dir : path) (fs fs' : files) (p : path) :
  agree_outside dir fs fs' -> ~ (components dir `prefix_of` components p) -> read fs' p = read fs p.
Proof. intros H; apply H. Qed.
(** What is done in one directory leaves the files of another. *)
Lemma agree_other (a b : path) (fs fs' : files) (name : string) :
  agree_outside a fs fs' -> apart a b -> b <> "" -> validate_residual_name name = Ok tt ->
  read fs' (join b name) = read fs (join b name).
Proof.
  intros H Hab Hb Hv; apply (agree_read a); [done|]; rewrite validated_components by done; by apply apart_app.
Qed.

(** The files of those names in one directory are, after, those of the other. *)
Definition mirrored (fs fs' : files) (src dst : path) (names : list string) : Prop :=
  Forall (fun name => exists bytes, read fs (join src name) = Ok bytes /\ read fs' (join dst name) = Ok bytes) names.
Definition untouched (fs fs' : files) (dst : path) (names : list string) : Prop :=
  forall q, q ∉ map (fun name => components (join dst name)) names -> fs' q = fs q.
Definition valid (name : string) : Prop := validate_residual_name name = Ok tt.

Lemma mirror_step (fs fs' : files) (src dst : path) (name : string) (names : list string) (bytes : list Z) :
  src <> "" -> dst <> "" -> apart dst src -> Forall valid (name :: names) -> read fs (join src name) = Ok bytes ->
  mirrored (write fs (join dst name) bytes) fs' src dst names -> untouched (write fs (join dst name) bytes) fs' dst names ->
  mirrored fs fs' src dst (name :: names) /\ untouched fs fs' dst (name :: names).
Proof.
  intros Hs Hd Ha Hv Hr Hm Hu; apply Forall_cons in Hv as [Hv Hvs].
  assert (forall n, valid n -> read (write fs (join dst name) bytes) (join src n) = read fs (join src n)) as Hsrc.
  { intros n Hn; apply (agree_other dst); [by apply agree_write|done..]. }
  split.
  - constructor.
    + exists bytes; split; [done|].
      destruct (decide (components (join dst name) ∈ map (fun n => components (join dst n)) names)) as [Hin|Hin].
      * apply list_elem_of_fmap in Hin as (n & E & Hn); rewrite (read_components _ _ _ E).
        pose proof Hm as Hm'; unfold mirrored in Hm'; rewrite Forall_forall in Hm'; destruct (Hm' n Hn) as (b & Hb1 & Hb2).
        rewrite Forall_forall in Hvs; rewrite Hsrc in Hb1 by (by apply Hvs).
        rewrite (read_components fs (join src n) (join src name)) in Hb1; [congruence|].
        rewrite !validated_components in * by (done || by apply Hvs); by apply app_inv_head in E as ->.
      * unfold read; rewrite Hu by done; by apply read_write_eq.
    + unfold mirrored in *; rewrite Forall_forall in *; intros n Hn; destruct (Hm n Hn) as (b & Hb1 & Hb2).
      exists b; split; [rewrite <- Hb1; symmetry; apply Hsrc; by apply Hvs|done].
  - intros q [Hq1 Hq2]%not_elem_of_cons; rewrite Hu by done; unfold write; by rewrite decide_False.
Qed.

(** A copy that succeeded: the names are names of files, each file is there as it
    was, and nothing else changed. *)
Lemma copy_each_spec (src dst : path) (names : list string) (fs fs' : files) (u : unit) :
  copy_each src dst names fs = (Ok u, fs') ->
  Forall valid names /\ untouched fs fs' dst names /\
  (src <> "" -> dst <> "" -> apart dst src -> mirrored fs fs' src dst names).
Proof.
  revert fs; induction names as [|name names IH]; intros fs; cbn [copy_each].
  { intros [= _ <-]; split_and!; [constructor|done|constructor]. }
  destruct (validate_residual_name name) as [[]|] eqn:Ev; [|done].
  destruct (match parent (join dst name) with Some p => _ | None => _ end) as [[]|]; [|done].
  destruct (read fs (join src name)) as [bytes|] eqn:Er; cbn [map_err]; [|done].
  destruct (can_write (join dst name)); cbn [map_err]; [|done]; intros H; apply IH in H as (Hv & Hu & Hm).
  assert (Forall valid (name :: names)) as Hvs by (by constructor); split_and!; [done| |].
  - intros q [Hq1 Hq2]%not_elem_of_cons; rewrite Hu by done; unfold write; by rewrite decide_False.
  - intros Hs Hd Ha; by apply (mirror_step fs fs' src dst name names bytes Hs Hd Ha Hvs Er (Hm Hs Hd Ha) Hu).
Qed.

(** A file of the output directory that was there before the copy: if a residual
    source has its name, it is the bundle's file of that name that is there now. *)
Lemma copied_over (src dst file : path) (names : list string) (fs fs' : files) (bytes : list Z) :
  src <> "" -> dst <> "" -> valid file -> Forall valid names -> untouched fs fs' dst names ->
  read fs (join dst file) = Ok bytes ->
  (apart dst src /\ mirrored fs fs' src dst names /\ read fs (join src file) = Ok bytes) \/
  Forall (fun n => components (join dst n) <> components (join dst file)) names ->
  read fs' (join dst file) = Ok bytes.
Proof.
  intros Hs Hd Hf Hv Hu Hr Hor.
  destruct (decide (components (join dst file) ∈ map (fun n => components (join dst n)) names)) as [Hin|Hin].
  - apply list_elem_of_fmap in Hin as (n & E & Hn); rewrite (read_components _ _ _ E).
    destruct Hor as [(Ha & Hm & Hb)|Hne]; [|rewrite Forall_forall in Hne; by destruct (Hne n Hn)].
    unfold mirrored in Hm; rewrite Forall_forall in Hm, Hv; destruct (Hm n Hn) as (b & Hb1 & ->); rewrite <- Hb, <- Hb1.
    apply read_components; rewrite !validated_components in * by (done || by apply Hv); by apply app_inv_head in E as ->.
  - unfold read; by rewrite Hu.
Qed.

Lemma copy_each_contained (source_dir output_dir : path) (names : list string) (fs fs' : files) (r : result unit string) :
  output_dir <> "" -> copy_each source_dir output_dir names fs = (r, fs') -> agree_outside output_dir fs fs'.
Proof.
  intros Ho; revert fs; induction names as [|name names IH]; intros fs; simpl; [intros [= _ <-]; apply agree_refl|].
  destruct (validate_residual_name name) as [[]|] eqn:Ev; [|intros [= _ <-]; apply agree_refl].
  match goal with |- context [match ?x with Ok _ => _ | Err e => (Err e, fs) end] => destruct x as [bytes|] end;
    [|intros [= _ <-]; apply agree_refl].
  intros H; eapply agree_trans; [by apply agree_write|by eapply IH].
Qed.

(** What a declaration that was accepted says. *)
Definition declared_for (fs : files) (declaration_file : option path) (bundle : path) (target hash : string) : Prop :=
  exists p text d source_hash,
    declaration_file = Some p /\ read_to_string fs p = Ok text /\ fields text = Ok d /\
    d !! "target" = Some target /\ d !! "manifest-hash" = Some hash /\ d !! "source-hash" = Some source_hash /\
    (exists declared, d !! "bundle" = Some declared /\ canonicalize declared = canonicalize bundle /\ canonicalize bundle <> None) /\
    ((exists sidecar s, read_to_string fs (join bundle SIDECAR) = Ok sidecar /\ fields sidecar = Ok s /\
        s !! "target" = Some target /\ s !! "manifest-hash" = Some hash /\ s !! "source-hash" = Some source_hash) \/
     (d !! "mode" = Some "assumed" /\ exists e, read_to_string fs (join bundle SIDECAR) = Err e /\ io_kind e = NotFound)).

Lemma check_declaration_ok (fs : files) (declaration_file : option path) (bundle : path) (target source_hash : string)
    (mb : list Z) (d : gmap string string) :
  check_declaration fs declaration_file bundle target mb = Ok (d, source_hash) ->
  exists p text declared, declaration_file = Some p /\ read_to_string fs p = Ok text /\ fields text = Ok d /\
    d !! "target" = Some target /\ d !! "manifest-hash" = Some (fingerprint mb) /\ d !! "source-hash" = Some source_hash /\
    d !! "bundle" = Some declared /\ canonicalize declared = canonicalize bundle /\ canonicalize bundle <> None.
Proof. clear utf8_lossy debug create_dir_all can_write.
  unfold check_declaration; destruct declaration_file as [p|]; [|done].
  destruct (read_to_string fs p) as [text|] eqn:Er; cbn [map_err]; [|done]; destruct (fields text) as [d'|] eqn:Ef; [|done].
  destruct (negb _); [done|]; do 2 (case_decide; [done|]); case_decide as Ht; [done|].
  destruct (d' !! "bundle") as [declared|] eqn:Eb; [|done]; case_decide as Hc; [done|].
  destruct (d' !! "source-hash") as [h|] eqn:Eh; [|done]; destruct (negb _); [done|]; case_decide; [done|].
  intros [= -> ->]; exists p, text, declared.
  assert (canonicalize declared <> None /\ canonicalize declared = canonicalize bundle) as [Hn He]
    by (split; [tauto|by apply dec_stable; tauto]).
  split_and!; try done; by rewrite <- He.
Qed.

Lemma compatibility_ok (fs : files) (declaration_file : option path) (bundle : path) (target : string) (mb : list Z) :
  verify_compatibility fs declaration_file bundle target mb = Ok tt ->
  declared_for fs declaration_file bundle target (fingerprint mb).
Proof. clear utf8_lossy debug create_dir_all can_write.
  unfold verify_compatibility; destruct (check_declaration _ _ _ _ _) as [[d h]|] eqn:Ed; [|done].
  apply check_declaration_ok in Ed as (p & text & declared & H1 & H2 & H3 & H4 & H5 & H6 & H7 & H8 & H9).
  intros H; exists p, text, d, h; split_and!; try done; [by exists declared|].
  destruct (read_to_string fs (join bundle SIDECAR)) as [sidecar|e]; [left|right].
  - destruct (fields sidecar) as [sf|] eqn:Es; [|done]; destruct (negb _); [done|]; case_decide as Hc; [done|].
    exists sidecar, sf; split_and!; try done; apply dec_stable; tauto.
  - destruct (bool_decide _) eqn:Em; simpl in H; [|by destruct (kind_is e NotFound)].
    destruct (kind_is e NotFound) eqn:Ek; [|done]; apply bool_decide_eq_true in Em, Ek; split; [done|by exists e].
Qed.

Lemma check_bundle_ok (fs : files) (declaration_file : option path) (i : identity) (bundle : path) (m : manifest)
    (snapshot table : list Z) :
  check_bundle fs declaration_file i bundle = Ok (m, snapshot, table) ->
  exists mb, read fs (join bundle MANIFEST_FILE) = Ok mb /\ read fs (join bundle SNAPSHOT_FILE) = Ok snapshot /\
    read fs (join bundle TABLE_FILE) = Ok table /\ verify m i snapshot table = Ok tt /\
    verify_residuals m fs (utf8_lossy table) bundle = Ok tt /\
    declared_for fs declaration_file bundle (id_target i) (fingerprint mb).
Proof.
  unfold check_bundle; destruct (read fs (join bundle MANIFEST_FILE)) as [mb|]; cbn [map_err]; [|done].
  destruct (utf8 mb) as [text|]; [|done]; destruct (parse text) as [m'|]; [|done].
  destruct (verify_compatibility _ _ _ _ _) as [[]|] eqn:Ev; [|done]; apply compatibility_ok in Ev.
  destruct (read fs (join bundle SNAPSHOT_FILE)) as [s|]; cbn [map_err]; [|done].
  destruct (read fs (join bundle TABLE_FILE)) as [t|]; cbn [map_err]; [|done].
  destruct (verify m' i s t) as [[]|] eqn:E1; [|done]; destruct (verify_residuals _ _ _ _) as [[]|] eqn:E2; [|done].
  intros [= -> -> ->]; by exists mb.
Qed.

(** A bundle that was just exported is accepted: its manifest reads back as
    it was written, and the identity, both files and every residual source match
    it, for any table whose residual names are names of files. *)
Theorem exported_bundle_accepted (fs : files) (i : identity) (snapshot table_bytes : list Z) (table : string) (dir : path)
    (rs : list residual)
    (Hi : identity_ok i)
    (Hsize : Forall (fun n => forall bytes, read fs (join dir n) = Ok bytes -> is_u64 (Z.of_nat (length bytes))) (table_sources table))
    (Hs : is_u64 (Z.of_nat (length snapshot))) (Ht : is_u64 (Z.of_nat (length table_bytes)))
    (Hnames : Forall (fun n => has tab n = false /\ has newline n = false) (table_sources table))
    (Hd : describe_residuals fs table dir = Ok rs) :
  let m := Manifest i (Z.of_nat (length snapshot)) (fingerprint snapshot) (Z.of_nat (length table_bytes))
             (fingerprint table_bytes) rs in
  parse (render m) = Ok m /\ verify m i snapshot table_bytes = Ok tt /\ verify_residuals m fs table dir = Ok tt.
Proof.
  intros m; split_and!; [|by apply verify_ok|by eapply described_residuals_verify].
  apply parse_render; split; simpl; [done|split; [done|apply fingerprint_value_ok]..|].
  assert (forall n, n ∈ sorted_names (table_sources table) -> n ∈ table_sources table) as Hsub
    by (intros n; apply (normal_sub name_greater (fun a b => bool_decide (a = b)))).
  destruct (describe_names_residuals fs dir (sorted_names (table_sources table)) rs) as [Hm Hr]; [|done|].
  { rewrite Forall_forall in *; intros n Hn; by apply Hsize, Hsub. }
  rewrite Forall_forall in Hnames; rewrite Forall_forall in Hr; apply Forall_forall; intros r Hin; destruct (Hr _ Hin) as (Hv & Hb & bytes & Hh).
  assert (r_name r ∈ table_sources table) as Hnm.
  { apply Hsub; rewrite <- Hm; by apply list_elem_of_fmap_2. }
  destruct (Hnames _ Hnm) as [Htab Hnl]; unfold residual_ok; rewrite Hh.
  split_and!; [by apply validated_segments in Hv as [? _]|done|done|done| | |apply fingerprint_head];
    by apply fingerprint_has_not.
Qed.

(** What is not the described bundle is refused: another identity, a file of
    another length, and a file in which a single byte was changed. *)
Theorem corruption_detected (i j : identity) (s s' t t' : list Z) :
  verify (describe i s t) j s' t' = Ok tt ->
  j = i /\ length s' = length s /\ length t' = length t /\
  (one_byte_differs s s' -> False) /\ (one_byte_differs t t' -> False).
Proof.
  intros (Hi & (H1 & H2) & (H3 & H4))%verify_ok.
  cbn [describe m_identity m_snapshot_bytes m_snapshot_hash m_table_bytes m_table_hash] in *.
  split; [done|]; split; [lia|]; split; [lia|].
  split; intros (a & b & x & y & -> & -> & Hb & Hx & Hy & Hne); apply Hne; symmetry;
    [exact (fingerprint_substitution a b y x Hb Hy Hx H2)|exact (fingerprint_substitution a b y x Hb Hy Hx H4)].
Qed.

(** What a build finds in its output directory once a bundle is installed there:
    the snapshot and the table, unless a residual source has one of their names and
    the directories overlap, and, if they do not, every residual source of the
    bundle byte for byte. *)
Record installed (bundle out_dir : path) (fs fs' : files) (snapshot table : list Z) : Prop := Installed {
  in_files : apart out_dir bundle \/
      Forall (fun n => components (join out_dir n) <> components (join out_dir SNAPSHOT_FILE) /\
        components (join out_dir n) <> components (join out_dir TABLE_FILE)) (table_sources (utf8_lossy table)) ->
    read fs' (join out_dir SNAPSHOT_FILE) = Ok snapshot /\ read fs' (join out_dir TABLE_FILE) = Ok table;
  in_residuals : apart out_dir bundle -> mirrored fs fs' bundle out_dir (table_sources (utf8_lossy table))
}.

Lemma copy_installed (bundle out_dir : path) (fs fs' : files) (snapshot table : list Z) (u : unit) :
  let fs1 := write (write fs (join out_dir SNAPSHOT_FILE) snapshot) (join out_dir TABLE_FILE) table in
  bundle <> "" -> out_dir <> "" ->
  read fs (join bundle SNAPSHOT_FILE) = Ok snapshot -> read fs (join bundle TABLE_FILE) = Ok table ->
  copy_each bundle out_dir (table_sources (utf8_lossy table)) fs1 = (Ok u, fs') ->
  installed bundle out_dir fs fs' snapshot table.
Proof.
  intros fs1 Hb Ho Hs Ht H; destruct (copy_each_spec _ _ _ _ _ _ H) as (Hv & Hu & Hm).
  assert (agree_outside out_dir fs fs1) as Ha
    by (eapply agree_trans; [apply agree_write_file; [by left|done]|apply agree_write_file; [by right|done]]).
  assert (apart out_dir bundle -> forall n, valid n -> read fs1 (join bundle n) = read fs (join bundle n)) as Hsame
    by (intros Hap n Hn; by apply (agree_other out_dir)).
  assert (forall file bytes, valid file -> read fs (join bundle file) = Ok bytes -> read fs1 (join out_dir file) = Ok bytes ->
    apart out_dir bundle \/ Forall (fun n => components (join out_dir n) <> components (join out_dir file))
      (table_sources (utf8_lossy table)) -> read fs' (join out_dir file) = Ok bytes) as Hfile.
  { intros file bytes Hf H1 H2 Hor; apply (copied_over bundle out_dir file (table_sources (utf8_lossy table)) fs1 fs' bytes); try done.
    destruct Hor as [Hap|Hne]; [left|by right]; split_and!; [done|by apply Hm|by rewrite Hsame]. }
  split.
  - intros Hor; split; apply Hfile; try done.
    + unfold fs1; rewrite read_write_ne; [by apply read_write_eq|].
      rewrite !validated_components by done; by intros [=]%app_inv_head.
    + destruct Hor as [|Hne]; [by left|right; eapply Forall_impl; [exact Hne|]; by intros n []].
    + by apply read_write_eq.
    + destruct Hor as [|Hne]; [by left|right; eapply Forall_impl; [exact Hne|]; by intros n []].
  - intros Hap; pose proof (Hm Hb Ho Hap) as Hmm; unfold mirrored in *; rewrite Forall_forall in *; intros n Hn.
    destruct (Hmm n Hn) as (b & H1 & H2); exists b; split; [by rewrite <- Hsame by (done || by apply Hv)|done].
Qed.

(** C21. A prebuilt snapshot is installed only as a whole and only where it belongs.
    Nothing outside the output directory is ever written, whatever the names in the
    bundle are, and nothing at all before every check has passed; an installed
    bundle has this build's identity, matches its manifest in every file, as it was
    read and, for the residual sources, as it was written, and was declared for
    this bundle, this target and this manifest, with the source provenance saying
    the same or, under an assumption declared as one, absent.  The output directory
    then holds the snapshot, the table and every residual source of the bundle byte
    for byte: the snapshot and the table even if the two directories overlap, as
    long as no residual source has their name. *)
Theorem install_verified (fs fs' : files) (declaration_file : option path) (i : identity) (bundle out_dir : path)
    (r : result unit string) :
  out_dir <> "" -> install_prebuilt_snapshot fs declaration_file i bundle out_dir = (r, fs') ->
  agree_outside out_dir fs fs' /\
  (forall e, check_bundle fs declaration_file i bundle = Err e -> r = Err e /\ fs' = fs) /\
  (r = Ok tt -> exists m snapshot table manifest_bytes,
     read fs (join bundle MANIFEST_FILE) = Ok manifest_bytes /\
     read fs (join bundle SNAPSHOT_FILE) = Ok snapshot /\ read fs (join bundle TABLE_FILE) = Ok table /\
     verify m i snapshot table = Ok tt /\
     verify_residuals m fs (utf8_lossy table) bundle = Ok tt /\
     verify_residuals m fs' (utf8_lossy table) out_dir = Ok tt /\
     (bundle <> "" -> installed bundle out_dir fs fs' snapshot table) /\
     declared_for fs declaration_file bundle (id_target i) (fingerprint manifest_bytes)).
Proof.
  intros Ho; unfold install_prebuilt_snapshot; destruct (check_bundle fs declaration_file i bundle) as [[[m snapshot] table]|e] eqn:Ec.
  2:{ intros [= <- <-]; split_and!; [by apply agree_refl|by intros ? [= <-]|done]. }
  apply check_bundle_ok in Ec as (mb & H1 & H2 & H3 & H4 & H5 & H6).
  unfold write_file; destruct (can_write (join out_dir SNAPSHOT_FILE));
    [|intros [= <- <-]; split; [apply agree_refl|by split]].
  assert (agree_outside out_dir fs (write fs (join out_dir SNAPSHOT_FILE) snapshot)) as A1
    by (apply agree_write_file; [by left|done]).
  destruct (can_write (join out_dir TABLE_FILE)); [|intros [= <- <-]; split; [done|by split]].
  assert (agree_outside out_dir fs (write (write fs (join out_dir SNAPSHOT_FILE) snapshot) (join out_dir TABLE_FILE) table)) as A2
    by (eapply agree_trans; [done|]; apply agree_write_file; [by right|done]).
  unfold copy_verified_residuals.
  destruct (copy_each _ _ _ _) as [[u|e] fs1] eqn:Ecopy; intros [= <- <-];
    (split; [eapply agree_trans; [done|by eapply copy_each_contained]|split; [done|]]); [|done].
  intros Hv; exists m, snapshot, table, mb; split_and!; try done; intros Hb; by eapply copy_installed.
Qed.

(** ** The table names the files it was written for *)
Lemma contains_mid (needle a b : string) : contains needle (a +:+ needle +:+ b) = true.
Proof.
  induction a as [|c a IH].
  - assert (without_prefix needle (needle +:+ b) = Some b) as H
      by (induction needle as [|c n IHn]; [done|]; simpl; by rewrite Ascii.eqb_refl).
    change ("" +:+ ?x) with x; destruct needle; simpl; [by destruct b|]; simpl in H; by rewrite H.
  - simpl; rewrite IH; by destruct (without_prefix _ _).
Qed.

(** Debug output stays on its line, and plain paths are printed as they are. *)
Definition debug_plain (entries : list (string * path)) : Prop :=
  Forall (fun e => has newline (debug e.1) = false /\ has newline (table_path e.2) = false /\ has quote (table_path e.2) = false /\
    debug (table_path e.2) = String quote (table_path e.2 +:+ String quote "")) entries.

Lemma ended_lines (line rest : string) :
  has newline line = false -> ends_visibly line -> text_lines (ended line +:+ rest) = line :: text_lines rest.
Proof.
  intros Hn Hv; unfold ended; rewrite string_app_assoc; change (String newline "" +:+ rest) with (String newline rest).
  by rewrite text_lines_cons, strip_carriage_visible.
Qed.

Lemma entry_line_spec (e : string * path) :
  debug_plain [e] ->
  has newline (entry_line debug e) = false /\ ends_visibly (entry_line debug e) /\
  table_source (entry_line debug e) = Some (trim_start_slashes (table_path e.2)).
Proof.
  unfold debug_plain; rewrite Forall_singleton; intros (H1 & H2 & H3 & H4).
  assert (entry_line debug e = (entry_head (debug e.1) +:+ String quote (table_path e.2)) +:+ String quote "))),") as E.
  { unfold entry_line; rewrite H4, string_app_assoc; f_equal.
    change (String quote ((table_path e.2 +:+ String quote "") +:+ "))),") = String quote (table_path e.2 +:+ String quote "))),")).
    by rewrite string_app_assoc. }
  split; [|split].
  - rewrite E; unfold entry_head; rewrite !has_app; cbn [has]; rewrite H1, H2; reflexivity.
  - rewrite E; by apply ends_visibly_app; vm_compute.
  - unfold table_source.
    assert (contains "include_str!" (entry_line debug e) = true) as ->.
    { unfold entry_line, entry_head; rewrite !string_app_assoc.
      rewrite <- (string_app_assoc (debug e.1)), <- (string_app_assoc "  ("); apply contains_mid. }
    rewrite E, rsplit_once_last by done; cbn [mbind option_bind fst]; by rewrite rsplit_once_last.
Qed.

Lemma write_residual_table_sources (name : string) (entries : list (string * path)) (rest : string) :
  name = "RESIDUAL_LAZY_JS" \/ name = "RESIDUAL_LAZY_ESM" -> debug_plain entries ->
  table_sources (write_residual_table debug name entries +:+ rest) =
    map (fun e => trim_start_slashes (table_path e.2)) (sort_by entry_greater entries) ++ table_sources rest.
Proof.
  intros Hname Hp; unfold write_residual_table, table_sources; rewrite string_app_assoc.
  assert (debug_plain (sort_by entry_greater entries)) as Hs by (unfold debug_plain; by rewrite sort_by_perm).
  rewrite ended_lines by (destruct Hname as [-> | ->]; reflexivity).
  change (omap table_source (?l :: ?ls)) with (match table_source l with Some x => x :: omap table_source ls | None => omap table_source ls end).
  replace (table_source ("pub static " +:+ name +:+ ": &[(&str, &str)] = &[")) with (@None string) by (destruct Hname as [-> | ->]; reflexivity).
  clear Hname Hp; induction Hs as [|e l He _ IH]; cbn [foldr map app].
  - rewrite string_app_assoc, !ended_lines by reflexivity; reflexivity.
  - rewrite string_app_assoc; destruct (entry_line_spec e) as (E1 & E2 & E3); [by apply Forall_singleton|].
    rewrite ended_lines by done.
    change (omap table_source (?l :: ?ls)) with (match table_source l with Some x => x :: omap table_source ls | None => omap table_source ls end).
    by rewrite E3, IH.
Qed.

(** The residual sources read from a generated table are the files it was generated
    for, in order: the names an export copies and a manifest records. *)
Theorem table_sources_of_table (js esm : list (string * path)) :
  debug_plain js -> debug_plain esm ->
  table_sources (residual_table debug js esm) =
    map (fun e => trim_start_slashes (table_path e.2)) (sort_by entry_greater js ++ sort_by entry_greater esm).
Proof.
  intros Hj He; unfold residual_table.
  assert (forall rest, table_sources (ended "// @generated by build.rs - do not edit." +:+ ended "" +:+ rest) = table_sources rest) as ->
    by (intros rest; unfold table_sources; by rewrite !ended_lines by reflexivity).
  rewrite write_residual_table_sources by (done || by left).
  rewrite <- (string_app_nil (write_residual_table _ "RESIDUAL_LAZY_ESM" _)), write_residual_table_sources by (done || by right).
  by rewrite map_app, app_nil_r.
Qed.
End Bundle.

(** ** src/snapshot_identity.rs: the build stops unless the linked V8 is the expected one *)
Fixpoint equal_from (fuel : nat) (left right : list Z) (index : nat) : bool :=
  match fuel with
  | O => true
  | S fuel =>
      if (index <? length left)%nat
      then if decide (left !! index <> right !! index) then false else equal_from fuel left right (S index)
      else true
  end.
(** The index never passes the length, so that many turns and one suffice. *)
Definition equal (left right : list Z) : bool :=
  if decide (length left <> length right) then false else equal_from (S (length left)) left right 0.

Lemma equal_from_spec (fuel : nat) (left right : list Z) (index : nat) :
  (length left < index + fuel)%nat ->
  equal_from fuel left right index = true <-> (forall i, (index <= i < length left)%nat -> left !! i = right !! i).
Proof.
  revert index; induction fuel as [|fuel IH]; intros index Hf; simpl; [split; [lia|done]|].
  destruct (Nat.ltb_spec index (length left)) as [Hi|Hi]; [|split; [lia|done]].
  case_decide as Hd; [split; [done|intros H; destruct Hd; apply H; lia]|]; apply dec_stable in Hd || idtac.
  rewrite IH by lia; split; [|intros H i Hr; apply H; lia].
  intros H i Hr; destruct (decide (i = index)) as [->|]; [done|apply H; lia].
Qed.

(** The comparison is equality of the two version strings. *)
Theorem equal_spec (left right : list Z) : equal left right = true <-> left = right.
Proof.
  unfold equal; case_decide as Hl; [split; [done|intros ->; by destruct Hl]|].
  rewrite equal_from_spec by lia; split; [|by intros ->]; intros H; apply list_eq; intros i.
  destruct (decide (i < length left)%nat) as [Hi|Hi]; [apply H; lia|].
  rewrite !lookup_ge_None_2 by lia; done.
Qed.

(** A bundle with one residual source, made and then installed. *)
Definition text_bytes (s : string) : list Z := map (fun c => Z.of_nat (Ascii.nat_of_ascii c)) (String.list_ascii_of_string s).
Definition bytes_utf8 (l : list Z) : string := String.string_of_list_ascii (map (fun z => Ascii.ascii_of_nat (Z.to_nat z)) l).
Definition toy_debug (s : string) : string := String quote (s +:+ String quote "").
Definition toy_identity : identity := Identity "0.3.6" "t" "14.2" "6.0.3" "0.412" "0.267".
Definition toy_table : string := residual_table toy_debug [] [("ext:a", "residual_sources/a.js")].
Definition toy_residuals : list residual := [Residual "residual_sources/a.js" 2 (fingerprint [7; 8])].
Definition toy_manifest : manifest :=
  Manifest toy_identity 3 (fingerprint [1; 2; 3]) (Z.of_nat (String.length toy_table)) (fingerprint (text_bytes toy_table)) toy_residuals.
Definition toy_declaration : string :=
  concat_text [field_line "format" "libdeno-snapshot-compat-1"; field_line "mode" "assumed"; field_line "target" "t";
    field_line "bundle" "/b"; field_line "source-hash" (concat_text (replicate 64 "0"));
    field_line "manifest-hash" (fingerprint (text_bytes (render toy_manifest)))].
Definition toy_fs : files := fun q =>
  if decide (q = components "/b/residual_sources/a.js") then Ok [7; 8]
  else if decide (q = components ("/b/" +:+ MANIFEST_FILE)) then Ok (text_bytes (render toy_manifest))
  else if decide (q = components ("/b/" +:+ SNAPSHOT_FILE)) then Ok [1; 2; 3]
  else if decide (q = components ("/b/" +:+ TABLE_FILE)) then Ok (text_bytes toy_table)
  else if decide (q = components "/decl") then Ok (text_bytes toy_declaration)
  else Err (IoError NotFound "").
Definition toy_install : result unit string * files :=
  install_prebuilt_snapshot toy_debug (fun _ => Ok tt) (fun _ => Ok tt) (fun l => Some (bytes_utf8 l)) bytes_utf8 Some toy_fs
    (Some "/decl") toy_identity "/b" "/out".

Lemma install_verified_witness :
  "/out" <> "" /\ toy_install.1 = Ok tt /\
  (read toy_install.2 "/out/residual_sources/a.js" = Ok [7; 8] /\ agree_outside "/out" toy_fs toy_install.2) /\
  exists snapshot, read toy_fs "/b/CLI_SNAPSHOT.bin" = Ok snapshot /\ read toy_install.2 "/out/CLI_SNAPSHOT.bin" = Ok snapshot.
Proof.
  assert (toy_install.1 = Ok tt) as Hok by (vm_compute; reflexivity).
  destruct (install_verified toy_debug (fun _ => Ok tt) (fun _ => Ok tt) (fun l => Some (bytes_utf8 l)) bytes_utf8 Some toy_fs
    toy_install.2 (Some "/decl") toy_identity "/b" "/out" toy_install.1 ltac:(discriminate)
    (surjective_pairing toy_install)) as (H1 & _ & H2).
  split; [discriminate|]; split; [exact Hok|]; split; [split; [vm_compute; reflexivity|exact H1]|].
  destruct (H2 Hok) as (m & snapshot & table & mb & _ & Hs & _ & _ & _ & _ & Hin & _); exists snapshot; split; [exact Hs|].
  refine (proj1 (in_files _ _ _ _ _ _ _ (Hin ltac:(discriminate)) (or_introl _))); split; apply (bool_decide_unpack _); vm_compute; exact I.
Defined.

Lemma exported_bundle_accepted_witness :
  describe_residuals toy_debug (fun _ => Ok [7; 8]) toy_table "/b" = Ok toy_residuals /\
  parse toy_debug (render toy_manifest) = Ok toy_manifest.
Proof.
  assert (forall A B C D : Prop, A -> (A -> B /\ C /\ D) -> A /\ B) as Hc by tauto; eapply Hc; clear Hc.
  - vm_compute; reflexivity.
  - intros Hd.
    apply (exported_bundle_accepted toy_debug (fun _ => Ok [7; 8]) toy_identity [1; 2; 3] (text_bytes toy_table) toy_table "/b"
      toy_residuals).
    + repeat split; vm_compute; reflexivity.
    + change (table_sources toy_table) with ["residual_sources/a.js"]; constructor; [|constructor].
      intros bytes [= <-]; vm_compute; split; discriminate.
    + vm_compute; split; discriminate.
    + vm_compute; split; discriminate.
    + vm_compute; repeat constructor.
    + exact Hd.
Defined.

Lemma corruption_detected_witness : verify (describe toy_identity [1] [2]) toy_identity [1] [2] = Ok tt /\ length [1] = 1%nat.
Proof.
  assert (forall A B : Prop, A -> (A -> B) -> A /\ B) as Hc by tauto; apply Hc; [vm_compute; reflexivity|]; intros H.
  exact (proj1 (proj2 (corruption_detected toy_identity toy_identity [1] [1] [2] [2] H))).
Defined.
