(* ===== verification/SnapshotCreate.v ===== *)
(** * SnapshotCreate: the build script (build.rs, build_support/snapshot_sources.rs).

    A build makes its snapshot or takes a prebuilt one ([main]).  Making one checks
    the sources the runtime will read, has deno_runtime create the snapshot,
    transpiles the lazy sources the snapshot does not hold and writes their table;
    an export copies all of that into a bundle, which SnapshotBundle installs.  The
    runtime, the transpiler, the text codec and the answers of writes are
    parameters.  A panic of the build script is an error with the message it wraps;
    what the script prints is left out.  [snapshot_travels] follows a snapshot from
    the build that makes it to one that imports it. *)
From S2P Require Import Prelude Text Token Options Paths Vectors SnapshotBundle.
Open Scope Z_scope.

(** ** The file system as a state *)
Definition script (A : Type) : Type := files -> result A string * files.
Definition bret {A} (r : result A string) : script A := fun fs => (r, fs).
Definition bbind {A B} (m : script A) (k : A -> script B) : script B := fun fs =>
  match m fs with
  | (Err e, fs) => (Err e, fs)
  | (Ok a, fs) => k a fs
  end.
Notation "'do!' x := m 'in' k" := (bbind m (fun x => k))
  (at level 10, x name, m at level 100, k at level 200) : rust_scope.

(** ** What deno_runtime tells *)

(** Of each source of an extension, the file it is read from when the snapshot is
    made, if it is. *)
Record extension_sources := ExtensionSources {
  es_js : list (option path); es_esm : list (option path);
  es_lazy_js : list (option path); es_lazy_esm : list (option path)
}.

Inductive lazy_kind := LazyJs | LazyEsm.
Record lazy_file := LazyFile { lz_specifier : string; lz_path : path; lz_kind : lazy_kind }.
(** [create_runtime_snapshot]: the snapshot it writes, the lazy sources and those
    of them the snapshot holds already. *)
Record snapshot_output := SnapshotOutput {
  sn_bytes : list Z; sn_consumed : list string; sn_lazy : list lazy_file
}.

(** ** build_support/snapshot_sources.rs *)
Definition fs_sources (extensions : list extension_sources) : list path :=
  omap id (extensions ≫= fun e => es_js e ++ es_esm e ++ es_lazy_js e ++ es_lazy_esm e).
Definition missing (fs : files) (extensions : list extension_sources) : list path :=
  sorted_names (List.filter (fun p => negb (is_file fs p)) (fs_sources extensions)).

(** ** Versions *)
Definition TS_VERSION : string := "6.0.3".
Definition dot : Ascii.ascii := Ascii.ascii_of_nat 46.
Definition is_ascii_digit (c : Ascii.ascii) : bool :=
  let n := Z.of_nat (Ascii.nat_of_ascii c) in bool_decide (48 <= n <= 57).
Definition bare_version (v : string) : bool :=
  let parts := split dot v in
  Nat.eqb (length parts) 3 &&
  forallb (fun p => negb (bool_decide (p = "")) && forallb is_ascii_digit (String.list_ascii_of_string p)) parts.
Definition typescript_version : result string string :=
  if bare_version TS_VERSION then Ok TS_VERSION
  else Err ("TS_VERSION " +:+ TS_VERSION +:+ " must be a bare x.y.z version; sync it by hand with the deno tag when bumping deno_runtime").

(** ** Names of residual sources *)
Definition is_ascii_alphanumeric (c : Ascii.ascii) : bool :=
  let n := Z.of_nat (Ascii.nat_of_ascii c) in
  bool_decide (48 <= n <= 57) || bool_decide (65 <= n <= 90) || bool_decide (97 <= n <= 122).
Definition underscore : Ascii.ascii := Ascii.ascii_of_nat 95.
(** [chars().map(..)] of a text, a byte of a character outside ASCII being mapped
    with it; [chars] are the characters of a text. *)
Fixpoint sanitize (chars : list (option Ascii.ascii)) : string :=
  match chars with
  | [] => EmptyString
  | Some c :: chars => String (if is_ascii_alphanumeric c then c else underscore) (sanitize chars)
  | None :: chars => String underscore (sanitize chars)
  end.

Section Create.
Set Default Proof Using "Type".
Context (debug : string -> string) (create_dir_all can_write : path -> result unit string).
Context (utf8 : list Z -> option string) (utf8_lossy : list Z -> string) (canonicalize : path -> option path).
(** [str::chars], those outside ASCII as [None]. *)
Context (chars : string -> list (option Ascii.ascii)).
(** [get_extensions_in_snapshot] ([None] when it panics), [create_runtime_snapshot]
    of the files there are, for a TypeScript version, a V8 version and a target,
    [maybe_transpile_source] and [wrap_lazy_ext_script]. *)
Context (get_extensions_in_snapshot : option (list extension_sources)).
Context (create_runtime_snapshot : files -> string -> string -> string -> result snapshot_output string).
Context (maybe_transpile_source : string -> string -> result string string).
Context (wrap_lazy_ext_script : string -> string).
(** [v8::VERSION_STRING], and the answers of removing a file. *)
Context (v8_version : string) (can_remove : path -> result unit string).

Definition bread (p : path) : script (list Z) := fun fs => (map_err io_message (read fs p), fs).
Definition bread_string (p : path) : script string := fun fs => (map_err io_message (read_to_string utf8 fs p), fs).
Definition bwrite (p : path) (bytes : list Z) : script unit := fun fs =>
  match write_file can_write fs p bytes with
  | Err e => (Err e, fs)
  | Ok fs => (Ok tt, fs)
  end.

Definition ensure_extension_sources_exist : script unit := fun fs =>
  match get_extensions_in_snapshot with
  | None => (Ok tt, fs)
  | Some extensions =>
      let missing := missing fs extensions in
      if decide (missing = []) then (Ok tt, fs)
      else (Err ("libdeno: " +:+ pretty (length missing) +:+
                 " extension source file(s) that snapshot creation reads from disk are missing:" +:+
                 concat_text (map (fun p => String newline "  " +:+ p) missing) +:+ String newline "" +:+
                 "This usually means a [patch.crates-io] path dependency was copied without all of its files; restore them or drop the patch."), fs)
  end.

Definition residual_file (specifier : string) : string := sanitize (chars specifier) +:+ ".js".

Definition transpile_residual_source (out_dir : path) (specifier : string) (src_path : path) : script path :=
  do! source := bread_string src_path in
  do! transpiled := bret (maybe_transpile_source specifier source) in
  let out_path := join out_dir (residual_file specifier) in
  do! _ := bwrite out_path (str_bytes transpiled) in
  bret (Ok out_path).

Definition wrap_residual_js_source (p : path) : script unit :=
  do! source := bread_string p in
  bwrite p (str_bytes (wrap_lazy_ext_script source)).

(** The loop over the lazy files; the entries with their specifiers. *)
Fixpoint residual_each (dir : path) (consumed : list string) (lazy : list lazy_file)
  : script (list (string * path) * list (string * path)) :=
  match lazy with
  | [] => bret (Ok ([], []))
  | file :: lazy =>
      if bool_decide (lz_specifier file ∈ consumed) then residual_each dir consumed lazy
      else
        do! transpiled_path := transpile_residual_source dir (lz_specifier file) (lz_path file) in
        let entry := (lz_specifier file, transpiled_path) in
        match lz_kind file with
        | LazyJs =>
            do! _ := wrap_residual_js_source transpiled_path in
            do! rest := residual_each dir consumed lazy in
            bret (Ok (entry :: rest.1, rest.2))
        | LazyEsm =>
            do! rest := residual_each dir consumed lazy in
            bret (Ok (rest.1, entry :: rest.2))
        end
  end.

(** [strip_prefix(out_dir).unwrap()] *)
Definition below_out (out_dir p : path) : path :=
  match strip_prefix p out_dir with Some cs => Paths.render cs | None => p end.

Definition RESIDUAL_DIR : string := "residual_sources".

Definition create_cli_snapshot (snapshot_path residual_path out_dir : path) (target : string) : script unit :=
  do! _ := ensure_extension_sources_exist in
  do! ts_version := bret typescript_version in
  do! output := (fun fs => (create_runtime_snapshot fs ts_version v8_version target, fs)) in
  do! _ := bwrite snapshot_path (sn_bytes output) in
  let residual_sources_dir := join out_dir RESIDUAL_DIR in
  do! _ := bret (create_dir_all residual_sources_dir) in
  do! entries := residual_each residual_sources_dir (sn_consumed output) (sn_lazy output) in
  let below := map (fun e => (e.1, below_out out_dir e.2)) in
  bwrite residual_path (str_bytes (residual_table debug (below entries.1) (below entries.2))).

(** ** Export *)

(** The loop over the names in the table. *)
Fixpoint export_each (out_dir bundle : path) (names : list string) : script unit :=
  match names with
  | [] => bret (Ok tt)
  | name :: names =>
      let target := join bundle name in
      do! _ := bret (match parent target with Some p => create_dir_all p | None => Ok tt end) in
      do! bytes := bread (join out_dir name) in
      do! _ := bwrite target bytes in
      export_each out_dir bundle names
  end.

(** The versions [Cargo.toml] declares. *)
Definition declared_deno_versions (fs : files) (toml : path) : result (string * string) string :=
  let? deno_core := ledger utf8 fs toml "deno-core-version" in
  let? deno_runtime := ledger utf8 fs toml "deno-runtime-version" in
  Ok (deno_core, deno_runtime).

Definition snapshot_identity (cargo_dir : path) (pkg_version target : string) (fs : files) : result identity string :=
  let? (deno_core, deno_runtime) := declared_deno_versions fs (join cargo_dir "Cargo.toml") in
  let? typescript := typescript_version in
  Ok (Identity pkg_version target v8_version typescript deno_core deno_runtime).

Definition with_residuals (m : manifest) (rs : list residual) : manifest :=
  Manifest (m_identity m) (m_snapshot_bytes m) (m_snapshot_hash m) (m_table_bytes m) (m_table_hash m) rs.

Definition export_snapshot_bundle (bundle snapshot_path table_path cargo_dir : path) (pkg_version target : string) : script unit :=
  do! _ := bret (create_dir_all bundle) in
  do! snapshot := bread snapshot_path in
  do! table_bytes := bread table_path in
  let table := utf8_lossy table_bytes in
  match parent snapshot_path with
  | None => bret (Err "called `Option::unwrap()` on a `None` value")
  | Some out_dir =>
      do! _ := export_each out_dir bundle (table_sources table) in
      do! _ := bwrite (join bundle SNAPSHOT_FILE) snapshot in
      do! _ := bwrite (join bundle TABLE_FILE) table_bytes in
      do! i := (fun fs => (snapshot_identity cargo_dir pkg_version target fs, fs)) in
      do! rs := (fun fs => (describe_residuals debug fs table out_dir, fs)) in
      bwrite (join bundle MANIFEST_FILE)
        (str_bytes (SnapshotBundle.render (with_residuals (describe i snapshot table_bytes) rs)))
  end.

(** ** The build script *)
Inductive feature := Snapshot | SnapshotImport | NoSnapshot.

(** The variables the script reads. *)
Record build_env := BuildEnv {
  be_out_dir : path; be_cargo_dir : path; be_pkg_version : string; be_host : string; be_target : string;
  be_host_arch : string; be_target_arch : string; be_snapshot_dir : option path; be_export_dir : option path;
  be_compatibility_file : option path; be_docs_rs : bool; be_current_exe : string
}.

(** [Path::exists]; what is there and cannot be read exists. *)
Definition exists_ (fs : files) (p : path) : bool :=
  match read fs p with Ok _ => true | Err e => negb (kind_is e NotFound) end.
Definition remove (fs : files) (p : path) : files :=
  fun q => if decide (q = components p) then Err (IoError NotFound "No such file or directory (os error 2)") else fs q.

(** The provenance of a bundle that is about to be exported anew. *)
Definition remove_stale_sidecar (export_dir : option path) : script unit := fun fs =>
  match export_dir with
  | None => (Ok tt, fs)
  | Some bundle =>
      let sidecar := join bundle SIDECAR in
      if exists_ fs sidecar then
        match can_remove sidecar with
        | Err e => (Err ("failed to remove stale " +:+ sidecar +:+ ": " +:+ e), fs)
        | Ok _ => (Ok tt, remove fs sidecar)
        end
      else (Ok tt, fs)
  end.

(** The identity a bundle must have; which TypeScript it names depends on the
    feature. *)
Definition expected_identity (f : feature) (env : build_env) (fs : files) : result identity string :=
  match f with
  | Snapshot =>
      let toml := join (be_cargo_dir env) "Cargo.toml" in
      let? (deno_core, deno_runtime) := declared_deno_versions fs toml in
      let? v8 := ledger utf8 fs toml "v8-version" in
      let? typescript := typescript_version in
      Ok (Identity (be_pkg_version env) (be_target env) v8 typescript deno_core deno_runtime)
  | _ => expected_snapshot_identity utf8 fs (be_cargo_dir env) (be_pkg_version env) (be_target env)
  end.

Definition install (f : feature) (env : build_env) (bundle : path) : script unit := fun fs =>
  match expected_identity f env fs with
  | Err e => (Err e, fs)
  | Ok i => install_prebuilt_snapshot debug create_dir_all can_write utf8 utf8_lossy canonicalize fs
              (be_compatibility_file env) i bundle (be_out_dir env)
  end.

Definition create_and_export (env : build_env) : script unit :=
  let snapshot_path := join (be_out_dir env) "CLI_SNAPSHOT.bin" in
  let residual_path := join (be_out_dir env) "EXTENSION_RESIDUAL_SOURCES.rs" in
  do! _ := create_cli_snapshot snapshot_path residual_path (be_out_dir env) (be_target env) in
  match be_export_dir env with
  | Some dir => export_snapshot_bundle dir snapshot_path residual_path (be_cargo_dir env) (be_pkg_version env) (be_target env)
  | None => bret (Ok tt)
  end.

Definition placeholder_table : string :=
  "// @generated by build.rs (docs.rs placeholder) - do not edit." +:+ String newline (String newline
  "pub static RESIDUAL_LAZY_JS: &[(&str, &str)] = &[];" +:+ String newline (String newline
  "pub static RESIDUAL_LAZY_ESM: &[(&str, &str)] = &[];" +:+ String newline "")).

Definition main (f : feature) (env : build_env) : script unit :=
  match f with
  | NoSnapshot =>
      if be_docs_rs env then
        do! _ := bwrite (join (be_out_dir env) "CLI_SNAPSHOT.bin") [] in
        bwrite (join (be_out_dir env) "EXTENSION_RESIDUAL_SOURCES.rs") (str_bytes placeholder_table)
      else bret (Err "libdeno requires the `snapshot` feature (enabled by default) to build a runnable crate; the no-default-features build exists only for docs.rs documentation builds (DOCS_RS)")
  | SnapshotImport =>
      match be_snapshot_dir env with
      | None => bret (Err "the `snapshot-import` feature requires LIBDENO_SNAPSHOT_DIR")
      | Some dir =>
          do! _ := (fun fs => (ledger utf8 fs (join (be_cargo_dir env) "Cargo.toml") "v8-version", fs)) in
          install SnapshotImport env dir
      end
  | Snapshot =>
      do! _ := (if decide (be_snapshot_dir env = None) then remove_stale_sidecar (be_export_dir env) else bret (Ok tt)) in
      do! _ := bret (if decide (be_snapshot_dir env = None)
                     then ensure_compatible (be_host_arch env) (be_target_arch env) (be_host env) (be_target env) else Ok tt) in
      do! expected_v8 := (fun fs => (ledger utf8 fs (join (be_cargo_dir env) "Cargo.toml") "v8-version", fs)) in
      do! _ := bret (if decide (v8_version = expected_v8) then Ok tt
                     else Err "linked V8 version differs from Cargo.toml v8-version ledger") in
      do! _ := bwrite (join (be_out_dir env) "SNAPSHOT_BUILD_SCRIPT_PATH") (str_bytes (be_current_exe env)) in
      match be_snapshot_dir env with
      | Some dir => install Snapshot env dir
      | None => create_and_export env
      end
  end.

(** ** Running builds *)
Lemma bbind_ok {A B} (m : script A) (k : A -> script B) (fs fs' : files) (b : B) :
  bbind m k fs = (Ok b, fs') -> exists a fs0, m fs = (Ok a, fs0) /\ k a fs0 = (Ok b, fs').
Proof. unfold bbind; destruct (m fs) as [[a|e] fs0]; [by exists a, fs0|done]. Qed.

Lemma bread_ok (p : path) (fs fs' : files) (bytes : list Z) :
  bread p fs = (Ok bytes, fs') -> fs' = fs /\ read fs p = Ok bytes.
Proof. unfold bread; destruct (read fs p); cbn [map_err]; [by intros [= -> ->]|done]. Qed.

Lemma bread_string_ok (p : path) (fs fs' : files) (s : string) :
  bread_string p fs = (Ok s, fs') -> fs' = fs /\ read_to_string utf8 fs p = Ok s.
Proof. unfold bread_string; destruct (read_to_string utf8 fs p); cbn [map_err]; [by intros [= -> ->]|done]. Qed.

Lemma bwrite_ok (p : path) (bytes : list Z) (fs fs' : files) (u : unit) :
  bwrite p bytes fs = (Ok u, fs') -> fs' = write fs p bytes.
Proof. unfold bwrite, write_file; destruct (can_write p); [by intros [= _ <-]|done]. Qed.
Lemma bret_ok {A} (r : result A string) (fs fs' : files) (a : A) : bret r fs = (Ok a, fs') -> fs' = fs /\ r = Ok a.
Proof. by intros [= -> ->]. Qed.
Lemma get_ok {A} (f : files -> result A string) (fs fs' : files) (a : A) :
  (fun fs => (f fs, fs)) fs = (Ok a, fs') -> fs' = fs /\ f fs = Ok a.
Proof. by intros [= -> ->]. Qed.

(** Takes a successful run apart, one operation a time. *)
Ltac run_step H x E :=
  let fs := fresh "fs" in apply bbind_ok in H as (x & fs & E & H);
  first [apply bwrite_ok in E | apply bread_string_ok in E as [-> E] | apply bread_ok in E as [-> E]
        | apply bret_ok in E as [-> E] | apply get_ok in E as [-> E] | idtac]; try subst fs.

(** ** Where the files of a directory are *)
Definition top_file (name : string) : Prop := segments name = [name] /\ validate_residual_name debug name = Ok tt.
Lemma top_files : Forall top_file [SNAPSHOT_FILE; TABLE_FILE; MANIFEST_FILE; SIDECAR].
Proof. repeat (constructor; [by split|]); constructor. Qed.

Lemma components_top (dir name : path) : top_file name -> dir <> "" -> components (join dir name) = components dir ++ [Normal name].
Proof. intros [H1 H2] Hd; by rewrite (validated_components debug), H1. Qed.

(** ** The names of residual sources *)
Definition name_char (c : Ascii.ascii) : bool :=
  is_ascii_alphanumeric c || Ascii.eqb c underscore || Ascii.eqb c slash || Ascii.eqb c dot.
Definition plain_text (s : string) : bool := forallb name_char (String.list_ascii_of_string s).

Lemma plain_text_app (a b : string) : plain_text (a +:+ b) = plain_text a && plain_text b.
Proof.
  unfold plain_text; induction a as [|c a IH]; [done|].
  change (name_char c && forallb name_char (String.list_ascii_of_string (a +:+ b)) =
    (name_char c && forallb name_char (String.list_ascii_of_string a)) && forallb name_char (String.list_ascii_of_string b)).
  by rewrite IH, andb_assoc.
Qed.

Lemma plain_text_has_not (c : Ascii.ascii) (s : string) : plain_text s = true -> name_char c = false -> has c s = false.
Proof.
  intros Hs Hc; destruct (has c s) eqn:E; [|done]; apply has_in in E.
  unfold plain_text in Hs; rewrite forallb_forall in Hs; apply Hs in E; by rewrite Hc in E.
Qed.

Lemma sanitize_plain (l : list (option Ascii.ascii)) : plain_text (sanitize l) = true /\ has slash (sanitize l) = false.
Proof.
  induction l as [|[c|] l [IH1 IH2]]; [done|split..]; cbn [sanitize]; unfold plain_text;
    cbn [has String.list_ascii_of_string forallb]; fold (plain_text (sanitize l)); rewrite ?IH1, ?IH2.
  - destruct (is_ascii_alphanumeric c) eqn:E; [|done]; unfold name_char; by rewrite E.
  - destruct (is_ascii_alphanumeric c) eqn:E; [|done]; rewrite orb_false_r.
    destruct (Ascii.eqb c slash) eqn:Es; [|done]; by apply Ascii.eqb_eq in Es as ->.
  - done.
  - done.
Qed.

Lemma residual_file_plain (specifier : string) :
  plain_text (residual_file specifier) = true /\ has slash (residual_file specifier) = false.
Proof.
  unfold residual_file; destruct (sanitize_plain (chars specifier)) as [H1 H2]; rewrite plain_text_app, has_app.
  by rewrite H1, H2.
Qed.
Lemma residual_file_long (specifier : string) : (3 <= String.length (residual_file specifier))%nat.
Proof.
  unfold residual_file; induction (sanitize (chars specifier)) as [|c s IH]; [done|].
  change (3 <= S (String.length (s +:+ ".js")))%nat; lia.
Qed.

(** A residual source below the output directory, as the table names it. *)
Definition residual_name (specifier : string) : string := RESIDUAL_DIR +:+ String slash (residual_file specifier).

Lemma segments_single (s : string) : has slash s = false -> segments s = [s].
Proof. intros H; rewrite split_segments; by apply split_none. Qed.

Lemma segments_residual_name (specifier : string) :
  segments (residual_name specifier) = [RESIDUAL_DIR; residual_file specifier].
Proof.
  unfold residual_name; rewrite segments_join, (segments_single (residual_file specifier)); [done|apply residual_file_plain].
Qed.

Lemma replace_char_id (a b : Ascii.ascii) (s : string) : has a s = false -> replace_char a b s = s.
Proof.
  induction s as [|c s IH]; [done|]; cbn [has replace_char]; intros [H1 H2]%orb_false_iff; by rewrite H1, IH.
Qed.

Lemma residual_name_plain (specifier : string) : plain_text (residual_name specifier) = true.
Proof.
  unfold residual_name; rewrite plain_text_app; cbn [andb plain_text String.list_ascii_of_string forallb].
  apply residual_file_plain.
Qed.

Lemma residual_name_valid (specifier : string) : validate_residual_name debug (residual_name specifier) = Ok tt.
Proof.
  pose proof (residual_name_plain specifier) as Hp; pose proof (residual_file_long specifier) as Hl.
  unfold validate_residual_name; rewrite replace_char_id by (by apply plain_text_has_not).
  rewrite (plain_text_has_not colon), <- split_segments, segments_residual_name by done.
  destruct (decide (residual_name specifier = "")) as [E|_]; [done|].
  change (is_absolute (residual_name specifier)) with false; cbn [existsb].
  rewrite !(bool_decide_eq_false_2 (residual_file specifier = _)); [done|intros E; rewrite E in Hl; simpl in Hl; lia..].
Qed.

(** The same file, reached as the build script does. *)
Lemma plain_segment (s : string) : has slash s = false -> (3 <= String.length s)%nat -> plain_components s = [Normal s].
Proof.
  intros Hs Hl; unfold plain_components; rewrite segments_single by done; cbn [omap list_omap].
  unfold segment_component; rewrite !decide_False; [done| |]; [intros ->; simpl in Hl; lia|intros [-> | ->]; simpl in Hl; lia].
Qed.
Lemma not_absolute (s : string) : has slash s = false -> is_absolute s = false.
Proof. destruct s as [|c s]; [done|]; cbn [has is_absolute]; by intros [? _]%orb_false_iff. Qed.

Lemma join_nonempty (dir name : path) : dir <> "" -> join dir name <> "".
Proof.
  intros Hd; unfold join; destruct (is_absolute name) eqn:E; [by intros ->|]; rewrite decide_False by done.
  destruct dir as [|c dir]; [done|]; by destruct (ends_with_slash (String c dir)).
Qed.

Lemma components_residual (dir : path) (specifier : string) : dir <> "" ->
  components (join dir (residual_name specifier)) = components dir ++ [Normal RESIDUAL_DIR; Normal (residual_file specifier)].
Proof.
  intros Hd; destruct (residual_file_plain specifier) as [_ Hs].
  rewrite components_join by done; unfold residual_name; rewrite plain_components_slash.
  rewrite (plain_segment (residual_file specifier)) by (done || apply residual_file_long); done.
Qed.

Lemma components_residual_file (dir : path) (specifier : string) : dir <> "" ->
  components (join (join dir RESIDUAL_DIR) (residual_file specifier)) =
    components dir ++ [Normal RESIDUAL_DIR; Normal (residual_file specifier)].
Proof.
  intros Hd; destruct (residual_file_plain specifier) as [_ Hs].
  rewrite components_join by (by apply not_absolute || by apply join_nonempty).
  rewrite components_join, (plain_segment (residual_file specifier)), <- app_assoc by (done || apply residual_file_long); done.
Qed.

Lemma below_out_residual (dir : path) (specifier : string) : dir <> "" ->
  below_out dir (join (join dir RESIDUAL_DIR) (residual_file specifier)) = residual_name specifier.
Proof.
  intros Hd; unfold below_out, strip_prefix; rewrite components_residual_file by done.
  assert (forall pre cs, strip_components pre (pre ++ cs) = Some cs) as -> by (intros; by apply strip_components_spec).
  unfold residual_name; cbn [Paths.render render_rest component_text]; by rewrite string_app_nil.
Qed.

(** ** What the creation of a snapshot leaves *)

(** The lazy sources the snapshot does not hold, and what becomes of one. *)
Definition remaining (consumed : list string) (lazy : list lazy_file) : list lazy_file :=
  List.filter (fun f => negb (bool_decide (lz_specifier f ∈ consumed))) lazy.
Definition is_lazy_js (f : lazy_file) : bool := match lz_kind f with LazyJs => true | LazyEsm => false end.
Definition residual_text (fs : files) (f : lazy_file) : result string string :=
  let? source := map_err io_message (read_to_string utf8 fs (lz_path f)) in
  let? transpiled := maybe_transpile_source (lz_specifier f) source in
  Ok (if is_lazy_js f then wrap_lazy_ext_script transpiled else transpiled).
Definition residual_place (dir : path) (f : lazy_file) : path := join dir (residual_file (lz_specifier f)).

(** A text of the program decodes to itself. *)
Definition decodes_texts : Prop := forall s, utf8 (str_bytes s) = Some s /\ utf8_lossy (str_bytes s) = s.

Lemma read_to_string_write (fs : files) (p : path) (s : string) :
  decodes_texts -> read_to_string utf8 (write fs p (str_bytes s)) p = Ok s.
Proof. intros Hd; unfold read_to_string; rewrite read_write_eq by done; by rewrite (proj1 (Hd s)). Qed.

(** One source: where it goes, what it holds then, and that nothing else changes. *)
Definition one_residual (dir : path) (f : lazy_file) : script path :=
  do! p := transpile_residual_source dir (lz_specifier f) (lz_path f) in
  match lz_kind f with LazyJs => do! _ := wrap_residual_js_source p in bret (Ok p) | LazyEsm => bret (Ok p) end.

Lemma one_residual_ok (dir p : path) (f : lazy_file) (fs fs' : files) :
  decodes_texts -> one_residual dir f fs = (Ok p, fs') ->
  p = residual_place dir f /\ (forall q, q <> components p -> fs' q = fs q) /\
  exists text, residual_text fs f = Ok text /\ read fs' p = Ok (str_bytes text).
Proof.
  intros Hd H; unfold one_residual, transpile_residual_source in H; run_step H out E.
  run_step E source E1; run_step E transpiled E2; run_step E u E3; apply bret_ok in E as [-> [= <-]].
  unfold residual_text, is_lazy_js; rewrite E1; cbn [map_err]; rewrite E2.
  assert (forall text k, k <> components (residual_place dir f) -> write fs (residual_place dir f) text k = fs k) as Hne
    by (intros text k Hk; unfold write; by rewrite decide_False).
  destruct (lz_kind f).
  - run_step H u1 E4; unfold wrap_residual_js_source in E4; run_step E4 source1 E5; apply bwrite_ok in E4.
    apply bret_ok in H as [-> [= <-]]; rewrite read_to_string_write in E5 by done; simplify_eq; split; [done|split].
    + intros k Hk; unfold write at 1; rewrite decide_False by done; by apply Hne.
    + eexists; split; [done|by apply read_write_eq].
  - apply bret_ok in H as [-> [= <-]]; split; [done|split; [by apply Hne|]]; eexists; split; [done|by apply read_write_eq].
Qed.

Lemma residual_each_cons (dir : path) (consumed : list string) (f : lazy_file) (lazy : list lazy_file)
    (fs fs' : files) (js esm : list (string * path)) :
  lz_specifier f ∉ consumed -> residual_each dir consumed (f :: lazy) fs = (Ok (js, esm), fs') ->
  exists p js' esm' fs1, one_residual dir f fs = (Ok p, fs1) /\ residual_each dir consumed lazy fs1 = (Ok (js', esm'), fs') /\
    js = (if is_lazy_js f then [(lz_specifier f, p)] else []) ++ js' /\
    esm = (if is_lazy_js f then [] else [(lz_specifier f, p)]) ++ esm'.
Proof.
  intros Hc; cbn [residual_each]; rewrite bool_decide_eq_false_2 by done; intros H.
  run_step H p E; unfold one_residual, is_lazy_js; unfold bbind at 1; rewrite E; destruct (lz_kind f).
  - run_step H u E1; run_step H rest E2; apply bret_ok in H as [-> [= <- <-]]; destruct rest as [js' esm'].
    destruct u; exists p, js', esm'; eexists; split; [|by split_and!]; unfold bbind; by rewrite E1.
  - run_step H rest E2; apply bret_ok in H as [-> [= <- <-]]; destruct rest as [js' esm'].
    exists p, js', esm'; eexists; split; [done|by split_and!].
Qed.

Definition entries_of (dir : path) (fs : list lazy_file) : list (string * path) :=
  map (fun f => (lz_specifier f, residual_place dir f)) fs.

(** The sources of the files that remain are outside [dir] and their places
    differ. *)
Record separate (dir : path) (l : list lazy_file) : Prop := Separate {
  sep_places : NoDup (map (fun f => components (residual_place dir f)) l);
  sep_sources : Forall (fun f => ~ (components dir `prefix_of` components (lz_path f))) l
}.

Lemma residual_place_under (dir : path) (f : lazy_file) :
  dir <> "" -> components dir `prefix_of` components (residual_place dir f).
Proof.
  intros Hd; destruct (residual_file_plain (lz_specifier f)) as [_ Hs]; unfold residual_place.
  rewrite components_join by (done || by apply not_absolute); by eexists.
Qed.

Lemma residual_text_agree (dir : path) (f : lazy_file) (fs fs' : files) :
  agree_outside dir fs fs' -> ~ (components dir `prefix_of` components (lz_path f)) -> residual_text fs' f = residual_text fs f.
Proof. intros Ha Hn; unfold residual_text, read_to_string; by rewrite (agree_read dir fs fs' (lz_path f)). Qed.

Lemma residual_each_ok (dir : path) (consumed : list string) (lazy : list lazy_file) (fs fs' : files)
    (js esm : list (string * path)) :
  decodes_texts -> dir <> "" -> separate dir (remaining consumed lazy) ->
  residual_each dir consumed lazy fs = (Ok (js, esm), fs') ->
  js = entries_of dir (List.filter is_lazy_js (remaining consumed lazy)) /\
  esm = entries_of dir (List.filter (fun f => negb (is_lazy_js f)) (remaining consumed lazy)) /\
  (forall q, q ∉ map (fun f => components (residual_place dir f)) (remaining consumed lazy) -> fs' q = fs q) /\
  Forall (fun f => exists text, residual_text fs f = Ok text /\ read fs' (residual_place dir f) = Ok (str_bytes text))
    (remaining consumed lazy).
Proof.
  intros Hd Hdir; revert fs js esm; induction lazy as [|f lazy IH]; intros fs js esm Hs.
  - intros [= <- <- <-]; by split_and!.
  - destruct (decide (lz_specifier f ∈ consumed)) as [Hc|Hc].
    + cbn [residual_each]; unfold remaining in *; cbn [List.filter] in *; rewrite bool_decide_eq_true_2 in * by done.
      by apply IH.
    + intros (p & js' & esm' & fs1 & E1 & E2 & -> & ->)%residual_each_cons; [|done].
      unfold remaining in *; cbn [List.filter] in *; rewrite bool_decide_eq_false_2 in * by done; cbn [negb] in *.
      fold (remaining consumed lazy) in *; destruct Hs as [H1 H2]; cbn [map] in H1.
      apply NoDup_cons in H1 as [H1 H1']; apply Forall_cons in H2 as [H2 H2'].
      apply one_residual_ok in E1 as (-> & Hsame & text & Ht & Hr); [|done].
      apply IH in E2 as (-> & -> & Hrest & Hall); [|by split].
      split_and!; [cbn [List.filter]; by destruct (is_lazy_js f)..| |].
      * intros q [Hq1 Hq2]%not_elem_of_cons; rewrite Hrest by done; by apply Hsame.
      * assert (agree_outside dir fs fs1) as Ha.
        { intros q Hq; apply Hsame; intros ->; apply Hq, residual_place_under, Hdir. }
        constructor; [exists text; split; [done|]; unfold read; by rewrite Hrest|].
        rewrite Forall_forall in *; intros g Hg; destruct (Hall g Hg) as (t & Hg1 & Hg2); exists t; split; [|done].
        rewrite <- Hg1; symmetry; by eapply residual_text_agree, H2'.
Qed.

Definition named (fs : list lazy_file) : list (string * path) :=
  map (fun f => (lz_specifier f, residual_name (lz_specifier f))) fs.
Definition remaining_of (output : snapshot_output) : list lazy_file := remaining (sn_consumed output) (sn_lazy output).
Definition created_table (output : snapshot_output) : string :=
  residual_table debug (named (List.filter is_lazy_js (remaining_of output)))
    (named (List.filter (fun f => negb (is_lazy_js f)) (remaining_of output))).

(** The sources that remain are read from outside the output directory, and the
    names made of their specifiers differ. *)
Record output_separate (out_dir : path) (output : snapshot_output) : Prop := OutputSeparate {
  os_names : NoDup (map (fun f => residual_file (lz_specifier f)) (remaining_of output));
  os_sources : Forall (fun f => ~ (components out_dir `prefix_of` components (lz_path f))) (remaining_of output)
}.

Record created (out_dir : path) (fs fs' : files) (output : snapshot_output) : Prop := Created {
  cr_snapshot : read fs' (join out_dir SNAPSHOT_FILE) = Ok (sn_bytes output);
  cr_table : read fs' (join out_dir TABLE_FILE) = Ok (str_bytes (created_table output));
  cr_residuals : Forall (fun f => exists text, residual_text fs f = Ok text /\
    read fs' (join out_dir (residual_name (lz_specifier f))) = Ok (str_bytes text)) (remaining_of output)
}.

Lemma residual_place_components (out_dir : path) (f : lazy_file) : out_dir <> "" ->
  components (residual_place (join out_dir RESIDUAL_DIR) f) =
    components out_dir ++ [Normal RESIDUAL_DIR; Normal (residual_file (lz_specifier f))].
Proof. apply components_residual_file. Qed.

Lemma output_separate_places (out_dir : path) (output : snapshot_output) :
  out_dir <> "" -> output_separate out_dir output -> separate (join out_dir RESIDUAL_DIR) (remaining_of output).
Proof.
  intros Ho [H1 H2]; split.
  - rewrite (map_ext _ (fun f => components out_dir ++ [Normal RESIDUAL_DIR; Normal (residual_file (lz_specifier f))]))
      by (intros f; by apply residual_place_components).
    rewrite <- (map_map (fun f => residual_file (lz_specifier f))
      (fun s => components out_dir ++ [Normal RESIDUAL_DIR; Normal s])).
    apply NoDup_fmap_2; [|done]; intros a b E; by simplify_eq.
  - eapply Forall_impl; [exact H2|]; intros f Hf Hp; apply Hf; etransitivity; [|exact Hp].
    rewrite components_join by done; by eexists.
Qed.

Lemma below_out_entries (out_dir : path) (fs : list lazy_file) : out_dir <> "" ->
  map (fun e => (e.1, below_out out_dir e.2)) (entries_of (join out_dir RESIDUAL_DIR) fs) = named fs.
Proof.
  intros Ho; unfold entries_of, named; rewrite map_map; apply map_ext; intros f; cbn [fst snd]; f_equal.
  by apply below_out_residual.
Qed.

Lemma dedup_after_nonempty (a : string) (l : list string) : dedup_after same_name a l <> [].
Proof. destruct (dedup_after_head a l) as [l' ->]; done. Qed.
Lemma sorted_names_nil (l : list string) : sorted_names l = [] -> l = [].
Proof.
  unfold sorted_names; change (fun a b : string => bool_decide (a = b)) with same_name; intros H.
  destruct (sort_by name_greater l) as [|a k] eqn:E; [|by apply dedup_after_nonempty in H].
  pose proof (sort_by_perm name_greater l) as Hp; rewrite E in Hp; by apply Permutation_nil in Hp.
Qed.

Lemma ensure_ok (fs fs' : files) (u : unit) :
  ensure_extension_sources_exist fs = (Ok u, fs') ->
  fs' = fs /\ forall extensions, get_extensions_in_snapshot = Some extensions ->
    Forall (fun p => is_file fs p = true) (fs_sources extensions).
Proof.
  unfold ensure_extension_sources_exist; destruct get_extensions_in_snapshot as [l|]; [|by intros [= _ <-]].
  case_decide as H; [intros [= _ <-]|done]; split; [done|]; intros ? [= <-]; apply sorted_names_nil in H.
  apply Forall_forall; intros p Hp; destruct (is_file fs p) eqn:E; [done|].
  assert (p ∈ List.filter (fun p => negb (is_file fs p)) (fs_sources l)) as Hin
    by (apply list_elem_of_In, filter_In; split; [by apply list_elem_of_In|by rewrite E]).
  rewrite H in Hin; by apply not_elem_of_nil in Hin.
Qed.

Lemma create_ok (out_dir : path) (target : string) (fs fs' : files) (u : unit) :
  decodes_texts -> out_dir <> "" ->
  (forall output, create_runtime_snapshot fs TS_VERSION v8_version target = Ok output -> output_separate out_dir output) ->
  create_cli_snapshot (join out_dir SNAPSHOT_FILE) (join out_dir TABLE_FILE) out_dir target fs = (Ok u, fs') ->
  exists output, create_runtime_snapshot fs TS_VERSION v8_version target = Ok output /\ created out_dir fs fs' output /\
    agree_outside out_dir fs fs'.
Proof.
  clear canonicalize can_remove; intros Hd Ho Hs H; unfold create_cli_snapshot in H; run_step H u1 E1; apply ensure_ok in E1 as [-> _].
  run_step H ts E2; assert (ts = TS_VERSION) as -> by (revert E2; by vm_compute; intros [= <-]).
  run_step H output E3; specialize (Hs _ E3); exists output; split; [done|].
  run_step H u2 E4; run_step H u3 E5; run_step H entries E6; apply bwrite_ok in H as ->; destruct entries as [js esm].
  apply residual_each_ok in E6 as (-> & -> & Hrest & Hall);
    [|done|by apply join_nonempty|by apply output_separate_places].
  fold (remaining_of output) in *; cbn [fst snd] in *; rewrite !below_out_entries by done.
  assert (forall name q, top_file name -> q ∈ map (fun f => components (residual_place (join out_dir RESIDUAL_DIR) f)) (remaining_of output) ->
    q <> components (join out_dir name)) as Hne.
  { intros name q Hn (f & -> & _)%list_elem_of_fmap; rewrite components_top, residual_place_components by done; naive_solver. }
  pose proof top_files as Ht; rewrite !Forall_cons in Ht; destruct Ht as (T1 & T2 & _).
  split; [split|].
  - rewrite read_write_ne by (rewrite !components_top by done; intros [=]%app_inv_head).
    unfold read; rewrite Hrest by (intros Hin; by apply (Hne _ _ T1) in Hin); by apply read_write_eq.
  - by apply read_write_eq.
  - rewrite Forall_forall in *; intros f Hf; destruct (Hall f Hf) as (text & Hx & Hr); exists text; split.
    + rewrite <- Hx; symmetry; apply (residual_text_agree out_dir); [by apply (agree_write_file debug); [left|]|].
      destruct Hs as [_ Hs]; rewrite Forall_forall in Hs; by apply Hs.
    + rewrite read_write_ne by (rewrite components_residual, components_top by done; by intros ?%app_inv_head).
      rewrite <- Hr; apply read_components; by rewrite components_residual, residual_place_components.
  - eapply agree_trans; [|by apply (agree_write_file debug); [right|]].
    eapply agree_trans; [by apply (agree_write_file debug); [left|]|].
    intros q Hq; apply Hrest; intros (f & -> & _)%list_elem_of_fmap; apply Hq.
    rewrite residual_place_components by done; by eexists.
Qed.

(** ** The table of a created snapshot *)

(** [{:?}]: one line, and a plain text between quotes. *)
Definition debug_escapes : Prop :=
  (forall s, has newline (debug s) = false) /\ (forall s, plain_text s = true -> debug s = String quote (s +:+ String quote "")).

Lemma table_path_residual (specifier : string) :
  table_path (residual_name specifier) = String slash (residual_name specifier).
Proof. unfold table_path; rewrite replace_char_id; [done|]; apply plain_text_has_not; [apply residual_name_plain|done]. Qed.

Lemma named_plain (l : list lazy_file) : debug_escapes -> debug_plain debug (named l).
Proof.
  intros [H1 H2]; apply Forall_fmap, Forall_true; intros f; cbn [compose fst snd]; rewrite table_path_residual.
  assert (plain_text (String slash (residual_name (lz_specifier f))) = true) as Hp by apply residual_name_plain.
  split_and!; [apply H1|by apply plain_text_has_not|by apply plain_text_has_not|by apply H2].
Qed.

Lemma filter_partition {A} (f : A -> bool) (l : list A) : List.filter f l ++ List.filter (fun x => negb (f x)) l ≡ₚ l.
Proof.
  induction l as [|x l IH]; [done|]; cbn [List.filter]; destruct (f x); cbn [negb app].
  - by constructor.
  - rewrite <- Permutation_middle; by constructor.
Qed.

Lemma created_table_sources (output : snapshot_output) : debug_escapes ->
  table_sources (created_table output) ≡ₚ map (fun f => residual_name (lz_specifier f)) (remaining_of output).
Proof.
  intros Hd; unfold created_table; rewrite table_sources_of_table by (by apply named_plain).
  rewrite !sort_by_perm; unfold named; rewrite <- map_app, filter_partition, map_map.
  apply Permutation_refl', map_ext; intros f; cbn [snd]; by rewrite table_path_residual.
Qed.

(** ** Copying the residual sources *)

Lemma export_each_ok (src dst : path) (names : list string) (fs fs' : files) (u : unit) :
  src <> "" -> dst <> "" -> apart dst src -> Forall (valid debug) names -> export_each src dst names fs = (Ok u, fs') ->
  mirrored fs fs' src dst names /\ untouched fs fs' dst names.
Proof.
  intros Hs Hd Ha; revert fs; induction names as [|name names IH]; intros fs Hv; cbn [export_each].
  - intros [= _ <-]; by split; [constructor|].
  - intros H; run_step H u1 E1; run_step H bytes E2; run_step H u2 E3.
    apply IH in H as [H1 H2]; [by eapply mirror_step|by apply Forall_cons in Hv as [_ Hv]].
Qed.

Lemma copy_each_ok (src dst : path) (names : list string) (fs : files) :
  (forall p, create_dir_all p = Ok tt) -> (forall p, can_write p = Ok tt) ->
  src <> "" -> dst <> "" -> apart dst src -> Forall (valid debug) names ->
  Forall (fun name => exists bytes, read fs (join src name) = Ok bytes) names ->
  exists fs', copy_each debug create_dir_all can_write src dst names fs = (Ok tt, fs') /\
    mirrored fs fs' src dst names /\ untouched fs fs' dst names.
Proof.
  intros Hc Hw Hs Hd Ha; revert fs; induction names as [|name names IH]; intros fs Hv Hr; cbn [copy_each].
  - exists fs; by split_and!; [|constructor|].
  - pose proof Hv as Hv'; apply Forall_cons in Hv' as [Hv1 Hv2]; apply Forall_cons in Hr as [[bytes Hr1] Hr2].
    unfold valid in Hv1; rewrite Hv1, Hr1, Hw.
    assert (forall o, match o with Some p => map_err (fun e => "failed to create " +:+ p +:+ ": " +:+ e) (create_dir_all p)
                      | None => Ok tt end = Ok tt) as -> by (intros [p|]; [by rewrite Hc|done]).
    cbn [map_err]; destruct (IH (write fs (join dst name) bytes)) as (fs' & H1 & H2 & H3); [done| |].
    + rewrite Forall_forall in *; intros n Hn; destruct (Hr2 n Hn) as [b Hb]; exists b; rewrite <- Hb.
      apply (agree_other debug dst); [by apply (agree_write debug)|done|done|by apply Hv2].
    + exists fs'; split; [done|by eapply mirror_step].
Qed.

(** ** What is read of a directory is what its files are *)
Lemma describe_names_same (fs fs' : files) (dir dir' : path) (names : list string) :
  Forall (fun n => read fs (join dir n) = read fs' (join dir' n)) names ->
  describe_names debug fs dir names = describe_names debug fs' dir' names.
Proof. induction 1 as [|n names H _ IH]; [done|]; cbn [describe_names]; by rewrite H, IH. Qed.

Lemma verify_each_same (fs fs' : files) (dir dir' : path) (l : list residual) :
  Forall (fun r => read fs (join dir (r_name r)) = read fs' (join dir' (r_name r))) l ->
  verify_each debug fs dir l = verify_each debug fs' dir' l.
Proof. induction 1 as [|r l H _ IH]; [done|]; cbn [verify_each]; by rewrite H, IH. Qed.

Lemma sorted_names_in (n : string) (l : list string) : n ∈ sorted_names l <-> n ∈ l.
Proof.
  split; [apply (normal_sub name_greater same_name)|].
  assert (forall a, same_name a a = true) as Hr by (intros; by apply bool_decide_eq_true).
  assert (forall a b c, same_name a b = true -> same_name b c = true -> same_name a c = true) as Ht
    by (intros a b c E; apply bool_decide_eq_true in E as ->; done).
  intros H; destruct (normal_rep name_greater same_name Hr Ht l n H) as (y & Hy & E).
  by apply bool_decide_eq_true in E as ->.
Qed.

Lemma verify_residuals_same (m : manifest) (fs fs' : files) (table : string) (dir dir' : path) :
  Forall (fun n => read fs (join dir n) = read fs' (join dir' n)) (table_sources table) ->
  verify_residuals debug m fs table dir = verify_residuals debug m fs' table dir'.
Proof.
  intros H; unfold verify_residuals; case_decide as Hd; [done|]; apply verify_each_same.
  rewrite Forall_forall in H; apply Forall_forall; intros r Hr; apply H, sorted_names_in.
  assert (sorted_names (map r_name (m_residuals m)) = sorted_names (table_sources table)) as <-
    by (apply dec_stable; intros Hne; apply Hd; by left).
  by apply sorted_names_in, list_elem_of_fmap_2.
Qed.

(** ** A bundle, exported and installed *)
Definition residual_named (name : string) : Prop := exists specifier, name = residual_name specifier.

Lemma residual_named_valid (names : list string) : Forall residual_named names -> Forall (valid debug) names.
Proof. intros H; eapply Forall_impl; [exact H|]; intros n (s & ->); apply residual_name_valid. Qed.

(** The files a bundle has besides the residual sources are not among those. *)
Lemma top_untouched (dir name : path) (names : list string) :
  dir <> "" -> top_file name -> Forall residual_named names ->
  components (join dir name) ∉ map (fun n => components (join dir n)) names.
Proof.
  intros Hd Ht Hn (n & E & Hin)%list_elem_of_fmap; rewrite Forall_forall in Hn; destruct (Hn n Hin) as (s & ->).
  rewrite components_top, components_residual in E by done; by apply app_inv_head in E.
Qed.

(** Writing such a file leaves the residual sources there and the other such files. *)
Lemma top_write_residual (dir name : path) (names : list string) (fs : files) (bytes : list Z) :
  dir <> "" -> top_file name -> Forall residual_named names ->
  Forall (fun n => read (write fs (join dir name) bytes) (join dir n) = read fs (join dir n)) names.
Proof.
  intros Hd Ht Hn; eapply Forall_impl; [exact Hn|]; intros n (s & ->); apply read_write_ne.
  rewrite components_residual, components_top by done; by intros ?%app_inv_head.
Qed.
Lemma top_write_ne (dir a b : path) (fs : files) (bytes : list Z) :
  dir <> "" -> top_file a -> top_file b -> a <> b -> read (write fs (join dir a) bytes) (join dir b) = read fs (join dir b).
Proof. intros Hd Ha Hb Hab; apply read_write_ne; rewrite !components_top by done; by intros [= ?]%app_inv_head. Qed.

(** A complete bundle: the three files and a manifest that describes them. *)
Record bundle_of (dir : path) (fs : files) (i : identity) (snapshot table_bytes : list Z) (m : manifest) : Prop := BundleOf {
  bo_snapshot : read fs (join dir SNAPSHOT_FILE) = Ok snapshot;
  bo_table : read fs (join dir TABLE_FILE) = Ok table_bytes;
  bo_manifest : read fs (join dir MANIFEST_FILE) = Ok (str_bytes (SnapshotBundle.render m));
  bo_parsed : parse debug (SnapshotBundle.render m) = Ok m;
  bo_verified : verify m i snapshot table_bytes = Ok tt;
  bo_residuals : verify_residuals debug m fs (utf8_lossy table_bytes) dir = Ok tt
}.

(** A complete bundle stays one when it is copied elsewhere, whatever sidecar it
    gets there. *)
Definition copied (dir : path) (fs : files) (dir' : path) (fs' : files) : Prop :=
  forall rest, rest <> [Normal SIDECAR] -> fs' (components dir' ++ rest) = fs (components dir ++ rest).

Lemma copied_read (dir dir' name : path) (fs fs' : files) :
  copied dir fs dir' fs' -> dir <> "" -> dir' <> "" -> valid debug name -> segments name <> [SIDECAR] ->
  read fs' (join dir' name) = read fs (join dir name).
Proof.
  intros Hc Hd Hd' Hv Hs; unfold read; rewrite !(validated_components debug) by done; apply Hc.
  intros E; apply Hs; destruct (segments name) as [|x [|y l]]; cbn in E; congruence.
Qed.
Lemma residual_not_sidecar (names : list string) :
  Forall residual_named names -> Forall (fun n => valid debug n /\ segments n <> [SIDECAR]) names.
Proof.
  intros H; eapply Forall_impl; [exact H|]; intros n (s & ->); split; [apply residual_name_valid|].
  by rewrite segments_residual_name.
Qed.

Lemma bundle_copied (dir dir' : path) (fs fs' : files) (i : identity) (snapshot table_bytes : list Z) (m : manifest) :
  dir <> "" -> dir' <> "" -> copied dir fs dir' fs' -> Forall residual_named (table_sources (utf8_lossy table_bytes)) ->
  bundle_of dir fs i snapshot table_bytes m -> bundle_of dir' fs' i snapshot table_bytes m.
Proof.
  intros Hd Hd' Hc Hn [H1 H2 H3 H4 H5 H6].
  assert (forall name, In name [SNAPSHOT_FILE; TABLE_FILE; MANIFEST_FILE] -> read fs' (join dir' name) = read fs (join dir name)) as Hr
    by (intros name [<-|[<-|[<-|[]]]]; by apply copied_read).
  split; [rewrite Hr by (by left)|rewrite Hr by (by right; left)|rewrite Hr by (by right; right; left)|done..|]; try done.
  rewrite <- H6; apply verify_residuals_same; apply residual_not_sidecar in Hn; eapply Forall_impl; [exact Hn|].
  intros n [Hv Hs]; by apply copied_read.
Qed.

Lemma snapshot_identity_write (dir cargo_dir : path) (pkg_version target : string) (fs : files) (bytes : list Z) :
  dir <> "" ->
  snapshot_identity cargo_dir pkg_version target (write fs (join dir MANIFEST_FILE) bytes) = snapshot_identity cargo_dir pkg_version target fs.
Proof using debug.
  intros Hd; assert (last (components (join cargo_dir "Cargo.toml")) = Some (Normal "Cargo.toml")) as Hl.
  { destruct (decide (cargo_dir = "")) as [->|Hc]; [done|]; rewrite components_join by done.
    change (plain_components "Cargo.toml") with [Normal "Cargo.toml"]; by rewrite last_snoc. }
  assert (read (write fs (join dir MANIFEST_FILE) bytes) (join cargo_dir "Cargo.toml") = read fs (join cargo_dir "Cargo.toml")) as Hr.
  { apply read_write_ne; intros E; rewrite E, components_top, last_snoc in Hl by done; done. }
  unfold snapshot_identity, declared_deno_versions, ledger, read_to_string; by rewrite Hr.
Qed.

Lemma mirrored_from (fs fs' : files) (src src' dst : path) (names : list string) :
  components src = components src' -> src <> "" -> src' <> "" -> Forall (valid debug) names ->
  mirrored fs fs' src dst names -> mirrored fs fs' src' dst names.
Proof.
  intros E Hs Hs' Hv Hm; unfold mirrored in *; rewrite Forall_forall in *; intros n Hn; destruct (Hm n Hn) as (b & Hb & Hb').
  exists b; split; [|done]; rewrite <- Hb; apply read_components.
  rewrite !(validated_components debug) by (done || by apply Hv); by rewrite E.
Qed.
Lemma mirrored_to (fs fs1 fs' : files) (src dst : path) (names : list string) :
  Forall (fun n => read fs' (join dst n) = read fs1 (join dst n)) names ->
  mirrored fs fs1 src dst names -> mirrored fs fs' src dst names.
Proof.
  intros H Hm; unfold mirrored in *; rewrite Forall_forall in *; intros n Hn; destruct (Hm n Hn) as (b & Hb & Hb').
  exists b; split; [done|]; by rewrite H.
Qed.
Lemma untouched_agree (fs fs' : files) (dir : path) (names : list string) :
  dir <> "" -> Forall (valid debug) names -> untouched fs fs' dir names -> agree_outside dir fs fs'.
Proof.
  intros Hd Hv Hu q Hq; apply Hu; intros (n & -> & Hn)%list_elem_of_fmap; apply Hq; rewrite Forall_forall in Hv.
  rewrite (validated_components debug) by (done || by apply Hv); by eexists.
Qed.

(** The names of residual sources are one line without a tab. *)
Lemma residual_named_lines (names : list string) :
  Forall residual_named names -> Forall (fun n => has tab n = false /\ has newline n = false) names.
Proof.
  intros H; eapply Forall_impl; [exact H|]; intros n (s & ->); pose proof (residual_name_plain s).
  split; by apply plain_text_has_not.
Qed.

(** The three files written last. *)
Definition finish_bundle (dir : path) (snapshot table_bytes manifest_bytes : list Z) (fs : files) : files :=
  write (write (write fs (join dir SNAPSHOT_FILE) snapshot) (join dir TABLE_FILE) table_bytes) (join dir MANIFEST_FILE) manifest_bytes.

Lemma finish_bundle_spec (dir : path) (snapshot table_bytes manifest_bytes : list Z) (fs : files) :
  dir <> "" ->
  let fs' := finish_bundle dir snapshot table_bytes manifest_bytes fs in
  read fs' (join dir SNAPSHOT_FILE) = Ok snapshot /\ read fs' (join dir TABLE_FILE) = Ok table_bytes /\
  read fs' (join dir MANIFEST_FILE) = Ok manifest_bytes /\ agree_outside dir fs fs' /\
  forall names, Forall residual_named names -> Forall (fun n => read fs' (join dir n) = read fs (join dir n)) names.
Proof using debug.
  intros Hd fs'; subst fs'; unfold finish_bundle; pose proof top_files as Ht; rewrite !Forall_cons in Ht.
  destruct Ht as (T1 & T2 & T3 & _); split_and!.
  - rewrite !top_write_ne by done; by apply read_write_eq.
  - rewrite top_write_ne by done; by apply read_write_eq.
  - by apply read_write_eq.
  - eapply agree_trans; [|by apply (agree_write debug); [apply T3|]].
    eapply agree_trans; [|by apply (agree_write debug); [apply T2|]]; by apply (agree_write debug); [apply T1|].
  - intros names Hn; eapply Forall_impl; [exact Hn|]; intros n Hr.
    assert (forall name bytes fs0, top_file name -> read (write fs0 (join dir name) bytes) (join dir n) = read fs0 (join dir n)) as Hw
      by (intros name bytes fs0 T; pose proof (top_write_residual dir name [n] fs0 bytes Hd T) as Hx; rewrite !Forall_singleton in Hx; by apply Hx).
    by rewrite !Hw.
Qed.

(** The sizes of the files a bundle describes are machine integers. *)
Definition sizes_fit (fs : files) (dir : path) (table : string) : Prop :=
  Forall (fun n => forall bytes, read fs (join dir n) = Ok bytes -> is_u64 (Z.of_nat (length bytes)))
    (SNAPSHOT_FILE :: TABLE_FILE :: table_sources table).

Lemma export_ok (out_dir bundle cargo_dir : path) (pkg_version target table : string) (fs fs' : files) (i : identity) (u : unit) :
  decodes_texts -> out_dir <> "" -> bundle <> "" -> apart bundle out_dir ->
  read fs (join out_dir TABLE_FILE) = Ok (str_bytes table) -> Forall residual_named (table_sources table) ->
  snapshot_identity cargo_dir pkg_version target fs' = Ok i -> identity_ok i ->
  export_snapshot_bundle bundle (join out_dir SNAPSHOT_FILE) (join out_dir TABLE_FILE) cargo_dir pkg_version target fs = (Ok u, fs') ->
  exists snapshot m, read fs (join out_dir SNAPSHOT_FILE) = Ok snapshot /\
    mirrored fs fs' out_dir bundle (table_sources table) /\ agree_outside bundle fs fs' /\
    (sizes_fit fs' out_dir table -> bundle_of bundle fs' i snapshot (str_bytes table) m).
Proof.
  clear canonicalize can_remove; intros Hdec Ho Hb Hab Htab Hn Hi Hiok H; unfold export_snapshot_bundle in H.
  run_step H u1 E1; run_step H snapshot E2; run_step H tb E3; rewrite Htab in E3; injection E3 as <-.
  rewrite (proj2 (Hdec table)) in H.
  destruct (parent_join out_dir SNAPSHOT_FILE SNAPSHOT_FILE) as (p & Hp & Hpc); [done..|]; rewrite Hp in H.
  pose proof (residual_named_valid _ Hn) as Hv.
  assert (p <> "") as Hpn by (intros ->; symmetry in Hpc; by apply components_empty in Hpc).
  assert (apart bundle p) as Hap by (unfold apart; by rewrite Hpc).
  run_step H u2 E4; apply export_each_ok in E4 as [Hm Hu]; [|done..].
  run_step H u3 E5; run_step H u4 E6; run_step H i' E7; run_step H rs E8; apply bwrite_ok in H.
  match type of H with fs' = write _ _ (str_bytes (SnapshotBundle.render ?x)) => set (m := x) in H end.
  assert (i' = i) as -> by (rewrite H, snapshot_identity_write in Hi by done; congruence).
  destruct (finish_bundle_spec bundle snapshot (str_bytes table) (str_bytes (SnapshotBundle.render m)) fs0 Hb)
    as (F1 & F2 & F3 & F4 & F5); unfold finish_bundle in *; rewrite <- H in *.
  apply untouched_agree in Hu; [|done..]; pose proof (agree_trans _ _ _ _ Hu F4) as Hag.
  apply (mirrored_to fs fs0 fs') in Hm; [|by apply F5].
  assert (describe_residuals debug fs' table bundle = Ok rs) as Hdr.
  { rewrite <- E8; apply describe_names_same, Forall_forall; intros n Hin%(proj1 (sorted_names_in _ _)).
    pose proof Hm as Hm'; unfold mirrored in Hm'; rewrite Forall_forall in Hm', Hv; destruct (Hm' n Hin) as (b & Hb1 & Hb2).
    rewrite Hb2, <- Hb1, <- (agree_other debug bundle p fs fs') by (done || by apply Hv).
    rewrite H; apply (agree_other debug bundle); [by apply (agree_write debug)|done|done|by apply Hv]. }
  apply (mirrored_from _ _ _ out_dir) in Hm; [|done..].
  exists snapshot, m; split_and!; [done..|]; intros Hsize; unfold sizes_fit in Hsize.
  destruct (exported_bundle_accepted debug fs' i snapshot (str_bytes table) table bundle rs) as (A1 & A2 & A3);
    [done| |..|by apply residual_named_lines|done|].
  { unfold mirrored in Hm; rewrite Forall_forall in *; intros n Hin bytes Hr; destruct (Hm n Hin) as (b & Hb1 & Hb2).
    apply (Hsize n); [by do 2 right|]; rewrite (agree_other debug bundle out_dir fs fs') by (done || by apply Hv); congruence. }
  { rewrite Forall_forall in Hsize; apply (Hsize SNAPSHOT_FILE); [by left|]; rewrite (agree_other debug bundle out_dir fs fs') by done; done. }
  { rewrite Forall_forall in Hsize; apply (Hsize TABLE_FILE); [by right; left|]; rewrite (agree_other debug bundle out_dir fs fs') by done; done. }
  split; try done; by rewrite (proj2 (Hdec table)).
Qed.

Lemma check_bundle_of (dir : path) (fs : files) (declaration_file : option path) (i : identity) (snapshot table_bytes : list Z)
    (m : manifest) :
  decodes_texts -> bundle_of dir fs i snapshot table_bytes m ->
  verify_compatibility utf8 canonicalize fs declaration_file dir (id_target i) (str_bytes (SnapshotBundle.render m)) = Ok tt ->
  check_bundle debug utf8 utf8_lossy canonicalize fs declaration_file i dir = Ok (m, snapshot, table_bytes).
Proof.
  intros Hd [H1 H2 H3 H4 H5 H6] Hc; unfold check_bundle; rewrite H3; cbn [map_err].
  rewrite (proj1 (Hd _)), H4, Hc, H1, H2; cbn [map_err]; by rewrite H5, H6.
Qed.

Lemma install_bundle_ok (bundle out_dir : path) (fs : files) (declaration_file : option path) (i : identity)
    (snapshot table_bytes : list Z) (m : manifest) :
  (forall p, create_dir_all p = Ok tt) -> (forall p, can_write p = Ok tt) ->
  bundle <> "" -> out_dir <> "" -> apart out_dir bundle ->
  check_bundle debug utf8 utf8_lossy canonicalize fs declaration_file i bundle = Ok (m, snapshot, table_bytes) ->
  bundle_of bundle fs i snapshot table_bytes m -> Forall residual_named (table_sources (utf8_lossy table_bytes)) ->
  Forall (fun n => exists bytes, read fs (join bundle n) = Ok bytes) (table_sources (utf8_lossy table_bytes)) ->
  exists fs', install_prebuilt_snapshot debug create_dir_all can_write utf8 utf8_lossy canonicalize fs declaration_file i bundle out_dir
      = (Ok tt, fs') /\
    mirrored fs fs' bundle out_dir (SNAPSHOT_FILE :: TABLE_FILE :: table_sources (utf8_lossy table_bytes)).
Proof.
  intros Hc Hw Hb Ho Ha Hcheck [B1 B2 _ _ _ B6] Hn Hr; unfold install_prebuilt_snapshot, write_file; rewrite Hcheck, !Hw.
  pose proof (residual_named_valid _ Hn) as Hv; pose proof top_files as Ht; rewrite !Forall_cons in Ht; destruct Ht as (T1 & T2 & _).
  set (fs1 := write (write fs (join out_dir SNAPSHOT_FILE) snapshot) (join out_dir TABLE_FILE) table_bytes).
  assert (Forall (fun n => read fs1 (join bundle n) = read fs (join bundle n)) (table_sources (utf8_lossy table_bytes))) as Hsame.
  { eapply Forall_impl; [exact Hv|]; intros n Hvn; apply (agree_other debug out_dir); [|done..].
    eapply agree_trans; [by apply (agree_write debug); [apply T1|]|by apply (agree_write debug); [apply T2|]]. }
  unfold copy_verified_residuals; destruct (copy_each_ok bundle out_dir (table_sources (utf8_lossy table_bytes)) fs1)
    as (fs' & E & Hm & Hu); try done.
  { rewrite Forall_forall in *; intros n Hin; destruct (Hr n Hin) as [b Hb']; exists b; by rewrite Hsame. }
  rewrite E; exists fs'; split.
  - f_equal; rewrite <- B6; apply verify_residuals_same; unfold mirrored in Hm; rewrite Forall_forall in *; intros n Hin.
    destruct (Hm n Hin) as (b & H1 & ->); by rewrite <- Hsame.
  - constructor; [|constructor].
    + exists snapshot; split; [done|]; unfold read; rewrite Hu by (by apply top_untouched).
      change (read fs1 (join out_dir SNAPSHOT_FILE) = Ok snapshot); unfold fs1; rewrite top_write_ne by done; by apply read_write_eq.
    + exists table_bytes; split; [done|]; unfold read; rewrite Hu by (by apply top_untouched); by apply read_write_eq.
    + unfold mirrored in Hm; rewrite Forall_forall in *; intros n Hin; destruct (Hm n Hin) as (b & H1 & H2).
      exists b; split; [by rewrite <- Hsame|done].
Qed.

(** ** The journey of a snapshot *)
Lemma main_created (env : build_env) (fs fs' : files) (u : unit) :
  be_snapshot_dir env = None -> be_out_dir env <> "" -> main Snapshot env fs = (Ok u, fs') ->
  exists fs0, create_and_export env fs0 = (Ok u, fs') /\ be_host env = be_target env /\
    forall q, ~ (components (be_out_dir env) `prefix_of` q) ->
      (forall bundle, be_export_dir env = Some bundle -> q <> components (join bundle SIDECAR)) -> fs0 q = fs q.
Proof.
  intros Hp Ho H; unfold main in H; rewrite Hp, !decide_True in H by done.
  run_step H u1 E1; run_step H u2 E2; run_step H v8 E3; run_step H u3 E4; run_step H u4 E5.
  eexists; split; [done|split; [by unfold ensure_compatible in E2; destruct (decide (be_host env = be_target env))|]]; intros q Hq Hs.
  assert (forall (fs0 : files) bytes, write fs0 (join (be_out_dir env) "SNAPSHOT_BUILD_SCRIPT_PATH") bytes q = fs0 q) as Hw.
  { intros g bytes; exact (agree_write debug _ "SNAPSHOT_BUILD_SCRIPT_PATH" g bytes eq_refl Ho q Hq). }
  rewrite Hw; unfold remove_stale_sidecar in E1; destruct (be_export_dir env) as [bundle|]; [|by simplify_eq].
  destruct (exists_ _ _); [|by simplify_eq]; destruct (can_remove _); [|done]; injection E1 as _ <-.
  unfold remove; rewrite decide_False; [done|by apply Hs].
Qed.

Lemma main_import (env : build_env) (bundle : path) (fs : files) (i : identity) :
  be_snapshot_dir env = Some bundle -> expected_identity SnapshotImport env fs = Ok i ->
  main SnapshotImport env fs =
    install_prebuilt_snapshot debug create_dir_all can_write utf8 utf8_lossy canonicalize fs (be_compatibility_file env) i bundle
      (be_out_dir env) /\ id_target i = be_target env.
Proof.
  intros Hb Hi; unfold main, install; rewrite Hb; unfold bbind; rewrite Hi; cbn [expected_identity] in Hi.
  unfold expected_snapshot_identity in Hi.
  destruct (ledger utf8 fs _ "deno-core-version"); [|done]; destruct (ledger utf8 fs _ "deno-runtime-version"); [|done].
  destruct (ledger utf8 fs _ "v8-version"); [|done]; destruct (ledger utf8 fs _ "typescript-version"); [|done].
  by injection Hi as <-.
Qed.

Definition journey_names (output : snapshot_output) : list string :=
  SNAPSHOT_FILE :: TABLE_FILE :: map (fun f => residual_name (lz_specifier f)) (remaining_of output).

Lemma created_names (output : snapshot_output) : debug_escapes -> Forall residual_named (table_sources (created_table output)).
Proof.
  intros Hd; rewrite created_table_sources by done; apply Forall_forall; intros n (f & -> & _)%list_elem_of_fmap; by eexists.
Qed.

Lemma created_agree (out_dir bundle : path) (fs fs1 fs2 : files) (output : snapshot_output) :
  out_dir <> "" -> apart bundle out_dir -> agree_outside bundle fs1 fs2 -> created out_dir fs fs1 output -> created out_dir fs fs2 output.
Proof.
  intros Ho Ha Hag [H1 H2 H3]; split; [rewrite (agree_other debug bundle out_dir fs1) by done; done..|].
  eapply Forall_impl; [exact H3|]; intros f (text & Ht & Hr); exists text; split; [done|].
  rewrite (agree_other debug bundle out_dir fs1) by (done || apply residual_name_valid); done.
Qed.

(** The bundle a build that makes its own snapshot leaves. *)
Lemma exported_ok (env : build_env) (bundle : path) (fs fs1 : files) (i : identity) (u : unit) :
  decodes_texts -> debug_escapes -> be_out_dir env <> "" -> bundle <> "" -> apart bundle (be_out_dir env) ->
  be_export_dir env = Some bundle ->
  (forall output, create_runtime_snapshot fs TS_VERSION v8_version (be_target env) = Ok output ->
     output_separate (be_out_dir env) output) ->
  create_and_export env fs = (Ok u, fs1) ->
  snapshot_identity (be_cargo_dir env) (be_pkg_version env) (be_target env) fs1 = Ok i -> identity_ok i ->
  (forall table, read_to_string utf8 fs1 (join (be_out_dir env) TABLE_FILE) = Ok table -> sizes_fit fs1 (be_out_dir env) table) ->
  exists output m, create_runtime_snapshot fs TS_VERSION v8_version (be_target env) = Ok output /\
    created (be_out_dir env) fs fs1 output /\
    bundle_of bundle fs1 i (sn_bytes output) (str_bytes (created_table output)) m /\
    mirrored fs1 fs1 (be_out_dir env) bundle (table_sources (created_table output)).
Proof.
  intros Hd Hq Ho Hb Ha He Hs H Hi Hok Hsize; unfold create_and_export in H; run_step H u1 E1; rewrite He in H.
  apply create_ok in E1 as (output & Hc & Hcr & _); [|done..].
  pose proof (created_names output Hq) as Hn; pose proof (residual_named_valid _ Hn) as Hv.
  apply export_ok with (table := created_table output) (i := i) in H as (snapshot & m & E & Hm & Hag & Hbo);
    [|done..|apply Hcr|done|done|done].
  assert (created (be_out_dir env) fs fs1 output) as Hcr1 by (by eapply created_agree).
  assert (snapshot = sn_bytes output) as -> by (destruct Hcr; congruence).
  exists output, m; split_and!; [done|done| |].
  - apply Hbo, Hsize; unfold read_to_string; rewrite (cr_table _ _ _ _ Hcr1); by rewrite (proj1 (Hd _)).
  - unfold mirrored in *; rewrite Forall_forall in *; intros n Hin; destruct (Hm n Hin) as (b & H1 & H2); exists b; split; [|done].
    rewrite (agree_other debug bundle _ fs0) by (done || by apply Hv); done.
Qed.

Lemma mirrored_trans (fs fs1 fs2 : files) (a b c : path) (names : list string) :
  mirrored fs fs1 a b names -> mirrored fs1 fs2 b c names -> mirrored fs fs2 a c names.
Proof.
  unfold mirrored; rewrite !Forall_forall; intros H1 H2 n Hn; destruct (H1 n Hn) as (x & Hx1 & Hx2), (H2 n Hn) as (y & Hy1 & Hy2).
  exists x; split; [done|congruence].
Qed.

(** C22. A startup snapshot survives its journey. Where a build makes its own snapshot,
    exports it and succeeds, its output directory holds the snapshot the runtime
    made, and each lazy source that snapshot does not hold, transpiled and wrapped
    as its kind asks, under the name the table gives; and another build that only
    imports, of the same identity, handed a copy of the bundle and a declaration
    accepted for it, succeeds and then holds the same snapshot, the same table and
    the same sources, byte for byte. *)
Theorem snapshot_travels (env env2 : build_env) (bundle bundle2 : path) (fs fs1 fs2 : files) (i : identity)
    (Hdirs : forall p, create_dir_all p = Ok tt) (Hwrites : forall p, can_write p = Ok tt)
    (Hutf8 : decodes_texts) (Hdebug : debug_escapes)
    (Hnone : be_snapshot_dir env = None) (Hexport : be_export_dir env = Some bundle)
    (Hprebuilt : be_snapshot_dir env2 = Some bundle2)
    (Hpaths : Forall (fun p => p <> "") [be_out_dir env; bundle; be_out_dir env2; bundle2])
    (Hapart : apart bundle (be_out_dir env)) (Hapart2 : apart (be_out_dir env2) bundle2)
    (Hseparate : forall fs output, create_runtime_snapshot fs TS_VERSION v8_version (be_target env) = Ok output ->
       output_separate (be_out_dir env) output)
    (Hbuilt : main Snapshot env fs = (Ok tt, fs1))
    (Hfits : forall table, read_to_string utf8 fs1 (join (be_out_dir env) TABLE_FILE) = Ok table ->
       sizes_fit fs1 (be_out_dir env) table)
    (Hidentity : snapshot_identity (be_cargo_dir env) (be_pkg_version env) (be_target env) fs1 = Ok i) (Hlines : identity_ok i)
    (Hcopied : copied bundle fs1 bundle2 fs2)
    (Hsame : expected_identity SnapshotImport env2 fs2 = Ok i)
    (Hdeclared : forall bytes, read fs2 (join bundle2 MANIFEST_FILE) = Ok bytes ->
       verify_compatibility utf8 canonicalize fs2 (be_compatibility_file env2) bundle2 (be_target env2) bytes = Ok tt) :
  exists fs0 output fs3,
    (forall q, ~ (components (be_out_dir env) `prefix_of` q) -> q <> components (join bundle SIDECAR) -> fs0 q = fs q) /\
    create_runtime_snapshot fs0 TS_VERSION v8_version (be_target env) = Ok output /\
    created (be_out_dir env) fs0 fs1 output /\
    main SnapshotImport env2 fs2 = (Ok tt, fs3) /\
    mirrored fs1 fs3 (be_out_dir env) (be_out_dir env2) (journey_names output).
Proof.
  rewrite !Forall_cons in Hpaths; destruct Hpaths as (Ho & Hb & Ho2 & Hb2 & _).
  apply main_created in Hbuilt as (fs0 & Hrun & _ & Hfs0); [|done..].
  destruct (exported_ok env bundle fs0 fs1 i tt) as (output & m & Hc & Hcr & Hbo & Hm);
    try assumption; [intros output; apply Hseparate|].
  pose proof (created_names output Hdebug) as Hn.
  assert (utf8_lossy (str_bytes (created_table output)) = created_table output) as Hl by apply Hutf8.
  assert (bundle_of bundle2 fs2 i (sn_bytes output) (str_bytes (created_table output)) m) as Hbo2
    by (apply (bundle_copied bundle bundle2 fs1); rewrite ?Hl; done).
  assert (mirrored fs1 fs2 (be_out_dir env) bundle2 (table_sources (created_table output))) as Hm2.
  { unfold mirrored in *; rewrite Forall_forall in *; intros n Hin; destruct (Hm n Hin) as (b & H1 & H2); exists b; split; [done|].
    destruct (Hn n Hin) as (s & ->); rewrite (copied_read bundle bundle2 _ fs1); [done..|apply residual_name_valid|].
    by rewrite segments_residual_name. }
  destruct (main_import env2 bundle2 fs2 i Hprebuilt Hsame) as [Hmain Ht]; specialize (Hdeclared _ (bo_manifest _ _ _ _ _ _ Hbo2)).
  rewrite <- Ht in Hdeclared; pose proof (check_bundle_of _ _ _ _ _ _ _ Hutf8 Hbo2 Hdeclared) as Hcheck.
  destruct (install_bundle_ok bundle2 (be_out_dir env2) fs2 _ i _ _ m Hdirs Hwrites Hb2 Ho2 Hapart2 Hcheck Hbo2) as (fs3 & Hi & Hm3);
    [by rewrite Hl|rewrite Hl; eapply Forall_impl; [exact Hm2|]; intros n (b & _ & H); by exists b|].
  exists fs0, output, fs3; split_and!; [|done|done|by rewrite Hmain|].
  { intros q Hq Hs; apply Hfs0; [done|]; rewrite Hexport; by intros ? [= <-]. }
  rewrite Hl in Hm3; unfold mirrored in Hm3; rewrite !Forall_cons in Hm3.
  destruct Hm3 as ((b1 & S1 & S2) & (b2 & T1 & T2) & Hm3); destruct Hbo2 as [B1 B2 _ _ _ _], Hcr as [C1 C2 C3].
  constructor; [exists (sn_bytes output); split; [done|congruence]|].
  constructor; [eexists; split; [exact C2|congruence]|].
  rewrite <- created_table_sources by done; by eapply mirrored_trans.
Qed.
End Create.

(** ** A journey in the small *)

(** A runtime whose snapshot holds one of three lazy sources, and two builds. *)
Definition text_chars (s : string) : list (option Ascii.ascii) := map Some (String.list_ascii_of_string s).
Definition lined_debug (s : string) : string := String quote (replace_char newline colon s +:+ String quote "").
Definition small_output : snapshot_output :=
  SnapshotOutput [9; 8; 7] ["node:fs"]
    [LazyFile "node:fs" "/s/fs.ts" LazyEsm; LazyFile "node:net" "/s/net.ts" LazyEsm; LazyFile "ext:x/1" "/s/x.js" LazyJs].
Definition small_env : build_env :=
  BuildEnv "/o" "/k" "0.3.6" "t" "t" "x" "x" None (Some "/b") None false "/o/build".
Definition small_env2 : build_env :=
  BuildEnv "/p/q" "/k" "0.3.6" "u" "t" "y" "x" (Some "/c") None (Some "/decl") false "/p/build".
Definition small_ledger : string :=
  concat_text (map (fun kv => kv.1 +:+ " = " +:+ String quote (kv.2 +:+ String quote (String newline "")))
    [("deno-core-version", "0.412"); ("deno-runtime-version", "0.267"); ("v8-version", "14.2"); ("typescript-version", "6.0.3")]).
Definition small_files : files := fun q =>
  if decide (q = components "/k/Cargo.toml") then Ok (text_bytes small_ledger)
  else if decide (q = components "/s/net.ts") then Ok (text_bytes "net")
  else if decide (q = components "/s/x.js") then Ok (text_bytes "x")
  else if decide (q = components "/b/libdeno-snapshot.sources") then Ok []
  else Err (IoError NotFound "").

Definition small_main (f : feature) (env : build_env) : script unit :=
  main lined_debug (fun _ => Ok tt) (fun _ => Ok tt) (fun l => Some (bytes_utf8 l)) bytes_utf8 Some text_chars
    (Some [ExtensionSources [Some "/s/x.js"; None] [] [] []]) (fun _ _ _ _ => Ok small_output) (fun _ s => Ok ("t:" +:+ s))
    (fun s => "w:" +:+ s) "14.2" (fun _ => Ok tt) f env.
Definition small_built : files := (small_main Snapshot small_env small_files).2.
Definition small_declaration : string :=
  concat_text [field_line "format" "libdeno-snapshot-compat-1"; field_line "mode" "assumed"; field_line "target" "t";
    field_line "bundle" "/c"; field_line "source-hash" (concat_text (replicate 64 "0"));
    field_line "manifest-hash"
      match read small_built "/b/libdeno-snapshot.manifest" with Ok bytes => fingerprint bytes | Err _ => "" end].
Definition small_arrived : files := fun q =>
  match strip_components (components "/c") q with
  | Some rest => small_built (components "/b" ++ rest)
  | None => if decide (q = components "/decl") then Ok (text_bytes small_declaration) else small_files q
  end.

Lemma small_decodes : decodes_texts (fun l => Some (bytes_utf8 l)) bytes_utf8.
Proof.
  assert (forall s, bytes_utf8 (str_bytes s) = s) as H; [|intros s; by rewrite H].
  induction s as [|c s IH]; [done|]; unfold bytes_utf8, str_bytes in *; simpl; f_equal; [|exact IH].
  by rewrite Nat2Z.id, Ascii.ascii_nat_embedding.
Qed.
Lemma lined_debug_escapes : debug_escapes lined_debug.
Proof.
  unfold lined_debug; split; intros s.
  - cbn [has]; rewrite has_app; assert (has newline (replace_char newline colon s) = false) as ->; [|done].
    induction s as [|c s IH]; [done|]; cbn [replace_char has]; rewrite IH; by destruct (Ascii.eqb c newline) eqn:E; rewrite ?E.
  - intros Hs; rewrite replace_char_id; [done|]; by apply plain_text_has_not.
Qed.

Lemma snapshot_travels_witness :
  small_main Snapshot small_env small_files = (Ok tt, small_built) /\
  exists fs3, small_main SnapshotImport small_env2 small_arrived = (Ok tt, fs3) /\
    read fs3 "/p/q/residual_sources/ext_x_1.js" = read small_built "/o/residual_sources/ext_x_1.js".
Proof.
  assert (small_main Snapshot small_env small_files = (Ok tt, small_built)) as Hbuilt.
  { unfold small_built; rewrite (surjective_pairing (small_main _ _ _)) at 1; f_equal; vm_compute; reflexivity. }
  split; [exact Hbuilt|].
  destruct (snapshot_travels lined_debug (fun _ => Ok tt) (fun _ => Ok tt) (fun l => Some (bytes_utf8 l)) bytes_utf8 Some text_chars
    (Some [ExtensionSources [Some "/s/x.js"; None] [] [] []]) (fun _ _ _ _ => Ok small_output) (fun _ s => Ok ("t:" +:+ s))
    (fun s => "w:" +:+ s) "14.2" (fun _ => Ok tt) small_env small_env2 "/b" "/c" small_files small_built small_arrived
    (Identity "0.3.6" "t" "14.2" "6.0.3" "0.412" "0.267")) as (fs0 & output & fs3 & _ & Hc & _ & Hm & Hsame).
  - done.
  - done.
  - exact small_decodes.
  - exact lined_debug_escapes.
  - done.
  - done.
  - done.
  - repeat constructor; discriminate.
  - split; apply (bool_decide_unpack _); vm_compute; exact I.
  - split; apply (bool_decide_unpack _); vm_compute; exact I.
  - intros _ output [= <-]; split; apply (bool_decide_unpack _); vm_compute; exact I.
  - exact Hbuilt.
  - intros table H; unfold sizes_fit.
    assert (table_sources table = ["residual_sources/ext_x_1.js"; "residual_sources/node_net.js"]) as ->
      by (vm_compute in H; injection H as <-; vm_compute; reflexivity).
    repeat (constructor; [intros bytes E; vm_compute in E; injection E as <-; vm_compute; split; discriminate|]); constructor.
  - vm_compute; reflexivity.
  - repeat split; vm_compute; reflexivity.
  - intros rest _; unfold small_arrived.
    by assert (strip_components (components "/c") (components "/c" ++ rest) = Some rest) as -> by (by apply strip_components_spec).
  - vm_compute; reflexivity.
  - intros bytes H; vm_compute in H; injection H as <-; vm_compute; reflexivity.
  - exists fs3; split; [exact Hm|]; injection Hc as <-.
    unfold mirrored in Hsame; rewrite Forall_forall in Hsame.
    destruct (Hsame "residual_sources/ext_x_1.js") as (b & H1 & H2).
    + apply (bool_decide_unpack _); vm_compute; exact I.
    + exact (eq_trans H2 (eq_sym H1)).
Defined.
