(* ===== verification/Python.v ===== *)
(** * Python: the extension module of the Python package (python/src/).

    The conversion and validation of arguments, the checks made before a run, the
    exceptions errors become, and the four functions and the [Runtime] methods
    composed of them.  A Python object is opaque: what PyO3 and the interpreter
    answer about it are functions. *)
From S2P Require Import Prelude Errors Text Options Paths Entry ChildMode.
Open Scope Z_scope.

(** The exceptions of the module, with their message. *)
Inductive py_error :=
| EntryError (m : string) | DenoPermissionError (m : string) | ConfigurationError (m : string)
| DenoRuntimeError (m : string) | DenoIOError (m : string) | DenoTimeoutError (m : string).

Record py_run_output := PyRunOutput {
  po_exit_code : Z; po_stdout : list Z; po_stderr : list Z; po_capture_truncated : bool
}.
Definition run_output_from (o : run_output) : py_run_output :=
  PyRunOutput (ro_exit_code o) (ro_stdout o) (ro_stderr o) (ro_capture_truncated o).
Definition repr (o : py_run_output) : string :=
  "RunOutput(exit_code=" +:+ pretty (po_exit_code o) +:+ ", stdout=" +:+ pretty (Z.of_nat (length (po_stdout o))) +:+
  " bytes, stderr=" +:+ pretty (Z.of_nat (length (po_stderr o))) +:+ " bytes, capture_truncated=" +:+
  (if po_capture_truncated o then "True" else "False") +:+ ")".

(** Mirrors the constant of limits.rs. *)
Definition MIN_V8_OLD_GENERATION_BYTES : Z := Z.shiftl 8 20.

Section Python.
Context (object f64 : Type).

(** ** What PyO3 answers *)
Record interpreter := Interpreter {
  is_bool : object -> bool;                          (** [is_instance_of::<PyBool>] *)
  is_list_or_tuple : object -> bool;
  extract_usize : object -> result Z string;         (** [extract::<usize>], refusing what is out of range *)
  extract_f64 : object -> result f64 string;
  extract_strings : object -> result (list string) string;
  extract_lang : object -> option source_lang;       (** a [SourceLang] member *)
  cast_str : object -> option (result string string); (** a [str], and its UTF-8 text *)
  cast_bytes : object -> option (list Z);
  cast_bytearray : object -> option (list Z);
  fspath : object -> result object string;           (** [os.fspath], then [os.fsencode] *)
  fsencode : object -> result object string;
  extract_path : object -> result path string        (** the encoded bytes as a path *)
}.
Context (py : interpreter).
(** IEEE doubles: [is_finite], [>= 0.0], and [Duration::try_from_secs_f64]. *)
Context (is_finite non_negative : f64 -> bool) (try_from_secs_f64 : f64 -> option Z).
(** The display of an error, the host, and the time. *)
Context (dyn_display : dyn_error -> string) (h : host) (now : Z).

(** ** options.rs *)
Definition optional {A} (f : object -> result A py_error) (value : option object) : result (option A) py_error :=
  match value with None => Ok None | Some v => let? x := f v in Ok (Some x) end.

Definition optional_usize (value : option object) (name : string) : result (option Z) py_error :=
  optional (fun v =>
    if is_bool py v then Err (ConfigurationError (name +:+ " must be an integer"))
    else map_err (fun e => ConfigurationError
           (name +:+ " must be a non-negative integer within the platform usize range: " +:+ e)) (extract_usize py v)) value.

Definition optional_deadline (value : option object) : result (option Z) py_error :=
  optional (fun v =>
    let? seconds := map_err (fun e => ConfigurationError ("execution_deadline must be a number: " +:+ e)) (extract_f64 py v) in
    if is_finite seconds && non_negative seconds then
      match try_from_secs_f64 seconds with
      | Some d => Ok d
      | None => Err (ConfigurationError "execution_deadline is outside the supported duration range")
      end
    else Err (ConfigurationError "execution_deadline must be finite and non-negative")) value.

Definition string_sequence (value : object) (name : string) : result (list string) py_error :=
  if is_list_or_tuple py value
  then map_err (fun e => ConfigurationError (name +:+ " must be a list or tuple of strings: " +:+ e)) (extract_strings py value)
  else Err (ConfigurationError (name +:+ " must be a list or tuple of strings")).

Definition path_from_python (value : object) (name : string) : result path py_error :=
  let err e := ConfigurationError (name +:+ " must be str or os.PathLike: " +:+ e) in
  let? p := map_err err (fspath py value) in
  let? encoded := map_err err (fsencode py p) in
  map_err err (extract_path py encoded).

(** The keyword arguments of a call. *)
Record arguments := Arguments_ {
  a_permissions : object; a_allow_all_permissions : bool; a_args : object; a_cwd : option object;
  a_max_heap_bytes : option object; a_execution_deadline : option object; a_features : option object;
  a_capture_stdout : bool; a_capture_stderr : bool; a_max_capture_bytes : option object
}.

Definition options_from_python (a : arguments) (cwd : option object) : result libdeno_options py_error :=
  let? permissions := string_sequence (a_permissions a) "permissions" in
  let? args := string_sequence (a_args a) "args" in
  let? cwd := optional (fun v => path_from_python v "cwd") cwd in
  let? max_heap_bytes := optional_usize (a_max_heap_bytes a) "max_heap_bytes" in
  let? execution_deadline := optional_deadline (a_execution_deadline a) in
  let? features := optional (fun v => string_sequence v "features") (a_features a) in
  let d := options_default in
  Ok (LibdenoOptions permissions (a_allow_all_permissions a) (o_prompt d) args cwd max_heap_bytes execution_deadline
        (o_capture_stdout d) (o_capture_stderr d) (o_max_capture_bytes d) features (o_extensions d)).

Definition validate_options (o : libdeno_options) : result unit py_error :=
  let? _ := match o_max_heap_bytes o with
            | Some bytes =>
                if decide (bytes < MIN_V8_OLD_GENERATION_BYTES)
                then Err (ConfigurationError ("max_heap_bytes=" +:+ pretty bytes +:+ " is too small; use at least " +:+
                  pretty MIN_V8_OLD_GENERATION_BYTES +:+ " bytes for a V8 old-generation limit"))
                else if decide (bytes = usize_max)
                then Err (ConfigurationError "max_heap_bytes=usize::MAX cannot be represented as a finite V8 heap budget")
                else Ok tt
            | None => Ok tt
            end in
  if is_some_and (o_execution_deadline o) (fun d => bool_decide (checked_add now d = None))
  then Err (ConfigurationError "execution deadline is too large for the host clock") else Ok tt.

Definition apply_capture (a : arguments) (o : libdeno_options) : result libdeno_options py_error :=
  let? max_capture_bytes := optional_usize (a_max_capture_bytes a) "max_capture_bytes" in
  Ok (LibdenoOptions (o_permissions o) (o_allow_all_permissions o) (o_prompt o) (o_args o) (o_cwd o) (o_max_heap_bytes o)
        (o_execution_deadline o) (a_capture_stdout a) (a_capture_stderr a) max_capture_bytes (o_features o) (o_extensions o)).

Definition entry_base (o : libdeno_options) : result path string :=
  let current_dir := map_err (fun e => "failed to get current directory: " +:+ io_message e) (h_current_dir h) in
  match o_cwd o with
  | Some cwd => if is_absolute cwd then Ok cwd else let? current := current_dir in Ok (join current cwd)
  | None => current_dir
  end.

(** ** source.rs *)
Definition ascii_lower (c : Ascii.ascii) : Ascii.ascii :=
  let n := Ascii.nat_of_ascii c in if ((65 <=? n)%nat && (n <=? 90)%nat) then Ascii.ascii_of_nat (n + 32) else c.
Fixpoint to_ascii_lowercase (s : string) : string :=
  match s with EmptyString => EmptyString | String c s => String (ascii_lower c) (to_ascii_lowercase s) end.

Definition invalid_lang : py_error :=
  ConfigurationError "lang must be SourceLang.JavaScript, SourceLang.TypeScript, 'javascript', or 'typescript'".

Definition source_lang_from_python (value : option object) : result source_lang py_error :=
  match value with
  | None => Ok JavaScript
  | Some v =>
      match extract_lang py v with
      | Some lang => Ok lang
      | None =>
          match cast_str py v with
          | Some text =>
              let? text := map_err (fun e => ConfigurationError ("lang must be valid UTF-8 text: " +:+ e)) text in
              if decide (to_ascii_lowercase text = "javascript") then Ok JavaScript
              else if decide (to_ascii_lowercase text = "typescript") then Ok TypeScript
              else Err invalid_lang
          | None => Err invalid_lang
          end
      end
  end.

Definition source_bytes (v : object) : result (list Z) py_error :=
  match cast_str py v with
  | Some text =>
      let? text := map_err (fun e => ConfigurationError ("code must be valid UTF-8 text: " +:+ e)) text in
      Ok (map (fun c => Z.of_nat (Ascii.nat_of_ascii c)) (String.list_ascii_of_string text))
  | None =>
      match cast_bytes py v with
      | Some bytes => Ok bytes
      | None => match cast_bytearray py v with
                | Some bytes => Ok bytes
                | None => Err (ConfigurationError "code must be str, bytes, or bytearray")
                end
      end
  end.

(** ** lib.rs *)
Definition base_dir_from_python (value : option object) : result path py_error :=
  match value with Some v => path_from_python v "base_dir" | None => Ok "." end.

Definition check_entry_exists (entry cwd : path) : result unit string :=
  let resolved := if is_absolute entry then entry else join cwd entry in
  if h_exists h resolved then Ok tt else Err ("failed to resolve entry module: " +:+ resolved +:+ " does not exist").

Definition check_entry_detached (entry cwd : path) : result unit py_error :=
  map_err EntryError (check_entry_exists entry cwd).

Definition core_error_to_py (e : libdeno_error) : py_error :=
  let message := display dyn_display e in
  match e with
  | Entry _ => EntryError message
  | Permission _ => DenoPermissionError message
  | Configuration _ => ConfigurationError message
  | Runtime _ | Core _ => if is_permission_error e then DenoPermissionError message else DenoRuntimeError message
  | Io _ => DenoIOError message
  | Timeout _ => DenoTimeoutError message
  end.

(** The library's entry points, with or without a reusable stack. *)
Record core := CoreRun {
  c_run : path -> libdeno_options -> result Z libdeno_error;
  c_run_with_output : path -> libdeno_options -> result run_output libdeno_error;
  c_run_source : list Z -> source_lang -> path -> libdeno_options -> result Z libdeno_error;
  c_run_source_with_output : list Z -> source_lang -> path -> libdeno_options -> result run_output libdeno_error
}.

Definition run (c : core) (entry : object) (a : arguments) : result Z py_error :=
  let? entry := path_from_python entry "entry" in
  let? options := options_from_python a (a_cwd a) in
  let? _ := validate_options options in
  let? base := map_err DenoIOError (entry_base options) in
  let? _ := check_entry_detached entry base in
  map_err core_error_to_py (c_run c entry options).

Definition run_with_output (c : core) (entry : object) (a : arguments) : result py_run_output py_error :=
  let? entry := path_from_python entry "entry" in
  let? options := options_from_python a (a_cwd a) in
  let? _ := validate_options options in
  let? options := apply_capture a options in
  let? base := map_err DenoIOError (entry_base options) in
  let? _ := check_entry_detached entry base in
  let? output := map_err core_error_to_py (c_run_with_output c entry options) in Ok (run_output_from output).

Definition run_source (c : core) (code : object) (lang base_dir : option object) (a : arguments) : result Z py_error :=
  let? code := source_bytes code in
  let? lang := source_lang_from_python lang in
  let? base_dir := base_dir_from_python base_dir in
  let? options := options_from_python a None in
  map_err core_error_to_py (c_run_source c code lang base_dir options).

Definition run_source_with_output (c : core) (code : object) (lang base_dir : option object) (a : arguments)
  : result py_run_output py_error :=
  let? code := source_bytes code in
  let? lang := source_lang_from_python lang in
  let? base_dir := base_dir_from_python base_dir in
  let? options := options_from_python a None in
  let? options := apply_capture a options in
  let? output := map_err core_error_to_py (c_run_source_with_output c code lang base_dir options) in
  Ok (run_output_from output).

(** ** runtime.rs: a [Runtime] is its core and its directory. *)
Record runtime := PyRuntime { rt_inner : core; rt_cwd : path }.

(** [create] is the Tokio runtime and [LibdenoRuntime::new] in it. *)
Definition python_runtime_new (create : path -> result core string) (cwd : option object) : result runtime py_error :=
  let? cwd := match cwd with
              | Some v => path_from_python v "cwd"
              | None => map_err (fun e => DenoIOError ("failed to get current directory: " +:+ io_message e)) (h_current_dir h)
              end in
  let cwd := match h_canonicalize h cwd with Ok c => c | Err _ => cwd end in
  let? inner := map_err DenoRuntimeError (create cwd) in
  Ok (PyRuntime inner cwd).

Definition runtime_options (a : arguments) : result libdeno_options py_error := options_from_python a None.

Definition runtime_run (r : runtime) (entry : object) (a : arguments) : result Z py_error :=
  let? entry := path_from_python entry "entry" in
  let? options := runtime_options a in
  let? _ := validate_options options in
  let? _ := check_entry_detached entry (rt_cwd r) in
  map_err core_error_to_py (c_run (rt_inner r) entry options).

Definition runtime_run_with_output (r : runtime) (entry : object) (a : arguments) : result py_run_output py_error :=
  let? entry := path_from_python entry "entry" in
  let? options := runtime_options a in
  let? _ := validate_options options in
  let? options := apply_capture a options in
  let? _ := check_entry_detached entry (rt_cwd r) in
  let? output := map_err core_error_to_py (c_run_with_output (rt_inner r) entry options) in Ok (run_output_from output).

Definition runtime_run_source (r : runtime) (code : object) (lang base_dir : option object) (a : arguments) : result Z py_error :=
  let? code := source_bytes code in
  let? lang := source_lang_from_python lang in
  let? base_dir := base_dir_from_python base_dir in
  let? options := runtime_options a in
  map_err core_error_to_py (c_run_source (rt_inner r) code lang base_dir options).

Definition runtime_run_source_with_output (r : runtime) (code : object) (lang base_dir : option object) (a : arguments)
  : result py_run_output py_error :=
  let? code := source_bytes code in
  let? lang := source_lang_from_python lang in
  let? base_dir := base_dir_from_python base_dir in
  let? options := runtime_options a in
  let? options := apply_capture a options in
  let? output := map_err core_error_to_py (c_run_source_with_output (rt_inner r) code lang base_dir options) in
  Ok (run_output_from output).

(** ** The checks mirror the library's *)

(** What the library's validators of these two options say, in its order. *)
Definition core_limits (o : libdeno_options) : result unit libdeno_error :=
  let? _ := validate_max_heap_bytes (o_max_heap_bytes o) in validate_execution_deadline now (o_execution_deadline o).

Lemma validate_options_core (o : libdeno_options) : validate_options o = map_err core_error_to_py (core_limits o).
Proof.
  unfold validate_options, core_limits, validate_max_heap_bytes, validate_execution_deadline.
  change Options.MIN_V8_OLD_GENERATION_BYTES with MIN_V8_OLD_GENERATION_BYTES.
  assert (is_some_and (o_execution_deadline o) (fun d => bool_decide (checked_add now d = None)) =
    is_some_and (o_execution_deadline o) (fun d => match checked_add now d with None => true | Some _ => false end)) as ->
    by (destruct (o_execution_deadline o) as [d|]; [|done]; simpl; by destruct (checked_add now d)).
  destruct (o_max_heap_bytes o) as [b|]; repeat case_decide; try done; by destruct (is_some_and _ _).
Qed.

(** The two copies of the checks stay in step.  The extension accepts a heap
    limit and a deadline exactly when the library does, and what it raises is what
    the library's own error would have become, text and class; and the directory it
    looks for the entry in is the one the run will use: where the library finds a
    working directory, the extension's is the same one before symbolic links are
    resolved, and without one neither has any. *)
Theorem checks_in_step (o : libdeno_options) :
  validate_options o =
    map_err core_error_to_py
      (let? _ := validate_max_heap_bytes (o_max_heap_bytes o) in validate_execution_deadline now (o_execution_deadline o)) /\
  match effective_cwd h o with
  | Ok cwd => exists base, entry_base o = Ok base /\
      (h_canonicalize h base = Ok cwd \/ (o_cwd o = None /\ cwd = base /\ is_ok (h_canonicalize h base) = false))
  | Err _ => forall base, entry_base o = Ok base ->
      match h_canonicalize h base with Ok c => h_is_dir h c = false | Err _ => o_cwd o <> None end
  end.
Proof.
  split; [apply validate_options_core|].
  unfold effective_cwd, entry_base; destruct (o_cwd o) as [cwd|].
  - destruct (is_absolute cwd).
    + destruct (h_canonicalize h cwd) as [c|] eqn:E; [destruct (h_is_dir h c) eqn:D|].
      * exists cwd; split; [done|by left].
      * intros base [= <-]; by rewrite E.
      * intros base [= <-]; by rewrite E.
    + destruct (h_current_dir h) as [d|]; simpl; [|done].
      destruct (h_canonicalize h (join d cwd)) as [c|] eqn:E; [destruct (h_is_dir h c) eqn:D|].
      * exists (join d cwd); split; [done|by left].
      * intros base [= <-]; by rewrite E.
      * intros base [= <-]; by rewrite E.
  - destruct (h_current_dir h) as [d|]; simpl; [|done]; exists d; split; [done|].
    destruct (h_canonicalize h d); [by left|right; done].
Qed.

(** Class of an exception. *)
Definition is_permission_exception (e : py_error) : Prop := match e with DenoPermissionError _ => True | _ => False end.
Definition is_permission_class (e : libdeno_error) : Prop :=
  match e with Permission _ => True | _ => is_permission_error e = true end.

Lemma core_error_class (e : libdeno_error) : is_permission_exception (core_error_to_py e) <-> is_permission_class e.
Proof.
  unfold is_permission_class, core_error_to_py.
  destruct e; cbn [is_permission_error is_permission_exception]; try done; destruct (existsb _ _) || destruct (error_chain_has_permission_source _); done.
Qed.

(** Converting arguments raises nothing but [ConfigurationError]. *)
Definition configuration {A} (r : result A py_error) : Prop :=
  match r with Err (ConfigurationError _) | Ok _ => True | Err _ => False end.

Lemma configuration_bind {A B} (r : result A py_error) (k : A -> result B py_error) :
  configuration r -> (forall x, r = Ok x -> configuration (k x)) -> configuration (let? x := r in k x).
Proof. destruct r; [by eauto|done]. Qed.
Lemma configuration_map {A E} (r : result A E) (f : E -> string) : configuration (map_err (fun e => ConfigurationError (f e)) r).
Proof. by destruct r. Qed.
Lemma configuration_optional {A} (f : object -> result A py_error) (v : option object) :
  (forall x, configuration (f x)) -> configuration (optional f v).
Proof. intros H; destruct v as [x|]; simpl; [|done]; by apply configuration_bind. Qed.

Lemma path_configuration (v : object) (name : string) : configuration (path_from_python v name).
Proof. unfold path_from_python; repeat (apply configuration_bind; [apply configuration_map|intros ? _]); apply configuration_map. Qed.
Lemma strings_configuration (v : object) (name : string) : configuration (string_sequence v name).
Proof. unfold string_sequence; destruct (is_list_or_tuple py v); [apply configuration_map|done]. Qed.
Lemma usize_configuration (v : option object) (name : string) : configuration (optional_usize v name).
Proof. apply configuration_optional; intros x; destruct (is_bool py x); [done|apply configuration_map]. Qed.
Lemma options_configuration (a : arguments) (cwd : option object) : configuration (options_from_python a cwd).
Proof.
  unfold options_from_python; apply configuration_bind; [apply strings_configuration|intros ? _].
  apply configuration_bind; [apply strings_configuration|intros ? _].
  apply configuration_bind; [apply configuration_optional; intros; apply path_configuration|intros ? _].
  apply configuration_bind; [apply usize_configuration|intros ? _].
  apply configuration_bind; [|intros ? _; apply configuration_bind; [apply configuration_optional; intros; apply strings_configuration|done]].
  apply configuration_optional; intros v; apply configuration_bind; [apply configuration_map|intros y _].
  destruct (is_finite y && non_negative y); [by destruct (try_from_secs_f64 y)|done].
Qed.

(** What [run] answers once its arguments have been converted. *)
Definition run_answer (c : core) (entry : path) (o : libdeno_options) : result Z py_error :=
  match core_limits o, entry_base o with
  | Err e, _ => Err (core_error_to_py e)
  | Ok _, Err m => Err (DenoIOError m)
  | Ok _, Ok base =>
      let resolved := if is_absolute entry then entry else join base entry in
      if h_exists h resolved then map_err core_error_to_py (c_run c entry o)
      else Err (EntryError ("failed to resolve entry module: " +:+ resolved +:+ " does not exist"))
  end.

(** What a call of [run] from Python comes to, on every path.  Arguments that
    do not convert raise [ConfigurationError] and nothing runs; an invalid limit is
    told before a missing entry, and a missing entry before anything runs; what
    runs is the entry and the options as given; and [DenoPermissionError] is raised
    exactly for the errors the library classifies as permission errors. *)
Theorem run_call_spec (c : core) (entry : object) (a : arguments) :
  match path_from_python entry "entry", options_from_python a (a_cwd a) with
  | Ok p, Ok o =>
      run c entry a = run_answer c p o /\
      (forall e, run c entry a = Err e -> is_permission_exception e ->
         exists e', c_run c p o = Err e' /\ e = core_error_to_py e' /\ is_permission_class e') /\
      (forall e', c_run c p o = Err e' -> is_permission_class e' -> core_limits o = Ok tt ->
         (exists base, entry_base o = Ok base /\ h_exists h (if is_absolute p then p else join base p) = true) ->
         exists e, run c entry a = Err e /\ is_permission_exception e)
  | _, _ => exists m, run c entry a = Err (ConfigurationError m)
  end.
Proof.
  unfold run; pose proof (path_configuration entry "entry") as Hp; pose proof (options_configuration a (a_cwd a)) as Ho.
  destruct (path_from_python entry "entry") as [p|[]]; simpl in Hp; try done; [|by eexists].
  destruct (options_from_python a (a_cwd a)) as [o|[]]; simpl in Ho; try done; [|by eexists].
  assert (forall r, r = run_answer c p o -> (r = run_answer c p o /\
    (forall e, r = Err e -> is_permission_exception e ->
       exists e', c_run c p o = Err e' /\ e = core_error_to_py e' /\ is_permission_class e') /\
    (forall e', c_run c p o = Err e' -> is_permission_class e' -> core_limits o = Ok tt ->
       (exists base, entry_base o = Ok base /\ h_exists h (if is_absolute p then p else join base p) = true) ->
       exists e, r = Err e /\ is_permission_exception e))) as Hr.
  { intros r ->; split; [done|]; unfold run_answer; split.
    - intros e; destruct (core_limits o) as [|e1] eqn:El.
      2:{ intros [= <-] Hx; apply core_error_class in Hx; exfalso; revert El Hx; unfold core_limits.
          unfold validate_max_heap_bytes, validate_execution_deadline.
          destruct (o_max_heap_bytes o); repeat case_decide; try (by intros [= <-]);
            destruct (is_some_and _ _); by intros [= <-]. }
      destruct (entry_base o); [|by intros [= <-]]; destruct (h_exists _ _); [|by intros [= <-]].
      destruct (c_run c p o) as [|e2]; [done|]; intros [= <-] Hx; exists e2; split_and!; [done..|by apply core_error_class].
    - intros e' Hc Hx -> (base & -> & ->); rewrite Hc; eexists; split; [done|by apply core_error_class]. }
  apply Hr; rewrite validate_options_core; unfold run_answer, check_entry_detached, check_entry_exists.
  destruct (core_limits o) as [[]|]; [|done]; destruct (entry_base o) as [base|]; [|done]; simpl; by destruct (h_exists h _).
Qed.
End Python.
