(* ===== verification/Guards.v ===== *)
(** * Guards: replaced runtime operations (src/runtime_guards.rs,
    src/runtime_guards/require.rs).

    Which of Deno's operations a worker runs under their own implementation and
    which under a guard ([extensions], [replace_op]), what the guards decide, and
    when they call the original.  V8 values and the original operations are the
    libraries' own; an object's getters may run user code, so every read of a
    property is an event with its own answer. *)
From S2P Require Import Prelude Errors Options Entry NodeLoader.

(** [JsErrorBox]: class and message. *)
Record js_error := JsError { je_class : string; je_message : string }.
Definition feature_error (message : string) : js_error := JsError "Error" message.

(** ** The table of operations *)
Record op_decl := OpDecl { op_name : string; op_impl : string }.

(** The name stays, the implementation is the guard's. *)
Definition replace_op (original guard : op_decl) : op_decl := OpDecl (op_name original) (op_impl guard).

Definition require_ops : list op_decl :=
  map (fun n => OpDecl n n)
    ["op_libdeno_install_require_delegates"; "op_require_stat_guard"; "op_require_real_path_guard";
     "op_require_package_imports_guard"; "op_require_package_scope_guard"].

Definition guard_name (op : string) : string :=
  if decide (op = "op_require_stat") then "op_require_stat_guard"
  else if decide (op = "op_require_real_path") then "op_require_real_path_guard"
  else if decide (op = "op_require_package_imports_resolve") then "op_require_package_imports_guard"
  else if decide (op = "op_require_read_package_scope") then "op_require_package_scope_guard"
  else EmptyString.

Definition thread_ops : list op_decl :=
  map (fun n => OpDecl n ("thread_messaging::" +:+ n))
    ["op_node_worker_thread_register"; "op_node_worker_thread_set_listener_count";
     "op_node_worker_thread_post_message"; "op_node_worker_thread_recv_message"].

Definition guarded_require (name : string) : bool :=
  bool_decide (name ∈ ["op_require_stat"; "op_require_real_path";
                       "op_require_package_imports_resolve"; "op_require_read_package_scope"]).

(** The feature an operation is refused without, and the guard that refuses. *)
Definition feature_guards : list (string * (string * string)) :=
  [("op_net_listen_udp", ("net", "op_net_listen_udp_denied"));
   ("op_net_listen_unixpacket", ("net", "op_net_listen_unixpacket_denied"));
   ("op_net_connect_vsock", ("vsock", "op_net_connect_vsock_denied"));
   ("op_net_listen_vsock", ("vsock", "op_net_listen_vsock_denied"));
   ("op_kv_database_open", ("kv", "op_kv_database_open_denied"));
   ("op_cron_create", ("cron", "op_cron_create_denied"))].
Definition always_guarded : list (string * string) :=
  [("op_net_listen_tcp", "op_net_listen_tcp_guard"); ("op_net_listen_tls", "op_net_listen_tls_guard");
   ("op_fs_chdir", "op_fs_chdir_denied")].

Definition assoc {A} (name : string) (l : list (string * A)) : option A :=
  option_map (fun p => p.2.2) (list_find (fun d => d.1 = name) l).

Section Guards.
(** [FeatureChecker::check] *)
Context (check : string -> bool).

(** [extension.middleware_fn] *)
Definition middleware (op : op_decl) : op_decl :=
  match list_find (fun d => op_name d = op_name op) thread_ops with
  | Some (_, replacement) => replace_op op replacement
  | None =>
      match list_find (fun d => guarded_require (op_name op) = true /\ op_name d = guard_name (op_name op)) require_ops with
      | Some (_, guard) => replace_op op guard
      | None =>
          match assoc (op_name op) always_guarded with
          | Some guard => replace_op op (OpDecl guard guard)
          | None =>
              match assoc (op_name op) feature_guards with
              | Some (feature, guard) => if check feature then op else replace_op op (OpDecl guard guard)
              | None => op
              end
          end
      end
  end.

(** [denied_feature]: [checker] is absent when the state was never installed. *)
Definition denied_feature (checker : option (string -> bool)) (feature message : string) : js_error :=
  match checker with
  | Some check => if check feature then feature_error "runtime feature guard mismatch" else feature_error message
  | None => feature_error "runtime feature state is unavailable"
  end.

(** The bodies of the refusing guards, by the name of the guard. *)
Definition denied_messages : list (string * (string * string)) :=
  [("op_net_listen_udp_denied", ("net", "Deno.listenDatagram requires the net feature"));
   ("op_net_listen_unixpacket_denied", ("net", "Deno.listenDatagram requires the net feature"));
   ("op_net_listen_vsock_denied", ("vsock", "Deno.listen requires the vsock feature"));
   ("op_net_connect_vsock_denied", ("vsock", "Deno.connect requires the vsock feature"));
   ("op_kv_database_open_denied", ("kv", "Deno.openKv requires the kv feature"));
   ("op_cron_create_denied", ("cron", "Deno.cron requires the cron feature"))].

Definition op_fs_chdir_denied : js_error := JsError "NotSupported"
  "Deno.chdir() is not available: an in-process run shares the host process, and changing its working directory would redirect the host's relative paths and corrupt concurrent runs. Use run_in_subprocess when the script needs a different cwd.".

(** What a refusing guard returns; [None] when the implementation is not one. *)
Definition refusal (checker : option (string -> bool)) (impl : string) : option js_error :=
  if decide (impl = "op_fs_chdir_denied") then Some op_fs_chdir_denied
  else
    match list_find (fun d => d.1 = impl) denied_messages with
    | Some (_, (_, (feature, message))) => Some (denied_feature checker feature message)
    | None => None
    end.

(** ** The guards of the listening operations *)
Context (value exception : Type) (to_boolean : value -> bool).

(** A JavaScript object whose [n]th read of a property answers like this. *)
Definition js_object := string -> nat -> result value exception.

Record net_delegates := NetDelegates {
  nd_tcp : bool -> result value exception;         (** [reusePort], the rest fixed *)
  nd_tls : list (string * value) -> result value exception
}.

Definition delegate (checker : option (string -> bool)) (delegates : option net_delegates) (feature : string)
  : result (bool * net_delegates) js_error :=
  match checker, delegates with
  | None, _ => Err (feature_error "runtime feature state is unavailable")
  | Some _, None => Err (feature_error "runtime guard delegate state is unavailable")
  | Some check, Some d => Ok (check feature, d)
  end.

(** A guard's outcome: an error of its own, or what the original answered. *)
Definition outcome : Type := result (result value exception) js_error.

Definition reuse_port_denied : js_error := JsError "Error" "reusePort requires the net feature".

Definition op_net_listen_tcp_guard (checker : option (string -> bool)) (delegates : option net_delegates)
    (reuse_port : bool) : outcome :=
  let? d := delegate checker delegates "net" in
  let '(net_enabled, d) := d in
  if reuse_port && negb net_enabled then Err reuse_port_denied else Ok (nd_tcp d reuse_port).

Definition tls_names : list string := ["alpnProtocols"; "reusePort"; "loadBalanced"; "tcpBacklog"].

(** Every property is read once; [reads] counts the reads made before, by the
    guard or by anything else that holds the object. *)
Fixpoint read_properties (object : js_object) (reads : string -> nat) (names : list string)
  : result (list (string * value)) exception :=
  match names with
  | [] => Ok []
  | name :: names =>
      let? v := object name (reads name) in
      let? rest := read_properties object reads names in
      Ok ((name, v) :: rest)
  end.

Definition normalize_tls_args (object : js_object) (reads : string -> nat)
  : result (bool * list (string * value)) exception :=
  let? values := read_properties object reads tls_names in
  Ok (match assoc "reusePort" values with Some v => to_boolean v | None => false end, values).

Definition op_net_listen_tls_guard (checker : option (string -> bool)) (delegates : option net_delegates)
    (object : js_object) (reads : string -> nat) : outcome :=
  let? d := delegate checker delegates "net" in
  let '(net_enabled, d) := d in
  match normalize_tls_args object reads with
  | Err thrown => Ok (Err thrown)
  | Ok (reuse_port, args) =>
      if reuse_port && negb net_enabled then Err reuse_port_denied else Ok (nd_tls d args)
  end.

(** ** The guards of [require] *)
Context (h : host) (broker : bool).
Context (file_name : path -> option string) (utf8 : path -> bool).
Context (load_package_json : path -> option value) (null : value).

(** The originals, given the path they are called with. *)
Record delegates := Delegates {
  dg_stat : path -> result value exception;
  dg_real_path : path -> result value exception;
  dg_package_imports : path -> string -> result value exception
}.

Definition unavailable (m : string) : js_error := JsError "Error" m.

(** [JsErrorBox::from_err] of a refused check. *)
Context (from_err : string -> js_error).

Definition checked_path (permissions : option container) (p : path) : result path js_error :=
  match permissions with
  | None => Err (unavailable "permissions are unavailable")
  | Some permissions => map_err from_err (pm_check_open permissions (canonical h p))
  end.

Definition path_string (p : path) : result path js_error :=
  if utf8 p then Ok p else Err (unavailable "require path is not valid UTF-8").

(** [op_require_stat_guard], [op_require_real_path_guard] and
    [op_require_package_imports_guard] differ in the original they call. *)
Definition path_guard (select : delegates -> path -> result value exception)
    (state : option delegates) (permissions : option container) (p : path) : outcome :=
  match state with
  | None => Err (unavailable "require op delegates are unavailable")
  | Some d =>
      if negb broker then Ok (select d p)
      else
        let? checked := checked_path permissions p in
        let? p := path_string checked in
        Ok (select d p)
  end.

Definition op_require_stat_guard := path_guard dg_stat.
Definition op_require_real_path_guard := path_guard dg_real_path.
Definition op_require_package_imports_guard (state : option delegates) (permissions : option container)
    (referrer : path) (request : string) : outcome :=
  path_guard (fun d p => dg_package_imports d p request) state permissions referrer.

Definition op_require_package_scope_guard (state : option (path -> result value exception))
    (permissions : option container) (p : path) : outcome :=
  match state with
  | None => Err (unavailable "require op delegates are unavailable")
  | Some original =>
      if negb broker then Ok (original p)
      else if negb (bool_decide (file_name p = Some "package.json")) then Ok (Ok null)
      else
        let? p := path_string p in
        let? checked := checked_path permissions p in
        Ok (Ok (default null (load_package_json checked)))
  end.

(** ** Properties *)

(** Every guard that stands for a missing feature refuses. *)
Lemma feature_guards_refuse (checker : option (string -> bool)) (name feature guard : string) :
  (name, (feature, guard)) ∈ feature_guards ->
  exists message, refusal checker guard = Some (denied_feature checker feature message).
Proof.
  unfold feature_guards; intros H.
  repeat (apply elem_of_cons in H as [H|H]; [injection H as -> -> ->; eexists; reflexivity|]).
  by apply elem_of_nil in H.
Qed.

(** A worker reaches Deno's operations only through the guards.  Replacing
    keeps every operation's name.  Listening on TCP and TLS, changing the
    directory and the four file operations of [require] always run the guard; an
    operation that needs a feature runs its refusing guard exactly when the
    feature is off; the thread messaging operations run this library's
    implementation; and nothing else is replaced. *)
Theorem operations_guarded :
  (forall op, op_name (middleware op) = op_name op) /\
  (forall name guard impl, (name, guard) ∈ always_guarded -> middleware (OpDecl name impl) = OpDecl name guard) /\
  (forall name impl, guarded_require name = true -> middleware (OpDecl name impl) = OpDecl name (guard_name name) /\
     guard_name name <> EmptyString) /\
  (forall name feature guard impl, (name, (feature, guard)) ∈ feature_guards ->
     middleware (OpDecl name impl) = if check feature then OpDecl name impl else OpDecl name guard) /\
  (forall d impl, d ∈ thread_ops -> middleware (OpDecl (op_name d) impl) = d) /\
  (forall op, op_name op ∉ map op_name thread_ops -> guarded_require (op_name op) = false ->
     op_name op ∉ map fst always_guarded -> op_name op ∉ map fst feature_guards -> middleware op = op).
Proof.
  split_and!.
  - intros op; unfold middleware; repeat case_match; done.
  - intros name guard impl H; unfold always_guarded in H.
    repeat (apply elem_of_cons in H as [H|H]; [injection H as -> ->; reflexivity|]).
    by apply elem_of_nil in H.
  - intros name impl H; apply bool_decide_eq_true_1 in H.
    repeat (apply elem_of_cons in H as [->|H]; [split; [reflexivity|discriminate]|]).
    by apply elem_of_nil in H.
  - intros name feature guard impl H; unfold feature_guards in H.
    repeat (apply elem_of_cons in H as [H|H]; [injection H as -> -> ->; cbn; reflexivity|]).
    by apply elem_of_nil in H.
  - intros d impl H; unfold thread_ops in H; simpl in H.
    repeat (apply elem_of_cons in H as [->|H]; [reflexivity|]).
    by apply elem_of_nil in H.
  - intros op Ht Hr Ha Hf; unfold middleware.
    assert (forall {A} (l : list (string * A)), op_name op ∉ map fst l -> assoc (op_name op) l = None) as Hassoc.
    { intros A l Hl; unfold assoc; destruct (list_find _ l) as [[i d]|] eqn:E; [|done].
      apply list_find_Some in E as (E & Hd & _); exfalso; apply Hl; rewrite <- Hd.
      apply list_elem_of_fmap; exists d; split; [done|by eapply list_elem_of_lookup_2]. }
    rewrite (Hassoc _ always_guarded Ha), (Hassoc _ feature_guards Hf).
    destruct (list_find _ thread_ops) as [[i d]|] eqn:E.
    { apply list_find_Some in E as (E & Hd & _); exfalso; apply Ht; rewrite <- Hd.
      apply list_elem_of_fmap; exists d; split; [done|by eapply list_elem_of_lookup_2]. }
    destruct (list_find _ require_ops) as [[i d]|] eqn:E'; [|done].
    apply list_find_Some in E' as (_ & [Hd _] & _); by rewrite Hr in Hd.
Qed.

(** The properties are read in order, each once. *)
Lemma read_properties_ok (object : js_object) (reads : string -> nat) (names : list string)
    (values : list (string * value)) :
  read_properties object reads names = Ok values ->
  map fst values = names /\ forall name v, (name, v) ∈ values -> object name (reads name) = Ok v.
Proof.
  revert values; induction names as [|n names IH]; intros values; simpl.
  - intros H; injection H as <-; split; [done|set_solver].
  - destruct (object n (reads n)) as [v|] eqn:Hv; [|done].
    destruct (read_properties object reads names) as [rest|]; [|done]; intros H; injection H as <-.
    destruct (IH rest eq_refl) as [<- Hr]; split; [done|].
    intros name w [E|Hw]%elem_of_cons; [by injection E as -> ->|by apply Hr].
Qed.

(** What the guards let through is what they checked.  A port is shared by
    a TCP or TLS listener only when the net feature is on, also when the TLS
    options are an object whose getters answer differently every time: each
    option is read once, and the original is called with the values that were
    checked.  Under a permission broker an original file operation of [require] is
    called only with the path the permission check returned for the resolved
    path, and a package scope is read only from a file named package.json that
    passed the check. *)
Theorem guards_let_through_checked (checker : option (string -> bool)) (nd : option net_delegates)
    (permissions : option container) :
  (forall reuse_port r, op_net_listen_tcp_guard checker nd reuse_port = Ok r ->
     exists c d, checker = Some c /\ nd = Some d /\ r = nd_tcp d reuse_port /\ (reuse_port = true -> c "net" = true)) /\
  (forall object reads r, op_net_listen_tls_guard checker nd object reads = Ok r ->
     exists c d, checker = Some c /\ nd = Some d /\
       ((exists thrown, r = Err thrown /\ read_properties object reads tls_names = Err thrown) \/
        exists args, r = nd_tls d args /\ map fst args = tls_names /\
          (forall name v, (name, v) ∈ args -> object name (reads name) = Ok v) /\
          (forall v, object "reusePort" (reads "reusePort") = Ok v -> to_boolean v = true -> c "net" = true))) /\
  (broker = true ->
     (forall select state p r, path_guard select state permissions p = Ok r ->
        exists d c checked, state = Some d /\ permissions = Some c /\
          pm_check_open c (canonical h p) = Ok checked /\ r = select d checked) /\
     (forall state p r, op_require_package_scope_guard state permissions p = Ok r ->
        r = Ok null \/
        exists c checked package, permissions = Some c /\ file_name p = Some "package.json" /\
          pm_check_open c (canonical h p) = Ok checked /\ load_package_json checked = Some package /\ r = Ok package)).
Proof.
  split_and!.
  - unfold op_net_listen_tcp_guard, delegate; intros reuse_port r; destruct checker as [c|], nd as [d|]; simpl; try done.
    destruct (reuse_port && negb (c "net")) eqn:E; [done|]; intros H; injection H as <-.
    exists c, d; split_and!; [done..|]; intros ->; by apply negb_false_iff.
  - unfold op_net_listen_tls_guard, delegate; intros object reads r; destruct checker as [c|], nd as [d|]; simpl; try done.
    unfold normalize_tls_args; destruct (read_properties object reads tls_names) as [values|e] eqn:Hv.
    + destruct (_ && _) eqn:E; [done|]; intros H; injection H as <-.
      exists c, d; split_and!; [done..|]; right; exists values.
      destruct (read_properties_ok _ _ _ _ Hv) as [Hn Hval]; split_and!; [done..|].
      intros v Hov Ht.
      destruct values as [|[n0 v0] [|[n1 v1] rest]]; [discriminate Hn|discriminate Hn|].
      simpl in Hn; injection Hn as -> -> _.
      assert (object "reusePort" (reads "reusePort") = Ok v1) as Hv1 by (apply Hval; set_solver).
      rewrite Hov in Hv1; injection Hv1 as <-; change (to_boolean v && negb (c "net") = false) in E.
      rewrite Ht in E; by apply negb_false_iff.
    + intros H; injection H as <-; exists c, d; split_and!; [done..|]; left; eauto.
  - intros Hb; split; intros *.
    + unfold path_guard; rewrite Hb; destruct state as [d|]; [|done]; simpl.
      unfold checked_path; destruct permissions as [c|]; [|done].
      destruct (pm_check_open c (canonical h p)) as [checked|] eqn:Hc; [|done]; simpl.
      unfold path_string; destruct (utf8 checked); [|done]; intros H; injection H as <-.
      by exists d, c, checked.
    + unfold op_require_package_scope_guard; rewrite Hb; destruct state as [d|]; [|done]; simpl.
      case_bool_decide as Hf; simpl; [|intros H; injection H as <-; by left].
      unfold path_string; destruct (utf8 p); [|done]; simpl.
      unfold checked_path; destruct permissions as [c|]; [|done].
      destruct (pm_check_open c (canonical h p)) as [checked|] eqn:Hc; [|done]; simpl.
      destruct (load_package_json checked) as [package|] eqn:Hl; intros H; injection H as <-; [|by left].
      right; by exists c, checked, package.
Qed.
End Guards.
