(* ===== verification/Messaging.v ===== *)
(** * Messaging: messages between the workers of a run
    (src/thread_messaging.rs).

    [ThreadMessagingDomain] and its four operations.  The registry is behind one
    lock; posting looks an entry up under the lock and sends after releasing it,
    so the two are separate steps here and any other step may come between them.
    Transferring objects is V8's own. *)
From S2P Require Import Prelude.

Section Messaging.
Context {message : Type}.

(** [ThreadRegistryEntry] and the receiver of its channel: [en_alive] until the
    receiver is dropped. *)
Record entry := Entry {
  en_thread : nat;
  en_listener_count : nat;
  en_queue : list message;
  en_alive : bool
}.

(** A post between its lookup and its send. *)
Record pending := Pending { pd_entry : nat; pd_message : message }.

(** Entries by identity, the registry by thread id, and the posts under way;
    [dm_received] and [dm_accepted] record, per entry, what its receiver took and
    what posts reported as delivered. *)
Record domain := Domain {
  dm_entries : list entry;
  dm_registry : gmap nat nat;
  dm_pending : list pending;
  dm_received : nat -> list message;
  dm_accepted : nat -> list message
}.

Definition domain_new : domain := Domain [] ∅ [] (fun _ => []) (fun _ => []).

Definition with_entries (d : domain) (entries : list entry) (registry : gmap nat nat) : domain :=
  Domain entries registry (dm_pending d) (dm_received d) (dm_accepted d).

(** [register]: a new entry takes the thread's place. *)
Definition register (thread : nat) (d : domain) : domain :=
  with_entries d (dm_entries d ++ [Entry thread 0 [] true])
    (<[thread := length (dm_entries d)]> (dm_registry d)).

(** [unregister]: only the expected entry is removed. *)
Definition unregister (thread expected : nat) (registry : gmap nat nat) : gmap nat nat :=
  if decide (registry !! thread = Some expected) then delete thread registry else registry.

(** [close] cancels the receiver and unregisters it; [drop] unregisters it again
    and ends the channel. *)
Definition close_receiver (id : nat) (d : domain) : domain :=
  match dm_entries d !! id with
  | Some e => with_entries d (dm_entries d) (unregister (en_thread e) id (dm_registry d))
  | None => d
  end.
Definition drop_receiver (id : nat) (d : domain) : domain :=
  match dm_entries d !! id with
  | Some e =>
      with_entries d (<[id := Entry (en_thread e) (en_listener_count e) (en_queue e) false]> (dm_entries d))
        (unregister (en_thread e) id (dm_registry d))
  | None => d
  end.

Definition op_node_worker_thread_set_listener_count (thread count : nat) (d : domain) : domain :=
  match dm_registry d !! thread with
  | Some id =>
      match dm_entries d !! id with
      | Some e => with_entries d (<[id := Entry (en_thread e) count (en_queue e) (en_alive e)]> (dm_entries d))
                    (dm_registry d)
      | None => d
      end
  | None => d
  end.

(** The first half of [op_node_worker_thread_post_message]: an answer, or a send
    under way.  [transfer] is whether the transferred objects could be taken. *)
Definition post_lookup (target : nat) (m : message) (force transfer : bool) (d : domain)
  : option (result Z unit) * domain :=
  match dm_registry d !! target with
  | None => (Some (Ok 0%Z), d)
  | Some id =>
      match dm_entries d !! id with
      | None => (Some (Ok 0%Z), d)
      | Some e =>
          if negb force && (en_listener_count e =? 0)%nat then (Some (Ok 1%Z), d)
          else if negb transfer then (Some (Err tt), d)
          else (None, Domain (dm_entries d) (dm_registry d) (dm_pending d ++ [Pending id m])
                        (dm_received d) (dm_accepted d))
      end
  end.

(** The send of the [i]th post under way. *)
Definition post_send (i : nat) (d : domain) : option Z * domain :=
  match dm_pending d !! i with
  | None => (None, d)
  | Some p =>
      let rest := delete i (dm_pending d) in
      match dm_entries d !! pd_entry p with
      | Some e =>
          if en_alive e then
            (Some 2%Z,
             Domain (<[pd_entry p := Entry (en_thread e) (en_listener_count e) (en_queue e ++ [pd_message p]) true]>
                       (dm_entries d))
               (dm_registry d) rest (dm_received d)
               (fun k => if decide (k = pd_entry p) then dm_accepted d k ++ [pd_message p] else dm_accepted d k))
          else (Some 0%Z, Domain (dm_entries d) (dm_registry d) rest (dm_received d) (dm_accepted d))
      | None => (Some 0%Z, Domain (dm_entries d) (dm_registry d) rest (dm_received d) (dm_accepted d))
      end
  end.

(** [op_node_worker_thread_recv_message] when a message is queued. *)
Definition op_node_worker_thread_recv_message (id : nat) (d : domain) : option message * domain :=
  match dm_entries d !! id with
  | Some (Entry thread count (m :: queue) true) =>
      (Some m,
       Domain (<[id := Entry thread count queue true]> (dm_entries d)) (dm_registry d) (dm_pending d)
         (fun k => if decide (k = id) then dm_received d k ++ [m] else dm_received d k) (dm_accepted d))
  | _ => (None, d)
  end.

Inductive messaging_step : domain -> domain -> Prop :=
| ms_register d thread : messaging_step d (register thread d)
| ms_listeners d thread count : messaging_step d (op_node_worker_thread_set_listener_count thread count d)
| ms_lookup d target m force transfer : messaging_step d (post_lookup target m force transfer d).2
| ms_send d i : messaging_step d (post_send i d).2
| ms_recv d id : messaging_step d (op_node_worker_thread_recv_message id d).2
| ms_close d id : messaging_step d (close_receiver id d)
| ms_drop d id : messaging_step d (drop_receiver id d).

(** What holds of every entry by its identity, and of the registry. *)
Definition entry_ok (d : domain) (id : nat) (e : entry) : Prop :=
  dm_accepted d id = dm_received d id ++ en_queue e.

Record messaging_inv (d : domain) : Prop := MessagingInv {
  mi_entries : forall id e, dm_entries d !! id = Some e -> entry_ok d id e;
  mi_fresh : forall id, dm_entries d !! id = None -> dm_accepted d id = [] /\ dm_received d id = [];
  mi_registry : forall thread id, dm_registry d !! thread = Some id ->
    exists e, dm_entries d !! id = Some e /\ en_thread e = thread /\ en_alive e = true;
  mi_pending : forall p, p ∈ dm_pending d -> is_Some (dm_entries d !! pd_entry p)
}.

Lemma unregister_Some (thread expected : nat) (registry : gmap nat nat) (t id : nat) :
  unregister thread expected registry !! t = Some id <->
  registry !! t = Some id /\ ~ (t = thread /\ id = expected).
Proof.
  unfold unregister; case_decide as H.
  - rewrite lookup_delete_Some; split; [intros [Hne Hl]; split; [done|]; by intros [-> _]|].
    intros [Hl Hne]; split; [|done]; intros ->; apply Hne; split; [done|]; congruence.
  - split; [|by intros [? _]]; intros Hl; split; [done|]; by intros [-> ->].
Qed.

(** Replacing an entry by one with the same thread and queue. *)
Lemma update_inv (d : domain) (id : nat) (e e' : entry) (registry : gmap nat nat) :
  messaging_inv d -> dm_entries d !! id = Some e ->
  en_thread e' = en_thread e -> en_queue e' = en_queue e ->
  (forall t k, registry !! t = Some k -> dm_registry d !! t = Some k /\
     (k = id -> en_alive e' = true)) ->
  messaging_inv (with_entries d (<[id := e']> (dm_entries d)) registry).
Proof.
  intros [Hent Hfresh Hreg Hpend] Hid Ht Hq Hr; constructor; simpl.
  - intros k x Hk; unfold entry_ok; simpl; apply list_lookup_insert_Some in Hk as [(<- & <- & _)|[_ Hk]].
    + rewrite Hq; by apply Hent.
    + by apply Hent.
  - intros k Hk; apply Hfresh; apply lookup_ge_None in Hk; rewrite length_insert in Hk; by apply lookup_ge_None.
  - intros t k Hk; apply Hr in Hk as [Hk Ha]; destruct (Hreg _ _ Hk) as (x & Hx & <- & Hal).
    destruct (decide (k = id)) as [->|Hne].
    + exists e'; rewrite list_lookup_insert_eq by (by eapply lookup_lt_Some); simplify_eq; by split_and!; auto.
    + exists x; by rewrite list_lookup_insert_ne.
  - intros p Hp; apply Hpend in Hp; rewrite lookup_lt_is_Some, length_insert; by apply lookup_lt_is_Some.
Qed.

Lemma register_inv (d : domain) (thread : nat) : messaging_inv d -> messaging_inv (register thread d).
Proof.
  intros [Hent Hfresh Hreg Hpend]; constructor; simpl.
  - intros id e [Hl|[Hle Hl]]%lookup_app_Some; [by apply Hent|].
    apply list_lookup_singleton_Some in Hl as [Hz <-].
    destruct (Hfresh id) as [Ha Hr]; [by apply lookup_ge_None|]; unfold entry_ok; simpl; by rewrite Ha, Hr.
  - intros id Hl; apply Hfresh; apply lookup_ge_None in Hl; rewrite length_app in Hl; apply lookup_ge_None; lia.
  - intros t id Hl; apply lookup_insert_Some in Hl as [[<- <-]|[Hne Hl]].
    + eexists; rewrite lookup_app_r, Nat.sub_diag by lia; by split_and!.
    + destruct (Hreg _ _ Hl) as (e & He & ?); exists e; split; [by apply lookup_app_l_Some|done].
  - intros p Hp; destruct (Hpend p Hp) as [e He]; exists e; by apply lookup_app_l_Some.
Qed.

(** A step that only moves a message between a queue and the record of it. *)
Lemma transfer_inv (d : domain) (id : nat) (e : entry) (queue : list message) (rest : list pending)
    (received accepted : nat -> list message) :
  messaging_inv d -> dm_entries d !! id = Some e -> en_alive e = true ->
  accepted id = received id ++ queue ->
  (forall k, k <> id -> received k = dm_received d k /\ accepted k = dm_accepted d k) ->
  (forall p, p ∈ rest -> p ∈ dm_pending d) ->
  messaging_inv (Domain (<[id := Entry (en_thread e) (en_listener_count e) queue true]> (dm_entries d))
                   (dm_registry d) rest received accepted).
Proof.
  intros [Hent Hfresh Hreg Hpend] Hid Hal Hq Hk Hrest.
  assert (id < length (dm_entries d)) as Hlt by (by eapply lookup_lt_Some).
  constructor; simpl.
  - intros k x Hx; unfold entry_ok; simpl; apply list_lookup_insert_Some in Hx as [(<- & <- & _)|[Hne Hx]]; [done|].
    destruct (Hk k) as [-> ->]; [done|]; by apply Hent.
  - intros k Hn; apply lookup_ge_None in Hn; rewrite length_insert in Hn.
    destruct (Hk k) as [-> ->]; [lia|]; apply Hfresh; by apply lookup_ge_None.
  - intros t k Hl; destruct (Hreg _ _ Hl) as (x & Hx & <- & Ha).
    destruct (decide (k = id)) as [->|Hne].
    + rewrite list_lookup_insert_eq by done; simplify_eq; by eexists.
    + exists x; by rewrite list_lookup_insert_ne.
  - intros p Hp; apply Hrest, Hpend in Hp; rewrite lookup_lt_is_Some, length_insert; by apply lookup_lt_is_Some.
Qed.

Lemma pending_inv (d : domain) (ps : list pending) :
  messaging_inv d -> (forall p, p ∈ ps -> is_Some (dm_entries d !! pd_entry p)) ->
  messaging_inv (Domain (dm_entries d) (dm_registry d) ps (dm_received d) (dm_accepted d)).
Proof. intros [Hent Hfresh Hreg Hpend] Hps; by constructor. Qed.

Lemma send_inv (d : domain) (i : nat) : messaging_inv d -> messaging_inv (post_send i d).2.
Proof.
  intros Hi; unfold post_send; destruct (dm_pending d !! i) as [p|] eqn:Hp; [|done].
  assert (forall q, q ∈ delete i (dm_pending d) -> q ∈ dm_pending d) as Hrest.
  { intros q Hq; apply list_elem_of_lookup in Hq as [k Hk].
    rewrite list_lookup_delete in Hk; destruct (decide (k < i)); by eapply list_elem_of_lookup_2. }
  assert (messaging_inv (Domain (dm_entries d) (dm_registry d) (delete i (dm_pending d)) (dm_received d) (dm_accepted d))) as Hd.
  { apply pending_inv; [done|]; intros q Hq; by apply (mi_pending _ Hi), Hrest. }
  destruct (dm_entries d !! pd_entry p) as [e|] eqn:He; [|done].
  destruct (en_alive e) eqn:Ha; [|done]; simpl.
  apply transfer_inv; try done.
  - rewrite decide_True by done; rewrite (mi_entries _ Hi _ _ He); by rewrite app_assoc.
  - intros k Hk; by rewrite decide_False.
Qed.

Lemma recv_inv (d : domain) (id : nat) :
  messaging_inv d -> messaging_inv (op_node_worker_thread_recv_message id d).2.
Proof.
  intros Hi; unfold op_node_worker_thread_recv_message.
  destruct (dm_entries d !! id) as [[thread count [|m queue] [|]]|] eqn:He; try done; simpl.
  apply (transfer_inv d id (Entry thread count (m :: queue) true) queue); try done.
  - rewrite decide_True by done; pose proof (mi_entries _ Hi _ _ He) as Ha; unfold entry_ok in Ha; simpl in Ha.
    rewrite Ha; by rewrite <- app_assoc.
  - intros k Hk; by rewrite decide_False.
Qed.

Lemma messaging_inv_step (d d' : domain) : messaging_inv d -> messaging_step d d' -> messaging_inv d'.
Proof.
  intros Hi Hstep; destruct Hstep as [d thread|d thread count|d target m force transfer|d i|d id|d id|d id].
  - by apply register_inv.
  - unfold op_node_worker_thread_set_listener_count; destruct (dm_registry d !! thread) as [id|] eqn:Hr; [|done].
    destruct (dm_entries d !! id) as [e|] eqn:He; [|done].
    eapply update_inv; [done..|]; intros t k Hk; split; [done|]; intros ->.
    destruct (mi_registry _ Hi _ _ Hr) as (x & Hx & _ & Ha); by simplify_eq.
  - unfold post_lookup; destruct (dm_registry d !! target) as [id|] eqn:Hr; [|done].
    destruct (dm_entries d !! id) as [e|] eqn:He; [|done].
    destruct (_ && _); [done|]; destruct (negb transfer); [done|]; simpl.
    apply pending_inv; [done|]; intros p [Hp|Hp]%elem_of_app; [by apply (mi_pending _ Hi)|].
    apply list_elem_of_singleton in Hp as ->; by exists e.
  - by apply send_inv.
  - by apply recv_inv.
  - unfold close_receiver; destruct (dm_entries d !! id) as [e|] eqn:He; [|done].
    destruct Hi as [Hent Hfresh Hreg Hpend]; constructor; simpl; try done.
    intros t k Hk; apply unregister_Some in Hk as [Hk _]; by apply Hreg.
  - unfold drop_receiver; destruct (dm_entries d !! id) as [e|] eqn:He; [|done].
    eapply update_inv; [done..|]; simpl; intros t k Hk; apply unregister_Some in Hk as [Hk Hne]; split; [done|].
    intros ->; exfalso; apply Hne; split; [|done].
    destruct (mi_registry _ Hi _ _ Hk) as (x & Hx & <- & _); by simplify_eq.
Qed.

(** C40. Messages between workers are delivered in order, once, and to the right
    worker.  In every interleaving of registrations, posts, receptions, closes and
    drops, what a worker received followed by what is still queued for it is
    exactly the list of messages that posts reported as delivered to it; a post
    finds only a live receiver registered for the thread it names; and ending an
    old registration never takes away the one that replaced it. *)
Theorem messages_delivered_once (d : domain) (Hd : reachable messaging_step domain_new d) :
  (forall id e, dm_entries d !! id = Some e -> dm_accepted d id = dm_received d id ++ en_queue e) /\
  (forall target m force d', post_lookup target m force true d = (None, d') ->
     exists id e, dm_registry d !! target = Some id /\ dm_entries d !! id = Some e /\
       en_thread e = target /\ en_alive e = true /\ (force = true \/ en_listener_count e <> 0)) /\
  (forall i p, dm_pending d !! i = Some p ->
     (post_send i d).1 = Some 2%Z ->
     dm_accepted (post_send i d).2 (pd_entry p) = dm_accepted d (pd_entry p) ++ [pd_message p]) /\
  (forall thread id old, dm_registry d !! thread = Some id -> old <> id ->
     dm_registry (close_receiver old d) !! thread = Some id /\
     dm_registry (drop_receiver old d) !! thread = Some id).
Proof.
  assert (messaging_inv d) as Hi.
  { eapply reachable_invariant; [|apply messaging_inv_step|exact Hd].
    constructor; simpl; try done; intros ? ?; try (by rewrite lookup_empty); set_solver. }
  split_and!.
  - apply (mi_entries _ Hi).
  - unfold post_lookup; intros target m force d'; destruct (dm_registry d !! target) as [id|] eqn:Hr; [|done].
    destruct (mi_registry _ Hi _ _ Hr) as (e & He & Ht & Ha); rewrite He.
    destruct (negb force && _) eqn:Hb; [done|]; simpl; intros _; exists id, e; split_and!; try done.
    apply andb_false_iff in Hb as [Hb|Hb]; [left; by apply negb_false_iff|right; by apply Nat.eqb_neq].
  - unfold post_send; intros i p Hp; rewrite Hp; destruct (dm_entries d !! pd_entry p) as [e|]; [|done].
    destruct (en_alive e); [|done]; simpl; intros _; by rewrite decide_True.
  - intros thread id old Hr Hne; split; [unfold close_receiver|unfold drop_receiver];
      destruct (dm_entries d !! old); simpl; try done; apply unregister_Some; split; [done|by intros [_ ->]|done|by intros [_ ->]].
Qed.
End Messaging.

Definition sample_domain : domain :=
  (op_node_worker_thread_recv_message 0
    (post_send 0 (post_lookup 7 42 true true (register 7 domain_new)).2).2).2.

Lemma messages_delivered_once_witness :
  reachable messaging_step domain_new sample_domain /\
  dm_received sample_domain 0 = [42] /\
  (forall id e, dm_entries sample_domain !! id = Some e ->
     dm_accepted sample_domain id = dm_received sample_domain id ++ en_queue e).
Proof.
  assert (reachable messaging_step domain_new sample_domain) as H.
  { eapply reach_step; [|apply ms_recv].
    eapply reach_step; [|apply ms_send].
    eapply reach_step; [|apply (ms_lookup _ 7 42 true true)].
    eapply reach_step; [apply reach_refl|apply ms_register]. }
  split; [exact H|]; split; [reflexivity|].
  exact (proj1 (messages_delivered_once sample_domain H)).
Defined.
