(* ===== verification/Runs.v ===== *)
(** * Runs: the public entry points (src/lib.rs, src/runtime.rs).

    The in-process entry points, synchronous and asynchronous, with their own
    resolver stack or a reusable one: what they check, what they acquire and
    release around the run, and what they return.  The lease (see Lease), the
    capture (see Capture) and the run itself (see Entry) enter as their answers;
    what an entry point does is an event log. *)
From S2P Require Import Prelude Errors Options Paths Cancel Execution Entry Pipes Capture Runtime.
Local Open Scope Z_scope.

(** What happens to the thread-local guard, the process-wide lease and the
    process's descriptors; [RunStarted] tells whether the run has a thread of its
    own. *)
Inductive run_step :=
| GuardTaken | GuardDropped
| LeaseTaken (exclusive : bool) | LeaseDropped
| Redirected | Restored
| RunStarted (own_thread : bool).

(** Where the caller drops an asynchronous run, if it does. *)
Inductive drop_point := NotDropped | InRun | InCollection.

Record call_env := CallEnv {
  ce_host : host;
  ce_in_tokio : bool;                                  (** [Handle::try_current] *)
  ce_guard_taken : bool;                               (** [RUN_ASYNC_IN_PROGRESS] *)
  ce_lease : bool -> result unit libdeno_error;        (** [RunLease::acquire] *)
  ce_spawn : result unit io_error;                     (** a thread for the run *)
  ce_panicked : bool;                                  (** and how it ended *)
  ce_capture : result unit io_error;                   (** [OutputCapture::new] *)
  ce_build : result unit dyn_error;                    (** the thread's tokio runtime *)
  ce_services : path -> list path -> result unit dyn_error;  (** [SharedServices::new], by base and start paths *)
  ce_shared : result unit libdeno_error;               (** [shared_for_run] *)
  ce_run : entry_source -> path -> result Z libdeno_error;  (** the run, by entry and base *)
  ce_collect : result (list Z * list Z * bool) io_error;
  ce_collect_task : result unit string;                (** [spawn_blocking] *)
  ce_drop : drop_point
}.

Section Calls.
Context (env : call_env).
(** As in Entry. *)
Context (json_main : string -> result (option string) string).
Context (url : Type) (from_file_path : path -> option url) (to_file_path : url -> option path).

Definition captured (options : libdeno_options) : bool := o_capture_stdout options || o_capture_stderr options.

Definition new_error (e : libdeno_error) : captured_run_error := CapturedRunError e None.
Definition into_error (e : captured_run_error) : libdeno_error := cre_error e.

Definition check_async_context : result unit libdeno_error :=
  if ce_in_tokio env then Ok ()
  else Err (Configuration "run_async must be called from inside a tokio runtime context; outside one, use run()").

Definition guard_error : libdeno_error := Configuration
  "a run_async is already in progress on this thread; run_async futures must not be interleaved — await them one at a time, or use run() for parallel runs".

(** [join_worker]: the body's events happen unless the thread never starts; a
    panic unwinds through the body's guards. *)
Definition join_worker {A} (body : result A libdeno_error * list run_step)
  : result A libdeno_error * list run_step :=
  match ce_spawn env with
  | Err e => (Err (Io e), [])
  | Ok _ => if ce_panicked env then (Err (Runtime (anyhow "libdeno worker thread panicked")), body.2) else body
  end.

(** The same for bodies that keep the captured output with their error. *)
Definition join_captured (body : result run_output captured_run_error * list run_step)
  : result run_output captured_run_error * list run_step :=
  match ce_spawn env with
  | Err e => (Err (new_error (Io e)), [])
  | Ok _ =>
      if ce_panicked env then (Err (new_error (Runtime (anyhow "libdeno worker thread panicked"))), body.2)
      else body
  end.

(** [run_inner]: a resolver stack of the run's own. *)
Definition run_inner (entry : entry_source) (options : libdeno_options) : result Z libdeno_error :=
  let? cwd := entry_cwd (ce_host env) entry options in
  let? start_paths := config_start_paths (ce_host env) json_main url from_file_path to_file_path entry cwd in
  let? _ := map_err Runtime (ce_services env cwd start_paths) in
  ce_run env entry cwd.

(** [run_sync], [run_sync_cancellable], [run_with_sync_cancellable]: a runtime of
    the thread's own, and [run] on it. *)
Definition run_sync (run : result Z libdeno_error) : result Z libdeno_error * list run_step :=
  match ce_build env with
  | Err e => (Err (Runtime e), [])
  | Ok _ => (run, [RunStarted (ce_in_tokio env)])
  end.

(** [run_sync_output] and its variants. *)
Definition run_sync_output_cancellable (run : result Z libdeno_error) (options : libdeno_options)
  : result run_output captured_run_error * list run_step :=
  match validate_prompt_capture (o_prompt options) (o_capture_stderr options) with
  | Err e => (Err (new_error e), [])
  | Ok _ =>
      match ce_capture env with
      | Err e => (Err (new_error (Io e)), [])
      | Ok _ =>
          let '(r, events) := run_sync run in
          let redirect s := if captured options then [s] else [] in
          (combine_capture r (ce_collect env), redirect Redirected ++ events ++ redirect Restored)
      end
  end.

(** The lease is held for everything [body] does. *)
Definition with_lease {A E} (error : libdeno_error -> E) (exclusive : bool) (body : result A E * list run_step)
  : result A E * list run_step :=
  match ce_lease env exclusive with
  | Err e => (Err (error e), [])
  | Ok _ => (body.1, [LeaseTaken exclusive] ++ body.2 ++ [LeaseDropped])
  end.

Definition run_with_output_observed_cancellable (run : result Z libdeno_error) (options : libdeno_options)
  : result run_output captured_run_error * list run_step :=
  with_lease new_error (captured options)
    (let body := run_sync_output_cancellable run options in
     if ce_in_tokio env then join_captured body else body).

Definition run_with_output_observed (entry : entry_source) (options : libdeno_options)
  : result run_output libdeno_error * list run_step :=
  let '(r, events) := run_with_output_observed_cancellable (run_inner entry options) options in
  (map_err into_error r, events).

(** [run_source_with_output]: the entry is built first. *)
Definition run_source_with_output (code : list Z) (lang : source_lang) (base_dir : path) (options : libdeno_options)
  : result run_output libdeno_error * list run_step :=
  match (let? cwd := effective_cwd (ce_host env) options in
         entry_source_memory (ce_host env) code lang base_dir cwd) with
  | Err e => (Err e, [])
  | Ok entry => run_with_output_observed entry options
  end.

(** ** Asynchronous runs.  No result when the caller drops the future. *)
Definition run_with_output_async_guarded (run : result Z libdeno_error) (options : libdeno_options)
  : option (result run_output captured_run_error) * list run_step :=
  if ce_guard_taken env then (Some (Err (new_error guard_error)), [])
  else
    let guarded (body : option (result run_output captured_run_error) * list run_step) :=
      (body.1, [GuardTaken] ++ body.2 ++ [GuardDropped]) in
    guarded
      match ce_lease env (captured options) with
      | Err e => (Some (Err (new_error e)), [])
      | Ok _ =>
          let leased (body : option (result run_output captured_run_error) * list run_step) :=
            (body.1, [LeaseTaken (captured options)] ++ body.2 ++ [LeaseDropped]) in
          leased
            match validate_prompt_capture (o_prompt options) (o_capture_stderr options) with
            | Err e => (Some (Err (new_error e)), [])
            | Ok _ =>
                match ce_capture env with
                | Err e => (Some (Err (new_error (Io e))), [])
                | Ok _ =>
                    let redirect s := if captured options then [s] else [] in
                    let events := redirect Redirected ++ [RunStarted false] ++ redirect Restored in
                    match ce_drop env with
                    | InRun => (None, events)
                    | _ =>
                        if captured options then
                          match ce_drop env with
                          | InCollection => (None, events)
                          | _ =>
                              (Some (combine_capture run
                                 match ce_collect_task env with
                                 | Ok _ => ce_collect env
                                 | Err e => Err (IoError OtherKind ("output collection task failed: " +:+ e))
                                 end), events)
                          end
                        else (Some (combine_capture run (ce_collect env)), events)
                    end
                end
            end
      end.

Definition run_with_output_async (entry : entry_source) (options : libdeno_options)
  : option (result run_output libdeno_error) * list run_step :=
  match check_async_context with
  | Err e => (Some (Err e), [])
  | Ok _ =>
      let '(r, events) := run_with_output_async_guarded (run_inner entry options) options in
      (option_map (map_err into_error) r, events)
  end.

Definition run_source_with_output_async (code : list Z) (lang : source_lang) (base_dir : path)
    (options : libdeno_options) : option (result run_output libdeno_error) * list run_step :=
  match (let? _ := check_async_context in
         let? cwd := effective_cwd (ce_host env) options in
         entry_source_memory (ce_host env) code lang base_dir cwd) with
  | Err e => (Some (Err e), [])
  | Ok entry =>
      let '(r, events) := run_with_output_async_guarded (run_inner entry options) options in
      (option_map (map_err into_error) r, events)
  end.

(** ** Runs on a reusable runtime, whose directory is [runtime_cwd] *)
Context (runtime_cwd : path).

Definition reusable_run (entry : entry_source) : result Z libdeno_error :=
  let? _ := ce_shared env in ce_run env entry runtime_cwd.

Definition run_with_exit_code (entry : entry_source) (options : libdeno_options)
  : result Z libdeno_error * list run_step :=
  match (let? _ := reject_capture_flags options in reject_unusable_cwd (ce_host env) runtime_cwd options) with
  | Err e => (Err e, [])
  | Ok _ =>
      with_lease id false
        (let body := run_sync (reusable_run entry) in if ce_in_tokio env then join_worker body else body)
  end.

Definition run_with_source (code : list Z) (lang : source_lang) (base_dir : path) (options : libdeno_options)
  : result Z libdeno_error * list run_step :=
  match (let? _ := check_source_preconditions (ce_host env) runtime_cwd options false in
         entry_source_memory (ce_host env) code lang base_dir runtime_cwd) with
  | Err e => (Err e, [])
  | Ok entry => run_with_exit_code entry options
  end.

Definition reusable_run_with_output_observed_cancellable (entry : entry_source) (options : libdeno_options)
  : result run_output captured_run_error * list run_step :=
  match reject_unusable_cwd (ce_host env) runtime_cwd options with
  | Err e => (Err (new_error e), [])
  | Ok _ => run_with_output_observed_cancellable (reusable_run entry) options
  end.

Definition reusable_run_with_output (entry : entry_source) (options : libdeno_options)
  : result run_output libdeno_error * list run_step :=
  let '(r, events) := reusable_run_with_output_observed_cancellable entry options in
  (map_err into_error r, events).

Definition run_with_output_source (code : list Z) (lang : source_lang) (base_dir : path) (options : libdeno_options)
  : result run_output libdeno_error * list run_step :=
  match (let? _ := check_source_preconditions (ce_host env) runtime_cwd options true in
         entry_source_memory (ce_host env) code lang base_dir runtime_cwd) with
  | Err e => (Err e, [])
  | Ok entry => reusable_run_with_output entry options
  end.

Definition run_with_output_async_observed (entry : entry_source) (options : libdeno_options)
  : option (result run_output captured_run_error) * list run_step :=
  match (let? _ := check_async_context in reject_unusable_cwd (ce_host env) runtime_cwd options) with
  | Err e => (Some (Err (new_error e)), [])
  | Ok _ => run_with_output_async_guarded (reusable_run entry) options
  end.

Definition run_with_output_source_async (code : list Z) (lang : source_lang) (base_dir : path)
    (options : libdeno_options) : option (result run_output libdeno_error) * list run_step :=
  match (let? _ := check_async_context in
         let? _ := reject_unusable_cwd (ce_host env) runtime_cwd options in
         entry_source_memory (ce_host env) code lang base_dir runtime_cwd) with
  | Err e => (Some (Err e), [])
  | Ok entry =>
      let '(r, events) := run_with_output_async_observed entry options in
      (option_map (map_err into_error) r, events)
  end.

(** ** All entry points *)
Inductive entry_point :=
| Run (entry : path) | RunWithOutput (entry : path)
| RunSource (code : list Z) (lang : source_lang) (base_dir : path)
| RunAsync (entry : path) | RunSourceAsync (code : list Z) (lang : source_lang) (base_dir : path)
| RunWith (entry : path) | RunWithSource (code : list Z) (lang : source_lang) (base_dir : path)
| RunWithOutputOf (entry : path) | RunWithOutputSource (code : list Z) (lang : source_lang) (base_dir : path)
| RuntimeRunAsync (entry : path) | RuntimeRunSourceAsync (code : list Z) (lang : source_lang) (base_dir : path).

Definition exit_code {E} (r : result run_output E) : result Z E :=
  match r with Ok o => Ok (ro_exit_code o) | Err e => Err e end.

(** The exit code of every entry point. *)
Definition call (ep : entry_point) (options : libdeno_options)
  : option (result Z libdeno_error) * list run_step :=
  let sync {A} (p : result A libdeno_error * list run_step) (f : result A libdeno_error -> result Z libdeno_error) :=
    (Some (f p.1), p.2) in
  let async {E} (p : option (result run_output E) * list run_step) (f : E -> libdeno_error) :=
    (option_map (fun r => map_err f (exit_code r)) p.1, p.2) in
  match ep with
  | Run p | RunWithOutput p => sync (run_with_output_observed (EntryPath p) options) exit_code
  | RunSource c l b => sync (run_source_with_output c l b options) exit_code
  | RunAsync p => async (run_with_output_async (EntryPath p) options) id
  | RunSourceAsync c l b => async (run_source_with_output_async c l b options) id
  | RunWith p => sync (run_with_exit_code (EntryPath p) options) id
  | RunWithSource c l b => sync (run_with_source c l b options) id
  | RunWithOutputOf p => sync (reusable_run_with_output (EntryPath p) options) exit_code
  | RunWithOutputSource c l b => sync (run_with_output_source c l b options) exit_code
  | RuntimeRunAsync p => async (run_with_output_async_observed (EntryPath p) options) into_error
  | RuntimeRunSourceAsync c l b => async (run_with_output_source_async c l b options) id
  end.

(** ** Properties *)

(** What is held; playing the events fails when one comes out of order. *)
Record held := Held { hd_guard : bool; hd_lease : option bool; hd_redirected : bool; hd_runs : nat }.
Definition nothing : held := Held false None false 0.

Definition hold (asynchronous capture : bool) (h : held) (s : run_step) : option held :=
  match s, h with
  | GuardTaken, Held false None false 0 => Some (Held true None false 0)
  | GuardDropped, Held true None false n => Some (Held false None false n)
  | LeaseTaken e, Held g None false 0 =>
      if bool_decide (g = asynchronous) && bool_decide (e = capture) then Some (Held g (Some e) false 0) else None
  | LeaseDropped, Held g (Some _) false n => Some (Held g None false n)
  | Redirected, Held g (Some true) false 0 => Some (Held g (Some true) true 0)
  | Restored, Held g (Some true) true n => Some (Held g (Some true) false n)
  | RunStarted own_thread, Held g (Some e) r 0 =>
      if bool_decide (r = capture) && bool_decide (own_thread = negb asynchronous && ce_in_tokio env)
         && (negb asynchronous || ce_in_tokio env)
      then Some (Held g (Some e) r 1) else None
  | _, _ => None
  end.

Fixpoint play (asynchronous capture : bool) (h : held) (steps : list run_step) : option held :=
  match steps with
  | [] => Some h
  | s :: steps => match hold asynchronous capture h s with Some h => play asynchronous capture h steps | None => None end
  end.

Lemma play_app (a c : bool) (h h' : held) (l l' : list run_step) :
  play a c h l = Some h' -> play a c h (l ++ l') = play a c h' l'.
Proof.
  revert h; induction l as [|s l IH]; simpl; intros h H; [by injection H as ->|].
  destruct (hold a c h s); [by apply IH|done].
Qed.

Definition is_async (ep : entry_point) : bool :=
  match ep with RunAsync _ | RunSourceAsync _ _ _ | RuntimeRunAsync _ | RuntimeRunSourceAsync _ _ _ => true | _ => false end.

(** A call that ended with nothing held, having run at most once, and exactly
    once if it has an exit code. *)
Definition bracketed {A E} (asynchronous capture : bool) (p : option (result A E) * list run_step) : Prop :=
  exists n, play asynchronous capture nothing p.2 = Some (Held false None false n) /\ (n <= 1)%nat /\
    match p.1 with Some (Ok _) => n = 1%nat | _ => True end.

Definition sync_bracketed {A E} (capture : bool) (p : result A E * list run_step) : Prop :=
  bracketed false capture (Some p.1, p.2).

Lemma nothing_bracketed {A E} (a c : bool) (e : E) : bracketed a c (Some (@Err A E e), []).
Proof. exists O; by split_and!; [|lia|]. Qed.

Lemma map_bracketed {A B E F} (a c : bool) (f : result A E -> result B F) (p : option (result A E) * list run_step) :
  (forall r v, f r = Ok v -> exists w, r = Ok w) -> bracketed a c p -> bracketed a c (option_map f p.1, p.2).
Proof.
  intros Hf (n & Hp & Hn & Hr); exists n; split_and!; [done|done|]; simpl.
  destruct p as [[r|] ev]; simpl in *; [|done]; destruct (f r) as [v|] eqn:E1; [|done].
  by destruct (Hf _ _ E1) as [w ->].
Qed.

Lemma run_sync_play (run : result Z libdeno_error) (c : bool) :
  let p := run_sync run in
  exists n, play false c (Held false (Some c) c 0) p.2 = Some (Held false (Some c) c n) /\ (n <= 1)%nat /\
    (is_ok p.1 = true -> n = 1%nat).
Proof.
  unfold run_sync; destruct (ce_build env); simpl; [|by exists O; split_and!; [|lia|]].
  rewrite !bool_decide_eq_true_2 by done; simpl; by exists 1%nat.
Qed.

Lemma combine_ok (r : result Z libdeno_error) (c : result (list Z * list Z * bool) io_error) (o : run_output) :
  combine_capture r c = Ok o -> is_ok r = true.
Proof. destruct r as [z|e]; [done|]; simpl; repeat case_match; done. Qed.

Lemma sync_output_play (run : result Z libdeno_error) (options : libdeno_options) :
  let c := captured options in
  let p := run_sync_output_cancellable run options in
  exists n, play false c (Held false (Some c) false 0) p.2 = Some (Held false (Some c) false n) /\ (n <= 1)%nat /\
    (is_ok p.1 = true -> n = 1%nat).
Proof.
  unfold run_sync_output_cancellable; cbv zeta.
  destruct (validate_prompt_capture _ _); [|by exists O; split_and!; [|lia|]].
  destruct (ce_capture env); [|by exists O; split_and!; [|lia|]].
  pose proof (run_sync_play run (captured options)) as Hs; cbv zeta in Hs.
  destruct (run_sync run) as [r events]; destruct Hs as (n & Hp & Hn & Hr); exists n; split_and!; [|done|].
  - destruct (captured options); simpl; [|by rewrite app_nil_r].
    simpl in Hp; by rewrite (play_app _ _ _ _ _ _ Hp).
  - simpl in *; intros Ho; apply Hr; destruct (combine_capture r (ce_collect env)) eqn:E; [|done].
    by eapply combine_ok.
Qed.

Lemma with_lease_bracketed {A E} (error : libdeno_error -> E) (c : bool) (body : result A E * list run_step) :
  (exists n, play false c (Held false (Some c) false 0) body.2 = Some (Held false (Some c) false n) /\ (n <= 1)%nat /\
    (is_ok body.1 = true -> n = 1%nat)) ->
  sync_bracketed c (with_lease error c body).
Proof.
  intros (n & Hp & Hn & Hr); unfold with_lease, sync_bracketed.
  destruct (ce_lease env c); [|apply nothing_bracketed].
  exists n; split_and!; [|done|].
  - simpl; rewrite !bool_decide_eq_true_2 by done; simpl; by rewrite (play_app _ _ _ _ _ _ Hp).
  - simpl; destruct body as [[w|] ev]; simpl in *; auto.
Qed.

Lemma observed_bracketed (run : result Z libdeno_error) (options : libdeno_options) :
  sync_bracketed (captured options) (run_with_output_observed_cancellable run options).
Proof.
  unfold run_with_output_observed_cancellable; apply with_lease_bracketed.
  pose proof (sync_output_play run options) as H; cbv zeta in *.
  destruct (ce_in_tokio env); [|done]; unfold join_captured.
  destruct (ce_spawn env); [|by exists O; split_and!; [|lia|]].
  destruct (ce_panicked env); [|done]; destruct H as (n & Hp & Hn & _); by exists n.
Qed.

Lemma guarded_bracketed (run : result Z libdeno_error) (options : libdeno_options) :
  ce_in_tokio env = true -> bracketed true (captured options) (run_with_output_async_guarded run options).
Proof.
  intros Ht; unfold run_with_output_async_guarded, bracketed.
  destruct (ce_guard_taken env); [apply nothing_bracketed|].
  destruct (captured options); [destruct (ce_lease env true)|destruct (ce_lease env false)];
    destruct (validate_prompt_capture (o_prompt options) (o_capture_stderr options)), (ce_capture env);
    try (exists O; simpl; rewrite ?Ht; split_and!; [reflexivity|lia|done]);
    exists 1%nat;
    (split_and!;
     [destruct (ce_drop env); cbn; rewrite Ht; reflexivity|lia
     |destruct (ce_drop env), (ce_collect_task env); cbn [fst snd]; try done;
      match goal with |- context [combine_capture ?r ?c] => by destruct (combine_capture r c) end]).
Qed.

Lemma exit_code_ok {E} (r : result run_output E) (v : Z) : exit_code r = Ok v -> exists w, r = Ok w.
Proof. destruct r; naive_solver. Qed.

(** The four ways the entry points reach a run. *)
Lemma sync_call {A} (c : bool) (f : result A libdeno_error -> result Z libdeno_error)
    (p : result A libdeno_error * list run_step) :
  (forall r v, f r = Ok v -> exists w, r = Ok w) -> sync_bracketed c p -> bracketed false c (Some (f p.1), p.2).
Proof. intros Hf; by apply (map_bracketed false c f (Some p.1, p.2)). Qed.

Lemma own_output_bracketed (entry : entry_source) (options : libdeno_options) :
  sync_bracketed (captured options) (run_with_output_observed entry options).
Proof.
  unfold run_with_output_observed; pose proof (observed_bracketed (run_inner entry options) options) as H.
  destruct (run_with_output_observed_cancellable _ _) as [r ev].
  apply (map_bracketed _ _ (map_err into_error) (Some r, ev)); [intros ? w ?%map_err_ok; by exists w|exact H].
Qed.

Lemma exit_code_bracketed (entry : entry_source) (options : libdeno_options) :
  sync_bracketed (captured options) (run_with_exit_code entry options).
Proof.
  unfold run_with_exit_code, reject_capture_flags.
  destruct (o_capture_stdout options || o_capture_stderr options) eqn:Hc; [apply nothing_bracketed|].
  simpl; destruct (reject_unusable_cwd _ _ _); [|apply nothing_bracketed].
  unfold captured; rewrite Hc; apply with_lease_bracketed.
  pose proof (run_sync_play (reusable_run entry) false) as H; cbv zeta in *.
  destruct (ce_in_tokio env); [|done]; unfold join_worker.
  destruct (ce_spawn env); [|by exists O; split_and!; [|lia|]].
  destruct (ce_panicked env); [|done]; destruct H as (n & Hp & Hn & _); by exists n.
Qed.

Lemma reusable_output_bracketed (entry : entry_source) (options : libdeno_options) :
  sync_bracketed (captured options) (reusable_run_with_output entry options).
Proof.
  unfold reusable_run_with_output, reusable_run_with_output_observed_cancellable.
  destruct (reject_unusable_cwd _ _ _); [|apply nothing_bracketed].
  pose proof (observed_bracketed (reusable_run entry) options) as H.
  destruct (run_with_output_observed_cancellable _ _) as [r ev].
  apply (map_bracketed _ _ (map_err into_error) (Some r, ev)); [intros ? w ?%map_err_ok; by exists w|exact H].
Qed.

Lemma async_call (run : result Z libdeno_error) (options : libdeno_options) :
  is_ok check_async_context = true ->
  bracketed true (captured options)
    (let '(r, ev) := run_with_output_async_guarded run options in (option_map (map_err into_error) r, ev)).
Proof.
  unfold check_async_context; destruct (ce_in_tokio env) eqn:Ht; [intros _|done].
  pose proof (guarded_bracketed run options Ht) as H.
  destruct (run_with_output_async_guarded run options) as [r ev].
  apply (map_bracketed _ _ (map_err into_error) (r, ev)); [intros ? w ?%map_err_ok; by exists w|exact H].
Qed.

Lemma async_map (c : bool) (p : option (result run_output libdeno_error) * list run_step) :
  bracketed true c p -> bracketed true c (option_map (fun r => map_err id (exit_code r)) p.1, p.2).
Proof.
  apply map_bracketed; intros r v H; apply map_err_ok in H; by eapply exit_code_ok.
Qed.

Lemma observed_refused (run : result Z libdeno_error) (options : libdeno_options) (e : libdeno_error) :
  ce_lease env (captured options) = Err e -> (run_with_output_observed_cancellable run options).2 = [].
Proof. unfold run_with_output_observed_cancellable, with_lease; by intros ->. Qed.

Lemma guarded_refused (run : result Z libdeno_error) (options : libdeno_options) (e : libdeno_error) :
  ce_lease env (captured options) = Err e ->
  (run_with_output_async_guarded run options).2 = [] \/
  (run_with_output_async_guarded run options).2 = [GuardTaken; GuardDropped].
Proof. unfold run_with_output_async_guarded; intros ->; destruct (ce_guard_taken env); auto. Qed.

Lemma guarded_idle (run : result Z libdeno_error) (options : libdeno_options) :
  ce_guard_taken env = true -> (run_with_output_async_guarded run options).2 = [].
Proof. unfold run_with_output_async_guarded; by intros ->. Qed.

(** The events of a call are those of one of the shared bodies, or none. *)
Lemma call_events (ep : entry_point) (options : libdeno_options) :
  (call ep options).2 = [] \/
  exists run,
    if is_async ep then
      ce_in_tokio env = true /\ (call ep options).2 = (run_with_output_async_guarded run options).2
    else
      (call ep options).2 = (run_with_output_observed_cancellable run options).2 \/
      exists entry, (call ep options).2 = (run_with_exit_code entry options).2.
Proof.
  destruct ep; cbn [call is_async];
    unfold run_source_with_output, run_source_with_output_async, run_with_source, run_with_output_source,
      run_with_output_source_async, run_with_output_async, run_with_output_async_observed, check_async_context,
      reusable_run_with_output, reusable_run_with_output_observed_cancellable, run_with_output_observed;
    repeat (case_match; simplify_eq/=); auto; try (by left);
    right; try (exists (Ok 0); right; eexists; reflexivity); eexists; eauto;
    match goal with H : ?f = (?r, ?l) |- context [?l] => (split; [done|by rewrite H]) || (left; by rewrite H) end.
Qed.

(** C38. Every way into a run takes and gives back what it needs.  Whatever fails
    on the way, panics, or is dropped by the caller, each entry point acquires the
    process-wide lease before it touches the descriptors or starts the run,
    exclusively exactly when output is captured, restores the descriptors before it
    lets go of the lease, and ends with nothing held; the run is started at most
    once, and exactly once when an exit code is returned.  A synchronous call
    inside a tokio context gives its run a thread of its own; an asynchronous run
    stays on the caller's thread, and holds the thread's guard for as long as it
    holds anything else; outside a tokio context, or while another asynchronous run
    has the guard, it does nothing; and a call that is refused the lease touches
    neither the descriptors nor the run. *)
Theorem entry_points_bracketed (ep : entry_point) (options : libdeno_options) :
  bracketed (is_async ep) (captured options) (call ep options) /\
  (is_async ep = true -> ce_in_tokio env = false \/ ce_guard_taken env = true -> (call ep options).2 = []) /\
  (forall e, ce_lease env (captured options) = Err e ->
     (call ep options).2 = [] \/ (call ep options).2 = [GuardTaken; GuardDropped]).
Proof.
  split; [|split].
  - destruct ep as [p|p|c l b|p|c l b|p|c l b|p|c l b|p|c l b]; cbn [call is_async].
    + apply sync_call; [apply exit_code_ok|apply own_output_bracketed].
    + apply sync_call; [apply exit_code_ok|apply own_output_bracketed].
    + apply sync_call; [apply exit_code_ok|]; unfold run_source_with_output.
      destruct (effective_cwd _ _); simpl; [destruct (entry_source_memory _ _ _ _ _)|];
        [apply own_output_bracketed|apply nothing_bracketed..].
    + apply async_map; unfold run_with_output_async.
      destruct check_async_context eqn:Hc; [apply async_call; by rewrite Hc|apply nothing_bracketed].
    + apply async_map; unfold run_source_with_output_async.
      destruct check_async_context eqn:Hc; simpl; [|apply nothing_bracketed].
      destruct (effective_cwd _ _); simpl; [destruct (entry_source_memory _ _ _ _ _)|];
        [apply async_call; by rewrite Hc|apply nothing_bracketed..].
    + apply sync_call; [eauto|apply exit_code_bracketed].
    + apply sync_call; [eauto|]; unfold run_with_source.
      destruct (check_source_preconditions _ _ _ _); simpl; [destruct (entry_source_memory _ _ _ _ _)|];
        [apply exit_code_bracketed|apply nothing_bracketed..].
    + apply sync_call; [apply exit_code_ok|apply reusable_output_bracketed].
    + apply sync_call; [apply exit_code_ok|]; unfold run_with_output_source.
      destruct (check_source_preconditions _ _ _ _); simpl; [destruct (entry_source_memory _ _ _ _ _)|];
        [apply reusable_output_bracketed|apply nothing_bracketed..].
    + apply map_bracketed; [intros r v Hv; apply map_err_ok in Hv; by eapply exit_code_ok|].
      unfold run_with_output_async_observed, check_async_context.
      destruct (ce_in_tokio env) eqn:Ht; simpl; [|apply nothing_bracketed].
      destruct (reject_unusable_cwd _ _ _); [by apply guarded_bracketed|apply nothing_bracketed].
    + apply async_map; unfold run_with_output_source_async.
      destruct check_async_context eqn:Hc; simpl; [|apply nothing_bracketed].
      destruct (reject_unusable_cwd _ _ _) eqn:Hcwd; simpl; [|apply nothing_bracketed].
      destruct (entry_source_memory _ _ _ _ _); [|apply nothing_bracketed].
      unfold run_with_output_async_observed; rewrite Hc; simpl; rewrite Hcwd; apply async_call; by rewrite Hc.
  - intros Ha Hor; destruct (call_events ep options) as [H|(run & H)]; [done|]; rewrite Ha in H.
    destruct H as [Ht H]; destruct Hor as [Hor|Hor]; [congruence|]; rewrite H; by apply guarded_idle.
  - intros e He; destruct (call_events ep options) as [H|(run & H)]; [by left|].
    destruct (is_async ep).
    + destruct H as [_ ->]; by eapply guarded_refused.
    + left; destruct H as [->|(entry & ->)]; [by eapply observed_refused|].
      unfold run_with_exit_code, reject_capture_flags; unfold captured in He.
      destruct (o_capture_stdout options || o_capture_stderr options); [done|]; simpl.
      destruct (reject_unusable_cwd _ _ _); [|done]; unfold with_lease; by rewrite He.
Qed.
End Calls.
